(** * Axon-Demo: the HTML base64-inlining converter (B64/convertToBase64.js)

    A shallow embedding of class [ImageToBase64Converter] and the parts of
    the JavaScript and Node.js libraries it calls.

    Modelling conventions.
    - A JavaScript string is the list of its UTF-16 code units ([jsstring]).
    - A file holds bytes ([list byte]); [readFileSync (p, 'utf8')] decodes
      them and [writeFileSync (p, s, 'utf8')] encodes the string.
    - The file system is an association list from absolute paths to nodes,
      in directory-listing order; paths are POSIX paths, compared literally
      (case sensitive, no symbolic links).  A regular file carries a
      readable and a writable flag, so that the I/O errors the script
      catches (ENOENT, EISDIR, EACCES, ENOTDIR) can really occur.
    - [console] output is not modelled; the three early returns of [run]
      are reflected in its [Outcome].
    - Exceptions are values of [result]; a call that can throw after it
      has changed the file system ([copyFileSync]) returns the disk it
      leaves together with the exception.  [this.errors] and
      [this.processedFiles] are fields of the [Converter] record, which is
      threaded through the methods together with the file system. *)

From Stdlib.Strings Require Import String Ascii Byte.
From Stdlib Require Import List NArith ZArith Bool Arith Lia.
Import ListNotations.

Set Implicit Arguments.

(* ------------------------------------------------------------------ *)
(** ** JavaScript strings *)

Definition jschar := N.
Definition jsstring := list jschar.

(** An ASCII literal as a JavaScript string. *)
Definition lit (s : string) : jsstring :=
  map N_of_ascii (list_ascii_of_string s).
Arguments lit s%_string.

Definition dquote : jschar := 34%N.
Definition squote : jschar := 39%N.
Definition slash : jschar := 47%N.
Definition dot : jschar := 46%N.
Definition gt : jschar := 62%N.

Fixpoint streq (a b : jsstring) : bool :=
  match a, b with
  | [], [] => true
  | c :: a', d :: b' => (c =? d)%N && streq a' b'
  | _, _ => false
  end.

(** [s.startsWith(p)] *)
Fixpoint startsWith (s p : jsstring) {struct p} : bool :=
  match p, s with
  | [], _ => true
  | c :: p', d :: s' => (d =? c)%N && startsWith s' p'
  | _ :: _, [] => false
  end.

(** [s.endsWith(p)] *)
Definition endsWith (s p : jsstring) : bool := startsWith (rev s) (rev p).

(** [arr.includes(x)] on an array of strings. *)
Definition includes (arr : list jsstring) (x : jsstring) : bool :=
  existsb (streq x) arr.

(** ECMAScript WhiteSpace and LineTerminator code units: the set used by
    [String.prototype.trim] and by the regular expression class [\s]. *)
Definition isWhiteSpace (c : jschar) : bool :=
  existsb (N.eqb c)
    [9; 10; 11; 12; 13; 32; 160; 5760; 8232; 8233; 8239; 8287; 12288; 65279]%N
  || ((8192 <=? c) && (c <=? 8202))%N.

Fixpoint dropWhile (p : jschar -> bool) (s : jsstring) : jsstring :=
  match s with
  | c :: s' => if p c then dropWhile p s' else s
  | [] => []
  end.

Fixpoint takeWhile (p : jschar -> bool) (s : jsstring) : jsstring :=
  match s with
  | c :: s' => if p c then c :: takeWhile p s' else []
  | [] => []
  end.

Definition trimStart (s : jsstring) : jsstring := dropWhile isWhiteSpace s.
Definition trimEnd (s : jsstring) : jsstring := rev (dropWhile isWhiteSpace (rev s)).

(** [s.trim()] *)
Definition trim (s : jsstring) : jsstring := trimEnd (trimStart s).

Definition isUpperAscii (c : jschar) : bool := ((65 <=? c) && (c <=? 90))%N.
Definition isLowerAscii (c : jschar) : bool := ((97 <=? c) && (c <=? 122))%N.

Definition lowerChar (c : jschar) : jschar :=
  if isUpperAscii c then (c + 32)%N else c.
Definition upperChar (c : jschar) : jschar :=
  if isLowerAscii c then (c - 32)%N else c.

(** [s.toLowerCase()], on the ASCII letters.  The script only compares the
    result with the ASCII entries of its extension table; no entry holds a
    letter that is the lower case of a code unit outside ASCII, so the
    comparison is the one JavaScript makes. *)
Definition toLowerCase (s : jsstring) : jsstring := map lowerChar s.

(** [s.replace(p, '')] for a string pattern: the first occurrence of [p]
    is removed. *)
Fixpoint removeFirst (p s : jsstring) : jsstring :=
  if startsWith s p then skipn (length p) s
  else match s with
       | c :: s' => c :: removeFirst p s'
       | [] => []
       end.

(* ------------------------------------------------------------------ *)
(** ** Regular expressions

    The three patterns of [processHtmlFile] are sequences of single
    characters and of greedy, captured repetitions of a character class.
    [rematch] is the backtracking matcher of ECMAScript on that fragment:
    a repetition first takes as many characters as it can and gives them
    back one at a time while the rest of the pattern fails. *)

Inductive renode :=
| Chr (p : jschar -> bool)
| Rep (atLeastOne : bool) (p : jschar -> bool).

Definition regex := list renode.

Fixpoint greedy (A : Type) (p : jschar -> bool) (k : jsstring -> option A)
    (need : bool) (s : jsstring) : option (jsstring * A) :=
  let stop := if need then None else option_map (pair []) (k s) in
  match s with
  | c :: s' =>
      if p c then
        match greedy p k false s' with
        | Some (g, a) => Some (c :: g, a)
        | None => stop
        end
      else stop
  | [] => stop
  end.

(** The captures, in order, and the text after the match. *)
Fixpoint rematch (re : regex) (s : jsstring) : option (list jsstring * jsstring) :=
  match re with
  | [] => Some ([], s)
  | Chr p :: re' =>
      match s with
      | c :: s' => if p c then rematch re' s' else None
      | [] => None
      end
  | Rep one p :: re' =>
      match greedy p (rematch re') one s with
      | Some (g, (caps, rest)) => Some (g :: caps, rest)
      | None => None
      end
  end.

(** A pattern character under the [i] flag (no [u] flag): code units are
    compared after upper-casing, and a code unit outside ASCII never
    matches an ASCII one. *)
Definition ciChar (c : jschar) : jschar -> bool :=
  fun d => (upperChar d =? upperChar c)%N.

Definition ciLit (s : string) : regex :=
  map (fun c => Chr (ciChar c)) (lit s).
Arguments ciLit s%_string.

Definition isQuote (c : jschar) : bool := (c =? dquote)%N || (c =? squote)%N.
Definition notQuote (c : jschar) : bool := negb (isQuote c).
Definition isGt (c : jschar) : bool := (c =? gt)%N.
Definition notGt (c : jschar) : bool := negb (isGt c).

(** The pattern of each pass, under the flags [g] and [i]: the tag's
    opening, any characters but [>] (group 1), one white space, [src=],
    one quote of either kind, one or more characters that are no quote
    (group 2), one quote of either kind, any characters but [>] (group 3)
    and [>]. *)
Definition tagRegex (tag : string) : regex :=
  ciLit "<" ++ ciLit tag
    ++ [Rep false notGt; Chr isWhiteSpace]
    ++ ciLit "src="
    ++ [Chr isQuote; Rep true notQuote; Chr isQuote; Rep false notGt; Chr isGt].
Arguments tagRegex tag%_string.

Definition imgRegex : regex := tagRegex "img".
Definition videoRegex : regex := tagRegex "video".
Definition sourceRegex : regex := tagRegex "source".

(** The arguments the replace callback receives. *)
Record TagMatch := {
  matched : jsstring;
  beforeSrc : jsstring;
  src : jsstring;
  afterSrc : jsstring
}.

(** A match anchored at the head of [s], and the text after it. *)
Definition exec (re : regex) (s : jsstring) : option (TagMatch * jsstring) :=
  match rematch re s with
  | Some ([g1; g2; g3], rest) =>
      Some ({| matched := firstn (length s - length rest) s;
               beforeSrc := g1; src := g2; afterSrc := g3 |}, rest)
  | _ => None
  end.

(** [String.prototype.replace] with a global pattern first collects the
    matches from left to right, each search starting where the previous
    match ended, and then builds the result from the text between the
    matches and the callback's results. *)
Inductive segment :=
| Text (c : jschar)
| Hit (m : TagMatch).

Fixpoint scanFrom (fuel : nat) (re : regex) (s : jsstring) : list segment :=
  match fuel, s with
  | S fuel', c :: s' =>
      match exec re s with
      | Some (m, rest) =>
          if length rest <? length s
          then Hit m :: scanFrom fuel' re rest
          else Hit m :: Text c :: scanFrom fuel' re s'
      | None => Text c :: scanFrom fuel' re s'
      end
  | _, _ => []
  end.

Definition scan (re : regex) (s : jsstring) : list segment :=
  scanFrom (length s) re s.

Fixpoint replaceSegs (St : Type) (cb : St -> TagMatch -> jsstring * St)
    (segs : list segment) (st : St) : jsstring * St :=
  match segs with
  | [] => ([], st)
  | Text c :: r =>
      let (out, st') := replaceSegs cb r st in (c :: out, st')
  | Hit m :: r =>
      let (rep, st1) := cb st m in
      let (out, st2) := replaceSegs cb r st1 in
      (rep ++ out, st2)
  end.

(** [s.replace(re, callback)] *)
Definition replace (St : Type) (re : regex) (cb : St -> TagMatch -> jsstring * St)
    (s : jsstring) (st : St) : jsstring * St :=
  replaceSegs cb (scan re s) st.

(* ------------------------------------------------------------------ *)
(** ** [path]: the POSIX flavour of Node's path module *)

Module path.

Fixpoint splitOn (sep : jschar) (s : jsstring) : list jsstring :=
  match s with
  | [] => [[]]
  | c :: s' =>
      if (c =? sep)%N then [] :: splitOn sep s'
      else match splitOn sep s' with
           | seg :: r => (c :: seg) :: r
           | [] => [[c]]
           end
  end.

Fixpoint joinWith (sep : jsstring) (parts : list jsstring) : jsstring :=
  match parts with
  | [] => []
  | [x] => x
  | x :: r => x ++ sep ++ joinWith sep r
  end.

(** [normalizeString]: empty and [.] segments are dropped, [..] removes
    the segment before it, or is kept when there is none to remove and the
    path is relative.  [res] is the stack of segments kept so far. *)
Fixpoint normalizeSegs (allowAboveRoot : bool) (segs res : list jsstring)
    : list jsstring :=
  match segs with
  | [] => rev res
  | seg :: r =>
      if streq seg [] || streq seg (lit ".") then
        normalizeSegs allowAboveRoot r res
      else if streq seg (lit "..") then
        match res with
        | top :: res' =>
            if streq top (lit "..")
            then normalizeSegs allowAboveRoot r (if allowAboveRoot then seg :: res else res)
            else normalizeSegs allowAboveRoot r res'
        | [] => normalizeSegs allowAboveRoot r (if allowAboveRoot then [seg] else [])
        end
      else normalizeSegs allowAboveRoot r (seg :: res)
  end.

Definition normalize (p : jsstring) : jsstring :=
  match p with
  | [] => lit "."
  | _ =>
      let isAbsolute := startsWith p (lit "/") in
      let trailingSeparator := endsWith p (lit "/") in
      let body :=
        joinWith (lit "/") (normalizeSegs (negb isAbsolute) (splitOn slash p) []) in
      match body with
      | [] => if isAbsolute then lit "/"
              else if trailingSeparator then lit "./" else lit "."
      | _ => (if isAbsolute then lit "/" else [])
               ++ body ++ (if trailingSeparator then lit "/" else [])
      end
  end.

Definition nonEmpty (s : jsstring) : bool := negb (streq s []).

(** [path.join(...args)] *)
Definition join (args : list jsstring) : jsstring :=
  match filter nonEmpty args with
  | [] => lit "."
  | parts => normalize (joinWith (lit "/") parts)
  end.

Definition isSlash (c : jschar) : bool := (c =? slash)%N.
Definition notSlash (c : jschar) : bool := negb (isSlash c).
Definition notDot (c : jschar) : bool := negb (c =? dot)%N.

(** [path.basename(p)]: trailing separators are ignored. *)
Definition basename (p : jsstring) : jsstring :=
  rev (takeWhile notSlash (dropWhile isSlash (rev p))).

(** [path.extname(p)]: from the last dot of the base name, unless that
    dot is its first character or the base name is [..]. *)
Definition extname (p : jsstring) : jsstring :=
  let base := basename p in
  let afterDot := takeWhile notDot (rev base) in
  match dropWhile notDot (rev base) with
  | [] => []
  | _ :: [] => []
  | _ :: _ :: _ =>
      if streq base (lit "..") then [] else dot :: rev afterDot
  end.

End path.

(* ------------------------------------------------------------------ *)
(** ** Buffers: UTF-8 and base64 *)

Definition inRange (lo hi b : N) : bool := ((lo <=? b) && (b <=? hi))%N.

Definition replacementChar : N := 65533%N.

(** The UTF-8 decoder of [buffer.toString('utf8')], to code points: an
    ill-formed sequence gives U+FFFD and decoding resumes at the byte that
    broke it. *)
Fixpoint utf8CodePoints (bs : list N) : list N :=
  match bs with
  | [] => []
  | b0 :: r0 =>
      if (b0 <? 128)%N then b0 :: utf8CodePoints r0
      else if inRange 194 223 b0 then
        match r0 with
        | b1 :: r1 =>
            if inRange 128 191 b1
            then N.lor (N.shiftl (N.land b0 31) 6) (N.land b1 63) :: utf8CodePoints r1
            else replacementChar :: utf8CodePoints r0
        | [] => [replacementChar]
        end
      else if inRange 224 239 b0 then
        let lo := if (b0 =? 224)%N then 160%N else 128%N in
        let hi := if (b0 =? 237)%N then 159%N else 191%N in
        match r0 with
        | b1 :: r1 =>
            if inRange lo hi b1 then
              match r1 with
              | b2 :: r2 =>
                  if inRange 128 191 b2
                  then N.lor (N.shiftl (N.land b0 15) 12)
                         (N.lor (N.shiftl (N.land b1 63) 6) (N.land b2 63))
                       :: utf8CodePoints r2
                  else replacementChar :: utf8CodePoints r1
              | [] => [replacementChar]
              end
            else replacementChar :: utf8CodePoints r0
        | [] => [replacementChar]
        end
      else if inRange 240 244 b0 then
        let lo := if (b0 =? 240)%N then 144%N else 128%N in
        let hi := if (b0 =? 244)%N then 143%N else 191%N in
        match r0 with
        | b1 :: r1 =>
            if inRange lo hi b1 then
              match r1 with
              | b2 :: r2 =>
                  if inRange 128 191 b2 then
                    match r2 with
                    | b3 :: r3 =>
                        if inRange 128 191 b3
                        then N.lor (N.shiftl (N.land b0 7) 18)
                               (N.lor (N.shiftl (N.land b1 63) 12)
                                  (N.lor (N.shiftl (N.land b2 63) 6) (N.land b3 63)))
                             :: utf8CodePoints r3
                        else replacementChar :: utf8CodePoints r2
                    | [] => [replacementChar]
                    end
                  else replacementChar :: utf8CodePoints r1
              | [] => [replacementChar]
              end
            else replacementChar :: utf8CodePoints r0
        | [] => [replacementChar]
        end
      else replacementChar :: utf8CodePoints r0
  end.

(** A code point as UTF-16 code units. *)
Definition utf16Units (cp : N) : jsstring :=
  if (cp <? 65536)%N then [cp]
  else [(55296 + N.shiftr (cp - 65536) 10)%N; (56320 + N.land (cp - 65536) 1023)%N].

Definition utf8Decode (bs : list byte) : jsstring :=
  flat_map utf16Units (utf8CodePoints (map Byte.to_N bs)).

(** The code points of a string: a surrogate pair is one code point, a
    lone surrogate is replaced by U+FFFD, as [Buffer.from(s, 'utf8')]
    does. *)
Fixpoint codePoints (s : jsstring) : list N :=
  match s with
  | [] => []
  | c :: s' =>
      if inRange 55296 56319 c then
        match s' with
        | d :: s'' =>
            if inRange 56320 57343 d
            then (65536 + N.shiftl (c - 55296) 10 + (d - 56320))%N :: codePoints s''
            else replacementChar :: codePoints s'
        | [] => [replacementChar]
        end
      else if inRange 56320 57343 c then replacementChar :: codePoints s'
      else c :: codePoints s'
  end.

Definition toByte (n : N) : byte :=
  match Byte.of_N (n mod 256) with
  | Some b => b
  | None => x00
  end.

Definition utf8Bytes (cp : N) : list byte :=
  if (cp <? 128)%N then [toByte cp]
  else if (cp <? 2048)%N then
    [toByte (192 + N.shiftr cp 6); toByte (128 + N.land cp 63)]
  else if (cp <? 65536)%N then
    [toByte (224 + N.shiftr cp 12); toByte (128 + N.land (N.shiftr cp 6) 63);
     toByte (128 + N.land cp 63)]
  else
    [toByte (240 + N.shiftr cp 18); toByte (128 + N.land (N.shiftr cp 12) 63);
     toByte (128 + N.land (N.shiftr cp 6) 63); toByte (128 + N.land cp 63)].

Definition utf8Encode (s : jsstring) : list byte :=
  flat_map utf8Bytes (codePoints s).

Definition base64Alphabet : jsstring :=
  lit "ABCDEFGHIJKLMNOPQRSTUVWXYZabcdefghijklmnopqrstuvwxyz0123456789+/".

Definition base64Pad : jschar := 61%N.

Definition base64Digit (n : N) : jschar :=
  nth (N.to_nat (N.land n 63)) base64Alphabet base64Pad.

(** [buffer.toString('base64')]: three bytes give four digits, the last
    group is padded with [=]; there are no line breaks. *)
Fixpoint base64 (bs : list byte) : jsstring :=
  match bs with
  | [] => []
  | [a] =>
      let n := N.shiftl (Byte.to_N a) 16 in
      [base64Digit (N.shiftr n 18); base64Digit (N.shiftr n 12);
       base64Pad; base64Pad]
  | [a; b] =>
      let n := N.lor (N.shiftl (Byte.to_N a) 16) (N.shiftl (Byte.to_N b) 8) in
      [base64Digit (N.shiftr n 18); base64Digit (N.shiftr n 12);
       base64Digit (N.shiftr n 6); base64Pad]
  | a :: b :: c :: r =>
      let n := N.lor (N.shiftl (Byte.to_N a) 16)
                 (N.lor (N.shiftl (Byte.to_N b) 8) (Byte.to_N c)) in
      base64Digit (N.shiftr n 18) :: base64Digit (N.shiftr n 12)
        :: base64Digit (N.shiftr n 6) :: base64Digit n :: base64 r
  end.

(* ------------------------------------------------------------------ *)
(** ** [fs]: the synchronous file-system calls of the script *)

Inductive Errno := ENOENT | EISDIR | EACCES | ENOTDIR.

Inductive result (A : Type) :=
| Ok (a : A)
| Throw (e : Errno).
Arguments Ok {A} a.
Arguments Throw {A} e.

Inductive Node :=
| File (data : list byte) (readable writable : bool)
| Dir.

(** Paths and their nodes, in directory-listing order; the first entry
    for a path is the one the calls see.  A node is found under the
    spelling of its path that the disk lists: the calls resolve neither a
    trailing separator nor links. *)
Definition Disk := list (jsstring * Node).

(** What [fs.copyFileSync] leaves: the disk after the copy, or the
    exception and the disk as the failed call leaves it. *)
Inductive Copy :=
| Copied (d : Disk)
| CopyThrow (e : Errno) (d : Disk).

Module fs.

Fixpoint lookup (d : Disk) (p : jsstring) : option Node :=
  match d with
  | [] => None
  | (q, n) :: d' => if streq q p then Some n else lookup d' p
  end.

(** The node at [p] becomes [n]; a new path is listed last. *)
Fixpoint store (d : Disk) (p : jsstring) (n : Node) : Disk :=
  match d with
  | [] => [(p, n)]
  | (q, m) :: d' => if streq q p then (q, n) :: d' else (q, m) :: store d' p n
  end.

Definition existsSync (d : Disk) (p : jsstring) : bool :=
  match lookup d p with
  | Some _ => true
  | None => false
  end.

(** [fs.readFileSync(p)]: the bytes of a readable regular file. *)
Definition readFileSync (d : Disk) (p : jsstring) : result (list byte) :=
  match lookup d p with
  | None => Throw ENOENT
  | Some Dir => Throw EISDIR
  | Some (File data r _) => if r then Ok data else Throw EACCES
  end.

(** [fs.readFileSync(p, 'utf8')] *)
Definition readFileSyncUtf8 (d : Disk) (p : jsstring) : result jsstring :=
  match readFileSync d p with
  | Ok data => Ok (utf8Decode data)
  | Throw e => Throw e
  end.

(** [fs.writeFileSync(p, s, 'utf8')]: an existing file keeps its mode. *)
Definition writeFileSync (d : Disk) (p : jsstring) (s : jsstring) : result Disk :=
  match lookup d p with
  | None => Ok (store d p (File (utf8Encode s) true true))
  | Some Dir => Throw EISDIR
  | Some (File _ r w) =>
      if w then Ok (store d p (File (utf8Encode s) r w)) else Throw EACCES
  end.

(** The entries for [p] are removed: what [unlink] does to a file. *)
Definition unlink (d : Disk) (p : jsstring) : Disk :=
  filter (fun e => negb (streq (fst e) p)) d.

(** [fs.copyFileSync(from, to)]: the source is opened for reading, then
    the destination is opened for writing (created when there is none)
    and truncated, and the bytes and the mode of the source are copied.
    A directory can be opened as the source but not be read: the copy then
    fails with the destination already open, and the destination is
    removed before the exception is thrown. *)
Definition copyFileSync (d : Disk) (from to : jsstring) : Copy :=
  match lookup d from with
  | None => CopyThrow ENOENT d
  | Some Dir =>
      match lookup d to with
      | None => CopyThrow EISDIR d
      | Some Dir => CopyThrow EISDIR d
      | Some (File _ _ w') =>
          if w' then CopyThrow EISDIR (unlink d to) else CopyThrow EACCES d
      end
  | Some (File data r w) =>
      if r then
        match lookup d to with
        | None => Copied (store d to (File data r w))
        | Some Dir => CopyThrow EISDIR d
        | Some (File _ _ w') =>
            if w' then Copied (store d to (File data r w)) else CopyThrow EACCES d
        end
      else CopyThrow EACCES d
  end.

(** The name of [p] inside directory [dir], when [p] lies directly in it. *)
Definition childName (dir p : jsstring) : option jsstring :=
  let prefix := if endsWith dir (lit "/") then dir else dir ++ lit "/" in
  if startsWith p prefix then
    let name := skipn (length prefix) p in
    if negb (streq name []) && negb (existsb path.isSlash name)
    then Some name else None
  else None.

Fixpoint children (dir : jsstring) (d : Disk) : list jsstring :=
  match d with
  | [] => []
  | (p, _) :: d' =>
      match childName dir p with
      | Some name => name :: children dir d'
      | None => children dir d'
      end
  end.

(** [fs.readdirSync(dir)] *)
Definition readdirSync (d : Disk) (dir : jsstring) : result (list jsstring) :=
  match lookup d dir with
  | None => Throw ENOENT
  | Some (File _ _ _) => Throw ENOTDIR
  | Some Dir => Ok (children dir d)
  end.

(** [fs.statSync(p).isFile()] *)
Definition statIsFile (d : Disk) (p : jsstring) : result bool :=
  match lookup d p with
  | None => Throw ENOENT
  | Some (File _ _ _) => Ok true
  | Some Dir => Ok false
  end.

End fs.

(* ------------------------------------------------------------------ *)
(** ** class ImageToBase64Converter *)

Record Converter := {
  htmlDir : jsstring;
  assetsDir : jsstring;
  supportedExtensions : list jsstring;
  processedFiles : list jsstring;
  errors : list (jsstring * Errno)
}.

(** [constructor()], with [__dirname] as an argument. *)
Definition newConverter (dirname : jsstring) : Converter :=
  {| htmlDir := dirname;
     assetsDir := path.join [dirname; lit ".."; lit "assets"];
     supportedExtensions :=
       [lit ".gif"; lit ".webp"; lit ".png"; lit ".jpg"; lit ".jpeg";
        lit ".svg"; lit ".bmp"; lit ".mp4"];
     processedFiles := [];
     errors := [] |}.

(** [this.errors.push(...)] *)
Definition pushError (c : Converter) (p : jsstring) (e : Errno) : Converter :=
  {| htmlDir := htmlDir c; assetsDir := assetsDir c;
     supportedExtensions := supportedExtensions c;
     processedFiles := processedFiles c;
     errors := errors c ++ [(p, e)] |}.

(** [this.processedFiles.push(...)] *)
Definition pushProcessed (c : Converter) (p : jsstring) : Converter :=
  {| htmlDir := htmlDir c; assetsDir := assetsDir c;
     supportedExtensions := supportedExtensions c;
     processedFiles := processedFiles c ++ [p];
     errors := errors c |}.

(** The [switch (ext)] of [imageToBase64]. *)
Definition mimeType (ext : jsstring) : jsstring :=
  if streq ext (lit ".gif") then lit "image/gif"
  else if streq ext (lit ".webp") then lit "image/webp"
  else if streq ext (lit ".png") then lit "image/png"
  else if streq ext (lit ".jpg") || streq ext (lit ".jpeg") then lit "image/jpeg"
  else if streq ext (lit ".svg") then lit "image/svg+xml"
  else if streq ext (lit ".bmp") then lit "image/bmp"
  else if streq ext (lit ".mp4") then lit "video/mp4"
  else lit "image/png".

Definition dataUri (mime payload : jsstring) : jsstring :=
  lit "data:" ++ mime ++ lit ";base64," ++ payload.

(** [imageToBase64(imagePath)]: the data URI or [null]. *)
Definition imageToBase64 (c : Converter) (d : Disk) (imagePath : jsstring)
    : option jsstring * Converter :=
  if negb (fs.existsSync d imagePath) then (None, c)
  else
    match fs.readFileSync d imagePath with
    | Ok imageBuffer =>
        let ext := toLowerCase (path.extname imagePath) in
        (Some (dataUri (mimeType ext) (base64 imageBuffer)), c)
    | Throw e => (None, pushError c imagePath e)
    end.

(** [resolveImagePath(src)] *)
Definition resolveImagePath (c : Converter) (src0 : jsstring) : jsstring :=
  let src := trim src0 in
  if startsWith src (lit "./assets/") then
    path.join [assetsDir c; removeFirst (lit "./assets/") src]
  else if startsWith src (lit "../assets/") then
    path.join [assetsDir c; removeFirst (lit "../assets/") src]
  else if startsWith src (lit "assets/") then
    path.join [assetsDir c; removeFirst (lit "assets/") src]
  else
    let filename := path.basename src in
    path.join [assetsDir c; filename].

(** The tag the callback builds around a data URI. *)
Definition newTag (tag : string) (before uri after : jsstring) : jsstring :=
  lit "<" ++ lit tag ++ before ++ lit " src=" ++ [dquote] ++ uri ++ [dquote]
    ++ after ++ lit ">".
Arguments newTag tag%_string before uri after.

(** The callback of the three [replace] calls; they differ in the tag
    name only.  The state is the converter and the local [modified]. *)
Definition rewriteTag (tag : string) (d : Disk) (st : Converter * bool)
    (m : TagMatch) : jsstring * (Converter * bool) :=
  let (c, modified) := st in
  if startsWith (src m) (lit "data:") then (matched m, st)
  else
    let imagePath := resolveImagePath c (src m) in
    let ext := toLowerCase (path.extname imagePath) in
    if negb (includes (supportedExtensions c) ext) then (matched m, st)
    else
      match imageToBase64 c d imagePath with
      | (Some ((_ :: _) as base64Data), c') =>
          (newTag tag (beforeSrc m) base64Data (afterSrc m), (c', true))
      | (_, c') => (matched m, (c', modified))
      end.
Arguments rewriteTag tag%_string d st m.

(** The three passes of [processHtmlFile] over the text of a file. *)
Definition rewritePasses (d : Disk) (htmlContent : jsstring) (c : Converter)
    : jsstring * (Converter * bool) :=
  let (h1, st1) := replace imgRegex (rewriteTag "img" d) htmlContent (c, false) in
  let (h2, st2) := replace videoRegex (rewriteTag "video" d) h1 st1 in
  replace sourceRegex (rewriteTag "source" d) h2 st2.

Definition backupPath (htmlFilePath : jsstring) : jsstring :=
  htmlFilePath ++ lit ".backup".

(** [processHtmlFile(htmlFilePath)] *)
Definition processHtmlFile (c : Converter) (d : Disk) (htmlFilePath : jsstring)
    : Converter * Disk :=
  match fs.readFileSyncUtf8 d htmlFilePath with
  | Throw e => (pushError c htmlFilePath e, d)
  | Ok htmlContent =>
      let '(newContent, (c1, modified)) := rewritePasses d htmlContent c in
      if modified then
        let backedUp :=
          if negb (fs.existsSync d (backupPath htmlFilePath))
          then fs.copyFileSync d htmlFilePath (backupPath htmlFilePath)
          else Copied d in
        match backedUp with
        | CopyThrow e d1 => (pushError c1 htmlFilePath e, d1)
        | Copied d1 =>
            match fs.writeFileSync d1 htmlFilePath newContent with
            | Throw e => (pushError c1 htmlFilePath e, d1)
            | Ok d2 => (pushProcessed c1 htmlFilePath, d2)
            end
        end
      else (c1, d)
  end.

(** [paths.filter(p => fs.statSync(p).isFile())]; the first exception
    ends the filter. *)
Fixpoint filterIsFile (d : Disk) (ps : list jsstring) : result (list jsstring) :=
  match ps with
  | [] => Ok []
  | p :: ps' =>
      match fs.statIsFile d p with
      | Throw e => Throw e
      | Ok b =>
          match filterIsFile d ps' with
          | Throw e => Throw e
          | Ok r => Ok (if b then p :: r else r)
          end
      end
  end.

Definition isHtmlName (file : jsstring) : bool := endsWith file (lit ".html").

(** [findHtmlFiles()] *)
Definition findHtmlFiles (c : Converter) (d : Disk) : list jsstring :=
  match fs.readdirSync d (htmlDir c) with
  | Throw _ => []
  | Ok files =>
      match filterIsFile d
              (map (fun file => path.join [htmlDir c; file]) (filter isHtmlName files)) with
      | Throw _ => []
      | Ok r => r
      end
  end.

Definition isSupportedName (c : Converter) (file : jsstring) : bool :=
  includes (supportedExtensions c) (toLowerCase (path.extname file)).

(** [listAvailableImages()]; [statSync] is called on every listed asset
    for its size, and an exception there empties the result. *)
Definition listAvailableImages (c : Converter) (d : Disk) : list jsstring :=
  match fs.readdirSync d (assetsDir c) with
  | Throw _ => []
  | Ok files =>
      let imageFiles := filter (isSupportedName c) files in
      if forallb (fun file => fs.existsSync d (path.join [assetsDir c; file])) imageFiles
      then imageFiles else []
  end.

Inductive Outcome :=
| NoAssetsDir
| NoAssets
| NoHtmlFiles
| Completed.

(** [htmlFiles.forEach(htmlFile => this.processHtmlFile(htmlFile))] *)
Fixpoint processAll (c : Converter) (d : Disk) (htmlFiles : list jsstring)
    : Converter * Disk :=
  match htmlFiles with
  | [] => (c, d)
  | htmlFile :: r =>
      let (c', d') := processHtmlFile c d htmlFile in processAll c' d' r
  end.

(** [run()] *)
Definition run (c : Converter) (d : Disk) : Outcome * (Converter * Disk) :=
  if negb (fs.existsSync d (assetsDir c)) then (NoAssetsDir, (c, d))
  else
    match listAvailableImages c d with
    | [] => (NoAssets, (c, d))
    | _ :: _ =>
        match findHtmlFiles c d with
        | [] => (NoHtmlFiles, (c, d))
        | htmlFiles => (Completed, processAll c d htmlFiles)
        end
    end.

(** One step of the loop of [restore]: the count and the disk. *)
Definition restoreFile (st : nat * Disk) (htmlFile : jsstring) : nat * Disk :=
  let (restoredCount, d) := st in
  if fs.existsSync d (backupPath htmlFile) then
    match fs.copyFileSync d (backupPath htmlFile) htmlFile with
    | Copied d' => (S restoredCount, d')
    | CopyThrow _ d' => (restoredCount, d')
    end
  else (restoredCount, d).

(** [restore()]: the number of files restored and the disk. *)
Definition restore (c : Converter) (d : Disk) : nat * Disk :=
  fold_left restoreFile (findHtmlFiles c d) (0, d).

(* ------------------------------------------------------------------ *)
(** ** The command line of the script *)

Inductive Command :=
| RestoreCommand
| HelpCommand
| ConvertCommand.

(** The choice made on [process.argv.slice(2)]. *)
Definition command (args : list jsstring) : Command :=
  if includes args (lit "--restore") || includes args (lit "-r") then RestoreCommand
  else if includes args (lit "--help") || includes args (lit "-h") then HelpCommand
  else ConvertCommand.

(** The script run as the main module, with [__dirname] and
    [process.argv]: the disk it leaves. *)
Definition main (dirname : jsstring) (argv : list jsstring) (d : Disk) : Disk :=
  let converter := newConverter dirname in
  let args := skipn 2 argv in
  match command args with
  | RestoreCommand => snd (restore converter d)
  | HelpCommand => d
  | ConvertCommand => snd (snd (run converter d))
  end.

(* ------------------------------------------------------------------ *)
(** ** The page script: the dropdown and the buttons

    The inline style of the menu, the two class flags the handlers
    toggle, and the number of timers that [closeDropdown] has started and
    that have not fired yet.  [scrollHeight] is the decimal text of
    [dropdown.scrollHeight]. *)

Record Dropdown := {
  display : jsstring;
  maxHeight : jsstring;
  opacity : jsstring;
  arrowRotated : bool;
  buttonOpen : bool;
  pendingTimers : nat
}.

(** [openDropdown()] *)
Definition openDropdown (scrollHeight : jsstring) (s : Dropdown) : Dropdown :=
  {| display := lit "block";
     maxHeight := scrollHeight ++ lit "px";
     opacity := lit "1";
     arrowRotated := true;
     buttonOpen := true;
     pendingTimers := pendingTimers s |}.

(** [closeDropdown()]; the menu is hidden by a timer. *)
Definition closeDropdown (s : Dropdown) : Dropdown :=
  {| display := display s;
     maxHeight := lit "0";
     opacity := lit "0";
     arrowRotated := false;
     buttonOpen := false;
     pendingTimers := S (pendingTimers s) |}.

Definition isOpen (s : Dropdown) : bool := streq (display s) (lit "block").

(** The click listener of the button; the event does not reach the
    document. *)
Definition onButtonClick (scrollHeight : jsstring) (s : Dropdown) : Dropdown :=
  if isOpen s then closeDropdown s else openDropdown scrollHeight s.

(** The click listener of the document. *)
Definition onDocumentClick (s : Dropdown) : Dropdown :=
  if isOpen s then closeDropdown s else s.

Inductive PageEvent :=
| ButtonClick
| DocumentClick
| TimerFires.

(** The callback of a timer: [dropdown.style.display = 'none']. *)
Definition timerFires (s : Dropdown) : Dropdown :=
  match pendingTimers s with
  | 0 => s
  | S n =>
      {| display := lit "none";
         maxHeight := maxHeight s;
         opacity := opacity s;
         arrowRotated := arrowRotated s;
         buttonOpen := buttonOpen s;
         pendingTimers := n |}
  end.

(** One event of the page; a timer fires only when one is pending. *)
Definition pageStep (scrollHeight : jsstring) (s : Dropdown) (e : PageEvent)
    : Dropdown :=
  match e with
  | ButtonClick => onButtonClick scrollHeight s
  | DocumentClick => onDocumentClick s
  | TimerFires => timerFires s
  end.

Definition pageRun (scrollHeight : jsstring) (s : Dropdown) (es : list PageEvent)
    : Dropdown :=
  fold_left (pageStep scrollHeight) es s.

(** The buttons of [.buttons-container]: which ones carry the class
    [active]. *)
Fixpoint addActive (i : nat) (buttons : list bool) : list bool :=
  match buttons, i with
  | [], _ => []
  | _ :: r, 0 => true :: r
  | b :: r, S j => b :: addActive j r
  end.

(** The click listener of the button at index [i]: the class is removed
    from every button and added to the one clicked. *)
Definition onSelectClick (i : nat) (buttons : list bool) : list bool :=
  addActive i (map (fun _ => false) buttons).

(* ------------------------------------------------------------------ *)
(** ** Vocabulary of the statements *)

(** What a pattern matches: the matched text and its captures. *)
Inductive Matches : regex -> jsstring -> list jsstring -> Prop :=
| MatchesNil : Matches [] [] []
| MatchesChr p re c txt caps :
    p c = true -> Matches re txt caps ->
    Matches (Chr p :: re) (c :: txt) caps
| MatchesRep one p re g txt caps :
    forallb p g = true -> (one = true -> g <> []) -> Matches re txt caps ->
    Matches (Rep one p :: re) (g ++ txt) (g :: caps).

(** Equality of two strings up to the case of their ASCII letters. *)
Definition ciEq (a b : jsstring) : Prop := map upperChar a = map upperChar b.

(** The text of a tag with a src attribute: its opening, the attributes
    before [src], one white space, the attribute name and [=], a quote,
    the value, a quote, the attributes after it and [>]. *)
Definition tagText (opening before : jsstring) (w : jschar) (attr : jsstring)
    (q1 : jschar) (value : jsstring) (q2 : jschar) (after : jsstring) : jsstring :=
  opening ++ before ++ [w] ++ attr ++ [q1] ++ value ++ [q2] ++ after ++ [gt].

Inductive TagShape (tag : string) (m : TagMatch) : Prop :=
| TagShapeIntro opening w attr q1 q2 :
    matched m = tagText opening (beforeSrc m) w attr q1 (src m) q2 (afterSrc m) ->
    ciEq opening (lit "<" ++ lit tag) ->
    isWhiteSpace w = true ->
    ciEq attr (lit "src=") ->
    isQuote q1 = true ->
    isQuote q2 = true ->
    src m <> [] ->
    forallb notQuote (src m) = true ->
    forallb notGt (beforeSrc m) = true ->
    forallb notGt (afterSrc m) = true ->
    TagShape tag m.
Arguments TagShape tag%_string m.

(** The text a segment of a scan stands for. *)
Definition segText (g : segment) : jsstring :=
  match g with
  | Text c => [c]
  | Hit m => matched m
  end.

Fixpoint hits (segs : list segment) : list TagMatch :=
  match segs with
  | [] => []
  | Text _ :: r => hits r
  | Hit m :: r => m :: hits r
  end.

(** A file name: not empty, without a separator, and neither [.] nor
    [..]. *)
Definition isFileName (n : jsstring) : bool :=
  negb (streq n []) && forallb path.notSlash n
  && negb (streq n (lit ".")) && negb (streq n (lit "..")).

(** A segment kept by the normalisation of a path: not empty and without
    a separator. *)
Definition properSegment (seg : jsstring) : Prop :=
  seg <> [] /\ forallb path.notSlash seg = true.

(** The MIME type of each supported extension. *)
Definition mimeTable : list (jsstring * jsstring) :=
  [ (lit ".gif", lit "image/gif"); (lit ".webp", lit "image/webp");
    (lit ".png", lit "image/png"); (lit ".jpg", lit "image/jpeg");
    (lit ".jpeg", lit "image/jpeg"); (lit ".svg", lit "image/svg+xml");
    (lit ".bmp", lit "image/bmp"); (lit ".mp4", lit "video/mp4") ].


(** A character of a base64 payload: a digit of the alphabet or the
    padding. *)
Definition isBase64Char (ch : jschar) : Prop :=
  In ch base64Alphabet \/ ch = base64Pad.

(** The callback rewrites the tag of [m]: its src is no data URI, the
    resolved path has a supported extension and the file can be read. *)
Definition convertible (c : Converter) (d : Disk) (m : TagMatch) : bool :=
  negb (startsWith (src m) (lit "data:"))
  && includes (supportedExtensions c)
       (toLowerCase (path.extname (resolveImagePath c (src m))))
  && match fs.readFileSync d (resolveImagePath c (src m)) with
     | Ok _ => true
     | Throw _ => false
     end.

(** Two states of the converter with the same directories and table. *)
Definition sameConfig (c c' : Converter) : Prop :=
  htmlDir c' = htmlDir c /\ assetsDir c' = assetsDir c
  /\ supportedExtensions c' = supportedExtensions c.

(** The converter changed in its list of errors only. *)
Definition onlyErrors (c c' : Converter) : Prop :=
  sameConfig c c' /\ processedFiles c' = processedFiles c.

(** A piece of a file's text before and after a pass: kept as it is, or
    a tag rebuilt around the data URI of its asset.  The rebuilt tag has
    the captured attributes before and after [src] as they were, the
    opening in lower case, one space, the name [src] and double quotes. *)
Inductive Piece (tag : string) (c : Converter) (d : Disk)
    : jsstring * jsstring -> Prop :=
| PieceKept t : Piece tag c d (t, t)
| PieceRewritten opening before w attr q1 value q2 after data :
    ciEq opening (lit "<" ++ lit tag) ->
    isWhiteSpace w = true ->
    ciEq attr (lit "src=") ->
    isQuote q1 = true ->
    isQuote q2 = true ->
    fs.readFileSync d (resolveImagePath c value) = Ok data ->
    Piece tag c d
      (tagText opening before w attr q1 value q2 after,
       tagText (lit "<" ++ lit tag) before 32%N (lit "src=") dquote
         (dataUri (mimeType (toLowerCase (path.extname (resolveImagePath c value))))
            (base64 data))
         dquote after).
Arguments Piece tag%_string c d _.

Definition hasDataSrc (m : TagMatch) : bool := startsWith (src m) (lit "data:").

(** The matches of the three patterns in a text. *)
Definition allHits (s : jsstring) : list TagMatch :=
  hits (scan imgRegex s) ++ hits (scan videoRegex s) ++ hits (scan sourceRegex s).

(** Every tag the three patterns match in [s] has a data URI as src. *)
Definition allData (s : jsstring) : bool := forallb hasDataSrc (allHits s).

(** No tag the three patterns match in [s] can be rewritten. *)
Definition noneConvertible (c : Converter) (d : Disk) (s : jsstring) : bool :=
  forallb (fun m => negb (convertible c d m)) (allHits s).

(** Processing [h] finds nothing to rewrite: it cannot be read, or none
    of its tags can be rewritten. *)
Definition nothingToDo (c : Converter) (d : Disk) (h : jsstring) : bool :=
  match fs.readFileSyncUtf8 d h with
  | Ok content => noneConvertible c d content
  | Throw _ => true
  end.

(** The start of a src attribute: a white space, the name, [=] and a
    quote. *)
Definition srcAttrOpen : regex :=
  [Chr isWhiteSpace] ++ ciLit "src=" ++ [Chr isQuote].

(** Every src attribute of the text has an empty value: where a src
    attribute opens, the next character closes it. *)
Fixpoint srcValuesEmpty (s : jsstring) : bool :=
  match s with
  | [] => true
  | _ :: s' =>
      match rematch srcAttrOpen s with
      | Some (_, v :: _) => isQuote v
      | _ => true
      end && srcValuesEmpty s'
  end.

(** The first quote of a text comes before its first [>]. *)
Fixpoint quoteFirst (s : jsstring) : bool :=
  match s with
  | [] => true
  | ch :: s' => if isQuote ch then true else if isGt ch then false else quoteFirst s'
  end.

(** No src attribute of the text holds a [>]: where a src attribute
    opens (a white space, [src=] and a quote), a quote follows before the
    next [>]. *)
Fixpoint srcValuesClosed (s : jsstring) : bool :=
  match s with
  | [] => true
  | _ :: s' =>
      match rematch srcAttrOpen s with
      | Some (_, rest) => quoteFirst rest
      | None => true
      end && srcValuesClosed s'
  end.

(** The text ends inside the value of a src attribute: a src attribute
    opens in it and no quote follows. *)
Definition openEnded (a : jsstring) : Prop :=
  exists x w attr q1 y,
    a = x ++ w :: attr ++ q1 :: y
    /\ isWhiteSpace w = true /\ ciEq attr (lit "src=") /\ isQuote q1 = true
    /\ forallb notQuote y = true.

(** No text before a [>] ends inside the value of a src attribute. *)
Definition Closed (s : jsstring) : Prop :=
  forall a r, s = a ++ gt :: r -> ~ openEnded a.

(** What a pass writes for a segment of its scan: the character, or what
    the callback returns for the match. *)
Definition segOut (tag : string) (c : Converter) (d : Disk) (g : segment) : jsstring :=
  match g with
  | Text ch => [ch]
  | Hit m => fst (rewriteTag tag d (c, false) m)
  end.
Arguments segOut tag%_string c d g.

(** The text a pass returns. *)
Definition passOut (tag : string) (c : Converter) (d : Disk) (s : jsstring) : jsstring :=
  flat_map (segOut tag c d) (scan (tagRegex tag) s).
Arguments passOut tag%_string c d s.

(** A code unit that is no surrogate. *)
Definition notSurrogate (ch : jschar) : bool :=
  negb (inRange 55296 57343 ch) && (ch <? 65536)%N.

(** A text of 16-bit code units whose surrogates come in pairs: such a
    text is read back as it was written. *)
Fixpoint wellFormedUtf16 (s : jsstring) : bool :=
  match s with
  | [] => true
  | c :: s' =>
      if inRange 55296 56319 c then
        match s' with
        | d :: s'' => inRange 56320 57343 d && wellFormedUtf16 s''
        | [] => false
        end
      else notSurrogate c && wellFormedUtf16 s'
  end.

(** Two disks hold the same at every path with a supported extension. *)
Definition sameAssets (c : Converter) (x y : Disk) : Prop :=
  forall p, isSupportedName c p = true -> fs.lookup x p = fs.lookup y p.

(** No src value of a readable page holds a [>]; the pages are the HTML
    files found on [d], read on [x]. *)
Definition pagesClosed (c : Converter) (d x : Disk) : Prop :=
  forall h data w,
    In h (findHtmlFiles c d) -> fs.lookup x h = Some (File data true w) ->
    Closed (utf8Decode data).

(** Processing [h] leaves the disk as it is: there is nothing to
    rewrite in it, or it is read-only and has its backup. *)
Definition idlePage (c : Converter) (x : Disk) (h : jsstring) : Prop :=
  nothingToDo c x h = true
  \/ exists data, fs.lookup x h = Some (File data true false)
                  /\ fs.lookup x (backupPath h) <> None.

(** What a path holds: nothing, a regular file or a directory. *)
Definition kind (o : option Node) : option bool :=
  match o with
  | None => None
  | Some (File _ _ _) => Some true
  | Some Dir => Some false
  end.

(** One write of the script: a regular file replaces an existing regular
    file, or a new regular file is created under a name that ends with
    [.backup]. *)
Inductive Touch (d : Disk) : Disk -> Prop :=
| TouchFile p n :
    kind (fs.lookup d p) = Some true -> kind (Some n) = Some true ->
    Touch d (fs.store d p n)
| TouchBackup p n :
    fs.lookup d p = None -> endsWith p (lit ".backup") = true ->
    kind (Some n) = Some true ->
    Touch d (fs.store d p n).

Inductive Touches : Disk -> Disk -> Prop :=
| TouchesRefl d : Touches d d
| TouchesStep d d1 d2 : Touch d d1 -> Touches d1 d2 -> Touches d d2.

(** The three passes set [modified] for the file at [h]. *)
Definition fileModified (c : Converter) (d : Disk) (h : jsstring) : bool :=
  match fs.readFileSyncUtf8 d h with
  | Ok content => snd (snd (rewritePasses d content c))
  | Throw _ => false
  end.

(** What [processHtmlFile] does to the disk: nothing; or, the passes
    having modified the text, a backup that did not exist is created as a
    copy of the file and the file is then written (unless it is read-only);
    or the backup exists and only the file is written. *)
Inductive FileEffect (c : Converter) (d : Disk) (h : jsstring) : Disk -> Prop :=
| EffectNone : FileEffect c d h d
| EffectBackupOnly data :
    fileModified c d h = true ->
    fs.lookup d (backupPath h) = None ->
    fs.lookup d h = Some (File data true false) ->
    FileEffect c d h (fs.store d (backupPath h) (File data true false))
| EffectBackupWrite data new :
    fileModified c d h = true ->
    fs.lookup d (backupPath h) = None ->
    fs.lookup d h = Some (File data true true) ->
    FileEffect c d h
      (fs.store (fs.store d (backupPath h) (File data true true)) h
         (File new true true))
| EffectWrite data new n :
    fileModified c d h = true ->
    fs.lookup d (backupPath h) = Some n ->
    fs.lookup d h = Some (File data true true) ->
    FileEffect c d h (fs.store d h (File new true true)).

(** What one step of [restore] does to the disk: nothing; or the file
    becomes a copy of its readable backup; or, the backup being a
    directory, the file that the failed copy had opened is removed. *)
Inductive RestoreEffect (d : Disk) (h : jsstring) : Disk -> Prop :=
| RestoreNone : RestoreEffect d h d
| RestoreCopy data w :
    fs.lookup d (backupPath h) = Some (File data true w) ->
    RestoreEffect d h (fs.store d h (File data true w))
| RestoreUnlink data r :
    fs.lookup d (backupPath h) = Some Dir ->
    fs.lookup d h = Some (File data r true) ->
    RestoreEffect d h (fs.unlink d h).

(** The state of a file and its backup between a conversion and a
    restore, for a file that held [orig] and had no backup before the
    conversion: nothing was done yet, or the backup holds [orig] and the
    file holds [orig] or a converted text. *)
Definition RoundTripInv (h : jsstring) (orig : Node) (d : Disk) : Prop :=
  (fs.lookup d (backupPath h) = None /\ fs.lookup d h = Some orig)
  \/ (fs.lookup d (backupPath h) = Some orig
      /\ (fs.lookup d h = Some orig
          \/ exists data new,
               orig = File data true true
               /\ fs.lookup d h = Some (File new true true))).

(** Restoring [h] would not change the disk: there is no backup, or the
    copy would fail before the file is opened, or the file is the
    backup's copy. *)
Definition Settled (d : Disk) (h : jsstring) : Prop :=
  match fs.lookup d (backupPath h) with
  | Some (File data true w) =>
      match fs.lookup d h with
      | Some (File data' r' true) => File data' r' true = File data true w
      | None => False
      | _ => True
      end
  | Some Dir =>
      match fs.lookup d h with
      | Some (File _ _ true) => False
      | _ => True
      end
  | _ => True
  end.

(* ------------------------------------------------------------------ *)
(** ** A directory for the examples *)

Definition bytesOf (s : string) : list byte := list_byte_of_string s.

(** The converter of a script stored in [/w/B64]. *)
Definition demo : Converter := newConverter (lit "/w/B64").

Definition indexHtml : jsstring := lit "/w/B64/index.html".

(** Two assets, a directory with the name of an asset, and one page with
    the given text. *)
Definition demoDisk (html : jsstring) : Disk :=
  [ (lit "/w", Dir); (lit "/w/B64", Dir); (lit "/w/assets", Dir);
    (lit "/w/assets/a.png", File (bytesOf "AAA") true true);
    (lit "/w/assets/b.png", File (bytesOf "BBB") true true);
    (lit "/w/assets/dir.png", Dir);
    (indexHtml, File (utf8Encode html) true true) ].

(** A page whose only tag has a single-quoted src. *)
Definition singleQuotedPage : jsstring := lit "<img src='a.png'>".

(** A page whose first src value holds a [>]. *)
Definition hiddenSrcPage : jsstring :=
  lit "<img src=" ++ [dquote] ++ lit ">/b.png" ++ [dquote]
    ++ lit " src=" ++ [dquote] ++ lit "a.png" ++ [dquote] ++ lit ">".

(** A page that is already converted. *)
Definition convertedPage : jsstring :=
  lit "<p><img alt='x' src=" ++ [dquote] ++ lit "data:image/png;base64,QUFB"
    ++ [dquote] ++ lit "></p>".

(** A page with tags that cannot be rewritten: an unsupported extension
    and a missing asset. *)
Definition softFailPage : jsstring :=
  lit "<img src='notes.txt'><video src='assets/missing.mp4'>".

(** A page whose src attributes are empty. *)
Definition emptySrcPage : jsstring :=
  lit "<img src=" ++ [dquote; dquote] ++ lit " alt='x'><video src=''></video>".

(** The match of [<video src='assets/missing.mp4'>]. *)
Definition missingVideo : TagMatch :=
  {| matched := lit "<video src='assets/missing.mp4'>";
     beforeSrc := [];
     src := lit "assets/missing.mp4";
     afterSrc := [] |}.

(** A page whose only src attribute is empty, and whose title holds the
    text of a src attribute. *)
Definition emptySrcTitlePage : jsstring :=
  lit "<img src=" ++ [dquote; dquote] ++ lit " title=" ++ [dquote]
    ++ lit "x src='a.png' y" ++ [dquote] ++ lit ">".

(** A tag with an empty src attribute followed by a second src
    attribute. *)
Definition emptyThenSrcPage : jsstring :=
  lit "<img src=" ++ [dquote; dquote] ++ lit " src='a.png'>".

(** An assets directory that does not exist. *)
Definition noAssetsDisk : Disk :=
  [ (lit "/w", Dir); (lit "/w/B64", Dir);
    (indexHtml, File (utf8Encode singleQuotedPage) true true) ].

(** An assets directory that holds no file, only a directory with the
    name of an image; the page refers to an image next to it. *)
Definition onlyDirAssetPage : jsstring := lit "<img src='assets/../B64/pic.png'>".

Definition onlyDirAssetDisk : Disk :=
  [ (lit "/w", Dir); (lit "/w/B64", Dir); (lit "/w/assets", Dir);
    (lit "/w/assets/dir.png", Dir);
    (lit "/w/B64/pic.png", File (bytesOf "AAA") true true);
    (indexHtml, File (utf8Encode onlyDirAssetPage) true true) ].

(** A page converted once before: its backup holds an older text. *)
Definition staleBackupDisk : Disk :=
  demoDisk singleQuotedPage
    ++ [(backupPath indexHtml, File (bytesOf "<p>old</p>") true true)].

(** A page whose backup path is a directory. *)
Definition dirBackupDisk : Disk :=
  demoDisk singleQuotedPage ++ [(backupPath indexHtml, Dir)].

(** Two pages with backups; the backup of the first is a directory, so
    that copying it fails. *)
Definition twoPagesDisk : Disk :=
  [ (lit "/w", Dir); (lit "/w/B64", Dir);
    (lit "/w/B64/a.html", File (bytesOf "A2") true true);
    (lit "/w/B64/a.html.backup", Dir);
    (lit "/w/B64/b.html", File (bytesOf "B2") true true);
    (lit "/w/B64/b.html.backup", File (bytesOf "B1") true true) ].

(** The two scenarios of the specification: a page that refers to a
    ten-byte [logo.png], and a page that refers to a missing video. *)
Definition logoPage : jsstring :=
  lit "<img src=" ++ [dquote] ++ lit "./assets/logo.png" ++ [dquote] ++ lit ">".

Definition missingVideoPage : jsstring :=
  lit "<video src=" ++ [dquote] ++ lit "assets/missing.mp4" ++ [dquote] ++ lit ">".

Definition scenarioDisk (name : string) (html : jsstring) : Disk :=
  [ (lit "/w", Dir); (lit "/w/B64", Dir); (lit "/w/assets", Dir);
    (lit "/w/assets/logo.png", File (bytesOf "0123456789") true true);
    (lit "/w/B64/" ++ lit name, File (utf8Encode html) true true) ].

(** Two pages with a tag to rewrite; the second one is read-only. *)
Definition lockedHtml : jsstring := lit "/w/B64/locked.html".

Definition lockedPage : jsstring := lit "<video src='assets/b.png'></video>".

Definition lockedPageDisk : Disk :=
  [ (lit "/w", Dir); (lit "/w/B64", Dir); (lit "/w/assets", Dir);
    (lit "/w/assets/a.png", File (bytesOf "AAA") true true);
    (lit "/w/assets/b.png", File (bytesOf "BBB") true true);
    (indexHtml, File (utf8Encode singleQuotedPage) true true);
    (lockedHtml, File (utf8Encode lockedPage) true false) ].

(* ------------------------------------------------------------------ *)
(** ** Vocabulary of the further properties *)

(** The report of the converter grew: the same directories and table,
    the files [ps] added to the processed ones, and errors added. *)
Definition extends (c c' : Converter) (ps : list jsstring) : Prop :=
  sameConfig c c'
  /\ processedFiles c' = processedFiles c ++ ps
  /\ exists es, errors c' = errors c ++ es.

(** Restoring [h] copies its backup: the backup can be read and [h]
    can be written. *)
Definition restorable (d : Disk) (h : jsstring) : bool :=
  match fs.copyFileSync d (backupPath h) h with
  | Copied _ => true
  | CopyThrow _ _ => false
  end.

(** The inline style and the classes as [openDropdown] leaves them. *)
Definition styledOpen (scrollHeight : jsstring) (s : Dropdown) : Prop :=
  arrowRotated s = true /\ buttonOpen s = true
  /\ opacity s = lit "1" /\ maxHeight s = scrollHeight ++ lit "px".

(** What holds of the menu after any sequence of events: the arrow and
    the button carry their classes together, a button marked open goes
    with the open style, and a menu that is still displayed although its
    button is not marked open has a timer pending that will hide it. *)
Definition DropdownInv (scrollHeight : jsstring) (s : Dropdown) : Prop :=
  arrowRotated s = buttonOpen s
  /\ (buttonOpen s = true -> styledOpen scrollHeight s)
  /\ (buttonOpen s = false -> isOpen s = true -> 0 < pendingTimers s).

(** The menu when the page is loaded: no inline style, no class, no
    timer. *)
Definition pageLoaded : Dropdown :=
  {| display := []; maxHeight := []; opacity := [];
     arrowRotated := false; buttonOpen := false; pendingTimers := 0 |}.

(** The decoder of base64 (RFC 4648, section 4), to state that the
    payload of a data URI gives back the bytes of the file: the value of a
    digit is its place in the alphabet, four digits give three bytes, and
    padding ends the text. *)
Fixpoint indexOf (ch : jschar) (l : jsstring) (i : N) : N :=
  match l with
  | [] => 0%N
  | x :: r => if (x =? ch)%N then i else indexOf ch r (i + 1)%N
  end.

Definition base64Value (ch : jschar) : N := indexOf ch base64Alphabet 0.

Fixpoint decodeBase64 (s : jsstring) : list byte :=
  match s with
  | c1 :: c2 :: c3 :: c4 :: r =>
      let n := N.lor (N.shiftl (base64Value c1) 18)
                 (N.lor (N.shiftl (base64Value c2) 12)
                    (N.lor (N.shiftl (base64Value c3) 6) (base64Value c4))) in
      if (c3 =? base64Pad)%N then [toByte (N.shiftr n 16)]
      else if (c4 =? base64Pad)%N then [toByte (N.shiftr n 16); toByte (N.shiftr n 8)]
      else toByte (N.shiftr n 16) :: toByte (N.shiftr n 8) :: toByte n
             :: decodeBase64 r
  | _ => []
  end.

(** Well-formed UTF-8 (The Unicode Standard, table 3-7), on the values
    of the bytes: the byte sequences that encode the code points other
    than surrogates, in their shortest form. *)
Fixpoint wellFormedUtf8 (bs : list N) : bool :=
  match bs with
  | [] => true
  | b0 :: r0 =>
      if (b0 <? 128)%N then wellFormedUtf8 r0
      else if inRange 194 223 b0 then
        match r0 with
        | b1 :: r1 => inRange 128 191 b1 && wellFormedUtf8 r1
        | _ => false
        end
      else if inRange 224 239 b0 then
        match r0 with
        | b1 :: b2 :: r2 =>
            inRange (if (b0 =? 224)%N then 160 else 128)
                    (if (b0 =? 237)%N then 159 else 191) b1
            && inRange 128 191 b2 && wellFormedUtf8 r2
        | _ => false
        end
      else if inRange 240 244 b0 then
        match r0 with
        | b1 :: b2 :: b3 :: r3 =>
            inRange (if (b0 =? 240)%N then 144 else 128)
                    (if (b0 =? 244)%N then 143 else 191) b1
            && inRange 128 191 b2 && inRange 128 191 b3 && wellFormedUtf8 r3
        | _ => false
        end
      else false
  end.

(** A Unicode scalar value: a code point that is no surrogate. *)
Definition isScalarValue (cp : N) : bool :=
  ((cp <? 55296) || ((57343 <? cp) && (cp <? 1114112)))%N.

(** A character that neither ends an attribute value or a tag nor
    separates attributes: no quote, no [>] and no white space. *)
Definition plainChar (ch : jschar) : bool :=
  notQuote ch && notGt ch && negb (isWhiteSpace ch).

(* ------------------------------------------------------------------ *)
(** * Properties *)

Unset Implicit Arguments.

(** Appends are nested to the right and applied to the known heads. *)
Ltac flatten_app :=
  repeat (progress (rewrite <- ?app_assoc; cbn [app])).

(** ** Strings *)

Lemma streq_refl (a : jsstring) : streq a a = true.
Proof. induction a; simpl; [reflexivity | now rewrite N.eqb_refl]. Qed.

Lemma streq_eq (a b : jsstring) : streq a b = true -> a = b.
Proof.
  revert b; induction a as [|c a IH]; intros [|d b]; simpl; try discriminate; auto.
  intros H. apply andb_true_iff in H as [H1 H2].
  apply N.eqb_eq in H1. subst d. f_equal. auto.
Qed.

Lemma streq_spec (a b : jsstring) : streq a b = true <-> a = b.
Proof. split; [apply streq_eq | intros ->; apply streq_refl]. Qed.

Lemma streq_neq (a b : jsstring) : a <> b -> streq a b = false.
Proof.
  intros H. destruct (streq a b) eqn:E; [|reflexivity].
  apply streq_eq in E. contradiction.
Qed.

Lemma streq_sym (a b : jsstring) : streq a b = streq b a.
Proof.
  destruct (streq a b) eqn:E.
  - apply streq_eq in E. subst. symmetry. apply streq_refl.
  - symmetry. apply streq_neq. intros ->. rewrite streq_refl in E. discriminate.
Qed.

Lemma startsWith_app (p r : jsstring) : startsWith (p ++ r) p = true.
Proof. induction p; simpl; [reflexivity | now rewrite N.eqb_refl]. Qed.

Lemma startsWith_inv (s p : jsstring) :
  startsWith s p = true -> exists r, s = p ++ r.
Proof.
  revert s; induction p as [|c p IH]; intros s H; simpl in *.
  - now exists s.
  - destruct s as [|d s]; [discriminate|].
    apply andb_true_iff in H as [H1 H2]. apply N.eqb_eq in H1. subst d.
    destruct (IH _ H2) as [r ->]. now exists r.
Qed.

Lemma endsWith_app (r p : jsstring) : endsWith (r ++ p) p = true.
Proof. unfold endsWith. rewrite rev_app_distr. apply startsWith_app. Qed.

Lemma endsWith_inv (s p : jsstring) :
  endsWith s p = true -> exists r, s = r ++ p.
Proof.
  unfold endsWith. intros H. apply startsWith_inv in H as [r H].
  exists (rev r). rewrite <- (rev_involutive s), H, rev_app_distr.
  now rewrite rev_involutive.
Qed.

(** A string cannot end with two suffixes whose last characters differ. *)
Lemma endsWith_last_conflict (s p q : jsstring) (a b : jschar) :
  a <> b -> endsWith s (p ++ [a]) = true -> endsWith s (q ++ [b]) = false.
Proof.
  intros Hab H. destruct (endsWith s (q ++ [b])) eqn:E; [|reflexivity].
  apply endsWith_inv in H as [r1 H1]. apply endsWith_inv in E as [r2 H2].
  rewrite H1 in H2. rewrite !app_assoc in H2.
  apply app_inj_tail in H2 as [_ H2]. contradiction.
Qed.

Lemma html_not_backup (s : jsstring) :
  endsWith s (lit ".html") = true -> endsWith s (lit ".backup") = false.
Proof.
  apply (endsWith_last_conflict s (lit ".htm") (lit ".backu")). discriminate.
Qed.

Lemma dropWhile_app_stop (p : jschar -> bool) (a b : jsstring) (c : jschar) :
  p c = false -> dropWhile p (a ++ c :: b) = dropWhile p a ++ c :: b.
Proof.
  intros Hc. induction a as [|x a IH]; simpl.
  - now rewrite Hc.
  - destruct (p x); auto.
Qed.

Lemma forallb_app_iff (p : jschar -> bool) (a b : jsstring) :
  forallb p (a ++ b) = true <-> forallb p a = true /\ forallb p b = true.
Proof. rewrite forallb_app. apply andb_true_iff. Qed.

Lemma forallb_ext (A : Type) (f g : A -> bool) (l : list A) :
  (forall x, f x = g x) -> forallb f l = forallb g l.
Proof. intros H. induction l as [|x l IH]; simpl; [reflexivity | now rewrite H, IH]. Qed.

(** ** The matcher *)

Lemma greedy_sound (A : Type) (p : jschar -> bool) (k : jsstring -> option A) :
  forall (s : jsstring) (need : bool) (g : jsstring) (a : A),
    greedy p k need s = Some (g, a) ->
    exists r, s = g ++ r /\ forallb p g = true
              /\ (need = true -> g <> []) /\ k r = Some a.
Proof.
  assert (Hstop : forall (s : jsstring) (need : bool) (g : jsstring) (a : A),
             (if need then None else option_map (pair []) (k s)) = Some (g, a) ->
             exists r, s = g ++ r /\ forallb p g = true
                       /\ (need = true -> g <> []) /\ k r = Some a).
  { intros s [|] g a H; [discriminate|].
    destruct (k s) as [a'|] eqn:E; simpl in H; [|discriminate].
    injection H as <- <-. exists s. repeat split; auto. discriminate. }
  induction s as [|c s IH]; intros need g a H; simpl in H.
  - now apply Hstop.
  - destruct (p c) eqn:Hp; [|now apply Hstop].
    destruct (greedy p k false s) as [[g' a']|] eqn:E; [|now apply Hstop].
    injection H as <- <-.
    destruct (IH _ _ _ E) as (r & -> & Hg & _ & Hk).
    exists r. repeat split; auto.
    + simpl. now rewrite Hp.
    + discriminate.
Qed.

Lemma rematch_sound (re : regex) :
  forall (s : jsstring) (caps : list jsstring) (rest : jsstring),
    rematch re s = Some (caps, rest) ->
    exists txt, s = txt ++ rest /\ Matches re txt caps.
Proof.
  induction re as [|[p|one p] re IH]; intros s caps rest H; simpl in H.
  - injection H as <- <-. exists []. split; [reflexivity | constructor].
  - destruct s as [|c s]; [discriminate|].
    destruct (p c) eqn:Hp; [|discriminate].
    destruct (IH _ _ _ H) as (txt & -> & HM).
    exists (c :: txt). split; [reflexivity | now constructor].
  - destruct (greedy p (rematch re) one s) as [[g [caps' rest']]|] eqn:E;
      [|discriminate].
    injection H as <- <-.
    destruct (greedy_sound _ _ _ _ _ _ _ E) as (r & -> & Hg & Hne & Hk).
    destruct (IH _ _ _ Hk) as (txt & -> & HM).
    exists (g ++ txt). split; [now rewrite app_assoc | now constructor].
Qed.

Lemma Matches_app_chars (ps : jsstring) (re : regex) (txt : jsstring)
    (caps : list jsstring) :
  Matches (map (fun c => Chr (ciChar c)) ps ++ re) txt caps ->
  exists a t, txt = a ++ t /\ ciEq a ps /\ Matches re t caps.
Proof.
  revert txt; induction ps as [|c ps IH]; intros txt H; simpl in H.
  - exists [], txt. repeat split; auto.
  - inversion H as [|p re' d txt' caps' Hd HM|]; subst.
    destruct (IH _ HM) as (a & t & -> & Ha & Ht).
    exists (d :: a), t. repeat split; auto.
    unfold ciEq in *. simpl. unfold ciChar in Hd. apply N.eqb_eq in Hd.
    now rewrite Hd, Ha.
Qed.

Lemma ciEq_app (a b c d : jsstring) : ciEq a c -> ciEq b d -> ciEq (a ++ b) (c ++ d).
Proof. unfold ciEq. intros H1 H2. now rewrite !map_app, H1, H2. Qed.

Lemma ciEq_refl (a : jsstring) : ciEq a a.
Proof. reflexivity. Qed.

Lemma ciEq_length (a b : jsstring) : ciEq a b -> length a = length b.
Proof. unfold ciEq. intros H. apply (f_equal (@length _)) in H. now rewrite !length_map in H. Qed.

(** The text matched by one of the three patterns, in full. *)
Lemma tagRegex_shape (tag : string) (txt : jsstring) (caps : list jsstring) :
  Matches (tagRegex tag) txt caps ->
  exists opening before w attr q1 value q2 after,
    caps = [before; value; after]
    /\ txt = tagText opening before w attr q1 value q2 after
    /\ ciEq opening (lit "<" ++ lit tag)
    /\ isWhiteSpace w = true /\ ciEq attr (lit "src=")
    /\ isQuote q1 = true /\ isQuote q2 = true
    /\ value <> [] /\ forallb notQuote value = true
    /\ forallb notGt before = true /\ forallb notGt after = true.
Proof.
  unfold tagRegex, ciLit. intros H.
  apply Matches_app_chars in H as (o1 & t1 & -> & Ho1 & H).
  apply Matches_app_chars in H as (o2 & t2 & -> & Ho2 & H).
  simpl in H.
  inversion H as [| |one p re before t3 caps3 Hb _ H3]; subst; clear H.
  inversion H3 as [|p re w t4 caps4 Hw H4|]; subst; clear H3.
  change (Chr (ciChar 115%N) :: Chr (ciChar 114%N) :: Chr (ciChar 99%N)
            :: Chr (ciChar 61%N) :: ?r)
    with (map (fun c => Chr (ciChar c)) (lit "src=") ++ r) in H4.
  apply Matches_app_chars in H4 as (attr & t5 & -> & Hattr & H5).
  inversion H5 as [|p re q1 t6 caps6 Hq1 H6|]; subst; clear H5.
  inversion H6 as [| |one p re value t7 caps7 Hv Hne H7]; subst; clear H6.
  inversion H7 as [|p re q2 t8 caps8 Hq2 H8|]; subst; clear H7.
  inversion H8 as [| |one p re after t9 caps9 Ha _ H9]; subst; clear H8.
  inversion H9 as [|p re g t10 caps10 Hg H10|]; subst; clear H9.
  inversion H10; subst; clear H10.
  unfold isGt in Hg. apply N.eqb_eq in Hg. subst g.
  exists (o1 ++ o2), before, w, attr, q1, value, q2, after.
  repeat split; auto.
  - unfold tagText. now rewrite <- !app_assoc.
  - now apply ciEq_app.
Qed.

Lemma firstn_length_app (a b : jsstring) :
  firstn (length (a ++ b) - length b) (a ++ b) = a.
Proof.
  rewrite length_app, Nat.add_sub. rewrite firstn_app, Nat.sub_diag, firstn_all.
  simpl. apply app_nil_r.
Qed.

Lemma exec_text (re : regex) (s : jsstring) (m : TagMatch) (rest : jsstring) :
  exec re s = Some (m, rest) -> s = matched m ++ rest.
Proof.
  unfold exec. destruct (rematch re s) as [[caps r]|] eqn:E; [|discriminate].
  destruct caps as [|g1 [|g2 [|g3 [|]]]]; try discriminate.
  intros H. injection H as <- <-. simpl.
  destruct (rematch_sound _ _ _ _ E) as (txt & -> & _).
  now rewrite firstn_length_app.
Qed.

Lemma exec_sound (tag : string) (s : jsstring) (m : TagMatch) (rest : jsstring) :
  exec (tagRegex tag) s = Some (m, rest) ->
  s = matched m ++ rest /\ TagShape tag m.
Proof.
  intros H. split; [now apply exec_text in H|].
  unfold exec in H.
  destruct (rematch (tagRegex tag) s) as [[caps r]|] eqn:E; [|discriminate].
  destruct (rematch_sound _ _ _ _ E) as (txt & -> & HM).
  destruct (tagRegex_shape _ _ _ HM)
    as (o & b & w & a & q1 & v & q2 & af & -> & -> & Ho & Hw & Ha & Hq1 & Hq2
        & Hv & Hvq & Hb & Haf).
  injection H as <- <-.
  apply TagShapeIntro with o w a q1 q2; simpl; auto.
  now rewrite firstn_length_app.
Qed.

Lemma exec_shorter (tag : string) (s : jsstring) (m : TagMatch) (rest : jsstring) :
  exec (tagRegex tag) s = Some (m, rest) -> length rest < length s.
Proof.
  intros H. apply exec_sound in H as [-> [o w a q1 q2 -> _ _ _ _ _ _ _ _ _]].
  unfold tagText. rewrite !length_app. simpl. lia.
Qed.

(** ** Scanning *)

Lemma scanFrom_text (re : regex) :
  forall (fuel : nat) (s : jsstring),
    length s <= fuel -> flat_map segText (scanFrom fuel re s) = s.
Proof.
  induction fuel as [|fuel IH]; intros s Hlen.
  - destruct s; [reflexivity | simpl in Hlen; lia].
  - destruct s as [|c s]; [reflexivity|].
    simpl in Hlen. cbn [scanFrom].
    destruct (exec re (c :: s)) as [[m rest]|] eqn:E.
    + pose proof (exec_text _ _ _ _ E) as Ht.
      destruct (length rest <? length (c :: s)) eqn:L.
      * apply Nat.ltb_lt in L. simpl in L.
        cbn [flat_map segText]. rewrite IH by lia. now symmetry.
      * apply Nat.ltb_ge in L.
        assert (matched m = []) as Hm.
        { apply (f_equal (@length _)) in Ht. rewrite length_app in Ht.
          destruct (matched m); [reflexivity | simpl in *; lia]. }
        cbn [flat_map segText]. rewrite Hm, IH by lia. reflexivity.
    + cbn [flat_map segText]. rewrite IH by lia. reflexivity.
Qed.

Lemma scanFrom_fuel (re : regex) :
  forall (fuel fuel' : nat) (s : jsstring),
    length s <= fuel -> length s <= fuel' ->
    scanFrom fuel re s = scanFrom fuel' re s.
Proof.
  induction fuel as [|fuel IH]; intros fuel' s H H'.
  - destruct s; [|simpl in H; lia]. destruct fuel'; reflexivity.
  - destruct s as [|c s]; [destruct fuel'; reflexivity|].
    destruct fuel' as [|fuel']; [simpl in H'; lia|].
    simpl in H, H'. cbn [scanFrom].
    destruct (exec re (c :: s)) as [[m rest]|] eqn:E.
    + destruct (length rest <? length (c :: s)) eqn:L.
      * apply Nat.ltb_lt in L. simpl in L. f_equal. apply IH; lia.
      * do 2 f_equal. apply IH; lia.
    + f_equal. apply IH; lia.
Qed.

(** The text of the segments of a scan is the scanned text. *)
Lemma scan_text (re : regex) (s : jsstring) : flat_map segText (scan re s) = s.
Proof. apply scanFrom_text. reflexivity. Qed.

Lemma scan_nil (re : regex) : scan re [] = [].
Proof. reflexivity. Qed.

(** The search of a tag pattern at the head of a text: a match is taken
    and the search resumes after it, or the first character is text. *)
Lemma scan_cons (tag : string) (c : jschar) (s : jsstring) :
  scan (tagRegex tag) (c :: s) =
  match exec (tagRegex tag) (c :: s) with
  | Some (m, rest) => Hit m :: scan (tagRegex tag) rest
  | None => Text c :: scan (tagRegex tag) s
  end.
Proof.
  unfold scan. cbn [length scanFrom].
  destruct (exec (tagRegex tag) (c :: s)) as [[m rest]|] eqn:E; [|reflexivity].
  pose proof (exec_shorter _ _ _ _ E) as L.
  cbn [length] in L. apply Nat.ltb_lt in L. rewrite L. apply Nat.ltb_lt in L.
  f_equal. apply scanFrom_fuel; simpl in *; lia.
Qed.

(** Every match of a scan has the shape of a tag. *)
Lemma scan_hits_shape (tag : string) (s : jsstring) (m : TagMatch) :
  In m (hits (scan (tagRegex tag) s)) -> TagShape tag m.
Proof.
  remember (length s) as n eqn:Hn. revert s Hn.
  induction n as [n IH] using lt_wf_ind. intros s Hn.
  destruct s as [|c s]; [simpl; tauto|].
  rewrite scan_cons.
  destruct (exec (tagRegex tag) (c :: s)) as [[m' rest]|] eqn:E.
  - simpl. intros [<-|Hin].
    + now apply exec_sound in E.
    + apply exec_shorter in E. eapply IH; [| reflexivity | exact Hin]. lia.
  - simpl. intros Hin. eapply IH; [| reflexivity | exact Hin]. simpl in Hn. lia.
Qed.

(** ** The callback *)

Lemma sameConfig_refl (c : Converter) : sameConfig c c.
Proof. repeat split. Qed.

Lemma sameConfig_trans (c1 c2 c3 : Converter) :
  sameConfig c1 c2 -> sameConfig c2 c3 -> sameConfig c1 c3.
Proof. unfold sameConfig. intuition congruence. Qed.

Lemma onlyErrors_refl (c : Converter) : onlyErrors c c.
Proof. split; [apply sameConfig_refl | reflexivity]. Qed.

Lemma onlyErrors_trans (c1 c2 c3 : Converter) :
  onlyErrors c1 c2 -> onlyErrors c2 c3 -> onlyErrors c1 c3.
Proof.
  intros [H1 P1] [H2 P2]. split; [eapply sameConfig_trans; eauto | congruence].
Qed.

Lemma onlyErrors_pushError (c : Converter) (p : jsstring) (e : Errno) :
  onlyErrors c (pushError c p e).
Proof. repeat split. Qed.

Lemma resolveImagePath_config (c c' : Converter) (s : jsstring) :
  sameConfig c c' -> resolveImagePath c' s = resolveImagePath c s.
Proof. intros (_ & H & _). unfold resolveImagePath. now rewrite H. Qed.

Lemma convertible_config (c c' : Converter) (d : Disk) (m : TagMatch) :
  sameConfig c c' -> convertible c' d m = convertible c d m.
Proof.
  intros H. unfold convertible. rewrite (resolveImagePath_config _ _ _ H).
  destruct H as (_ & _ & ->). reflexivity.
Qed.

Lemma readFileSync_exists (d : Disk) (p : jsstring) (data : list byte) :
  fs.readFileSync d p = Ok data -> fs.existsSync d p = true.
Proof.
  unfold fs.readFileSync, fs.existsSync. destruct (fs.lookup d p); [reflexivity | discriminate].
Qed.

Lemma imageToBase64_ok (c : Converter) (d : Disk) (p : jsstring) (data : list byte) :
  fs.readFileSync d p = Ok data ->
  imageToBase64 c d p
  = (Some (dataUri (mimeType (toLowerCase (path.extname p))) (base64 data)), c).
Proof.
  intros H. unfold imageToBase64. now rewrite (readFileSync_exists _ _ _ H), H.
Qed.

Lemma imageToBase64_fail (c : Converter) (d : Disk) (p : jsstring) (e : Errno) :
  fs.readFileSync d p = Throw e ->
  exists c', imageToBase64 c d p = (None, c') /\ onlyErrors c c'.
Proof.
  intros H. unfold imageToBase64. rewrite H.
  destruct (fs.existsSync d p); simpl.
  - eexists. split; [reflexivity | apply onlyErrors_pushError].
  - eexists. split; [reflexivity | apply onlyErrors_refl].
Qed.

Lemma newTag_tagText (tag : string) (before uri after : jsstring) :
  newTag tag before uri after
  = tagText (lit "<" ++ lit tag) before 32%N (lit "src=") dquote uri dquote after.
Proof. unfold newTag, tagText. now rewrite <- !app_assoc. Qed.

(** A tag that can be rewritten is rebuilt around the data URI. *)
Lemma rewriteTag_convertible (tag : string) (c : Converter) (d : Disk)
    (b : bool) (m : TagMatch) :
  convertible c d m = true ->
  exists data,
    fs.readFileSync d (resolveImagePath c (src m)) = Ok data
    /\ rewriteTag tag d (c, b) m
       = (newTag tag (beforeSrc m)
            (dataUri (mimeType (toLowerCase (path.extname (resolveImagePath c (src m)))))
               (base64 data))
            (afterSrc m), (c, true)).
Proof.
  unfold convertible. intros H.
  apply andb_true_iff in H as [H H3]. apply andb_true_iff in H as [H1 H2].
  destruct (fs.readFileSync d (resolveImagePath c (src m))) as [data|e] eqn:E;
    [|discriminate].
  exists data. split; [reflexivity|].
  unfold rewriteTag. apply negb_true_iff in H1. rewrite H1, H2. simpl negb. cbv iota.
  rewrite (imageToBase64_ok c _ _ _ E). reflexivity.
Qed.

(** Any other tag is returned as it was matched. *)
Lemma rewriteTag_skip (tag : string) (c : Converter) (d : Disk)
    (b : bool) (m : TagMatch) :
  convertible c d m = false ->
  exists c', rewriteTag tag d (c, b) m = (matched m, (c', b)) /\ onlyErrors c c'.
Proof.
  unfold convertible, rewriteTag. intros H.
  destruct (startsWith (src m) (lit "data:")).
  { exists c. split; [reflexivity | apply onlyErrors_refl]. }
  destruct (includes (supportedExtensions c)
              (toLowerCase (path.extname (resolveImagePath c (src m))))).
  2:{ exists c. split; [reflexivity | apply onlyErrors_refl]. }
  simpl in H.
  destruct (fs.readFileSync d (resolveImagePath c (src m))) as [data|e] eqn:E;
    [discriminate|].
  destruct (imageToBase64_fail c _ _ _ E) as (c' & -> & Hc).
  exists c'. split; [reflexivity | exact Hc].
Qed.

(** ** The passes *)

Lemma skip_config (c c' : Converter) (d : Disk) (l : list TagMatch) :
  sameConfig c c' ->
  forallb (fun m => negb (convertible c d m)) l = true ->
  forallb (fun m => negb (convertible c' d m)) l = true.
Proof.
  intros Hc H. erewrite forallb_ext; [exact H|].
  intros m. simpl. now rewrite (convertible_config _ _ d m Hc).
Qed.

Lemma replaceSegs_skip (tag : string) (d : Disk) :
  forall (segs : list segment) (c : Converter) (b : bool),
    forallb (fun m => negb (convertible c d m)) (hits segs) = true ->
    exists c', replaceSegs (rewriteTag tag d) segs (c, b)
               = (flat_map segText segs, (c', b))
               /\ onlyErrors c c'.
Proof.
  induction segs as [|[ch|m] segs IH]; intros c b H.
  - exists c. split; [reflexivity | apply onlyErrors_refl].
  - destruct (IH c b H) as (c' & E & Hc).
    exists c'. split; [|exact Hc]. cbn [replaceSegs]. now rewrite E.
  - cbn [hits forallb] in H. apply andb_true_iff in H as [Hm H].
    apply negb_true_iff in Hm.
    destruct (rewriteTag_skip tag c d b m Hm) as (c1 & E1 & Hc1).
    destruct (IH c1 b) as (c' & E & Hc).
    { exact (skip_config _ _ d _ (proj1 Hc1) H). }
    exists c'. split; [|eapply onlyErrors_trans; eauto].
    cbn [replaceSegs]. rewrite E1, E. reflexivity.
Qed.

Lemma replace_skip (tag : string) (d : Disk) (s : jsstring) (c : Converter) (b : bool) :
  forallb (fun m => negb (convertible c d m)) (hits (scan (tagRegex tag) s)) = true ->
  exists c', replace (tagRegex tag) (rewriteTag tag d) s (c, b) = (s, (c', b))
             /\ onlyErrors c c'.
Proof.
  intros H. destruct (replaceSegs_skip tag d _ c b H) as (c' & E & Hc).
  exists c'. split; [|exact Hc]. unfold replace. now rewrite E, scan_text.
Qed.

Lemma noneConvertible_config (c c' : Converter) (d : Disk) (s : jsstring) :
  sameConfig c c' -> noneConvertible c' d s = noneConvertible c d s.
Proof.
  intros H. unfold noneConvertible. apply forallb_ext. intros m.
  now rewrite (convertible_config _ _ d m H).
Qed.

(** A text without a tag to rewrite passes the three passes unchanged. *)
Lemma rewritePasses_skip (c : Converter) (d : Disk) (s : jsstring) :
  noneConvertible c d s = true ->
  exists c', rewritePasses d s c = (s, (c', false)) /\ onlyErrors c c'.
Proof.
  unfold noneConvertible, allHits. rewrite !forallb_app.
  intros H. apply andb_true_iff in H as [H1 H]. apply andb_true_iff in H as [H2 H3].
  unfold rewritePasses, imgRegex, videoRegex, sourceRegex in *.
  destruct (replace_skip "img" d s c false H1) as (c1 & -> & Hc1).
  destruct (replace_skip "video" d s c1 false) as (c2 & -> & Hc2).
  { exact (skip_config _ _ d _ (proj1 Hc1) H2). }
  destruct (replace_skip "source" d s c2 false) as (c3 & -> & Hc3).
  { exact (skip_config _ _ d _ (proj1 Hc2) (skip_config _ _ d _ (proj1 Hc1) H3)). }
  exists c3. split; [reflexivity|].
  eapply onlyErrors_trans; [eassumption|]. eapply onlyErrors_trans; eassumption.
Qed.

Lemma allData_noneConvertible (c : Converter) (d : Disk) (s : jsstring) :
  allData s = true -> noneConvertible c d s = true.
Proof.
  unfold allData, noneConvertible. rewrite !forallb_forall.
  intros H m Hm. specialize (H m Hm). unfold convertible, hasDataSrc in *.
  now rewrite H.
Qed.

(** A pass decomposes the text into pieces kept and tags rebuilt. *)
Lemma replaceSegs_pieces (tag : string) (d : Disk) (c0 : Converter) :
  forall (segs : list segment) (c : Converter) (b : bool),
    sameConfig c0 c ->
    (forall m, In m (hits segs) -> TagShape tag m) ->
    exists pieces : list (jsstring * jsstring),
      flat_map segText segs = concat (map fst pieces)
      /\ fst (replaceSegs (rewriteTag tag d) segs (c, b)) = concat (map snd pieces)
      /\ Forall (Piece tag c0 d) pieces.
Proof.
  induction segs as [|[ch|m] segs IH]; intros c b Hc Hshape.
  - exists []. repeat split. constructor.
  - destruct (IH c b Hc Hshape) as (pieces & E1 & E2 & HP).
    exists (([ch], [ch]) :: pieces). cbn [replaceSegs flat_map segText map concat fst snd].
    destruct (replaceSegs (rewriteTag tag d) segs (c, b)) as [out st] eqn:E.
    simpl in E2. subst out. rewrite E1. repeat split.
    constructor; [apply PieceKept | exact HP].
  - assert (Hm : TagShape tag m) by (apply Hshape; now left).
    assert (Hrest : forall m', In m' (hits segs) -> TagShape tag m')
      by (intros m' Hin; apply Hshape; now right).
    cbn [replaceSegs flat_map segText].
    destruct (convertible c d m) eqn:Hcv.
    + destruct (rewriteTag_convertible tag c d b m Hcv) as (data & Hread & ->).
      destruct (IH c true Hc Hrest) as (pieces & E1 & E2 & HP).
      destruct (replaceSegs (rewriteTag tag d) segs (c, true)) as [out st] eqn:E.
      simpl in E2. subst out.
      destruct Hm as [o w a q1 q2 Htxt Ho Hw Ha Hq1 Hq2 _ _ _ _].
      rewrite (resolveImagePath_config _ _ _ Hc) in *.
      eexists ((_, _) :: pieces). cbn [map concat fst snd]. rewrite <- E1.
      repeat split.
      constructor; [|exact HP].
      rewrite Htxt, newTag_tagText. now apply PieceRewritten.
    + destruct (rewriteTag_skip tag c d b m Hcv) as (c1 & -> & Hc1).
      destruct (IH c1 b) as (pieces & E1 & E2 & HP); auto.
      { eapply sameConfig_trans; [exact Hc | exact (proj1 Hc1)]. }
      destruct (replaceSegs (rewriteTag tag d) segs (c1, b)) as [out st] eqn:E.
      simpl in E2. subst out.
      exists ((matched m, matched m) :: pieces). cbn [map concat fst snd].
      rewrite <- E1. repeat split.
      constructor; [apply PieceKept | exact HP].
Qed.

(** ** Files without a tag to rewrite *)

Lemma nothingToDo_config (c c' : Converter) (d : Disk) (h : jsstring) :
  sameConfig c c' -> nothingToDo c' d h = nothingToDo c d h.
Proof.
  intros H. unfold nothingToDo.
  destruct (fs.readFileSyncUtf8 d h); [apply (noneConvertible_config _ _ d _ H) | reflexivity].
Qed.

Lemma processHtmlFile_skip (c : Converter) (d : Disk) (h : jsstring) :
  nothingToDo c d h = true ->
  exists c', processHtmlFile c d h = (c', d) /\ onlyErrors c c'.
Proof.
  unfold nothingToDo, processHtmlFile.
  destruct (fs.readFileSyncUtf8 d h) as [content|e].
  - intros H. destruct (rewritePasses_skip c d content H) as (c' & -> & Hc).
    exists c'. split; [reflexivity | exact Hc].
  - intros _. eexists. split; [reflexivity | apply onlyErrors_pushError].
Qed.

Lemma processAll_skip (d : Disk) :
  forall (files : list jsstring) (c : Converter),
    forallb (nothingToDo c d) files = true ->
    exists c', processAll c d files = (c', d) /\ onlyErrors c c'.
Proof.
  induction files as [|h files IH]; intros c H.
  - exists c. split; [reflexivity | apply onlyErrors_refl].
  - cbn [forallb] in H. apply andb_true_iff in H as [Hh H].
    destruct (processHtmlFile_skip c d h Hh) as (c1 & E1 & Hc1).
    destruct (IH c1) as (c' & E & Hc).
    { erewrite forallb_ext; [exact H|]. intros x.
      apply (nothingToDo_config _ _ d x (proj1 Hc1)). }
    exists c'. split; [|eapply onlyErrors_trans; eauto].
    cbn [processAll]. now rewrite E1.
Qed.

Lemma hiddenSrcPage_first_run :
  snd (snd (run demo (demoDisk hiddenSrcPage)))
  = demoDisk (lit "<img src=" ++ [dquote] ++ lit "data:image/png;base64,QkJC"
                ++ [dquote] ++ lit " src=" ++ [dquote] ++ lit "a.png"
                ++ [dquote] ++ lit ">")
    ++ [(backupPath indexHtml, File (utf8Encode hiddenSrcPage) true true)].
Proof. vm_compute. reflexivity. Qed.

(** The first scenario of the specification: the tag is rewritten, the
    backup holds the original text, one file is processed without error. *)
Lemma scenario_logo :
  run demo (scenarioDisk "index.html" logoPage)
  = (Completed,
     (pushProcessed demo indexHtml,
      scenarioDisk "index.html"
        (lit "<img src=" ++ [dquote] ++ lit "data:image/png;base64,MDEyMzQ1Njc4OQ=="
           ++ [dquote] ++ lit ">")
        ++ [(backupPath indexHtml, File (utf8Encode logoPage) true true)])).
Proof. vm_compute. reflexivity. Qed.

(** The second scenario: the asset is missing, the page is left as it is,
    no backup is created and no file is processed. *)
Lemma scenario_missing_video :
  run demo (scenarioDisk "page.html" missingVideoPage)
  = (Completed, (demo, scenarioDisk "page.html" missingVideoPage)).
Proof. vm_compute. reflexivity. Qed.

(** ** Paths *)

Lemma splitOn_not_nil (sep : jschar) (s : jsstring) : path.splitOn sep s <> [].
Proof.
  destruct s as [|c s]; simpl; [discriminate|].
  destruct (c =? sep)%N; [discriminate|].
  destruct (path.splitOn sep s); discriminate.
Qed.

Lemma splitOn_noSlash (s : jsstring) :
  forallb path.notSlash s = true -> path.splitOn slash s = [s].
Proof.
  induction s as [|c s IH]; [reflexivity|].
  cbn [forallb]. intros H. apply andb_true_iff in H as [Hc H].
  unfold path.notSlash, path.isSlash in Hc. apply negb_true_iff in Hc.
  cbn [path.splitOn]. rewrite Hc, (IH H). reflexivity.
Qed.

Lemma splitOn_snoc (a name : jsstring) :
  forallb path.notSlash name = true ->
  path.splitOn slash (a ++ slash :: name) = path.splitOn slash a ++ [name].
Proof.
  intros H. induction a as [|c a IH].
  - cbn [app path.splitOn]. rewrite N.eqb_refl, (splitOn_noSlash _ H). reflexivity.
  - cbn [app path.splitOn]. destruct (c =? slash)%N.
    + now rewrite IH.
    + rewrite IH. destruct (path.splitOn slash a) eqn:E; [|reflexivity].
      now apply splitOn_not_nil in E.
Qed.

Lemma splitOn_segments (s : jsstring) :
  Forall (fun seg => forallb path.notSlash seg = true) (path.splitOn slash s).
Proof.
  induction s as [|c s IH]; [repeat constructor|].
  cbn [path.splitOn]. destruct (c =? slash)%N eqn:E.
  - constructor; [reflexivity | exact IH].
  - destruct (path.splitOn slash s) as [|seg r]; [repeat constructor|].
    + simpl. unfold path.notSlash, path.isSlash. now rewrite E.
    + inversion IH; subst. constructor; [|assumption].
      simpl. unfold path.notSlash, path.isSlash. rewrite E. simpl. assumption.
Qed.

Lemma isFileName_inv (n : jsstring) :
  isFileName n = true ->
  streq n [] = false /\ forallb path.notSlash n = true
  /\ streq n (lit ".") = false /\ streq n (lit "..") = false.
Proof.
  unfold isFileName. intros H.
  apply andb_true_iff in H as [H H4]. apply andb_true_iff in H as [H H3].
  apply andb_true_iff in H as [H1 H2].
  apply negb_true_iff in H1, H3, H4. auto.
Qed.

Lemma normalizeSegs_snoc (a : bool) (name : jsstring) :
  isFileName name = true ->
  forall segs res,
    path.normalizeSegs a (segs ++ [name]) res
    = path.normalizeSegs a segs res ++ [name].
Proof.
  intros H. apply isFileName_inv in H as (H1 & _ & H3 & H4).
  induction segs as [|seg segs IH]; intros res.
  - cbn [app path.normalizeSegs]. rewrite H1, H3, H4. reflexivity.
  - cbn [app path.normalizeSegs].
    destruct (streq seg [] || streq seg (lit ".")); [apply IH|].
    destruct (streq seg (lit "..")); [|apply IH].
    destruct res as [|top res']; [apply IH|].
    destruct (streq top (lit "..")); apply IH.
Qed.

Lemma normalizeSegs_proper (a : bool) :
  forall segs res,
    Forall (fun seg => forallb path.notSlash seg = true) segs ->
    Forall properSegment res ->
    Forall properSegment (path.normalizeSegs a segs res).
Proof.
  induction segs as [|seg segs IH]; intros res Hs Hr.
  - cbn [path.normalizeSegs]. rewrite Forall_forall in *.
    intros x Hx. apply Hr. now apply in_rev.
  - inversion Hs as [|? ? Hseg Hs']; subst. cbn [path.normalizeSegs].
    destruct (streq seg []) eqn:E1; [now apply IH|].
    destruct (streq seg (lit ".")) eqn:E2; [now apply IH|]. cbn [orb].
    assert (Hp : properSegment seg).
    { split; [|assumption]. intros ->. discriminate E1. }
    destruct (streq seg (lit "..")) eqn:E3.
    + destruct res as [|top res'].
      * apply IH; [assumption|]. destruct a; [now constructor | constructor].
      * inversion Hr; subst.
        destruct (streq top (lit "..")); apply IH; auto.
        destruct a; [now constructor | assumption].
    + apply IH; [assumption | now constructor].
Qed.

Lemma joinWith_snoc (sep : jsstring) (l : list jsstring) (x : jsstring) :
  path.joinWith sep (l ++ [x])
  = match l with
    | [] => x
    | _ => path.joinWith sep l ++ sep ++ x
    end.
Proof.
  induction l as [|y l IH]; [reflexivity|].
  cbn [app]. destruct l as [|z l].
  - reflexivity.
  - change (path.joinWith sep (y :: (z :: l) ++ [x]))
      with (y ++ sep ++ path.joinWith sep ((z :: l) ++ [x])).
    rewrite IH.
    change (path.joinWith sep (y :: z :: l)) with (y ++ sep ++ path.joinWith sep (z :: l)).
    now rewrite <- !app_assoc.
Qed.

Lemma notSlash_last (s : jsstring) :
  s <> [] -> forallb path.notSlash s = true ->
  exists r c, s = r ++ [c] /\ c <> slash.
Proof.
  intros Hne H. destruct (exists_last Hne) as (r & c & ->).
  exists r, c. split; [reflexivity|].
  apply forallb_app_iff in H as [_ H]. cbn [forallb] in H.
  apply andb_true_iff in H as [H _].
  unfold path.notSlash, path.isSlash in H. apply negb_true_iff in H.
  now apply N.eqb_neq in H.
Qed.

Lemma endsWith_slash_last (r : jsstring) (c : jschar) :
  c <> slash -> endsWith (r ++ [c]) (lit "/") = false.
Proof.
  intros H. unfold endsWith. rewrite rev_app_distr.
  change (rev [c] ++ rev r) with (c :: rev r).
  change (rev (lit "/")) with [slash].
  cbn [startsWith]. apply N.eqb_neq in H. now rewrite H.
Qed.

Lemma joinWith_proper_last (l : list jsstring) :
  l <> [] -> Forall properSegment l ->
  exists r c, path.joinWith (lit "/") l = r ++ [c] /\ c <> slash.
Proof.
  intros Hne H. destruct (exists_last Hne) as (l' & x & ->).
  apply Forall_app in H as [_ H]. inversion H as [|? ? [Hx1 Hx2] _]; subst.
  destruct (notSlash_last _ Hx1 Hx2) as (r & c & -> & Hc).
  rewrite joinWith_snoc. destruct l' as [|y l'].
  - now exists r, c.
  - exists (path.joinWith (lit "/") (y :: l') ++ lit "/" ++ r), c.
    split; [now rewrite <- !app_assoc | assumption].
Qed.

Lemma isFileName_last (name : jsstring) :
  isFileName name = true -> exists r c, name = r ++ [c] /\ c <> slash.
Proof.
  intros H. apply isFileName_inv in H as (H1 & H2 & _).
  apply notSlash_last; [|assumption]. intros ->. discriminate.
Qed.

(** The normal form of a path that ends with a file name. *)
Lemma normalize_snoc (a name : jsstring) :
  isFileName name = true ->
  a <> [] ->
  path.normalize (a ++ slash :: name)
  = (if startsWith a (lit "/") then lit "/" else [])
      ++ path.joinWith (lit "/")
           (path.normalizeSegs (negb (startsWith a (lit "/"))) (path.splitOn slash a) []
              ++ [name]).
Proof.
  intros Hn Ha. pose proof (isFileName_inv name Hn) as (H1 & H2 & _).
  destruct (isFileName_last name Hn) as (r & c & Er & Hc).
  unfold path.normalize.
  destruct (a ++ slash :: name) as [|x y] eqn:E.
  { destruct a; discriminate E. }
  rewrite <- E. clear x y E.
  assert (Habs : startsWith (a ++ slash :: name) (lit "/") = startsWith a (lit "/")).
  { destruct a as [|x a]; [contradiction|]. reflexivity. }
  assert (Htr : endsWith (a ++ slash :: name) (lit "/") = false).
  { rewrite Er. change (a ++ slash :: r ++ [c]) with (a ++ (slash :: r) ++ [c]).
    rewrite app_assoc. now apply endsWith_slash_last. }
  rewrite Habs, Htr, (splitOn_snoc a name H2), (normalizeSegs_snoc _ name Hn).
  set (ns := path.normalizeSegs _ _ _).
  destruct (path.joinWith (lit "/") (ns ++ [name])) as [|x y] eqn:E.
  - exfalso. rewrite joinWith_snoc in E. destruct ns.
    + rewrite E in H1. discriminate H1.
    + apply app_eq_nil in E as [_ E]. discriminate E.
  - now rewrite app_nil_r.
Qed.

Lemma normalize_file_name (name : jsstring) :
  isFileName name = true -> path.normalize name = name.
Proof.
  intros Hn. pose proof (isFileName_inv name Hn) as (H1 & H2 & H3 & H4).
  destruct (isFileName_last name Hn) as (r & c & Er & Hc).
  unfold path.normalize.
  assert (Habs : startsWith name (lit "/") = false).
  { destruct name as [|x y]; [discriminate H1|].
    cbn [forallb] in H2. apply andb_true_iff in H2 as [H2 _].
    unfold path.notSlash, path.isSlash in H2. apply negb_true_iff in H2.
    change (lit "/") with [slash]. cbn [startsWith]. now rewrite H2. }
  assert (Htr : endsWith name (lit "/") = false).
  { rewrite Er. now apply endsWith_slash_last. }
  rewrite Habs, Htr, (splitOn_noSlash name H2).
  cbn [path.normalizeSegs negb]. rewrite H1, H3, H4.
  cbn [orb rev app path.joinWith].
  destruct name; [discriminate H1|]. cbn [app]. now rewrite app_nil_r.
Qed.

(** [path.join] of a directory and a file name ends with the name. *)
Lemma join_file_name (dir name : jsstring) :
  isFileName name = true -> exists pre, path.join [dir; name] = pre ++ name.
Proof.
  intros Hn. pose proof (isFileName_inv name Hn) as (H1 & H2 & H3 & H4).
  unfold path.join. cbn [filter]. unfold path.nonEmpty. rewrite H1. cbn [negb].
  destruct dir as [|x dir].
  - cbn [streq negb path.joinWith].
    exists []. now rewrite (normalize_file_name name Hn).
  - cbn [streq negb path.joinWith].
    change ((x :: dir) ++ lit "/" ++ name) with ((x :: dir) ++ slash :: name).
    rewrite (normalize_snoc (x :: dir) name Hn) by discriminate.
    rewrite joinWith_snoc.
    destruct (path.normalizeSegs _ _ _).
    + eexists. reflexivity.
    + eexists. rewrite !app_assoc. reflexivity.
Qed.

Lemma isHtmlName_fileName (name : jsstring) :
  name <> [] -> forallb path.notSlash name = true -> isHtmlName name = true ->
  isFileName name = true.
Proof.
  intros H1 H2 H3. unfold isFileName. rewrite H2.
  rewrite (streq_neq _ _ H1). cbn [negb andb].
  apply andb_true_iff. split; apply negb_true_iff; apply streq_neq;
    intros ->; discriminate H3.
Qed.

Lemma join_html_name (dir name : jsstring) :
  name <> [] -> forallb path.notSlash name = true -> isHtmlName name = true ->
  endsWith (path.join [dir; name]) (lit ".html") = true.
Proof.
  intros H1 H2 H3.
  destruct (join_file_name dir name (isHtmlName_fileName name H1 H2 H3)) as (pre & ->).
  apply endsWith_inv in H3 as (r & ->). rewrite app_assoc. apply endsWith_app.
Qed.

Lemma skipn_app_length (a b : jsstring) : skipn (length a) (a ++ b) = b.
Proof. induction a; simpl; auto. Qed.

Lemma existsb_isSlash (name : jsstring) :
  forallb path.notSlash name = true -> existsb path.isSlash name = false.
Proof.
  induction name as [|c name IH]; [reflexivity|].
  cbn [forallb existsb]. intros H. apply andb_true_iff in H as [Hc H].
  unfold path.notSlash in Hc. apply negb_true_iff in Hc. now rewrite Hc, IH.
Qed.

Lemma childName_prefix (dir prefix name : jsstring) :
  (if endsWith dir (lit "/") then dir else dir ++ lit "/") = prefix ->
  isFileName name = true ->
  fs.childName dir (prefix ++ name) = Some name.
Proof.
  intros Hp Hn. apply isFileName_inv in Hn as (H1 & H2 & _).
  unfold fs.childName. rewrite Hp, startsWith_app, skipn_app_length, H1.
  now rewrite (existsb_isSlash name H2).
Qed.

(** The join of an absolute directory and a file name lies directly in
    the directory, under that name. *)
Lemma join_child (dir name : jsstring) :
  isFileName name = true ->
  startsWith dir (lit "/") = true ->
  fs.childName (path.normalize dir) (path.join [dir; name]) = Some name.
Proof.
  intros Hn Habs. pose proof (isFileName_inv name Hn) as (H1 & H2 & _).
  destruct dir as [|x dir]; [discriminate Habs|].
  unfold path.join. cbn [filter]. unfold path.nonEmpty. rewrite H1.
  cbn [streq negb path.joinWith].
  change ((x :: dir) ++ lit "/" ++ name) with ((x :: dir) ++ slash :: name).
  rewrite (normalize_snoc (x :: dir) name Hn) by discriminate.
  unfold path.normalize. rewrite Habs. cbn [negb].
  pose proof (normalizeSegs_proper false (path.splitOn slash (x :: dir)) []
                (splitOn_segments (x :: dir)) (Forall_nil _)) as Hns.
  destruct (path.normalizeSegs false (path.splitOn slash (x :: dir)) [])
    as [|s0 ns] eqn:Ens.
  - cbn [app path.joinWith]. now apply childName_prefix.
  - destruct (joinWith_proper_last (s0 :: ns)) as (r & c & Ebody & Hc);
      [discriminate | exact Hns |].
    rewrite joinWith_snoc, Ebody.
    destruct (r ++ [c]) as [|b0 body] eqn:Eb; [now destruct r|].
    rewrite <- Eb.
    replace (lit "/" ++ (r ++ [c]) ++ lit "/" ++ name)
      with ((lit "/" ++ (r ++ [c]) ++ lit "/") ++ name)
      by now rewrite <- !app_assoc.
    apply childName_prefix; [|exact Hn].
    destruct (endsWith (x :: dir) (lit "/")).
    + rewrite (app_assoc (lit "/")). now rewrite endsWith_app.
    + rewrite app_nil_r, (app_assoc (lit "/") r [c]).
      rewrite endsWith_slash_last by exact Hc.
      now rewrite <- !app_assoc.
Qed.

(** ** Trimming *)

Lemma trimStart_pad (pad s : jsstring) :
  forallb isWhiteSpace pad = true -> trimStart (pad ++ s) = trimStart s.
Proof.
  unfold trimStart. induction pad as [|c pad IH]; [reflexivity|].
  cbn [forallb app dropWhile]. intros H. apply andb_true_iff in H as [Hc H].
  rewrite Hc. auto.
Qed.

Lemma trimEnd_prefix (p : jsstring) (c : jschar) (x : jsstring) :
  isWhiteSpace c = false -> trimEnd (p ++ c :: x) = p ++ c :: trimEnd x.
Proof.
  intros Hc. unfold trimEnd.
  assert (E : rev (p ++ c :: x) = rev x ++ c :: rev p).
  { rewrite rev_app_distr. simpl. now rewrite <- app_assoc. }
  rewrite E, dropWhile_app_stop by exact Hc.
  rewrite rev_app_distr. simpl. rewrite rev_involutive. now rewrite <- app_assoc.
Qed.

Lemma removeFirst_prefix (p y : jsstring) : removeFirst p (p ++ y) = y.
Proof.
  assert (U : forall s, removeFirst p s
                        = if startsWith s p then skipn (length p) s
                          else match s with
                               | c :: s' => c :: removeFirst p s'
                               | [] => []
                               end).
  { intros [|c s]; reflexivity. }
  now rewrite U, startsWith_app, skipn_app_length.
Qed.

Lemma basename_notSlash (p : jsstring) :
  forallb path.notSlash (path.basename p) = true.
Proof.
  unfold path.basename. rewrite forallb_forall. intros c Hc.
  apply in_rev in Hc. revert Hc. generalize (dropWhile path.isSlash (rev p)).
  intros l. induction l as [|x l IH]; cbn [takeWhile]; [intros []|].
  destruct (path.notSlash x) eqn:E; [|intros []].
  intros [<-|H]; auto.
Qed.

(** *** Base names and extensions *)

Lemma takeWhile_all (p : jschar -> bool) (a : jsstring) :
  forallb p a = true -> takeWhile p a = a.
Proof.
  induction a as [|x a IH]; cbn [forallb takeWhile]; [reflexivity|].
  intros H. apply andb_true_iff in H as [-> H]. now rewrite IH.
Qed.

Lemma takeWhile_app_stop (p : jschar -> bool) (a b : jsstring) (c : jschar) :
  forallb p a = true -> p c = false -> takeWhile p (a ++ c :: b) = a.
Proof.
  intros Ha Hc. induction a as [|x a IH]; cbn [forallb takeWhile app] in *.
  - now rewrite Hc.
  - apply andb_true_iff in Ha as [-> Ha]. now rewrite IH.
Qed.

Lemma forallb_rev (p : jschar -> bool) (a : jsstring) :
  forallb p a = true -> forallb p (rev a) = true.
Proof.
  rewrite !forallb_forall. intros H x Hx. apply H. now apply in_rev.
Qed.

Lemma dropWhile_isSlash_name (x r : jsstring) :
  x <> [] -> forallb path.notSlash x = true ->
  dropWhile path.isSlash (rev x ++ r) = rev x ++ r.
Proof.
  intros H1 H2. apply forallb_rev in H2.
  destruct (rev x) as [|c t] eqn:E.
  - apply (f_equal (@rev _)) in E. rewrite rev_involutive in E. contradiction.
  - cbn [forallb] in H2. apply andb_true_iff in H2 as [Hc _].
    unfold path.notSlash in Hc. cbn [app dropWhile].
    destruct (path.isSlash c); [discriminate Hc | reflexivity].
Qed.

Lemma basename_name (x : jsstring) :
  x <> [] -> forallb path.notSlash x = true -> path.basename x = x.
Proof.
  intros H1 H2. unfold path.basename.
  pose proof (dropWhile_isSlash_name x [] H1 H2) as E. rewrite app_nil_r in E.
  rewrite E, takeWhile_all by now apply forallb_rev.
  apply rev_involutive.
Qed.

Lemma basename_after_slash (pre x : jsstring) :
  x <> [] -> forallb path.notSlash x = true ->
  path.basename (pre ++ slash :: x) = x.
Proof.
  intros H1 H2. unfold path.basename.
  rewrite rev_app_distr. cbn [rev]. rewrite <- app_assoc. cbn [app].
  rewrite (dropWhile_isSlash_name x _ H1 H2).
  rewrite takeWhile_app_stop; [apply rev_involutive | now apply forallb_rev |].
  reflexivity.
Qed.

Lemma extname_basename (p q : jsstring) :
  path.basename p = path.basename q -> path.extname p = path.extname q.
Proof. unfold path.extname. now intros ->. Qed.

(** The join of a directory and a file name ends with a separator and
    the name, or is the name. *)
Lemma basename_join (dir name : jsstring) :
  isFileName name = true -> path.basename (path.join [dir; name]) = name.
Proof.
  intros Hn. pose proof (isFileName_inv name Hn) as (H1 & H2 & H3 & H4).
  assert (Hne : name <> []) by (intros ->; discriminate H1).
  unfold path.join. cbn [filter]. unfold path.nonEmpty. rewrite H1. cbn [negb].
  destruct dir as [|x dir]; cbn [streq negb path.joinWith].
  - rewrite (normalize_file_name name Hn). now apply basename_name.
  - change ((x :: dir) ++ lit "/" ++ name) with ((x :: dir) ++ slash :: name).
    rewrite (normalize_snoc (x :: dir) name Hn) by discriminate.
    rewrite joinWith_snoc.
    destruct (path.normalizeSegs _ _ _) as [|s0 segs].
    + destruct (startsWith (x :: dir) (lit "/")).
      * now apply (basename_after_slash []).
      * now apply basename_name.
    + change (lit "/" ++ name) with (slash :: name). rewrite !app_assoc.
      now apply basename_after_slash.
Qed.

Lemma dropWhile_all (p : jschar -> bool) (a : jsstring) :
  forallb p a = true -> dropWhile p a = [].
Proof.
  induction a as [|x a IH]; cbn [forallb dropWhile]; [reflexivity|].
  intros H. apply andb_true_iff in H as [-> H]. now apply IH.
Qed.



(** ** The disk *)

Lemma lookup_store_eq (d : Disk) (p : jsstring) (n : Node) :
  fs.lookup (fs.store d p n) p = Some n.
Proof.
  induction d as [|[q m] d IH]; cbn [fs.store fs.lookup].
  - now rewrite streq_refl.
  - destruct (streq q p) eqn:E; cbn [fs.lookup]; now rewrite E.
Qed.

Lemma lookup_store_neq (d : Disk) (p q : jsstring) (n : Node) :
  p <> q -> fs.lookup (fs.store d p n) q = fs.lookup d q.
Proof.
  intros Hpq. induction d as [|[x m] d IH]; cbn [fs.store fs.lookup].
  - now rewrite (streq_neq _ _ Hpq).
  - destruct (streq x p) eqn:E; cbn [fs.lookup].
    + apply streq_eq in E. subst x. now rewrite (streq_neq _ _ Hpq).
    + now rewrite IH.
Qed.

Lemma store_same (d : Disk) (p : jsstring) (n : Node) :
  fs.lookup d p = Some n -> fs.store d p n = d.
Proof.
  induction d as [|[q m] d IH]; cbn [fs.store fs.lookup]; [discriminate|].
  destruct (streq q p) eqn:E.
  - intros H. injection H as ->. reflexivity.
  - intros H. now rewrite IH.
Qed.

Lemma children_store_present (dir : jsstring) (d : Disk) (p : jsstring) (n m : Node) :
  fs.lookup d p = Some m -> fs.children dir (fs.store d p n) = fs.children dir d.
Proof.
  induction d as [|[q k] d IH]; cbn [fs.store fs.lookup]; [discriminate|].
  destruct (streq q p) eqn:E; [reflexivity|].
  intros H. cbn [fs.children]. now rewrite IH.
Qed.

Lemma children_store_absent (dir : jsstring) (d : Disk) (p : jsstring) (n : Node) :
  fs.lookup d p = None ->
  fs.children dir (fs.store d p n)
  = fs.children dir d ++ match fs.childName dir p with
                         | Some x => [x]
                         | None => []
                         end.
Proof.
  induction d as [|[q k] d IH]; cbn [fs.store fs.lookup].
  - intros _. cbn [fs.children]. destruct (fs.childName dir p); reflexivity.
  - destruct (streq q p) eqn:E; [discriminate|].
    intros H. cbn [fs.children]. rewrite (IH H).
    destruct (fs.childName dir q); reflexivity.
Qed.

Lemma childName_inv (dir p name : jsstring) :
  fs.childName dir p = Some name ->
  name <> [] /\ forallb path.notSlash name = true /\ exists pre, p = pre ++ name.
Proof.
  unfold fs.childName.
  set (prefix := if endsWith dir (lit "/") then dir else dir ++ lit "/").
  destruct (startsWith p prefix) eqn:E; [|discriminate].
  apply startsWith_inv in E as (r & ->). rewrite skipn_app_length.
  destruct (streq r []) eqn:E1; [discriminate|].
  destruct (existsb path.isSlash r) eqn:E2; [discriminate|].
  cbn [negb andb]. intros H. injection H as <-.
  split; [intros ->; discriminate E1|]. split; [|now exists prefix].
  rewrite forallb_forall. intros x Hx. unfold path.notSlash.
  destruct (path.isSlash x) eqn:E3; [|reflexivity].
  assert (existsb path.isSlash r = true) by (apply existsb_exists; eauto).
  congruence.
Qed.

Lemma children_names (dir : jsstring) (d : Disk) (name : jsstring) :
  In name (fs.children dir d) ->
  name <> [] /\ forallb path.notSlash name = true.
Proof.
  induction d as [|[q k] d IH]; cbn [fs.children]; [intros []|].
  destruct (fs.childName dir q) as [x|] eqn:E; [|exact IH].
  intros [<-|H]; [|now apply IH].
  apply childName_inv in E as (H1 & H2 & _). now split.
Qed.

Lemma backupPath_neq (h : jsstring) : backupPath h <> h.
Proof.
  unfold backupPath. intros H. apply (f_equal (@length _)) in H.
  rewrite length_app in H. simpl in H. lia.
Qed.

Lemma backupPath_inj (h h' : jsstring) : backupPath h = backupPath h' -> h = h'.
Proof. unfold backupPath. apply app_inv_tail. Qed.

Lemma backupPath_backup (h : jsstring) : endsWith (backupPath h) (lit ".backup") = true.
Proof. apply endsWith_app. Qed.

Lemma html_neq_backupPath (h h' : jsstring) :
  endsWith h (lit ".html") = true -> h <> backupPath h'.
Proof.
  intros H E. apply html_not_backup in H. rewrite E, backupPath_backup in H.
  discriminate H.
Qed.

(** *** Writes keep the listing of HTML files *)

Lemma kind_file (o : option Node) :
  kind o = Some true -> exists data r w, o = Some (File data r w).
Proof. destruct o as [[data r w|]|]; try discriminate. intros _. eauto. Qed.

Lemma touch_kind_existing (d d' : Disk) (q : jsstring) :
  Touch d d' -> fs.lookup d q <> None -> kind (fs.lookup d' q) = kind (fs.lookup d q).
Proof.
  intros [p n Hp Hn|p n Hp _ Hn] Hq.
  - destruct (list_eq_dec N.eq_dec p q) as [->|Hne].
    + now rewrite lookup_store_eq, Hp, Hn.
    + now rewrite lookup_store_neq.
  - destruct (list_eq_dec N.eq_dec p q) as [->|Hne]; [contradiction|].
    now rewrite lookup_store_neq.
Qed.

Lemma touch_kind_not_backup (d d' : Disk) (q : jsstring) :
  Touch d d' -> endsWith q (lit ".backup") = false ->
  kind (fs.lookup d' q) = kind (fs.lookup d q).
Proof.
  intros [p n Hp Hn|p n Hp Hb Hn] Hq.
  - destruct (list_eq_dec N.eq_dec p q) as [->|Hne].
    + now rewrite lookup_store_eq, Hp, Hn.
    + now rewrite lookup_store_neq.
  - destruct (list_eq_dec N.eq_dec p q) as [->|Hne]; [congruence|].
    now rewrite lookup_store_neq.
Qed.

Lemma touch_html_names (d d' : Disk) (dir : jsstring) :
  Touch d d' ->
  filter isHtmlName (fs.children dir d') = filter isHtmlName (fs.children dir d).
Proof.
  intros [p n Hp Hn|p n Hp Hb Hn].
  - apply kind_file in Hp as (data & r & w & Hp).
    now rewrite (children_store_present dir d p n _ Hp).
  - rewrite (children_store_absent dir d p n Hp), filter_app.
    destruct (fs.childName dir p) as [x|] eqn:E; [|now rewrite app_nil_r].
    cbn [filter]. destruct (isHtmlName x) eqn:Ex; [|now rewrite app_nil_r].
    exfalso. apply childName_inv in E as (_ & _ & pre & ->).
    apply endsWith_inv in Ex as (r & ->).
    rewrite app_assoc in Hb.
    pose proof (html_not_backup _ (endsWith_app (pre ++ r) (lit ".html"))).
    congruence.
Qed.

Lemma filterIsFile_kind (d d' : Disk) (ps : list jsstring) :
  (forall q, In q ps -> kind (fs.lookup d' q) = kind (fs.lookup d q)) ->
  filterIsFile d' ps = filterIsFile d ps.
Proof.
  induction ps as [|p ps IH]; [reflexivity|].
  intros H. cbn [filterIsFile].
  assert (E : fs.statIsFile d' p = fs.statIsFile d p).
  { specialize (H p (or_introl eq_refl)). unfold fs.statIsFile.
    destruct (fs.lookup d' p) as [[| ]|], (fs.lookup d p) as [[| ]|];
      try discriminate H; reflexivity. }
  rewrite E, IH; [reflexivity|]. intros q Hq. apply H. now right.
Qed.

Lemma htmlCandidates_html (c : Converter) (d : Disk) (q : jsstring) :
  In q (map (fun file => path.join [htmlDir c; file])
          (filter isHtmlName (fs.children (htmlDir c) d))) ->
  endsWith q (lit ".html") = true.
Proof.
  intros H. apply in_map_iff in H as (file & <- & Hf).
  apply filter_In in Hf as [Hin Hh].
  apply children_names in Hin as [H1 H2].
  now apply join_html_name.
Qed.

Lemma filterIsFile_subset (d : Disk) (ps r : list jsstring) :
  filterIsFile d ps = Ok r ->
  forall q, In q r -> In q ps /\ kind (fs.lookup d q) = Some true.
Proof.
  revert r. induction ps as [|p ps IH]; intros r; cbn [filterIsFile].
  - intros H. injection H as <-. intros q [].
  - unfold fs.statIsFile at 1.
    destruct (fs.lookup d p) as [[data rd w|]|] eqn:E; [| |discriminate];
      destruct (filterIsFile d ps) as [r'|]; try discriminate;
      intros H; injection H as <-; intros q Hq.
    + destruct Hq as [<-|Hq].
      * split; [now left | now rewrite E].
      * destruct (IH r' eq_refl q Hq). split; [now right | assumption].
    + destruct (IH r' eq_refl q Hq). split; [now right | assumption].
Qed.

(** The HTML files found are regular files whose path ends with [.html]. *)
Lemma findHtmlFiles_html (c : Converter) (d : Disk) (h : jsstring) :
  In h (findHtmlFiles c d) ->
  endsWith h (lit ".html") = true /\ kind (fs.lookup d h) = Some true.
Proof.
  unfold findHtmlFiles, fs.readdirSync.
  destruct (fs.lookup d (htmlDir c)) as [[| ]|]; try (intros []).
  destruct (filterIsFile d _) as [r|] eqn:E; [|intros []].
  intros H. destruct (filterIsFile_subset _ _ _ E h H) as [H1 H2].
  split; [|exact H2]. now apply (htmlCandidates_html c d).
Qed.

Lemma findHtmlFiles_touch (c : Converter) (d d' : Disk) :
  Touch d d' -> findHtmlFiles c d' = findHtmlFiles c d.
Proof.
  intros T. unfold findHtmlFiles, fs.readdirSync.
  destruct (fs.lookup d (htmlDir c)) as [[data r w|]|] eqn:E.
  - assert (K : kind (fs.lookup d' (htmlDir c)) = Some true).
    { rewrite (touch_kind_existing d d' _ T), E; [reflexivity | congruence]. }
    apply kind_file in K as (data' & r' & w' & ->). reflexivity.
  - assert (K : kind (fs.lookup d' (htmlDir c)) = Some false).
    { rewrite (touch_kind_existing d d' _ T), E; [reflexivity | congruence]. }
    destruct (fs.lookup d' (htmlDir c)) as [[| ]|]; try discriminate K.
    rewrite (touch_html_names d d' (htmlDir c) T).
    rewrite (filterIsFile_kind d d'); [reflexivity|].
    intros q Hq. apply (touch_kind_not_backup d d' q T).
    apply html_not_backup. now apply (htmlCandidates_html c d).
  - destruct T as [p n Hp Hn|p n Hp Hb Hn].
    + rewrite lookup_store_neq, E; [reflexivity|].
      intros ->. rewrite E in Hp. discriminate Hp.
    + destruct (list_eq_dec N.eq_dec p (htmlDir c)) as [->|Hne].
      * rewrite lookup_store_eq. destruct n; [reflexivity | discriminate Hn].
      * now rewrite lookup_store_neq, E.
Qed.

Lemma findHtmlFiles_touches (c : Converter) (d d' : Disk) :
  Touches d d' -> findHtmlFiles c d' = findHtmlFiles c d.
Proof.
  induction 1 as [|d d1 d2 T _ IH]; [reflexivity|].
  now rewrite IH, (findHtmlFiles_touch c d d1 T).
Qed.

Lemma Touches_trans (d1 d2 d3 : Disk) :
  Touches d1 d2 -> Touches d2 d3 -> Touches d1 d3.
Proof.
  induction 1 as [|d d1 d2 T _ IH]; [auto|].
  intros H. eapply TouchesStep; eauto.
Qed.

Lemma Touches_one (d d' : Disk) : Touch d d' -> Touches d d'.
Proof. intros T. eapply TouchesStep; [exact T | apply TouchesRefl]. Qed.

Lemma html_backup_neq (h p : jsstring) :
  endsWith h (lit ".html") = true -> endsWith p (lit ".backup") = true -> h <> p.
Proof. intros H1 H2 ->. apply html_not_backup in H1. congruence. Qed.

Lemma lookup_unlink_eq (d : Disk) (p : jsstring) : fs.lookup (fs.unlink d p) p = None.
Proof.
  unfold fs.unlink. induction d as [|[q m] d IH]; cbn [filter fst]; [reflexivity|].
  destruct (streq q p) eqn:E; cbn [negb]; [exact IH|].
  cbn [fs.lookup]. now rewrite E.
Qed.

Lemma lookup_unlink_neq (d : Disk) (p q : jsstring) :
  p <> q -> fs.lookup (fs.unlink d p) q = fs.lookup d q.
Proof.
  intros Hpq. unfold fs.unlink.
  induction d as [|[x m] d IH]; cbn [filter fst fs.lookup]; [reflexivity|].
  destruct (streq x p) eqn:E; cbn [negb].
  - apply streq_eq in E. subst x. now rewrite (streq_neq _ _ Hpq).
  - cbn [fs.lookup]. now rewrite IH.
Qed.

Lemma children_unlink (dir : jsstring) (d : Disk) (p name : jsstring) :
  In name (fs.children dir (fs.unlink d p)) -> In name (fs.children dir d).
Proof.
  unfold fs.unlink. induction d as [|[x m] d IH]; cbn [filter fst]; [intros []|].
  destruct (streq x p); cbn [negb fs.children].
  - intros H. destruct (fs.childName dir x); [right|]; now apply IH.
  - destruct (fs.childName dir x); [|exact IH].
    intros [<-|H]; [now left | right; now apply IH].
Qed.

Lemma filterIsFile_In (d : Disk) (ps r : list jsstring) (q : jsstring) :
  filterIsFile d ps = Ok r -> In q ps -> kind (fs.lookup d q) = Some true -> In q r.
Proof.
  revert r. induction ps as [|p ps IH]; intros r; cbn [filterIsFile]; [intros _ []|].
  unfold fs.statIsFile at 1.
  destruct (fs.lookup d p) as [[data rd w|]|] eqn:E; [| |discriminate];
    destruct (filterIsFile d ps) as [r'|]; try discriminate;
    intros H; injection H as <-; intros [->|Hq] K.
  - now left.
  - right. now apply IH.
  - rewrite E in K. discriminate K.
  - now apply IH.
Qed.

(** ** The effect of processing and of restoring one file *)

Lemma processHtmlFile_effect (c : Converter) (d : Disk) (h : jsstring) :
  FileEffect c d h (snd (processHtmlFile c d h)).
Proof.
  unfold processHtmlFile.
  destruct (fs.readFileSyncUtf8 d h) as [content|e] eqn:R; [|apply EffectNone].
  destruct (rewritePasses d content c) as [new [c1 modified]] eqn:P.
  destruct modified; [|apply EffectNone].
  assert (M : fileModified c d h = true).
  { unfold fileModified. now rewrite R, P. }
  unfold fs.readFileSyncUtf8, fs.readFileSync in R.
  destruct (fs.lookup d h) as [[data r w|]|] eqn:Eh; try discriminate R.
  destruct r; [|discriminate R].
  unfold fs.existsSync.
  destruct (fs.lookup d (backupPath h)) as [n|] eqn:Eb; cbn [negb].
  - unfold fs.writeFileSync. rewrite Eh.
    destruct w; [|apply EffectNone].
    cbn [snd]. eapply EffectWrite; eassumption.
  - unfold fs.copyFileSync. rewrite Eh, Eb.
    unfold fs.writeFileSync.
    rewrite (lookup_store_neq d _ _ _ (backupPath_neq h)), Eh.
    destruct w; cbn [snd].
    + now apply EffectBackupWrite.
    + now apply EffectBackupOnly.
Qed.

Lemma restoreFile_effect (n : nat) (d : Disk) (h : jsstring) :
  RestoreEffect d h (snd (restoreFile (n, d) h)).
Proof.
  unfold restoreFile, fs.existsSync, fs.copyFileSync.
  destruct (fs.lookup d (backupPath h)) as [[data r w|]|] eqn:Eb;
    try apply RestoreNone.
  - destruct r; [|apply RestoreNone].
    destruct (fs.lookup d h) as [[data' r' w'|]|]; try apply RestoreNone.
    + destruct w'; [|apply RestoreNone]. now apply RestoreCopy.
    + now apply RestoreCopy.
  - destruct (fs.lookup d h) as [[data' r' w'|]|] eqn:Eh; try apply RestoreNone.
    destruct w'; [|apply RestoreNone]. cbn [snd].
    eapply RestoreUnlink; eassumption.
Qed.

Lemma FileEffect_touches (c : Converter) (d : Disk) (h : jsstring) (d' : Disk) :
  FileEffect c d h d' -> Touches d d'.
Proof.
  intros [|data M Eb Eh|data new M Eb Eh|data new n M Eb Eh].
  - apply TouchesRefl.
  - apply Touches_one. apply TouchBackup; auto using backupPath_backup.
  - apply TouchesStep with (d1 := fs.store d (backupPath h) (File data true true)).
    + apply TouchBackup; [exact Eb | apply backupPath_backup | reflexivity].
    + apply Touches_one. apply TouchFile; [|reflexivity].
      now rewrite (lookup_store_neq d _ _ _ (backupPath_neq h)), Eh.
  - apply Touches_one. apply TouchFile; [now rewrite Eh | reflexivity].
Qed.

Lemma touches_kind_existing (d d' : Disk) (q : jsstring) :
  Touches d d' -> fs.lookup d q <> None ->
  kind (fs.lookup d' q) = kind (fs.lookup d q).
Proof.
  induction 1 as [|d d1 d2 T _ IH]; [reflexivity|].
  intros Hq. pose proof (touch_kind_existing d d1 q T Hq) as K.
  rewrite IH, K; [reflexivity|].
  intros E. rewrite E in K. destruct (fs.lookup d q) as [[| ]|]; try discriminate K.
  now apply Hq.
Qed.

Lemma processAll_inv (I : Disk -> Prop) (files : list jsstring) :
  (forall c d h, In h files -> I d -> I (snd (processHtmlFile c d h))) ->
  forall c d, I d -> I (snd (processAll c d files)).
Proof.
  induction files as [|h files IH]; intros Hstep c d Hd; [exact Hd|].
  cbn [processAll].
  pose proof (Hstep c d h (or_introl eq_refl) Hd) as H1.
  destruct (processHtmlFile c d h) as [c' d']. cbn [snd] in H1.
  apply IH; [|exact H1]. intros c0 d0 h0 Hin. apply Hstep. now right.
Qed.

Lemma processAll_touches (files : list jsstring) (c : Converter) (d : Disk) :
  Touches d (snd (processAll c d files)).
Proof.
  apply (processAll_inv (fun x => Touches d x)); [|apply TouchesRefl].
  intros c0 d0 h _ H. eapply Touches_trans; [exact H|].
  apply (FileEffect_touches c0 d0 h). apply processHtmlFile_effect.
Qed.

Lemma run_touches (c : Converter) (d : Disk) : Touches d (snd (snd (run c d))).
Proof.
  unfold run. destruct (negb (fs.existsSync d (assetsDir c))); [apply TouchesRefl|].
  destruct (listAvailableImages c d); [apply TouchesRefl|].
  destruct (findHtmlFiles c d); [apply TouchesRefl|].
  apply processAll_touches.
Qed.

(** An invariant of every step of [run] on an HTML file holds after the
    run. *)
Lemma run_inv (I : Disk -> Prop) (c : Converter) (d : Disk) :
  (forall c0 d0 h, endsWith h (lit ".html") = true -> I d0 ->
                   I (snd (processHtmlFile c0 d0 h))) ->
  I d -> I (snd (snd (run c d))).
Proof.
  intros Hstep Hd. unfold run.
  destruct (negb (fs.existsSync d (assetsDir c))); [exact Hd|].
  destruct (listAvailableImages c d); [exact Hd|].
  destruct (findHtmlFiles c d) as [|h files] eqn:E; [exact Hd|].
  cbn [snd]. apply processAll_inv; [|exact Hd].
  intros c0 d0 h0 Hin. apply Hstep.
  rewrite <- E in Hin. now apply (findHtmlFiles_html c d).
Qed.

Lemma fold_restore_inv (I : Disk -> Prop) (files : list jsstring) :
  (forall n d h, In h files -> I d -> I (snd (restoreFile (n, d) h))) ->
  forall st, I (snd st) -> I (snd (fold_left restoreFile files st)).
Proof.
  induction files as [|h files IH]; intros Hstep st Hst; [exact Hst|].
  cbn [fold_left]. apply IH.
  - intros n d h0 Hin. apply Hstep. now right.
  - destruct st as [n d]. apply Hstep; [now left | exact Hst].
Qed.

(** A property [R] that restoring [h] establishes, and that the other
    steps keep, holds after the loop when [h] is one of the files. *)
Lemma fold_restore_reach (I R : Disk -> Prop) (h : jsstring) (files : list jsstring) :
  (forall n d h', In h' files -> I d -> I (snd (restoreFile (n, d) h'))) ->
  (forall n d h', In h' files -> I d -> R d -> R (snd (restoreFile (n, d) h'))) ->
  (forall n d, I d -> R (snd (restoreFile (n, d) h))) ->
  forall st, I (snd st) -> In h files \/ R (snd st) ->
             R (snd (fold_left restoreFile files st)).
Proof.
  induction files as [|h' files IH]; intros HI HR Hh st Hst Hor.
  - destruct Hor as [[]|Hr]. exact Hr.
  - cbn [fold_left]. destruct st as [n d]. cbn [snd] in *. apply IH.
    + intros n0 d0 h0 Hin. apply HI. now right.
    + intros n0 d0 h0 Hin. apply HR. now right.
    + exact Hh.
    + apply HI; [now left | exact Hst].
    + destruct Hor as [[->|Hin]|Hr].
      * right. now apply Hh.
      * now left.
      * right. apply HR; [now left | exact Hst | exact Hr].
Qed.

(** What the loop of [restore] keeps: the paths that end with [.backup]
    and the paths that are no HTML file of the directory hold what they
    held; an HTML file found is still a regular file, or it is gone and
    its backup is a directory; and no name is added to a directory. *)
Lemma restore_keeps (c : Converter) (d : Disk) :
  let d1 := snd (restore c d) in
  (forall p, endsWith p (lit ".backup") = true -> fs.lookup d1 p = fs.lookup d p)
  /\ (forall q, ~ In q (findHtmlFiles c d) -> fs.lookup d1 q = fs.lookup d q)
  /\ (forall h, In h (findHtmlFiles c d) ->
        kind (fs.lookup d1 h) = Some true
        \/ (fs.lookup d1 h = None /\ fs.lookup d (backupPath h) = Some Dir))
  /\ (forall dir name, In name (fs.children dir d1) -> In name (fs.children dir d)).
Proof.
  cbn zeta. unfold restore.
  assert (Hhtml : forall h, In h (findHtmlFiles c d) -> endsWith h (lit ".html") = true).
  { intros h Hin. now apply (findHtmlFiles_html c d). }
  apply (fold_restore_inv
           (fun x =>
              (forall p, endsWith p (lit ".backup") = true ->
                         fs.lookup x p = fs.lookup d p)
              /\ (forall q, ~ In q (findHtmlFiles c d) -> fs.lookup x q = fs.lookup d q)
              /\ (forall h, In h (findHtmlFiles c d) ->
                    kind (fs.lookup x h) = Some true
                    \/ (fs.lookup x h = None /\ fs.lookup d (backupPath h) = Some Dir))
              /\ (forall dir name, In name (fs.children dir x) ->
                                   In name (fs.children dir d)))).
  - intros n d0 h Hin (A & B & C & D).
    pose proof (Hhtml h Hin) as Hh.
    assert (Eb0 : fs.lookup d0 (backupPath h) = fs.lookup d (backupPath h))
      by (apply A, backupPath_backup).
    destruct (restoreFile_effect n d0 h) as [|data w Eb|data r Eb Eh].
    + now repeat split.
    + assert (K : kind (fs.lookup d0 h) = Some true).
      { destruct (C h Hin) as [K|[_ K]]; [exact K | congruence]. }
      apply kind_file in K as (data0 & r0 & w0 & Eh).
      split; [|split; [|split]].
      * intros p Hp. rewrite lookup_store_neq; [now apply A|].
        now apply html_backup_neq.
      * intros q Hq. rewrite lookup_store_neq; [now apply B|].
        intros ->. contradiction.
      * intros h' Hin'. destruct (list_eq_dec N.eq_dec h h') as [<-|Hne].
        -- left. now rewrite lookup_store_eq.
        -- rewrite lookup_store_neq by exact Hne. now apply C.
      * intros dir name. rewrite (children_store_present dir d0 h _ _ Eh). apply D.
    + split; [|split; [|split]].
      * intros p Hp. rewrite lookup_unlink_neq; [now apply A|].
        now apply html_backup_neq.
      * intros q Hq. rewrite lookup_unlink_neq; [now apply B|].
        intros ->. contradiction.
      * intros h' Hin'. destruct (list_eq_dec N.eq_dec h h') as [<-|Hne].
        -- right. split; [apply lookup_unlink_eq | congruence].
        -- rewrite lookup_unlink_neq by exact Hne. now apply C.
      * intros dir name Hn. apply D. now apply (children_unlink dir d0 h).
  - cbn [snd]. split; [reflexivity|]. split; [reflexivity|]. split; [|auto].
    intros h Hin. left. now apply (findHtmlFiles_html c d).
Qed.

(** The HTML files found after a restore were found before it. *)
Lemma findHtmlFiles_restore (c : Converter) (d : Disk) (h : jsstring) :
  In h (findHtmlFiles c (snd (restore c d))) -> In h (findHtmlFiles c d).
Proof.
  destruct (restore_keeps c d) as (_ & B & C & D).
  destruct (findHtmlFiles c d) as [|h0 found] eqn:E.
  { unfold restore. rewrite E. cbn [fold_left snd]. now rewrite E. }
  rewrite <- E in *. clear E h0 found.
  set (d1 := snd (restore c d)) in *. intros H.
  assert (K : forall q, kind (fs.lookup d1 q) = Some true ->
                        kind (fs.lookup d q) = Some true).
  { intros q Kq. destruct (in_dec (list_eq_dec N.eq_dec) q (findHtmlFiles c d)) as [Hq|Hq].
    - now apply (findHtmlFiles_html c d).
    - now rewrite <- (B q Hq). }
  revert H. unfold findHtmlFiles, fs.readdirSync.
  destruct (fs.lookup d1 (htmlDir c)) as [[| ]|] eqn:E1; try (intros []).
  destruct (fs.lookup d (htmlDir c)) as [[| ]|] eqn:E0.
  - exfalso. assert (Hn : ~ In (htmlDir c) (findHtmlFiles c d)).
    { unfold findHtmlFiles, fs.readdirSync. rewrite E0. intros []. }
    rewrite (B _ Hn), E0 in E1. discriminate E1.
  - destruct (filterIsFile d1 _) as [r1|] eqn:F1; [|intros []].
    intros H. destruct (filterIsFile_subset _ _ _ F1 h H) as [H1 H2].
    destruct (filterIsFile d _) as [r|] eqn:F0.
    + apply (filterIsFile_In _ _ _ h F0); [|now apply K].
      apply in_map_iff in H1 as (file & <- & Hf).
      apply in_map_iff. exists file. split; [reflexivity|].
      apply filter_In in Hf as [Hin Hh]. apply filter_In. split; [|exact Hh].
      now apply D.
    + exfalso. assert (Hn : ~ In h (findHtmlFiles c d)).
      { unfold findHtmlFiles, fs.readdirSync. rewrite E0, F0. intros []. }
      assert (Ed : d1 = d).
      { unfold d1, restore. unfold findHtmlFiles, fs.readdirSync. now rewrite E0, F0. }
      rewrite Ed in F1. congruence.
  - exfalso. assert (Hn : ~ In (htmlDir c) (findHtmlFiles c d)).
    { unfold findHtmlFiles, fs.readdirSync. rewrite E0. intros []. }
    rewrite (B _ Hn), E0 in E1. discriminate E1.
Qed.

Lemma restoreFile_copies (n : nat) (d : Disk) (h : jsstring)
    (data : list byte) (w : bool) :
  fs.lookup d (backupPath h) = Some (File data true w) ->
  (exists data' r', fs.lookup d h = Some (File data' r' true))
  \/ fs.lookup d h = Some (File data true w) ->
  fs.lookup (snd (restoreFile (n, d) h)) h = Some (File data true w).
Proof.
  intros Eb H. unfold restoreFile, fs.existsSync, fs.copyFileSync. rewrite Eb.
  destruct H as [(data' & r' & Eh)|Eh]; rewrite Eh.
  - cbn [snd]. apply lookup_store_eq.
  - destruct w; cbn [snd]; [apply lookup_store_eq | exact Eh].
Qed.

(** An HTML file found that can be written and whose backup is a readable
    regular file holds the backup's bytes and mode after [restore],
    whatever happens to the other files. *)
Lemma restore_copies_back (c : Converter) (d : Disk) (h : jsstring)
    (data : list byte) (w : bool) :
  In h (findHtmlFiles c d) ->
  fs.lookup d (backupPath h) = Some (File data true w) ->
  (exists data' r', fs.lookup d h = Some (File data' r' true)) ->
  fs.lookup (snd (restore c d)) h = Some (File data true w).
Proof.
  assert (Hhtml : forall h, In h (findHtmlFiles c d) -> endsWith h (lit ".html") = true).
  { intros h0 Hin. now apply (findHtmlFiles_html c d). }
  intros Hin Eb Hw. unfold restore.
  pose proof (Hhtml h Hin) as Hh.
  apply (fold_restore_reach
           (fun x => fs.lookup x (backupPath h) = Some (File data true w)
                     /\ ((exists data' r', fs.lookup x h = Some (File data' r' true))
                         \/ fs.lookup x h = Some (File data true w)))
           (fun x => fs.lookup x h = Some (File data true w)) h
           (findHtmlFiles c d)).
  - intros n d0 h' Hin' [I1 I2].
    assert (N3 : h' <> backupPath h) by (apply html_neq_backupPath; now apply Hhtml).
    destruct (restoreFile_effect n d0 h') as [|data0 w0 Eb0|data0 r0 Eb0 Eh0];
      [now split| |].
    + rewrite (lookup_store_neq _ _ _ _ N3). split; [exact I1|].
      destruct (list_eq_dec N.eq_dec h' h) as [->|Hne].
      * rewrite lookup_store_eq. right. congruence.
      * now rewrite (lookup_store_neq _ _ _ _ Hne).
    + rewrite (lookup_unlink_neq _ _ _ N3). split; [exact I1|].
      destruct (list_eq_dec N.eq_dec h' h) as [->|Hne]; [congruence|].
      now rewrite (lookup_unlink_neq _ _ _ Hne).
  - intros n d0 h' Hin' [I1 I2] R.
    destruct (restoreFile_effect n d0 h') as [|data0 w0 Eb0|data0 r0 Eb0 Eh0];
      [exact R| |].
    + destruct (list_eq_dec N.eq_dec h' h) as [->|Hne].
      * rewrite lookup_store_eq. congruence.
      * now rewrite (lookup_store_neq _ _ _ _ Hne).
    + destruct (list_eq_dec N.eq_dec h' h) as [->|Hne]; [congruence|].
      now rewrite (lookup_unlink_neq _ _ _ Hne).
  - intros n d0 [I1 I2]. now apply restoreFile_copies.
  - cbn [snd]. split; [exact Eb | now left].
  - now left.
Qed.

(** An HTML file found that can be written and whose backup path is a
    directory is gone after [restore]. *)
Lemma restore_unlinks (c : Converter) (d : Disk) (h : jsstring) :
  In h (findHtmlFiles c d) ->
  fs.lookup d (backupPath h) = Some Dir ->
  (exists data' r', fs.lookup d h = Some (File data' r' true)) ->
  fs.lookup (snd (restore c d)) h = None.
Proof.
  assert (Hhtml : forall h, In h (findHtmlFiles c d) -> endsWith h (lit ".html") = true).
  { intros h0 Hin. now apply (findHtmlFiles_html c d). }
  intros Hin Eb Hw. unfold restore.
  apply (fold_restore_reach
           (fun x => fs.lookup x (backupPath h) = Some Dir
                     /\ ((exists data' r', fs.lookup x h = Some (File data' r' true))
                         \/ fs.lookup x h = None))
           (fun x => fs.lookup x h = None) h (findHtmlFiles c d)).
  - intros n d0 h' Hin' [I1 I2].
    assert (N3 : h' <> backupPath h) by (apply html_neq_backupPath; now apply Hhtml).
    destruct (restoreFile_effect n d0 h') as [|data0 w0 Eb0|data0 r0 Eb0 Eh0];
      [now split| |].
    + rewrite (lookup_store_neq _ _ _ _ N3). split; [exact I1|].
      destruct (list_eq_dec N.eq_dec h' h) as [->|Hne]; [congruence|].
      now rewrite (lookup_store_neq _ _ _ _ Hne).
    + rewrite (lookup_unlink_neq _ _ _ N3). split; [exact I1|].
      destruct (list_eq_dec N.eq_dec h' h) as [->|Hne].
      * right. apply lookup_unlink_eq.
      * now rewrite (lookup_unlink_neq _ _ _ Hne).
  - intros n d0 h' Hin' [I1 I2] R.
    destruct (restoreFile_effect n d0 h') as [|data0 w0 Eb0|data0 r0 Eb0 Eh0];
      [exact R| |].
    + destruct (list_eq_dec N.eq_dec h' h) as [->|Hne]; [congruence|].
      now rewrite (lookup_store_neq _ _ _ _ Hne).
    + destruct (list_eq_dec N.eq_dec h' h) as [->|Hne].
      * apply lookup_unlink_eq.
      * now rewrite (lookup_unlink_neq _ _ _ Hne).
  - intros n d0 [I1 I2]. unfold restoreFile, fs.existsSync, fs.copyFileSync.
    rewrite I1. destruct I2 as [(data' & r' & Eh)|Eh]; rewrite Eh; cbn [snd].
    + apply lookup_unlink_eq.
    + exact Eh.
  - cbn [snd]. split; [exact Eb | now left].
  - now left.
Qed.

(** A run keeps a backup that exists, and a file that could be written
    can still be written after it. *)
Lemma run_keeps_backup (c : Converter) (d : Disk) (h : jsstring) (n : Node) :
  endsWith h (lit ".html") = true ->
  fs.lookup d (backupPath h) = Some n ->
  (exists data r, fs.lookup d h = Some (File data r true)) ->
  fs.lookup (snd (snd (run c d))) (backupPath h) = Some n
  /\ exists data r, fs.lookup (snd (snd (run c d))) h = Some (File data r true).
Proof.
  intros Hh Eb Hw.
  apply (run_inv (fun x => fs.lookup x (backupPath h) = Some n
                           /\ exists data r, fs.lookup x h = Some (File data r true)));
    [|now split].
  intros c0 d0 h0 Hh0 [I1 I2].
  assert (Hb : h <> backupPath h) by (intros X; symmetry in X; now apply backupPath_neq in X).
  destruct (list_eq_dec N.eq_dec h0 h) as [->|Hne].
  - destruct (processHtmlFile_effect c0 d0 h) as [|data M E1 E2|data new M E1 E2|data new n0 M E1 E2];
      try congruence; [now split|].
    rewrite (lookup_store_neq _ _ _ _ Hb), lookup_store_eq. split; [exact I1 | eauto].
  - assert (N1 : backupPath h0 <> h).
    { intros X. symmetry in X. now apply (html_neq_backupPath h h0 Hh). }
    assert (N2 : backupPath h0 <> backupPath h).
    { intros X. apply backupPath_inj in X. contradiction. }
    assert (N3 : h0 <> backupPath h) by now apply html_neq_backupPath.
    destruct (processHtmlFile_effect c0 d0 h0) as [|data M E1 E2|data new M E1 E2|data new n0 M E1 E2].
    + now split.
    + now rewrite !(lookup_store_neq _ _ _ _ N1), !(lookup_store_neq _ _ _ _ N2).
    + now rewrite !(lookup_store_neq _ _ _ _ Hne), !(lookup_store_neq _ _ _ _ N3),
        !(lookup_store_neq _ _ _ _ N1), !(lookup_store_neq _ _ _ _ N2).
    + now rewrite !(lookup_store_neq _ _ _ _ Hne), !(lookup_store_neq _ _ _ _ N3).
Qed.

(* ------------------------------------------------------------------ *)
(** * The properties of the specification *)

(** ** C1: what a pass preserves *)

Lemma singleQuotedPage_rewritten :
  fst (rewritePasses (demoDisk singleQuotedPage) singleQuotedPage demo)
  = lit "<img src=" ++ [dquote] ++ lit "data:image/png;base64,QUFB"
      ++ [dquote] ++ lit ">".
Proof. vm_compute. reflexivity. Qed.

(** C1, as stated, fails: the tag [<img src='a.png'>] is rewritten and its
    single quotes become double quotes, so the result is not the tag with
    only the value of src replaced. *)
Lemma C1_counterexample :
  ~ exists value,
      fst (rewritePasses (demoDisk singleQuotedPage) singleQuotedPage demo)
      = lit "<img src='" ++ value ++ lit "'>".
Proof.
  intros [value H]. rewrite singleQuotedPage_rewritten in H.
  cbn [lit list_ascii_of_string map app] in H. discriminate H.
Qed.

(** C1, amended: a pass of the Tag Rewriter cuts the text into pieces
    that it keeps character for character and tags that it rebuilds.  A
    rebuilt tag keeps the attributes captured before and after src
    verbatim and in their order; its opening is written in lower case, the
    white space before src becomes one space, the attribute name becomes
    [src], both quotes become double quotes and the value becomes the
    data URI of the asset. *)
Theorem C1_pass_preserves (tag : string) (d : Disk) (c : Converter)
    (modified : bool) (html : jsstring) :
  exists pieces : list (jsstring * jsstring),
    html = concat (map fst pieces)
    /\ fst (replace (tagRegex tag) (rewriteTag tag d) html (c, modified))
       = concat (map snd pieces)
    /\ Forall (Piece tag c d) pieces.
Proof.
  destruct (replaceSegs_pieces tag d c (scan (tagRegex tag) html) c modified
              (sameConfig_refl c))
    as (pieces & E1 & E2 & HP).
  - intros m. apply scan_hits_shape.
  - exists pieces. split; [|split; assumption].
    now rewrite <- E1, scan_text.
Qed.

(** ** Data URIs are left alone *)

Lemma rewriteTag_data (tag : string) (d : Disk) (st : Converter * bool) (m : TagMatch) :
  hasDataSrc m = true -> rewriteTag tag d st m = (matched m, st).
Proof.
  unfold hasDataSrc, rewriteTag. intros H. destruct st as [c b]. now rewrite H.
Qed.
(** ** C3: convert, then restore *)

(** C3, as stated, fails: a page that has a backup from an earlier
    conversion is converted without refreshing the backup, and restore
    brings back the older text, not the text before this conversion. *)
Lemma C3_counterexample :
  In indexHtml (findHtmlFiles demo staleBackupDisk)
  /\ fs.lookup (snd (restore demo (snd (snd (run demo staleBackupDisk))))) indexHtml
     <> fs.lookup staleBackupDisk indexHtml.
Proof. vm_compute. split; [now left | discriminate]. Qed.

Lemma RoundTripInv_process (h : jsstring) (orig : Node) (c : Converter)
    (d : Disk) (h' : jsstring) :
  endsWith h (lit ".html") = true -> endsWith h' (lit ".html") = true ->
  RoundTripInv h orig d -> RoundTripInv h orig (snd (processHtmlFile c d h')).
Proof.
  intros Hh Hh' Inv.
  pose proof (processHtmlFile_effect c d h') as E.
  destruct (list_eq_dec N.eq_dec h' h) as [->|Hne].
  - pose proof (backupPath_neq h) as Hb.
    assert (Hb' : h <> backupPath h) by (intros X; now apply Hb).
    unfold RoundTripInv in *.
    destruct E as [|data M Eb Eh|data new M Eb Eh|data new n M Eb Eh].
    + exact Inv.
    + destruct Inv as [[_ I2]|[I1 _]]; [|congruence].
      right. rewrite lookup_store_eq, (lookup_store_neq _ _ _ _ Hb).
      split; [congruence | now left].
    + destruct Inv as [[_ I2]|[I1 _]]; [|congruence].
      right. rewrite (lookup_store_neq _ _ _ _ Hb'), !lookup_store_eq.
      split; [congruence|]. right. exists data, new. split; [congruence | reflexivity].
    + destruct Inv as [[I1 _]|[I1 I2]]; [congruence|].
      right. rewrite (lookup_store_neq _ _ _ _ Hb'), lookup_store_eq.
      split; [exact I1|]. right.
      destruct I2 as [I2|(data0 & new0 & -> & I2)].
      * exists data, new. split; [congruence | reflexivity].
      * exists data0, new. split; reflexivity.
  - assert (N1 : backupPath h' <> h).
    { intros X. symmetry in X. now apply (html_neq_backupPath h h' Hh). }
    assert (N2 : backupPath h' <> backupPath h).
    { intros X. apply backupPath_inj in X. contradiction. }
    assert (N3 : h' <> backupPath h) by now apply html_neq_backupPath.
    unfold RoundTripInv in *.
    destruct E as [|data M Eb Eh|data new M Eb Eh|data new n M Eb Eh].
    + exact Inv.
    + now rewrite !(lookup_store_neq _ _ _ _ N1), !(lookup_store_neq _ _ _ _ N2).
    + now rewrite !(lookup_store_neq _ _ _ _ Hne), !(lookup_store_neq _ _ _ _ N3),
        !(lookup_store_neq _ _ _ _ N1), !(lookup_store_neq _ _ _ _ N2).
    + now rewrite !(lookup_store_neq _ _ _ _ Hne), !(lookup_store_neq _ _ _ _ N3).
Qed.

Lemma RoundTripInv_restore (h : jsstring) (orig : Node) (n : nat)
    (d : Disk) (h' : jsstring) :
  endsWith h' (lit ".html") = true ->
  RoundTripInv h orig d -> RoundTripInv h orig (snd (restoreFile (n, d) h')).
Proof.
  intros Hh' Inv.
  assert (N3 : h' <> backupPath h) by now apply html_neq_backupPath.
  destruct (restoreFile_effect n d h') as [|data w Eb|data r Eb Eh]; [exact Inv| |].
  - unfold RoundTripInv in *. rewrite (lookup_store_neq _ _ _ _ N3).
    destruct (list_eq_dec N.eq_dec h' h) as [->|Hne].
    + rewrite lookup_store_eq.
      destruct Inv as [[I1 _]|[I1 _]]; [congruence|].
      right. split; [exact I1|]. left. congruence.
    + now rewrite (lookup_store_neq _ _ _ _ Hne).
  - unfold RoundTripInv in *. rewrite (lookup_unlink_neq _ _ _ N3).
    destruct (list_eq_dec N.eq_dec h' h) as [->|Hne].
    + exfalso. destruct Inv as [[I1 _]|[I1 I2]]; [congruence|].
      rewrite Eb in I1. injection I1 as <-.
      destruct I2 as [I2|(data0 & new & X & _)]; [congruence | discriminate X].
    + now rewrite (lookup_unlink_neq _ _ _ Hne).
Qed.

Lemma restoreFile_round_trip (h : jsstring) (orig : Node) (n : nat) (d : Disk) :
  RoundTripInv h orig d ->
  fs.lookup (snd (restoreFile (n, d) h)) h = Some orig.
Proof.
  unfold RoundTripInv, restoreFile, fs.existsSync, fs.copyFileSync.
  intros [[I1 I2]|[I1 [I2|(data & new & -> & I2)]]]; rewrite I1, ?I2.
  - exact I2.
  - destruct orig as [data r w|]; [|exact I2].
    destruct r; [|exact I2]. destruct w; [|exact I2].
    cbn [snd]. apply lookup_store_eq.
  - cbn [snd]. apply lookup_store_eq.
Qed.

Lemma restoreFile_keeps_restored (h : jsstring) (orig : Node) (n : nat)
    (d : Disk) (h' : jsstring) :
  RoundTripInv h orig d -> fs.lookup d h = Some orig ->
  fs.lookup (snd (restoreFile (n, d) h')) h = Some orig.
Proof.
  intros Inv R. destruct (list_eq_dec N.eq_dec h' h) as [->|Hne].
  - now apply restoreFile_round_trip.
  - destruct (restoreFile_effect n d h') as [|data w Eb|data r Eb Eh]; [exact R| |].
    + now rewrite (lookup_store_neq _ _ _ _ Hne).
    + now rewrite (lookup_unlink_neq _ _ _ Hne).
Qed.

(** C3, amended: for every HTML file found that has no backup when the
    conversion starts, convert followed by restore leaves the file with
    the content (and mode) it had immediately before the conversion.
    When a backup exists already, the conversion keeps it as it is, and
    for a file that can be written restore then brings back the bytes of
    that older backup when it is a readable regular file, and removes the
    file when the backup path is a directory. *)
Theorem C3_round_trip (c : Converter) (d : Disk) (h : jsstring) :
  In h (findHtmlFiles c d) ->
  let d1 := snd (snd (run c d)) in
  let d2 := snd (restore c d1) in
  (fs.lookup d (backupPath h) = None -> fs.lookup d2 h = fs.lookup d h)
  /\ (forall n, fs.lookup d (backupPath h) = Some n ->
                fs.lookup d1 (backupPath h) = Some n
                /\ fs.lookup d2 (backupPath h) = Some n)
  /\ (forall data w,
        fs.lookup d (backupPath h) = Some (File data true w) ->
        (exists data' r', fs.lookup d h = Some (File data' r' true)) ->
        fs.lookup d2 h = Some (File data true w))
  /\ (fs.lookup d (backupPath h) = Some Dir ->
      (exists data' r', fs.lookup d h = Some (File data' r' true)) ->
      fs.lookup d2 h = None).
Proof.
  intros Hin d1 d2.
  destruct (findHtmlFiles_html c d h Hin) as [Hh Hk].
  assert (L : findHtmlFiles c d1 = findHtmlFiles c d)
    by (apply findHtmlFiles_touches, run_touches).
  assert (Hin1 : In h (findHtmlFiles c d1)) by now rewrite L.
  split; [|split; [|split]].
  - intros Hb.
    apply kind_file in Hk as (data & r & w & Eh). rewrite Eh.
    set (orig := File data r w) in *.
    assert (I1 : RoundTripInv h orig d1).
    { apply (run_inv (RoundTripInv h orig)).
      - intros c0 d0 h0 Hh0. now apply RoundTripInv_process.
      - left. now split. }
    unfold d2, restore. rewrite L.
    apply (fold_restore_reach (RoundTripInv h orig)
             (fun x => fs.lookup x h = Some orig) h (findHtmlFiles c d)).
    + intros n d0 h' Hin'. apply RoundTripInv_restore.
      now apply (findHtmlFiles_html c d).
    + intros n d0 h' _. apply restoreFile_keeps_restored.
    + intros n d0. apply restoreFile_round_trip.
    + exact I1.
    + now left.
  - intros n Eb.
    assert (E1 : fs.lookup d1 (backupPath h) = Some n).
    { apply (run_inv (fun x => fs.lookup x (backupPath h) = Some n)); [|exact Eb].
      intros c0 d0 h0 Hh0 I0.
      assert (N3 : h0 <> backupPath h) by now apply html_neq_backupPath.
      destruct (processHtmlFile_effect c0 d0 h0)
        as [|data M E1 E2|data new M E1 E2|data new n0 M E1 E2]; [exact I0| | |].
      + rewrite lookup_store_neq; [exact I0|]. intros X.
        apply backupPath_inj in X. subst h0. congruence.
      + rewrite (lookup_store_neq _ _ _ _ N3), lookup_store_neq; [exact I0|].
        intros X. apply backupPath_inj in X. subst h0. congruence.
      + now rewrite (lookup_store_neq _ _ _ _ N3). }
    split; [exact E1|].
    destruct (restore_keeps c d1) as (A & _). unfold d2.
    rewrite A; [exact E1 | apply backupPath_backup].
  - intros data w Eb Hw.
    destruct (run_keeps_backup c d h _ Hh Eb Hw) as [E1 W1].
    now apply restore_copies_back.
  - intros Eb Hw.
    destruct (run_keeps_backup c d h _ Hh Eb Hw) as [E1 W1].
    now apply restore_unlinks.
Qed.

Lemma C3_round_trip_witness :
  (let d := demoDisk singleQuotedPage in
   fs.lookup (snd (snd (run demo d))) indexHtml <> fs.lookup d indexHtml
   /\ fs.lookup (snd (restore demo (snd (snd (run demo d))))) indexHtml
      = fs.lookup d indexHtml)
  /\ fs.lookup (snd (restore demo (snd (snd (run demo staleBackupDisk))))) indexHtml
     = Some (File (bytesOf "<p>old</p>") true true)
  /\ fs.lookup (snd (restore demo (snd (snd (run demo dirBackupDisk))))) indexHtml
     = None.
Proof.
  split; [|split].
  - intros d. split; [vm_compute; discriminate|].
    assert (Hin : In indexHtml (findHtmlFiles demo d)) by (vm_compute; now left).
    destruct (C3_round_trip demo d indexHtml Hin) as (H & _).
    apply H. vm_compute. reflexivity.
  - assert (Hin : In indexHtml (findHtmlFiles demo staleBackupDisk))
      by (vm_compute; now left).
    destruct (C3_round_trip demo staleBackupDisk indexHtml Hin) as (_ & _ & H & _).
    apply H.
    + vm_compute. reflexivity.
    + exists (utf8Encode singleQuotedPage), true. vm_compute. reflexivity.
  - assert (Hin : In indexHtml (findHtmlFiles demo dirBackupDisk))
      by (vm_compute; now left).
    destruct (C3_round_trip demo dirBackupDisk indexHtml Hin) as (_ & _ & _ & H).
    apply H.
    + vm_compute. reflexivity.
    + exists (utf8Encode singleQuotedPage), true. vm_compute. reflexivity.
Defined.

(** ** C4: the asset resolver *)

Lemma resolve_dot_assets (c : Converter) (pad x : jsstring) :
  forallb isWhiteSpace pad = true ->
  resolveImagePath c (pad ++ lit "./assets/" ++ x)
  = path.join [assetsDir c; trimEnd x].
Proof.
  intros Hpad. unfold resolveImagePath, trim. rewrite (trimStart_pad _ _ Hpad).
  change (trimStart (lit "./assets/" ++ x)) with (lit "./assets" ++ slash :: x).
  rewrite trimEnd_prefix by reflexivity.
  change (lit "./assets" ++ slash :: trimEnd x) with (lit "./assets/" ++ trimEnd x).
  now rewrite startsWith_app, removeFirst_prefix.
Qed.

Lemma resolve_dotdot_assets (c : Converter) (pad x : jsstring) :
  forallb isWhiteSpace pad = true ->
  resolveImagePath c (pad ++ lit "../assets/" ++ x)
  = path.join [assetsDir c; trimEnd x].
Proof.
  intros Hpad. unfold resolveImagePath, trim. rewrite (trimStart_pad _ _ Hpad).
  change (trimStart (lit "../assets/" ++ x)) with (lit "../assets" ++ slash :: x).
  rewrite trimEnd_prefix by reflexivity.
  change (lit "../assets" ++ slash :: trimEnd x) with (lit "../assets/" ++ trimEnd x).
  generalize (trimEnd x). intros t.
  assert (startsWith (lit "../assets/" ++ t) (lit "./assets/") = false) as ->
    by (vm_compute; reflexivity).
  now rewrite startsWith_app, removeFirst_prefix.
Qed.

Lemma resolve_plain_assets (c : Converter) (pad x : jsstring) :
  forallb isWhiteSpace pad = true ->
  resolveImagePath c (pad ++ lit "assets/" ++ x)
  = path.join [assetsDir c; trimEnd x].
Proof.
  intros Hpad. unfold resolveImagePath, trim. rewrite (trimStart_pad _ _ Hpad).
  change (trimStart (lit "assets/" ++ x)) with (lit "assets" ++ slash :: x).
  rewrite trimEnd_prefix by reflexivity.
  change (lit "assets" ++ slash :: trimEnd x) with (lit "assets/" ++ trimEnd x).
  generalize (trimEnd x). intros t.
  assert (startsWith (lit "assets/" ++ t) (lit "./assets/") = false) as ->
    by (vm_compute; reflexivity).
  assert (startsWith (lit "assets/" ++ t) (lit "../assets/") = false) as ->
    by (vm_compute; reflexivity).
  now rewrite startsWith_app, removeFirst_prefix.
Qed.

(** C4: for every [x], with any white space before the prefix and after
    [x], the src strings [./assets/x], [../assets/x] and [assets/x] resolve
    to one and the same path, the join of the assets directory and the
    trimmed [x]; when [x] is a file name and the assets directory is
    absolute, that path lies directly inside the (normalised) assets
    directory under the name [x].  Any other src resolves to the join of
    the assets directory and the base name of the trimmed src, which holds
    no separator.  The resolver does not consult the disk. *)
Theorem C4_resolver (c : Converter) (pad x : jsstring) :
  forallb isWhiteSpace pad = true ->
  resolveImagePath c (pad ++ lit "./assets/" ++ x) = path.join [assetsDir c; trimEnd x]
  /\ resolveImagePath c (pad ++ lit "../assets/" ++ x) = path.join [assetsDir c; trimEnd x]
  /\ resolveImagePath c (pad ++ lit "assets/" ++ x) = path.join [assetsDir c; trimEnd x]
  /\ (isFileName (trimEnd x) = true ->
      startsWith (assetsDir c) (lit "/") = true ->
      fs.childName (path.normalize (assetsDir c))
        (resolveImagePath c (pad ++ lit "./assets/" ++ x))
      = Some (trimEnd x))
  /\ (forall other,
        startsWith (trim other) (lit "./assets/") = false ->
        startsWith (trim other) (lit "../assets/") = false ->
        startsWith (trim other) (lit "assets/") = false ->
        resolveImagePath c other
        = path.join [assetsDir c; path.basename (trim other)]
        /\ forallb path.notSlash (path.basename (trim other)) = true).
Proof.
  intros Hpad. split; [|split; [|split; [|split]]].
  - now apply resolve_dot_assets.
  - now apply resolve_dotdot_assets.
  - now apply resolve_plain_assets.
  - intros Hn Habs. rewrite (resolve_dot_assets c pad x Hpad).
    now apply join_child.
  - intros other H1 H2 H3. split; [|apply basename_notSlash].
    unfold resolveImagePath. now rewrite H1, H2, H3.
Qed.

Lemma C4_resolver_witness :
  resolveImagePath demo (lit "  ./assets/logo.png ") = lit "/w/assets/logo.png"
  /\ resolveImagePath demo (lit "  ../assets/logo.png ") = lit "/w/assets/logo.png"
  /\ resolveImagePath demo (lit "  assets/logo.png ") = lit "/w/assets/logo.png"
  /\ resolveImagePath demo (lit "sub/dir/x.png") = lit "/w/assets/x.png".
Proof.
  destruct (C4_resolver demo (lit "  ") (lit "logo.png ") eq_refl)
    as (E1 & E2 & E3 & _ & E5).
  split; [|split; [|split]].
  - exact E1.
  - exact E2.
  - exact E3.
  - exact (proj1 (E5 (lit "sub/dir/x.png") eq_refl eq_refl eq_refl)).
Defined.
(** ** C5: the backup discipline *)

Lemma FileEffect_backup (c : Converter) (d : Disk) (h : jsstring) (d' : Disk) :
  FileEffect c d h d' ->
  (forall n, fs.lookup d (backupPath h) = Some n ->
             fs.lookup d' (backupPath h) = Some n)
  /\ (fs.lookup d' (backupPath h) <> fs.lookup d (backupPath h) ->
      fileModified c d h = true /\ fs.lookup d (backupPath h) = None
      /\ fs.lookup d' (backupPath h) = fs.lookup d h)
  /\ (fileModified c d h = false -> d' = d).
Proof.
  pose proof (backupPath_neq h) as Hne.
  assert (Hne' : h <> backupPath h) by (intros E; now apply Hne).
  intros [|data M Eb Eh|data new M Eb Eh|data new n M Eb Eh].
  - split; [auto|]. split; [|reflexivity]. intros H. now destruct H.
  - split; [intros n Hn; congruence|]. split; [|congruence].
    intros _. now rewrite lookup_store_eq, Eh.
  - split; [intros n Hn; congruence|]. split; [|congruence].
    intros _. now rewrite (lookup_store_neq _ _ _ _ Hne'), lookup_store_eq, Eh.
  - rewrite (lookup_store_neq _ _ _ _ Hne').
    split; [auto|]. split; [|congruence]. intros H. now destruct H.
Qed.

Lemma FileEffect_keeps_backups (c : Converter) (d : Disk) (h : jsstring) (d' : Disk) :
  FileEffect c d h d' -> endsWith h (lit ".html") = true ->
  forall p n, endsWith p (lit ".backup") = true ->
              fs.lookup d p = Some n -> fs.lookup d' p = Some n.
Proof.
  intros E Hh p n Hp Hn. pose proof (html_backup_neq h p Hh Hp) as Hne.
  destruct E as [|data M Eb Eh|data new M Eb Eh|data new n' M Eb Eh].
  - exact Hn.
  - rewrite lookup_store_neq; [exact Hn|]. intros <-. congruence.
  - rewrite (lookup_store_neq _ _ _ _ Hne), lookup_store_neq; [exact Hn|].
    intros <-. congruence.
  - now rewrite (lookup_store_neq _ _ _ _ Hne).
Qed.

(** C5: processing an HTML file changes its backup only by creating it,
    and that only when a pass modified the text and no backup existed; the
    new backup is then the copy of the file as it was.  An existing backup
    is kept as it is.  When no pass modified the text the disk is left as
    it was: the file is untouched and no backup is created.  Over a whole
    run, every path that ends with [.backup] and exists keeps its node. *)
Theorem C5_backup_discipline (c : Converter) (d : Disk) (h : jsstring) :
  let d' := snd (processHtmlFile c d h) in
  (fs.lookup d' (backupPath h) <> fs.lookup d (backupPath h) ->
   fileModified c d h = true /\ fs.lookup d (backupPath h) = None
   /\ fs.lookup d' (backupPath h) = fs.lookup d h)
  /\ (forall n, fs.lookup d (backupPath h) = Some n ->
                fs.lookup d' (backupPath h) = Some n)
  /\ (fileModified c d h = false -> d' = d)
  /\ (forall p n, endsWith p (lit ".backup") = true ->
                  fs.lookup d p = Some n ->
                  fs.lookup (snd (snd (run c d))) p = Some n).
Proof.
  intros d'.
  destruct (FileEffect_backup c d h d' (processHtmlFile_effect c d h))
    as (H1 & H2 & H3).
  split; [exact H2|]. split; [exact H1|]. split; [exact H3|].
  intros p n Hp Hn.
  apply (run_inv (fun x => fs.lookup x p = Some n)); [|exact Hn].
  intros c0 d0 h0 Hh0 H0.
  exact (FileEffect_keeps_backups c0 d0 h0 _ (processHtmlFile_effect c0 d0 h0)
           Hh0 p n Hp H0).
Qed.

(** A second conversion of a page that has a backup rewrites the page and
    keeps the backup. *)
Lemma C5_backup_discipline_witness :
  let d := staleBackupDisk in
  let d' := snd (processHtmlFile demo d indexHtml) in
  fs.lookup d (backupPath indexHtml) = Some (File (bytesOf "<p>old</p>") true true)
  /\ fs.lookup d' (backupPath indexHtml) = Some (File (bytesOf "<p>old</p>") true true)
  /\ fs.lookup d' indexHtml <> fs.lookup d indexHtml.
Proof.
  intros d d'. split; [vm_compute; reflexivity|]. split.
  - destruct (C5_backup_discipline demo d indexHtml) as (_ & H & _).
    apply H. vm_compute. reflexivity.
  - vm_compute. discriminate.
Defined.


(** ** C6: the encoder *)

Lemma base64Digit_char (n : N) : In (base64Digit n) base64Alphabet.
Proof.
  unfold base64Digit. apply nth_In.
  change (length base64Alphabet) with 64.
  change 63%N with (N.ones 6). rewrite N.land_ones.
  pose proof (N.mod_lt n (2 ^ 6)%N) as H.
  assert (2 ^ 6 <> 0)%N as H0 by discriminate. specialize (H H0).
  change (2 ^ 6)%N with 64%N in *. lia.
Qed.

Lemma base64_chars_fuel (n : nat) :
  forall data : list byte,
    length data <= n -> Forall isBase64Char (base64 data).
Proof.
  induction n as [n IH] using lt_wf_ind. intros data Hlen.
  destruct data as [|a [|b [|c r]]]; cbn [base64].
  - apply Forall_nil.
  - repeat (apply Forall_cons;
            [first [left; apply base64Digit_char | right; reflexivity]|]).
    apply Forall_nil.
  - repeat (apply Forall_cons;
            [first [left; apply base64Digit_char | right; reflexivity]|]).
    apply Forall_nil.
  - repeat (apply Forall_cons; [left; apply base64Digit_char|]).
    apply (IH (length r)); simpl in Hlen; lia.
Qed.

Lemma base64_chars (data : list byte) : Forall isBase64Char (base64 data).
Proof. apply (base64_chars_fuel (length data)). reflexivity. Qed.










(** The extension is looked up without regard to its case. *)
Lemma mimeType_upper_case :
  mimeType (toLowerCase (path.extname (lit "/w/assets/CLIP.MP4"))) = lit "video/mp4"
  /\ mimeType (toLowerCase (path.extname (lit "/w/assets/Photo.JpEg"))) = lit "image/jpeg"
  /\ mimeType (toLowerCase (path.extname (lit "/w/assets/notes.txt"))) = lit "image/png".
Proof. vm_compute. repeat split. Qed.


(** ** C7: soft failures *)

Lemma not_convertible (c : Converter) (d : Disk) (m : TagMatch) :
  includes (supportedExtensions c)
    (toLowerCase (path.extname (resolveImagePath c (src m)))) = false
  \/ fs.existsSync d (resolveImagePath c (src m)) = false
  \/ (exists e, fs.readFileSync d (resolveImagePath c (src m)) = Throw e) ->
  convertible c d m = false.
Proof.
  unfold convertible. intros [H|[H|[e H]]].
  - rewrite H. now rewrite andb_false_r.
  - unfold fs.existsSync in H. unfold fs.readFileSync.
    destruct (fs.lookup d (resolveImagePath c (src m))); [discriminate|].
    apply andb_false_r.
  - rewrite H. apply andb_false_r.
Qed.

(** C7: a tag whose resolved path has an unsupported extension, or names
    no existing file, or names a file that cannot be read, is returned as
    it was matched.  The encoder returns the null sentinel for a missing
    file, and for a failed read after recording the error; the [modified]
    flag is not set; the pass goes on with the segments that follow, and
    a file in which nothing can be rewritten is left as it is while the
    run goes on with the files that follow. *)
Theorem C7_soft_failure_keeps_tag (tag : string) (c : Converter) (d : Disk)
    (modified : bool) (m : TagMatch) (segs : list segment) :
  includes (supportedExtensions c)
    (toLowerCase (path.extname (resolveImagePath c (src m)))) = false
  \/ fs.existsSync d (resolveImagePath c (src m)) = false
  \/ (exists e, fs.readFileSync d (resolveImagePath c (src m)) = Throw e) ->
  (fs.existsSync d (resolveImagePath c (src m)) = false ->
   imageToBase64 c d (resolveImagePath c (src m)) = (None, c))
  /\ (forall e, fs.existsSync d (resolveImagePath c (src m)) = true ->
        fs.readFileSync d (resolveImagePath c (src m)) = Throw e ->
        imageToBase64 c d (resolveImagePath c (src m))
        = (None, pushError c (resolveImagePath c (src m)) e))
  /\ (exists c',
        rewriteTag tag d (c, modified) m = (matched m, (c', modified))
        /\ onlyErrors c c'
        /\ replaceSegs (rewriteTag tag d) (Hit m :: segs) (c, modified)
           = (let (out, st) := replaceSegs (rewriteTag tag d) segs (c', modified) in
              (matched m ++ out, st)))
  /\ (forall h files, nothingToDo c d h = true ->
        exists c', processHtmlFile c d h = (c', d) /\ onlyErrors c c'
                   /\ processAll c d (h :: files) = processAll c' d files).
Proof.
  intros H. split; [|split; [|split]].
  - intros E. unfold imageToBase64. now rewrite E.
  - intros e E R. unfold imageToBase64. now rewrite E, R.
  - destruct (rewriteTag_skip tag c d modified m (not_convertible c d m H))
      as (c' & E & Hc).
    exists c'. split; [exact E | split; [exact Hc|]].
    cbn [replaceSegs]. now rewrite E.
  - intros h files Hh.
    destruct (processHtmlFile_skip c d h Hh) as (c' & E & Hc).
    exists c'. split; [exact E | split; [exact Hc|]].
    cbn [processAll]. now rewrite E.
Qed.

Lemma missingVideo_matched :
  exec videoRegex (lit "<video src='assets/missing.mp4'>") = Some (missingVideo, []).
Proof. vm_compute. reflexivity. Qed.

Lemma C7_soft_failure_keeps_tag_witness :
  fs.existsSync (demoDisk softFailPage) (resolveImagePath demo (src missingVideo)) = false
  /\ exists c',
       rewriteTag "video" (demoDisk softFailPage) (demo, false) missingVideo
       = (matched missingVideo, (c', false)).
Proof.
  split; [vm_compute; reflexivity|].
  destruct (C7_soft_failure_keeps_tag "video" demo (demoDisk softFailPage) false
              missingVideo [])
    as (_ & _ & (c' & E & _) & _).
  - right. left. vm_compute. reflexivity.
  - exists c'. exact E.
Defined.

(** A directory that bears the name of an asset exists and cannot be
    read: the encoder records the error and returns the null sentinel. *)
Lemma imageToBase64_directory :
  imageToBase64 demo (demoDisk []) (lit "/w/assets/dir.png")
  = (None, pushError demo (lit "/w/assets/dir.png") EISDIR).
Proof. vm_compute. reflexivity. Qed.

(** A page whose tags all fail softly: the run completes, writes nothing
    and creates no backup. *)
Lemma softFailPage_run :
  fst (run demo (demoDisk softFailPage)) = Completed
  /\ snd (snd (run demo (demoDisk softFailPage))) = demoDisk softFailPage
  /\ processedFiles (fst (snd (run demo (demoDisk softFailPage)))) = [].
Proof. vm_compute. repeat split. Qed.

(** ** C8: hard failures *)

(** C8, as stated, fails: the check of the assets looks at the names the
    directory lists, not at what they denote.  Here the assets directory
    holds no file at all, only a directory named [dir.png]; the run does
    not return early, rewrites the page with an image that lies outside
    the assets directory, and creates a backup. *)
Lemma C8_counterexample :
  forallb (fun e => match snd e with
                    | File _ _ _ => negb (startsWith (fst e) (assetsDir demo))
                    | Dir => true
                    end) onlyDirAssetDisk = true
  /\ fst (run demo onlyDirAssetDisk) = Completed
  /\ fs.lookup (snd (snd (run demo onlyDirAssetDisk))) indexHtml
     <> fs.lookup onlyDirAssetDisk indexHtml
  /\ fs.lookup onlyDirAssetDisk (backupPath indexHtml) = None
  /\ fs.lookup (snd (snd (run demo onlyDirAssetDisk))) (backupPath indexHtml)
     = fs.lookup onlyDirAssetDisk indexHtml.
Proof. vm_compute. repeat split; discriminate. Qed.

Lemma listAvailableImages_none (c : Converter) (d : Disk) :
  (forall name, In name (fs.children (assetsDir c) d) -> isSupportedName c name = false) ->
  listAvailableImages c d = [].
Proof.
  intros H. unfold listAvailableImages, fs.readdirSync.
  destruct (fs.lookup d (assetsDir c)) as [[| ]|]; try reflexivity.
  assert (E : filter (isSupportedName c) (fs.children (assetsDir c) d) = []).
  { induction (fs.children (assetsDir c) d) as [|x l IH]; [reflexivity|].
    cbn [filter]. rewrite (H x (or_introl eq_refl)). apply IH.
    intros y Hy. apply H. now right. }
  rewrite E. reflexivity.
Qed.

Lemma filterIsFile_nil (d : Disk) : filterIsFile d [] = Ok [].
Proof. reflexivity. Qed.

Lemma findHtmlFiles_none (c : Converter) (d : Disk) :
  (forall name, In name (fs.children (htmlDir c) d) -> isHtmlName name = false) ->
  findHtmlFiles c d = [].
Proof.
  intros H. unfold findHtmlFiles, fs.readdirSync.
  destruct (fs.lookup d (htmlDir c)) as [[| ]|]; try reflexivity.
  assert (E : filter isHtmlName (fs.children (htmlDir c) d) = []).
  { induction (fs.children (htmlDir c) d) as [|x l IH]; [reflexivity|].
    cbn [filter]. rewrite (H x (or_introl eq_refl)). apply IH.
    intros y Hy. apply H. now right. }
  rewrite E. reflexivity.
Qed.

(** C8, amended: when the assets directory does not exist, or it lists no
    name with a supported extension (names of directories count like
    names of files), or the list of available assets is empty, or the
    working directory lists no name that ends with [.html], or no HTML
    file is found in it, [run] returns early: the outcome is one of the
    three early returns, and the disk and the converter are what they
    were, so no HTML file is written and no backup is created. *)
Theorem C8_hard_failures (c : Converter) (d : Disk) :
  fs.existsSync d (assetsDir c) = false
  \/ (forall name, In name (fs.children (assetsDir c) d) ->
        isSupportedName c name = false)
  \/ listAvailableImages c d = []
  \/ (forall name, In name (fs.children (htmlDir c) d) -> isHtmlName name = false)
  \/ findHtmlFiles c d = [] ->
  snd (run c d) = (c, d) /\ fst (run c d) <> Completed.
Proof.
  intros H.
  assert (H' : fs.existsSync d (assetsDir c) = false
               \/ listAvailableImages c d = [] \/ findHtmlFiles c d = []).
  { destruct H as [H|[H|[H|[H|H]]]]; auto.
    - right. left. now apply listAvailableImages_none.
    - right. right. now apply findHtmlFiles_none. }
  clear H. unfold run.
  destruct (fs.existsSync d (assetsDir c)); cbn [negb].
  2:{ split; [reflexivity | discriminate]. }
  destruct (listAvailableImages c d) as [|i l].
  { split; [reflexivity | discriminate]. }
  destruct (findHtmlFiles c d) as [|h l'].
  { split; [reflexivity | discriminate]. }
  destruct H' as [H|[H|H]]; discriminate H.
Qed.

Lemma C8_hard_failures_witness :
  fs.existsSync noAssetsDisk (assetsDir demo) = false
  /\ run demo noAssetsDisk = (NoAssetsDir, (demo, noAssetsDisk)).
Proof.
  split; [vm_compute; reflexivity|].
  destruct (C8_hard_failures demo noAssetsDisk) as [E _].
  - left. vm_compute. reflexivity.
  - unfold run in *. destruct (negb (fs.existsSync noAssetsDisk (assetsDir demo))) eqn:X.
    + reflexivity.
    + vm_compute in X. discriminate X.
Defined.
(** ** C9: empty src values *)

(** C9, as stated, fails: a tag whose src attribute is empty is matched
    all the same when a white space, [src=], a quote and a value occur
    further on in the tag, be it inside the value of another attribute or
    as a second src attribute.  The tag is then rewritten and the file
    backed up. *)
Lemma C9_counterexample :
  (exists m rest, exec imgRegex emptySrcTitlePage = Some (m, rest)
                  /\ src m = lit "a.png")
  /\ fs.lookup (snd (processHtmlFile demo (demoDisk emptySrcTitlePage) indexHtml))
       indexHtml
     = Some (File (utf8Encode
                     (lit "<img src=" ++ [dquote; dquote] ++ lit " title=" ++ [dquote]
                        ++ lit "x src=" ++ [dquote] ++ lit "data:image/png;base64,QUFB"
                        ++ [dquote] ++ lit " y" ++ [dquote] ++ lit ">")) true true)
  /\ fs.lookup (snd (processHtmlFile demo (demoDisk emptySrcTitlePage) indexHtml))
       (backupPath indexHtml)
     = Some (File (utf8Encode emptySrcTitlePage) true true)
  /\ (exists m rest, exec imgRegex emptyThenSrcPage = Some (m, rest)
                     /\ src m = lit "a.png")
  /\ fs.lookup (snd (processHtmlFile demo (demoDisk emptyThenSrcPage) indexHtml))
       indexHtml
     <> fs.lookup (demoDisk emptyThenSrcPage) indexHtml.
Proof.
  split; [eexists; eexists; split; [vm_compute; reflexivity | reflexivity]|].
  split; [vm_compute; reflexivity|]. split; [vm_compute; reflexivity|].
  split; [eexists; eexists; split; [vm_compute; reflexivity | reflexivity]|].
  vm_compute. discriminate.
Qed.

Lemma rematch_ciLit (ps : jsstring) (re : regex) :
  forall (a t : jsstring),
    ciEq a ps ->
    rematch (map (fun c => Chr (ciChar c)) ps ++ re) (a ++ t) = rematch re t.
Proof.
  induction ps as [|c ps IH]; intros a t H.
  - destruct a; [reflexivity | discriminate H].
  - destruct a as [|x a]; [discriminate H|].
    unfold ciEq in H. simpl in H. injection H as Hx Ha.
    simpl. unfold ciChar at 1. rewrite Hx, N.eqb_refl. now apply IH.
Qed.

Lemma srcValuesEmpty_app (x y : jsstring) :
  srcValuesEmpty (x ++ y) = true -> srcValuesEmpty y = true.
Proof.
  induction x as [|c x IH]; [auto|].
  cbn [app srcValuesEmpty]. intros H. apply andb_true_iff in H as [_ H]. auto.
Qed.

(** Where a src attribute opens and a character that is no quote follows,
    the value is not empty. *)
Lemma srcValuesEmpty_open (x : jsstring) (w : jschar) (attr : jsstring)
    (q1 v0 : jschar) (y : jsstring) :
  isWhiteSpace w = true -> ciEq attr (lit "src=") -> isQuote q1 = true ->
  isQuote v0 = false ->
  srcValuesEmpty (x ++ w :: attr ++ q1 :: v0 :: y) = false.
Proof.
  intros Hw Ha Hq1 Hv0.
  destruct (srcValuesEmpty (x ++ w :: attr ++ q1 :: v0 :: y)) eqn:E; [|reflexivity].
  exfalso. apply srcValuesEmpty_app in E. cbn [srcValuesEmpty] in E.
  apply andb_true_iff in E as [E _].
  unfold srcAttrOpen in E. cbn [app rematch] in E. rewrite Hw in E.
  unfold ciLit in E. rewrite (rematch_ciLit _ [Chr isQuote] _ _ Ha) in E.
  cbn [rematch] in E. rewrite Hq1, Hv0 in E. discriminate E.
Qed.

(** A text that a tag pattern matches holds a src attribute whose value
    is not empty. *)
Lemma exec_src_not_empty (tag : string) (t : jsstring) (m : TagMatch) (rest : jsstring) :
  exec (tagRegex tag) t = Some (m, rest) -> srcValuesEmpty t = false.
Proof.
  intros H. apply exec_sound in H as [-> [o w a q1 q2 -> _ Hw Ha Hq1 _ Hv Hvq _ _]].
  destruct (src m) as [|v0 v]; [now destruct Hv|].
  cbn [forallb] in Hvq. apply andb_true_iff in Hvq as [Hv0 _].
  unfold notQuote in Hv0. apply negb_true_iff in Hv0.
  unfold tagText.
  replace ((o ++ beforeSrc m ++ [w] ++ a ++ [q1] ++ (v0 :: v) ++ [q2]
              ++ afterSrc m ++ [gt]) ++ rest)
    with ((o ++ beforeSrc m) ++ w :: a ++ q1 :: v0 :: (v ++ [q2] ++ afterSrc m ++ [gt] ++ rest)).
  - now apply srcValuesEmpty_open.
  - flatten_app. reflexivity.
Qed.

Lemma ciEq_notGt (a : jsstring) (s : string) :
  forallb notGt (lit s) = true -> ciEq a (lit s) -> forallb notGt a = true.
Proof.
  generalize (lit s). intros b. revert a.
  induction b as [|y b IH]; intros [|x a] Hb H; try discriminate H; [reflexivity|].
  unfold ciEq in H. cbn [map] in H. injection H as Hx Ha.
  cbn [forallb] in *. apply andb_true_iff in Hb as [Hy Hb].
  rewrite (IH a Hb Ha), andb_true_r.
  unfold notGt, isGt, gt, upperChar, isLowerAscii in *.
  apply negb_true_iff in Hy. apply negb_true_iff.
  apply N.eqb_neq in Hy. apply N.eqb_neq. intros ->.
  cbn in Hx.
  destruct ((97 <=? y)%N && (y <=? 122)%N) eqn:E.
  - apply andb_true_iff in E as [E1 E2].
    apply N.leb_le in E1, E2. lia.
  - congruence.
Qed.

(** A prefix without [>] of a text lies before the first [>] of the text. *)
Lemma prefix_before_gt (body post p r : jsstring) :
  forallb notGt p = true -> body ++ gt :: post = p ++ r ->
  exists k, body = p ++ k.
Proof.
  revert body. induction p as [|x p IH]; intros body Hp E.
  - now exists body.
  - cbn [forallb] in Hp. apply andb_true_iff in Hp as [Hx Hp].
    destruct body as [|y body]; cbn [app] in E; injection E as <- E.
    + discriminate Hx.
    + destruct (IH body Hp E) as (k & ->). now exists k.
Qed.

(** A tag whose src attributes are all empty is not matched, whatever
    follows it. *)
Lemma exec_empty_src_tag (tag : string) (body post : jsstring) :
  forallb notGt (lit tag) = true ->
  forallb notGt body = true ->
  srcValuesEmpty (body ++ [gt]) = true ->
  exec (tagRegex tag) (body ++ gt :: post) = None.
Proof.
  intros Htag Hbody Hempty.
  destruct (exec (tagRegex tag) (body ++ gt :: post)) as [[m rest]|] eqn:E;
    [exfalso|reflexivity].
  apply exec_sound in E as [E [o w a q1 q2 Hm Ho Hw Ha Hq1 _ Hv Hvq Hb _]].
  destruct (src m) as [|v0 v]; [now destruct Hv|].
  cbn [forallb] in Hvq. apply andb_true_iff in Hvq as [Hv0 _].
  unfold notQuote in Hv0. apply negb_true_iff in Hv0.
  rewrite Hm in E. unfold tagText in E.
  set (p := (o ++ beforeSrc m) ++ w :: a ++ [q1]).
  assert (Ep : body ++ gt :: post
               = p ++ v0 :: (v ++ [q2] ++ afterSrc m ++ [gt] ++ rest)).
  { rewrite E. unfold p. flatten_app. reflexivity. }
  assert (Hp : forallb notGt p = true).
  { unfold p. rewrite !forallb_app. cbn [forallb].
    rewrite !forallb_app. cbn [forallb].
    assert (forallb notGt o = true) as ->.
    { destruct (String.append "<" tag) eqn:X.
      - discriminate X.
      - apply (ciEq_notGt o (String.append "<" tag)); [|].
        + unfold lit. rewrite X. rewrite <- X. clear X.
          change (list_ascii_of_string (String.append "<" tag))
            with ("<"%char :: list_ascii_of_string tag).
          cbn [map forallb]. exact Htag.
        + exact Ho. }
    rewrite Hb.
    assert (notGt w = true) as ->.
    { unfold notGt, isGt. destruct (w =? gt)%N eqn:X; [|reflexivity].
      apply N.eqb_eq in X. subst w. discriminate Hw. }
    rewrite (ciEq_notGt a "src=" eq_refl Ha).
    assert (notGt q1 = true) as ->.
    { unfold notGt, isGt. destruct (q1 =? gt)%N eqn:X; [|reflexivity].
      apply N.eqb_eq in X. subst q1. discriminate Hq1. }
    reflexivity. }
  destruct (prefix_before_gt body post p _ Hp Ep) as (k & Hk).
  rewrite Hk, <- app_assoc in Ep. apply app_inv_head in Ep.
  assert (exists y, body ++ [gt] = p ++ v0 :: y) as (y & Ey).
  { destruct k as [|k0 k]; cbn [app] in Ep; injection Ep as <- _.
    - exists []. now rewrite Hk, app_nil_r.
    - exists (k ++ [gt]). now rewrite Hk, <- app_assoc. }
  rewrite Ey in Hempty. unfold p in Hempty.
  replace (((o ++ beforeSrc m) ++ w :: a ++ [q1]) ++ v0 :: y)
    with ((o ++ beforeSrc m) ++ w :: a ++ q1 :: v0 :: y) in Hempty
    by (flatten_app; reflexivity).
  rewrite (srcValuesEmpty_open (o ++ beforeSrc m) w a q1 v0 y Hw Ha Hq1 Hv0) in Hempty.
  discriminate Hempty.
Qed.

Lemma scan_srcValuesEmpty (tag : string) (s : jsstring) :
  srcValuesEmpty s = true -> scan (tagRegex tag) s = map Text s.
Proof.
  induction s as [|c s IH]; [reflexivity|].
  intros H. rewrite scan_cons.
  destruct (exec (tagRegex tag) (c :: s)) as [[m rest]|] eqn:E.
  - apply exec_src_not_empty in E. congruence.
  - cbn [srcValuesEmpty] in H. apply andb_true_iff in H as [_ H].
    cbn [map]. now rewrite IH.
Qed.

Lemma replaceSegs_text (St : Type) (cb : St -> TagMatch -> jsstring * St)
    (s : jsstring) (st : St) :
  replaceSegs cb (map Text s) st = (s, st).
Proof. induction s as [|c s IH]; simpl; [reflexivity | now rewrite IH]. Qed.

Lemma replace_srcValuesEmpty (tag : string) (d : Disk) (s : jsstring)
    (st : Converter * bool) :
  srcValuesEmpty s = true ->
  replace (tagRegex tag) (rewriteTag tag d) s st = (s, st).
Proof.
  intros H. unfold replace. rewrite (scan_srcValuesEmpty tag _ H).
  apply replaceSegs_text.
Qed.

(** C9, amended: no match of a pattern has an empty src, so an empty src
    attribute is never the one that is rewritten.  A tag in which every
    opening of a src attribute (a white space, [src=] and a quote,
    wherever they occur before the [>]) is directly followed by a quote is
    matched by none of the three patterns, whatever text follows it.  A
    text in which every such opening is closed at once therefore holds no
    match at all: the callback is not called, so no path is resolved and
    no file is encoded, the three passes return the text and the
    converter unchanged with [modified] unset, and processing the file
    leaves the disk as it was, without a backup. *)
Theorem C9_empty_src_is_never_matched (c : Converter) (d : Disk)
    (h html body post : jsstring) :
  (forallb notGt body = true ->
   srcValuesEmpty (body ++ [gt]) = true ->
   exec imgRegex (body ++ gt :: post) = None
   /\ exec videoRegex (body ++ gt :: post) = None
   /\ exec sourceRegex (body ++ gt :: post) = None)
  /\ (srcValuesEmpty html = true ->
      scan imgRegex html = map Text html
      /\ scan videoRegex html = map Text html
      /\ scan sourceRegex html = map Text html
      /\ rewritePasses d html c = (html, (c, false))
      /\ (fs.readFileSyncUtf8 d h = Ok html -> processHtmlFile c d h = (c, d)))
  /\ (forall tag t m rest, exec (tagRegex tag) t = Some (m, rest) -> src m <> []).
Proof.
  split; [|split].
  - intros Hb He. unfold imgRegex, videoRegex, sourceRegex.
    repeat split; apply exec_empty_src_tag; auto.
  - intros H.
    assert (P : rewritePasses d html c = (html, (c, false))).
    { unfold rewritePasses, imgRegex, videoRegex, sourceRegex.
      now rewrite !replace_srcValuesEmpty. }
    split; [now apply scan_srcValuesEmpty|].
    split; [now apply scan_srcValuesEmpty|].
    split; [now apply scan_srcValuesEmpty|].
    split; [exact P|].
    intros R. unfold processHtmlFile. now rewrite R, P.
  - intros tag t m rest E.
    apply exec_sound in E as [_ [o w a q1 q2 _ _ _ _ _ _ Hv _ _ _]].
    exact Hv.
Qed.

Lemma C9_empty_src_is_never_matched_witness :
  srcValuesEmpty emptySrcPage = true
  /\ processHtmlFile demo (demoDisk emptySrcPage) indexHtml
     = (demo, demoDisk emptySrcPage)
  /\ exec imgRegex (lit "<img alt='x' src=''> <img src='a.png'>") = None.
Proof.
  destruct (C9_empty_src_is_never_matched demo (demoDisk emptySrcPage)
              indexHtml emptySrcPage (lit "<img alt='x' src=''")
              (lit " <img src='a.png'>"))
    as (H1 & H2 & _).
  split; [vm_compute; reflexivity|]. split.
  - apply H2; vm_compute; reflexivity.
  - apply H1; vm_compute; reflexivity.
Defined.
(** ** C10: restore *)

Lemma settled_restoreFile (n : nat) (d : Disk) (h : jsstring) :
  Settled d h -> snd (restoreFile (n, d) h) = d.
Proof.
  unfold Settled, restoreFile, fs.existsSync, fs.copyFileSync.
  destruct (fs.lookup d (backupPath h)) as [[data r w|]|]; try reflexivity.
  - destruct r; [|reflexivity].
    destruct (fs.lookup d h) as [[data' r' w'|]|] eqn:Eh; try reflexivity.
    + destruct w'; [|reflexivity].
      intros H. cbn [snd]. apply store_same. now rewrite Eh, H.
    + intros [].
  - destruct (fs.lookup d h) as [[data' r' w'|]|] eqn:Eh; try reflexivity.
    destruct w'; [intros [] | reflexivity].
Qed.


Lemma settled_frame (d d' : Disk) (h : jsstring) :
  fs.lookup d' (backupPath h) = fs.lookup d (backupPath h) ->
  fs.lookup d' h = fs.lookup d h ->
  Settled d h -> Settled d' h.
Proof. unfold Settled. now intros -> ->. Qed.


Lemma fold_restore_settled (files : list jsstring) :
  forall (n : nat) (d : Disk),
    (forall h, In h files -> Settled d h) ->
    snd (fold_left restoreFile files (n, d)) = d.
Proof.
  induction files as [|h files IH]; intros n d H; [reflexivity|].
  cbn [fold_left].
  pose proof (settled_restoreFile n d h (H h (or_introl eq_refl))) as E.
  destruct (restoreFile (n, d) h) as [n' d']. cbn [snd] in E. subst d'.
  apply IH. intros h0 Hin. apply H. now right.
Qed.



(* ------------------------------------------------------------------ *)
(** * Further properties of the code *)

(** ** The tag patterns *)

Lemma greedy_stop (A : Type) (p : jschar -> bool) (k : jsstring -> option A)
    (s : jsstring) (a : A) :
  k s = Some a -> exists g' a', greedy p k false s = Some (g', a').
Proof.
  intros H. destruct s as [|c s]; cbn [greedy]; rewrite H; cbn [option_map].
  - eauto.
  - destruct (p c); [|eauto].
    destruct (greedy p k false s) as [[g0 a0]|]; eauto.
Qed.

(** A greedy repetition finds a match whenever one of its splits leads
    to one. *)
Lemma greedy_complete (A : Type) (p : jschar -> bool) (k : jsstring -> option A)
    (r : jsstring) (a : A) :
  k r = Some a ->
  forall (g : jsstring) (need : bool),
    forallb p g = true -> (need = true -> g <> []) ->
    exists g' a', greedy p k need (g ++ r) = Some (g', a').
Proof.
  intros Hk. induction g as [|c g IH]; intros need Hg Hne.
  - destruct need; [now destruct Hne|]. now apply (greedy_stop A p k r a).
  - cbn [forallb] in Hg. apply andb_true_iff in Hg as [Hc Hg].
    cbn [app greedy]. rewrite Hc.
    destruct (IH false Hg) as (g0 & a0 & E); [discriminate|].
    rewrite E. eauto.
Qed.

Lemma rematch_complete (re : regex) (txt : jsstring) (caps : list jsstring) :
  Matches re txt caps ->
  forall rest, exists caps' rest', rematch re (txt ++ rest) = Some (caps', rest').
Proof.
  induction 1 as [|p re c txt caps Hc _ IH|one p re g txt caps Hg Hne _ IH];
    intros rest.
  - cbn. eauto.
  - cbn [app rematch]. rewrite Hc. apply IH.
  - cbn [rematch]. rewrite <- app_assoc.
    destruct (IH rest) as (caps' & rest' & E).
    destruct (greedy_complete _ p (rematch re) (txt ++ rest) (caps', rest') E g one Hg Hne)
      as (g' & [caps0 rest0] & E').
    rewrite E'. eauto.
Qed.

Lemma Matches_ciLit (ps : jsstring) (re : regex) :
  forall (a t : jsstring) (caps : list jsstring),
    ciEq a ps -> Matches re t caps ->
    Matches (map (fun c => Chr (ciChar c)) ps ++ re) (a ++ t) caps.
Proof.
  induction ps as [|c ps IH]; intros a t caps H HM.
  - destruct a; [exact HM | discriminate H].
  - destruct a as [|x a]; [discriminate H|].
    unfold ciEq in H. cbn [map] in H. injection H as Hx Ha.
    cbn [map app]. apply MatchesChr.
    + unfold ciChar. rewrite Hx. apply N.eqb_refl.
    + now apply IH.
Qed.

Lemma ciEq_split (a : jsstring) (s1 s2 : jsstring) :
  ciEq a (s1 ++ s2) -> exists a1 a2, a = a1 ++ a2 /\ ciEq a1 s1 /\ ciEq a2 s2.
Proof.
  revert a. induction s1 as [|c s1 IH]; intros a H.
  - exists [], a. repeat split. exact H.
  - destruct a as [|x a]; [discriminate H|].
    unfold ciEq in H. cbn [app map] in H. injection H as Hx Ha.
    destruct (IH a Ha) as (a1 & a2 & -> & H1 & H2).
    exists (x :: a1), a2. repeat split; [|exact H2].
    unfold ciEq. cbn [map]. now rewrite Hx, H1.
Qed.

Lemma tagText_Matches (tag : string) (opening before : jsstring) (w : jschar)
    (attr : jsstring) (q1 : jschar) (value : jsstring) (q2 : jschar)
    (after : jsstring) :
  ciEq opening (lit "<" ++ lit tag) -> forallb notGt before = true ->
  isWhiteSpace w = true -> ciEq attr (lit "src=") -> isQuote q1 = true ->
  value <> [] -> forallb notQuote value = true -> isQuote q2 = true ->
  forallb notGt after = true ->
  Matches (tagRegex tag) (tagText opening before w attr q1 value q2 after)
    [before; value; after].
Proof.
  intros Ho Hb Hw Ha Hq1 Hv Hvq Hq2 Haf.
  destruct (ciEq_split opening _ _ Ho) as (o1 & o2 & -> & Ho1 & Ho2).
  unfold tagRegex, tagText, ciLit. rewrite <- !app_assoc.
  apply Matches_ciLit; [exact Ho1|]. apply Matches_ciLit; [exact Ho2|].
  cbn [app]. apply MatchesRep; [exact Hb | discriminate |].
  apply MatchesChr; [exact Hw|].
  change (Chr (ciChar 115%N) :: Chr (ciChar 114%N) :: Chr (ciChar 99%N)
            :: Chr (ciChar 61%N) :: ?r)
    with (map (fun c => Chr (ciChar c)) (lit "src=") ++ r).
  apply Matches_ciLit; [exact Ha|].
  apply MatchesChr; [exact Hq1|].
  apply MatchesRep; [exact Hvq | intros _; exact Hv |].
  apply MatchesChr; [exact Hq2|].
  apply MatchesRep; [exact Haf | discriminate |].
  apply MatchesChr; [apply N.eqb_refl | apply MatchesNil].
Qed.

(** X1: a tag pattern matches at the head of a text exactly when the text
    begins with a tag of that name that has a src attribute: the opening in
    any case, attributes without [>], a white space, [src=] in any case, a
    quote of either kind, a value that is not empty and holds no quote, a
    quote of either kind, attributes without [>] and [>]. *)
Theorem tag_pattern_matches_tags (tag : string) (s : jsstring) :
  (exists m rest, exec (tagRegex tag) s = Some (m, rest))
  <-> (exists opening before w attr q1 value q2 after rest,
         s = tagText opening before w attr q1 value q2 after ++ rest
         /\ ciEq opening (lit "<" ++ lit tag)
         /\ forallb notGt before = true
         /\ isWhiteSpace w = true
         /\ ciEq attr (lit "src=")
         /\ isQuote q1 = true
         /\ value <> [] /\ forallb notQuote value = true
         /\ isQuote q2 = true
         /\ forallb notGt after = true).
Proof.
  split.
  - intros (m & rest & E).
    apply exec_sound in E as [-> [o w a q1 q2 Hm Ho Hw Ha Hq1 Hq2 Hv Hvq Hb Haf]].
    exists o, (beforeSrc m), w, a, q1, (src m), q2, (afterSrc m), rest.
    rewrite Hm. repeat split; assumption.
  - intros (o & b & w & a & q1 & v & q2 & af & rest & -> & Ho & Hb & Hw & Ha
            & Hq1 & Hv & Hvq & Hq2 & Haf).
    pose proof (tagText_Matches tag o b w a q1 v q2 af Ho Hb Hw Ha Hq1 Hv Hvq Hq2 Haf)
      as HM.
    destruct (rematch_complete _ _ _ HM rest) as (caps' & rest' & E).
    destruct (rematch_sound _ _ _ _ E) as (txt & _ & HM').
    destruct (tagRegex_shape _ _ _ HM') as (o' & b' & w' & a' & q1' & v' & q2' & af'
                                            & -> & _).
    unfold exec. rewrite E. eauto.
Qed.

Lemma rematch_Rep (one : bool) (p : jschar -> bool) (re : regex) (s : jsstring) :
  rematch (Rep one p :: re) s
  = match greedy p (rematch re) one s with
    | Some (g, (caps, rest)) => Some (g :: caps, rest)
    | None => None
    end.
Proof. reflexivity. Qed.

(** A greedy repetition returns the longest group that leads to a match. *)
Lemma greedy_longest (A : Type) (p : jschar -> bool) (k : jsstring -> option A) :
  forall (s : jsstring) (need : bool) (g : jsstring) (a : A),
    greedy p k need s = Some (g, a) ->
    forall g2 r2, s = g2 ++ r2 -> forallb p g2 = true ->
                  length g < length g2 -> k r2 = None.
Proof.
  induction s as [|c s IH]; intros need g a H g2 r2 E Hg2 Hlen.
  - destruct g2; [simpl in Hlen; lia | discriminate E].
  - cbn [greedy] in H. destruct (p c) eqn:Hc.
    + destruct (greedy p k false s) as [[g0 a0]|] eqn:E0.
      * injection H as <- <-.
        destruct g2 as [|x g2]; [simpl in Hlen; lia|].
        cbn [app] in E. injection E as <- E.
        cbn [forallb] in Hg2. apply andb_true_iff in Hg2 as [_ Hg2].
        apply (IH false g0 a0 E0 g2 r2 E Hg2). simpl in Hlen. lia.
      * (* no longer group matches at all *)
        destruct g2 as [|x g2]; [simpl in Hlen; lia|].
        cbn [app] in E. injection E as <- E.
        cbn [forallb] in Hg2. apply andb_true_iff in Hg2 as [_ Hg2].
        destruct (k r2) as [a2|] eqn:K; [|reflexivity].
        destruct (greedy_complete A p k r2 a2 K g2 false Hg2) as (g' & a' & E');
          [discriminate|].
        rewrite E in E0. congruence.
    + destruct g2 as [|x g2]; [simpl in Hlen; lia|].
      cbn [app] in E. injection E as <- E.
      cbn [forallb] in Hg2. apply andb_true_iff in Hg2 as [Hx _]. congruence.
Qed.

(** Of all the ways to read the head of a text as a tag with a src
    attribute, the matcher takes one whose first group is the longest. *)
Lemma rematch_longest_before (tag : string) (opening before : jsstring)
    (w : jschar) (attr : jsstring) (q1 : jschar) (value : jsstring) (q2 : jschar)
    (after rest g1 g2 g3 r : jsstring) :
  ciEq opening (lit "<" ++ lit tag) -> forallb notGt before = true ->
  isWhiteSpace w = true -> ciEq attr (lit "src=") -> isQuote q1 = true ->
  value <> [] -> forallb notQuote value = true -> isQuote q2 = true ->
  forallb notGt after = true ->
  rematch (tagRegex tag) (tagText opening before w attr q1 value q2 after ++ rest)
  = Some ([g1; g2; g3], r) ->
  length before <= length g1.
Proof.
  intros Ho Hb Hw Ha Hq1 Hv Hvq Hq2 Haf R.
  destruct (Nat.le_gt_cases (length before) (length g1)) as [L|L];
    [exact L | exfalso].
  destruct (ciEq_split opening _ _ Ho) as (o1 & o2 & -> & Ho1 & Ho2).
  pose (tailTxt := w :: attr ++ q1 :: value ++ q2 :: after ++ gt :: rest).
  assert (T : tagText (o1 ++ o2) before w attr q1 value q2 after ++ rest
              = o1 ++ o2 ++ before ++ tailTxt).
  { unfold tagText, tailTxt. flatten_app. reflexivity. }
  rewrite T in R. unfold tagRegex, ciLit in R.
  rewrite (rematch_ciLit _ _ _ _ Ho1), (rematch_ciLit _ _ _ _ Ho2) in R.
  cbn [app] in R. rewrite rematch_Rep in R.
  set (tailRe := Chr isWhiteSpace :: _) in R.
  destruct (greedy notGt (rematch tailRe) false (before ++ tailTxt))
    as [[g [caps0 r0]]|] eqn:G; [|discriminate R].
  injection R as -> _ _.
  pose proof (greedy_longest _ notGt (rematch tailRe) _ _ _ _ G before tailTxt
                eq_refl Hb L) as K.
  assert (HT : Matches tailRe (w :: attr ++ q1 :: value ++ q2 :: after ++ [gt])
                 [value; after]).
  { unfold tailRe. apply MatchesChr; [exact Hw|].
    apply Matches_ciLit; [exact Ha|].
    apply MatchesChr; [exact Hq1|].
    apply MatchesRep; [exact Hvq | intros _; exact Hv |].
    apply MatchesChr; [exact Hq2|].
    apply MatchesRep; [exact Haf | discriminate |].
    apply MatchesChr; [apply N.eqb_refl | apply MatchesNil]. }
  destruct (rematch_complete _ _ _ HT rest) as (c' & r' & E').
  assert (X : (w :: attr ++ q1 :: value ++ q2 :: after ++ [gt]) ++ rest = tailTxt).
  { unfold tailTxt. flatten_app. reflexivity. }
  rewrite X in E'. congruence.
Qed.

(** X2: of all the ways to read the head of a text as a tag with a src
    attribute, the match takes the one whose attributes before [src] are
    the longest: when a tag has several src attributes, the last one that
    completes a match is the one rewritten. *)
Theorem match_takes_the_last_src (tag : string) (opening before : jsstring)
    (w : jschar) (attr : jsstring) (q1 : jschar) (value : jsstring) (q2 : jschar)
    (after rest : jsstring) (m : TagMatch) (rest' : jsstring) :
  ciEq opening (lit "<" ++ lit tag) -> forallb notGt before = true ->
  isWhiteSpace w = true -> ciEq attr (lit "src=") -> isQuote q1 = true ->
  value <> [] -> forallb notQuote value = true -> isQuote q2 = true ->
  forallb notGt after = true ->
  exec (tagRegex tag) (tagText opening before w attr q1 value q2 after ++ rest)
  = Some (m, rest') ->
  length before <= length (beforeSrc m).
Proof.
  intros Ho Hb Hw Ha Hq1 Hv Hvq Hq2 Haf E.
  unfold exec in E.
  destruct (rematch (tagRegex tag)
              (tagText opening before w attr q1 value q2 after ++ rest))
    as [[caps r]|] eqn:R; [|discriminate E].
  destruct caps as [|g1 [|g2 [|g3 [|]]]]; try discriminate E.
  injection E as <- <-. cbn [beforeSrc].
  exact (rematch_longest_before tag opening before w attr q1 value q2 after rest
           g1 g2 g3 r Ho Hb Hw Ha Hq1 Hv Hvq Hq2 Haf R).
Qed.

(** A tag with two src attributes, read with the second one: the match
    takes at least the first attribute into its first group. *)
Lemma match_takes_the_last_src_witness :
  exists m rest,
    exec imgRegex
      (tagText (lit "<img") (lit " src=" ++ [dquote] ++ lit "a.png" ++ [dquote])
         32%N (lit "src=") dquote (lit "b.png") dquote [] ++ lit "tail")
    = Some (m, rest)
    /\ 12 <= length (beforeSrc m).
Proof.
  eexists. eexists. split; [vm_compute; reflexivity|].
  refine (match_takes_the_last_src "img" (lit "<img")
           (lit " src=" ++ [dquote] ++ lit "a.png" ++ [dquote]) 32%N (lit "src=")
           dquote (lit "b.png") dquote [] (lit "tail") _ _
           _ _ _ _ _ _ _ _ _ _); try reflexivity; try discriminate.
Defined.

(** ** The listing of HTML files *)

Lemma childName_eq (dir p name : jsstring) :
  fs.childName dir p = Some name ->
  p = (if endsWith dir (lit "/") then dir else dir ++ lit "/") ++ name.
Proof.
  unfold fs.childName.
  set (prefix := if endsWith dir (lit "/") then dir else dir ++ lit "/").
  destruct (startsWith p prefix) eqn:E; [|discriminate].
  apply startsWith_inv in E as (r & ->). rewrite skipn_app_length.
  destruct (negb (streq r []) && negb (existsb path.isSlash r)); [|discriminate].
  intros H. injection H as <-. reflexivity.
Qed.

Lemma lookup_In (d : Disk) (p : jsstring) (n : Node) :
  In (p, n) d -> fs.lookup d p <> None.
Proof.
  induction d as [|[q m] d IH]; cbn [In fs.lookup]; [intros []|].
  intros [H|H].
  - injection H as -> ->. now rewrite streq_refl.
  - destruct (streq q p); [discriminate | now apply IH].
Qed.

Lemma lookup_Some_In (d : Disk) (p : jsstring) (n : Node) :
  fs.lookup d p = Some n -> In (p, n) d.
Proof.
  induction d as [|[q m] d IH]; cbn [In fs.lookup]; [discriminate|].
  destruct (streq q p) eqn:E.
  - apply streq_eq in E. subst q. intros H. injection H as ->. now left.
  - intros H. right. now apply IH.
Qed.

Lemma children_In (dir : jsstring) (d : Disk) (name : jsstring) :
  In name (fs.children dir d)
  <-> exists p n, In (p, n) d /\ fs.childName dir p = Some name.
Proof.
  induction d as [|[q m] d IH]; cbn [fs.children In].
  - split; [intros [] | intros (p & n & [] & _)].
  - destruct (fs.childName dir q) as [x|] eqn:E.
    + cbn [In]. rewrite IH. split.
      * intros [<-|(p & n & H1 & H2)]; [exists q, m; auto|].
        exists p, n. auto.
      * intros (p & n & [H|H] & H2).
        -- injection H as -> ->. left. congruence.
        -- right. exists p, n. auto.
    + rewrite IH. split.
      * intros (p & n & H1 & H2). exists p, n. auto.
      * intros (p & n & [H|H] & H2); [injection H as -> ->; congruence|].
        exists p, n. auto.
Qed.

(** The join of a normalised absolute directory and a file name is the
    path of that name in the directory. *)
Lemma join_in_dir (dir name : jsstring) :
  path.normalize dir = dir -> startsWith dir (lit "/") = true ->
  isFileName name = true ->
  path.join [dir; name]
  = (if endsWith dir (lit "/") then dir else dir ++ lit "/") ++ name.
Proof.
  intros Hn Habs Hname. apply childName_eq.
  rewrite <- Hn at 1. now apply join_child.
Qed.

Lemma filterIsFile_total (d : Disk) (ps : list jsstring) :
  (forall q, In q ps -> fs.lookup d q <> None) ->
  exists r, filterIsFile d ps = Ok r
            /\ forall q, In q r <-> In q ps /\ kind (fs.lookup d q) = Some true.
Proof.
  induction ps as [|p ps IH]; intros H.
  - exists []. split; [reflexivity|]. intros q. cbn [In]. tauto.
  - destruct IH as (r & E & Hr); [intros q Hq; apply H; now right|].
    cbn [filterIsFile]. unfold fs.statIsFile.
    destruct (fs.lookup d p) as [[data rd w|]|] eqn:Ep.
    + rewrite E. exists (p :: r). split; [reflexivity|].
      intros q. cbn [In]. rewrite Hr. split.
      * intros [<-|[H1 H2]]; [rewrite Ep; auto | auto].
      * intros [[<-|H1] H2]; auto.
    + rewrite E. exists r. split; [reflexivity|].
      intros q. cbn [In]. rewrite Hr. split.
      * intros [H1 H2]. auto.
      * intros [[<-|H1] H2]; [rewrite Ep in H2; discriminate H2 | auto].
    + exfalso. apply (H p); [now left | exact Ep].
Qed.

(** X3: whatever the disk, [findHtmlFiles] returns only regular files
    that are listed in the directory of the script under a name ending
    with [.html]: never a directory, never a backup, and nothing when the
    directory of the script is not a directory. *)
Theorem findHtmlFiles_sound (c : Converter) (d : Disk) (h : jsstring) :
  In h (findHtmlFiles c d) ->
  fs.lookup d (htmlDir c) = Some Dir
  /\ (exists name, In name (fs.children (htmlDir c) d)
                   /\ isHtmlName name = true
                   /\ h = path.join [htmlDir c; name])
  /\ (exists data r w, fs.lookup d h = Some (File data r w))
  /\ endsWith h (lit ".html") = true
  /\ endsWith h (lit ".backup") = false.
Proof.
  intros H. pose proof (findHtmlFiles_html c d h H) as [Hh Hk].
  revert H. unfold findHtmlFiles, fs.readdirSync.
  destruct (fs.lookup d (htmlDir c)) as [[| ]|]; try (intros []).
  destruct (filterIsFile d _) as [r|] eqn:E; [|intros []].
  intros H. destruct (filterIsFile_subset _ _ _ E h H) as [H1 _].
  apply in_map_iff in H1 as (name & <- & Hname).
  apply filter_In in Hname as [Hn1 Hn2].
  split; [reflexivity|]. split; [now exists name|].
  split; [now apply kind_file|]. split; [exact Hh | now apply html_not_backup].
Qed.

Lemma findHtmlFiles_sound_witness :
  In indexHtml (findHtmlFiles demo (demoDisk singleQuotedPage))
  /\ endsWith indexHtml (lit ".backup") = false.
Proof.
  assert (H : In indexHtml (findHtmlFiles demo (demoDisk singleQuotedPage)))
    by (vm_compute; auto).
  split; [exact H|].
  apply (findHtmlFiles_sound demo (demoDisk singleQuotedPage) indexHtml H).
Defined.

(** X4: for a script in a normalised absolute directory that exists,
    [findHtmlFiles] returns exactly the regular files that lie directly
    in that directory under a name ending with [.html]. *)
Theorem findHtmlFiles_complete (c : Converter) (d : Disk) (p : jsstring) :
  path.normalize (htmlDir c) = htmlDir c ->
  startsWith (htmlDir c) (lit "/") = true ->
  fs.lookup d (htmlDir c) = Some Dir ->
  (In p (findHtmlFiles c d)
   <-> exists name, fs.childName (htmlDir c) p = Some name
                    /\ isHtmlName name = true
                    /\ kind (fs.lookup d p) = Some true).
Proof.
  intros Hn Habs Hdir.
  set (prefix := if endsWith (htmlDir c) (lit "/") then htmlDir c
                 else htmlDir c ++ lit "/").
  assert (J : forall name, In name (fs.children (htmlDir c) d) ->
                           isHtmlName name = true ->
                           path.join [htmlDir c; name] = prefix ++ name
                           /\ isFileName name = true).
  { intros name Hin Hhtml. destruct (children_names _ _ _ Hin) as [H1 H2].
    pose proof (isHtmlName_fileName name H1 H2 Hhtml) as Hf.
    split; [now apply join_in_dir | exact Hf]. }
  assert (Ex : forall q,
             In q (map (fun file => path.join [htmlDir c; file])
                     (filter isHtmlName (fs.children (htmlDir c) d))) ->
             fs.lookup d q <> None).
  { intros q Hq. apply in_map_iff in Hq as (name & <- & Hname). cbv beta.
    apply filter_In in Hname as [Hin Hhtml].
    destruct (J name Hin Hhtml) as [-> _].
    apply children_In in Hin as (p' & n & Hp' & Hc).
    pose proof (childName_eq _ _ _ Hc) as Ep. change (p' = prefix ++ name) in Ep.
    rewrite <- Ep. now apply (lookup_In d p' n). }
  destruct (filterIsFile_total d _ Ex) as (r & E & Hr).
  unfold findHtmlFiles, fs.readdirSync. rewrite Hdir, E, Hr. split.
  - intros [Hq Hk]. apply in_map_iff in Hq as (name & <- & Hname). cbv beta.
    apply filter_In in Hname as [Hin Hhtml].
    destruct (J name Hin Hhtml) as [_ Hf].
    exists name. split; [|now split].
    rewrite <- Hn at 1. now apply join_child.
  - intros (name & Hc & Hhtml & Hk). split; [|exact Hk].
    apply kind_file in Hk as (data & rd & w & Hl).
    assert (Hin : In name (fs.children (htmlDir c) d)).
    { apply children_In. exists p, (File data rd w).
      split; [now apply lookup_Some_In | exact Hc]. }
    apply in_map_iff. exists name. split.
    + destruct (J name Hin Hhtml) as [-> _]. symmetry. now apply childName_eq.
    + apply filter_In. now split.
Qed.

Lemma findHtmlFiles_complete_witness :
  In indexHtml (findHtmlFiles demo (demoDisk singleQuotedPage))
  <-> exists name, fs.childName (htmlDir demo) indexHtml = Some name
                   /\ isHtmlName name = true
                   /\ kind (fs.lookup (demoDisk singleQuotedPage) indexHtml)
                      = Some true.
Proof.
  apply (findHtmlFiles_complete demo (demoDisk singleQuotedPage) indexHtml);
    reflexivity.
Defined.

(** ** The listing of assets and the extension check *)

Lemma includes_In (arr : list jsstring) (x : jsstring) :
  includes arr x = true <-> In x arr.
Proof.
  unfold includes. rewrite existsb_exists. split.
  - intros (y & Hy & E). apply streq_eq in E. now subst y.
  - intros H. exists x. split; [exact H | apply streq_refl].
Qed.

Lemma supported_is_fileName (c : Converter) (name : jsstring) :
  includes (supportedExtensions c) [] = false ->
  name <> [] -> forallb path.notSlash name = true ->
  isSupportedName c name = true -> isFileName name = true.
Proof.
  intros Hc H1 H2 Hs. unfold isFileName. rewrite H2, (streq_neq _ _ H1).
  cbn [negb andb]. unfold isSupportedName in Hs.
  destruct (streq name (lit ".")) eqn:E1.
  { apply streq_eq in E1. subst name.
    change (toLowerCase (path.extname (lit "."))) with (@nil jschar) in Hs.
    congruence. }
  destruct (streq name (lit "..")) eqn:E2; [|reflexivity].
  apply streq_eq in E2. subst name.
  change (toLowerCase (path.extname (lit ".."))) with (@nil jschar) in Hs.
  congruence.
Qed.

(** X5: for an assets directory with a normalised absolute path,
    [listAvailableImages] returns exactly the names listed in it whose
    extension is, up to case, a supported one; whether a name belongs to a
    regular file or to a directory plays no part. *)
Theorem listAvailableImages_exact (c : Converter) (d : Disk) (name : jsstring) :
  path.normalize (assetsDir c) = assetsDir c ->
  startsWith (assetsDir c) (lit "/") = true ->
  includes (supportedExtensions c) [] = false ->
  (In name (listAvailableImages c d)
   <-> fs.lookup d (assetsDir c) = Some Dir
       /\ In name (fs.children (assetsDir c) d)
       /\ includes (supportedExtensions c) (toLowerCase (path.extname name)) = true).
Proof.
  intros Hn Habs Hc. unfold listAvailableImages, fs.readdirSync.
  destruct (fs.lookup d (assetsDir c)) as [[data r w|]|] eqn:Hdir.
  - split; [intros [] | intros [H _]; discriminate H].
  - assert (Ex : forallb (fun file => fs.existsSync d (path.join [assetsDir c; file]))
                   (filter (isSupportedName c) (fs.children (assetsDir c) d)) = true).
    { apply forallb_forall. intros file Hf. apply filter_In in Hf as [Hin Hs].
      destruct (children_names _ _ _ Hin) as [H1 H2].
      pose proof (supported_is_fileName c file Hc H1 H2 Hs) as Hfile.
      rewrite (join_in_dir _ _ Hn Habs Hfile).
      apply children_In in Hin as (p & n & Hp & Hch).
      pose proof (childName_eq _ _ _ Hch) as Ep. cbv zeta in Ep. rewrite <- Ep.
      unfold fs.existsSync. pose proof (lookup_In d p n Hp).
      destruct (fs.lookup d p); [reflexivity | contradiction]. }
    rewrite Ex, filter_In. unfold isSupportedName. intuition.
  - split; [intros [] | intros [H _]; discriminate H].
Qed.

Lemma listAvailableImages_exact_witness :
  In (lit "dir.png") (listAvailableImages demo (demoDisk singleQuotedPage))
  <-> fs.lookup (demoDisk singleQuotedPage) (assetsDir demo) = Some Dir
      /\ In (lit "dir.png") (fs.children (assetsDir demo) (demoDisk singleQuotedPage))
      /\ includes (supportedExtensions demo)
           (toLowerCase (path.extname (lit "dir.png"))) = true.
Proof.
  apply (listAvailableImages_exact demo (demoDisk singleQuotedPage) (lit "dir.png"));
    reflexivity.
Defined.

(** X6: with the extension list of the constructor, a tag is rewritten
    only when the lower-cased extension of the resolved path has its own
    case in the switch of [imageToBase64]: the MIME type of the data URI
    is the table entry of that extension, and the fallback to [image/png]
    of the default case is never what decides it. *)
Theorem fallback_mime_is_unreachable (dirname : jsstring) (c : Converter)
    (d : Disk) (m : TagMatch) :
  supportedExtensions c = supportedExtensions (newConverter dirname) ->
  convertible c d m = true ->
  let ext := toLowerCase (path.extname (resolveImagePath c (src m))) in
  In (ext, mimeType ext) mimeTable
  /\ (mimeType ext = lit "image/png" -> ext = lit ".png").
Proof.
  intros Hs Hc ext. unfold convertible in Hc. fold ext in Hc.
  apply andb_true_iff in Hc as [Hc _]. apply andb_true_iff in Hc as [_ Hc].
  rewrite Hs in Hc. apply includes_In in Hc. cbn [supportedExtensions newConverter In] in Hc.
  repeat (destruct Hc as [<-|Hc]; [split; [vm_compute; tauto|]; vm_compute;
                                   first [reflexivity | discriminate]|]).
  destruct Hc.
Qed.

Lemma fallback_mime_is_unreachable_witness :
  In (lit ".png", lit "image/png") mimeTable.
Proof.
  exact (proj1 (fallback_mime_is_unreachable (lit "/w/B64") demo
                  (demoDisk singleQuotedPage)
                  {| matched := singleQuotedPage; beforeSrc := [];
                     src := lit "a.png"; afterSrc := [] |}
                  eq_refl eq_refl)).
Defined.

(** ** The extension the callback checks *)

(** X7: the extension the callback checks against the supported list is
    the extension of the file name the src refers to.  For a file name [x]
    behind one of the three prefixes, the resolved path has the base name
    [x] and its extension, whatever the assets directory; a src without
    such a prefix is reduced to its base name. *)
Theorem resolved_path_keeps_the_file_name (c : Converter) (pad x other : jsstring) :
  forallb isWhiteSpace pad = true ->
  isFileName (trimEnd x) = true ->
  (forall prefix,
     In prefix [lit "./assets/"; lit "../assets/"; lit "assets/"] ->
     path.basename (resolveImagePath c (pad ++ prefix ++ x)) = trimEnd x
     /\ path.extname (resolveImagePath c (pad ++ prefix ++ x))
        = path.extname (trimEnd x))
  /\ (startsWith (trim other) (lit "./assets/") = false ->
      startsWith (trim other) (lit "../assets/") = false ->
      startsWith (trim other) (lit "assets/") = false ->
      isFileName (path.basename (trim other)) = true ->
      path.basename (resolveImagePath c other) = path.basename (trim other)
      /\ path.extname (resolveImagePath c other) = path.extname (trim other)).
Proof.
  intros Hpad Hx. split.
  - assert (B : path.basename (trimEnd x) = trimEnd x).
    { pose proof (isFileName_inv _ Hx) as (H1 & H2 & _).
      apply basename_name; [intros E; rewrite E in H1; discriminate H1 | exact H2]. }
    assert (R : forall prefix,
               In prefix [lit "./assets/"; lit "../assets/"; lit "assets/"] ->
               resolveImagePath c (pad ++ prefix ++ x)
               = path.join [assetsDir c; trimEnd x]).
    { intros prefix [<-|[<-|[<-|[]]]].
      - now apply resolve_dot_assets.
      - now apply resolve_dotdot_assets.
      - now apply resolve_plain_assets. }
    intros prefix Hp. rewrite (R prefix Hp).
    pose proof (basename_join (assetsDir c) (trimEnd x) Hx) as E.
    split; [exact E|]. apply extname_basename. now rewrite E, B.
  - intros H1 H2 H3 Hf.
    assert (R : resolveImagePath c other
                = path.join [assetsDir c; path.basename (trim other)]).
    { unfold resolveImagePath. now rewrite H1, H2, H3. }
    rewrite R. pose proof (basename_join (assetsDir c) _ Hf) as E.
    split; [exact E|]. apply extname_basename. exact E.
Qed.

Lemma resolved_path_keeps_the_file_name_witness :
  path.extname (resolveImagePath demo (lit " ../assets/Logo.PNG ")) = lit ".PNG"
  /\ path.extname (resolveImagePath demo (lit "sub/dir/x.v1.png")) = lit ".png".
Proof.
  destruct (resolved_path_keeps_the_file_name demo (lit " ") (lit "Logo.PNG ")
              (lit "sub/dir/x.v1.png") eq_refl eq_refl) as [H1 H2].
  split.
  - exact (proj2 (H1 (lit "../assets/") (or_intror (or_introl eq_refl)))).
  - exact (proj2 (H2 eq_refl eq_refl eq_refl eq_refl)).
Defined.

(** ** What a run of the script can touch *)

Lemma FileEffect_frame (c : Converter) (d : Disk) (h : jsstring) (d' : Disk)
    (q : jsstring) :
  FileEffect c d h d' -> q <> h -> q <> backupPath h ->
  fs.lookup d' q = fs.lookup d q.
Proof.
  intros [|data M Eb Eh|data new M Eb Eh|data new n M Eb Eh] H1 H2;
    rewrite ?lookup_store_neq by congruence; reflexivity.
Qed.

Lemma RestoreEffect_frame (d : Disk) (h : jsstring) (d' : Disk) (q : jsstring) :
  RestoreEffect d h d' -> q <> h -> fs.lookup d' q = fs.lookup d q.
Proof.
  intros [|data w Eb|data r Eb Eh] H1;
    rewrite ?lookup_store_neq, ?lookup_unlink_neq by congruence; reflexivity.
Qed.

Lemma processAll_frame (files : list jsstring) (c : Converter) (d : Disk)
    (q : jsstring) :
  (forall h, In h files -> q <> h /\ q <> backupPath h) ->
  fs.lookup (snd (processAll c d files)) q = fs.lookup d q.
Proof.
  intros Hq.
  apply (processAll_inv (fun x => fs.lookup x q = fs.lookup d q)); [|reflexivity].
  intros c0 d0 h Hin H. rewrite <- H. destruct (Hq h Hin) as [H1 H2].
  apply (FileEffect_frame c0 d0 h); [apply processHtmlFile_effect | exact H1 | exact H2].
Qed.

Lemma run_frame (c : Converter) (d : Disk) (q : jsstring) :
  (forall h, In h (findHtmlFiles c d) -> q <> h /\ q <> backupPath h) ->
  fs.lookup (snd (snd (run c d))) q = fs.lookup d q.
Proof.
  intros Hq. unfold run.
  destruct (negb (fs.existsSync d (assetsDir c))); [reflexivity|].
  destruct (listAvailableImages c d); [reflexivity|].
  destruct (findHtmlFiles c d) as [|h files] eqn:E; [reflexivity|].
  cbn [snd]. now apply processAll_frame.
Qed.

Lemma restore_frame (c : Converter) (d : Disk) (q : jsstring) :
  ~ In q (findHtmlFiles c d) ->
  fs.lookup (snd (restore c d)) q = fs.lookup d q.
Proof.
  intros Hq. unfold restore.
  apply (fold_restore_inv (fun x => fs.lookup x q = fs.lookup d q));
    [|reflexivity].
  intros n d0 h Hin H. rewrite <- H.
  apply (RestoreEffect_frame d0 h); [apply restoreFile_effect|].
  intros ->. contradiction.
Qed.

Lemma touches_created (d d' : Disk) (q : jsstring) :
  Touches d d' -> fs.lookup d q = None -> fs.lookup d' q <> None ->
  endsWith q (lit ".backup") = true /\ kind (fs.lookup d' q) = Some true.
Proof.
  induction 1 as [|d d1 d2 T Ts IH]; [congruence|].
  intros Hq Hq'. destruct (fs.lookup d1 q) as [n1|] eqn:E1; [|now apply IH].
  assert (K : endsWith q (lit ".backup") = true /\ kind (fs.lookup d1 q) = Some true).
  { destruct T as [p n Hp Hn|p n Hp Hb Hn].
    - destruct (list_eq_dec N.eq_dec p q) as [->|Hne].
      + rewrite Hq in Hp. discriminate Hp.
      + rewrite lookup_store_neq in E1 by exact Hne. congruence.
    - destruct (list_eq_dec N.eq_dec p q) as [->|Hne].
      + split; [exact Hb|]. now rewrite lookup_store_eq.
      + rewrite lookup_store_neq in E1 by exact Hne. congruence. }
  destruct K as [K1 K2]. split; [exact K1|].
  rewrite (touches_kind_existing d1 d2 q Ts); [exact K2 | congruence].
Qed.

(** X8: whatever the arguments, the script changes nothing but the HTML
    files it finds in its directory and their backups: every other path,
    the assets among them, holds after the run what it held before. *)
Theorem main_changes_only_pages_and_backups (dirname : jsstring)
    (argv : list jsstring) (d : Disk) (q : jsstring) :
  (forall h, In h (findHtmlFiles (newConverter dirname) d) ->
             q <> h /\ q <> backupPath h) ->
  fs.lookup (main dirname argv d) q = fs.lookup d q.
Proof.
  intros Hq. unfold main. destruct (command (skipn 2 argv)).
  - apply restore_frame. intros Hin. now destruct (Hq q Hin).
  - reflexivity.
  - now apply run_frame.
Qed.

Lemma main_changes_only_pages_and_backups_witness :
  fs.lookup (main (lit "/w/B64") [lit "node"; lit "convertToBase64.js"]
               (demoDisk singleQuotedPage)) (lit "/w/assets/a.png")
  = Some (File (bytesOf "AAA") true true).
Proof.
  apply (main_changes_only_pages_and_backups (lit "/w/B64")
           [lit "node"; lit "convertToBase64.js"] (demoDisk singleQuotedPage)
           (lit "/w/assets/a.png")).
  intros h [<-|[]]. split; discriminate.
Defined.

(** X9: what the script does to the paths of the disk.  A conversion and
    the help text delete nothing, and the HTML files found are the same
    after the run.  A path that exists keeps its kind (file or directory)
    unless it is removed, and the only paths removed are HTML files found
    by [--restore] whose backup path is a directory: the copy fails after
    the file was opened, which removes it.  A path the script creates is
    a regular file whose name ends with [.backup], and no run adds an
    HTML file to those found. *)
Theorem main_keeps_every_path (dirname : jsstring) (argv : list jsstring)
    (d : Disk) (q : jsstring) :
  let c := newConverter dirname in
  let d' := main dirname argv d in
  (fs.lookup d q <> None ->
   kind (fs.lookup d' q) = kind (fs.lookup d q)
   \/ (fs.lookup d' q = None
       /\ command (skipn 2 argv) = RestoreCommand
       /\ In q (findHtmlFiles c d)
       /\ fs.lookup d (backupPath q) = Some Dir))
  /\ (fs.lookup d q = None -> fs.lookup d' q <> None ->
      endsWith q (lit ".backup") = true /\ kind (fs.lookup d' q) = Some true)
  /\ (command (skipn 2 argv) <> RestoreCommand ->
      findHtmlFiles c d' = findHtmlFiles c d)
  /\ (In q (findHtmlFiles c d') -> In q (findHtmlFiles c d)).
Proof.
  intros c d'. unfold d', main. fold c.
  destruct (command (skipn 2 argv)) eqn:Cmd.
  - destruct (restore_keeps c d) as (A & B & C & D).
    split; [|split; [|split]].
    + intros Hq.
      destruct (in_dec (list_eq_dec N.eq_dec) q (findHtmlFiles c d)) as [Hin|Hn].
      * destruct (C q Hin) as [K|[K1 K2]].
        -- left. rewrite K. symmetry. now apply (findHtmlFiles_html c d).
        -- right. now repeat split.
      * left. now rewrite (B q Hn).
    + intros Hq Hq'. exfalso.
      destruct (in_dec (list_eq_dec N.eq_dec) q (findHtmlFiles c d)) as [Hin|Hn].
      * apply (findHtmlFiles_html c d) in Hin as [_ K]. rewrite Hq in K. discriminate K.
      * rewrite (B q Hn) in Hq'. contradiction.
    + intros X. now destruct X.
    + apply findHtmlFiles_restore.
  - split; [now left|]. split; [congruence|]. split; auto.
  - pose proof (run_touches c d) as T.
    split; [|split; [|split]].
    + intros Hq. left. now apply touches_kind_existing.
    + now apply touches_created.
    + intros _. now apply findHtmlFiles_touches.
    + now rewrite (findHtmlFiles_touches c d _ T).
Qed.

(** With a directory in the place of a backup, [--restore] removes the
    page. *)
Lemma main_keeps_every_path_witness :
  fs.lookup dirBackupDisk indexHtml <> None
  /\ fs.lookup (main (lit "/w/B64") [lit "node"; lit "convertToBase64.js"; lit "--restore"]
                  dirBackupDisk) indexHtml = None
  /\ fs.lookup dirBackupDisk (backupPath indexHtml) = Some Dir.
Proof.
  assert (E : fs.lookup dirBackupDisk indexHtml <> None) by (vm_compute; discriminate).
  split; [exact E|].
  destruct (main_keeps_every_path (lit "/w/B64")
              [lit "node"; lit "convertToBase64.js"; lit "--restore"]
              dirBackupDisk indexHtml) as [H _].
  destruct (H E) as [K|(K1 & _ & _ & K2)].
  - exfalso. vm_compute in K. discriminate K.
  - now split.
Defined.

(** ** When the passes modify a text *)

Lemma extends_refl (c : Converter) : extends c c [].
Proof.
  split; [apply sameConfig_refl|]. split; [now rewrite app_nil_r|].
  exists []. now rewrite app_nil_r.
Qed.

Lemma extends_trans (c1 c2 c3 : Converter) (ps qs : list jsstring) :
  extends c1 c2 ps -> extends c2 c3 qs -> extends c1 c3 (ps ++ qs).
Proof.
  intros (S1 & P1 & es1 & E1) (S2 & P2 & es2 & E2).
  split; [now apply (sameConfig_trans c1 c2 c3)|].
  split; [now rewrite P2, P1, app_assoc|].
  exists (es1 ++ es2). now rewrite E2, E1, app_assoc.
Qed.

Lemma extends_pushError (c : Converter) (p : jsstring) (e : Errno) :
  extends c (pushError c p e) [].
Proof.
  split; [apply (onlyErrors_pushError c p e)|].
  split; [cbn [pushError processedFiles]; now rewrite app_nil_r|].
  now exists [(p, e)].
Qed.

Lemma extends_pushProcessed (c : Converter) (p : jsstring) :
  extends c (pushProcessed c p) [p].
Proof.
  split; [repeat split|]. split; [reflexivity|].
  exists []. cbn [pushProcessed errors]. now rewrite app_nil_r.
Qed.

Lemma extends_nil_trans (c1 c2 c3 : Converter) :
  extends c1 c2 [] -> extends c2 c3 [] -> extends c1 c3 [].
Proof. intros H1 H2. exact (extends_trans c1 c2 c3 [] [] H1 H2). Qed.

Lemma imageToBase64_extends (c : Converter) (d : Disk) (p : jsstring) :
  extends c (snd (imageToBase64 c d p)) [].
Proof.
  unfold imageToBase64. destruct (negb (fs.existsSync d p)); [apply extends_refl|].
  destruct (fs.readFileSync d p); [apply extends_refl | apply extends_pushError].
Qed.

Lemma rewriteTag_extends (tag : string) (d : Disk) (c : Converter) (b : bool)
    (m : TagMatch) :
  extends c (fst (snd (rewriteTag tag d (c, b) m))) [].
Proof.
  unfold rewriteTag. destruct (startsWith (src m) (lit "data:")); [apply extends_refl|].
  destruct (negb (includes _ _)); [apply extends_refl|].
  pose proof (imageToBase64_extends c d (resolveImagePath c (src m))) as H.
  destruct (imageToBase64 c d (resolveImagePath c (src m))) as [[[|x u]|] c'];
    exact H.
Qed.

(** One pass: the report grows by errors only, a flag that is set stays
    set, and a flag that is not set at the end means that every match was
    returned as it was, none of them being convertible. *)
Lemma replaceSegs_report (tag : string) (d : Disk) :
  forall (segs : list segment) (c : Converter) (b : bool),
    let r := replaceSegs (rewriteTag tag d) segs (c, b) in
    extends c (fst (snd r)) []
    /\ (b = true -> snd (snd r) = true)
    /\ (snd (snd r) = false ->
        fst r = flat_map segText segs
        /\ forallb (fun m => negb (convertible c d m)) (hits segs) = true).
Proof.
  induction segs as [|[ch|m] segs IH]; intros c b; cbn zeta.
  - cbn [replaceSegs fst snd flat_map hits forallb].
    split; [apply extends_refl|]. split; [auto|]. intros _. now split.
  - cbn [replaceSegs hits flat_map segText app]. specialize (IH c b). cbn zeta in IH.
    destruct (replaceSegs (rewriteTag tag d) segs (c, b)) as [out [c' b']].
    cbn [fst snd] in *. destruct IH as (H1 & H2 & H3).
    split; [exact H1|]. split; [exact H2|].
    intros Hb. destruct (H3 Hb) as [-> H4]. now split.
  - cbn [replaceSegs hits flat_map segText forallb].
    pose proof (rewriteTag_extends tag d c b m) as X.
    destruct (convertible c d m) eqn:Cm.
    + destruct (rewriteTag_convertible tag c d b m Cm) as (data & _ & E).
      rewrite E in *. cbn [fst snd] in X. specialize (IH c true). cbn zeta in IH.
      destruct (replaceSegs (rewriteTag tag d) segs (c, true)) as [out [c' b']].
      cbn [fst snd] in *. destruct IH as (H1 & H2 & H3).
      split; [exact H1|]. split; [intros _; now apply H2|].
      intros Hb. rewrite H2 in Hb by reflexivity. discriminate Hb.
    + destruct (rewriteTag_skip tag c d b m Cm) as (c1 & E & Hc1).
      rewrite E in *. cbn [fst snd] in X. specialize (IH c1 b). cbn zeta in IH.
      destruct (replaceSegs (rewriteTag tag d) segs (c1, b)) as [out [c' b']].
      cbn [fst snd] in *. destruct IH as (H1 & H2 & H3).
      split; [now apply (extends_nil_trans c c1 c')|]. split; [exact H2|].
      intros Hb. destruct (H3 Hb) as [-> H4]. split; [reflexivity|].
      cbn [negb andb]. erewrite forallb_ext; [exact H4|].
      intros m0. cbv beta. now rewrite (convertible_config _ _ d m0 (proj1 Hc1)).
Qed.

Lemma replace_report (tag : string) (d : Disk) (s : jsstring) (c : Converter)
    (b : bool) :
  let r := replace (tagRegex tag) (rewriteTag tag d) s (c, b) in
  extends c (fst (snd r)) []
  /\ (b = true -> snd (snd r) = true)
  /\ (snd (snd r) = false ->
      fst r = s
      /\ forallb (fun m => negb (convertible c d m)) (hits (scan (tagRegex tag) s))
         = true).
Proof.
  cbn zeta. unfold replace.
  pose proof (replaceSegs_report tag d (scan (tagRegex tag) s) c b) as H.
  cbn zeta in H. now rewrite scan_text in H.
Qed.

Lemma rewritePasses_extends (d : Disk) (s : jsstring) (c : Converter) :
  extends c (fst (snd (rewritePasses d s c))) [].
Proof.
  unfold rewritePasses.
  pose proof (replace_report "img" d s c false) as H1. cbn zeta in H1.
  change (tagRegex "img") with imgRegex in H1.
  destruct (replace imgRegex (rewriteTag "img" d) s (c, false)) as [h1 [c1 b1]].
  pose proof (replace_report "video" d h1 c1 b1) as H2. cbn zeta in H2.
  change (tagRegex "video") with videoRegex in H2.
  destruct (replace videoRegex (rewriteTag "video" d) h1 (c1, b1)) as [h2 [c2 b2]].
  pose proof (replace_report "source" d h2 c2 b2) as H3. cbn zeta in H3.
  change (tagRegex "source") with sourceRegex in H3.
  destruct (replace sourceRegex (rewriteTag "source" d) h2 (c2, b2)) as [h3 [c3 b3]].
  cbn [fst snd] in *.
  apply (extends_nil_trans c c2 c3); [|apply H3].
  apply (extends_nil_trans c c1 c2); [apply H1 | apply H2].
Qed.

Lemma rewritePasses_unmodified (d : Disk) (s : jsstring) (c : Converter) :
  snd (snd (rewritePasses d s c)) = false -> noneConvertible c d s = true.
Proof.
  unfold rewritePasses, noneConvertible, allHits.
  pose proof (replace_report "img" d s c false) as H1. cbn zeta in H1.
  change (tagRegex "img") with imgRegex in H1.
  destruct (replace imgRegex (rewriteTag "img" d) s (c, false)) as [h1 [c1 b1]].
  pose proof (replace_report "video" d h1 c1 b1) as H2. cbn zeta in H2.
  change (tagRegex "video") with videoRegex in H2.
  destruct (replace videoRegex (rewriteTag "video" d) h1 (c1, b1)) as [h2 [c2 b2]].
  pose proof (replace_report "source" d h2 c2 b2) as H3. cbn zeta in H3.
  change (tagRegex "source") with sourceRegex in H3.
  destruct (replace sourceRegex (rewriteTag "source" d) h2 (c2, b2)) as [h3 [c3 b3]].
  cbn [fst snd] in *. intros ->.
  destruct H1 as (X1 & M1 & U1). destruct H2 as (X2 & M2 & U2).
  destruct H3 as (X3 & M3 & U3).
  destruct b2; [discriminate (M3 eq_refl)|].
  destruct b1; [discriminate (M2 eq_refl)|].
  destruct (U1 eq_refl) as [-> F1]. destruct (U2 eq_refl) as [-> F2].
  destruct (U3 eq_refl) as [_ F3].
  rewrite !forallb_app, F1. cbn [andb].
  assert (S1 : sameConfig c1 c).
  { destruct X1 as ((A & B & C) & _). repeat split; congruence. }
  assert (S2 : sameConfig c2 c).
  { destruct X1 as ((A & B & C) & _). destruct X2 as ((A2 & B2 & C2) & _).
    repeat split; congruence. }
  rewrite (skip_config c1 c d _ S1 F2), (skip_config c2 c d _ S2 F3). reflexivity.
Qed.

(** X10: the three passes set [modified] exactly when one of the tags
    that the three patterns match in the text can be rewritten (its src is
    no data URI, the extension of the resolved path is supported and the
    file can be read); when the flag is not set the text is returned
    character for character. *)
Theorem modified_iff_some_tag_is_convertible (d : Disk) (s : jsstring)
    (c : Converter) :
  snd (snd (rewritePasses d s c)) = negb (noneConvertible c d s)
  /\ (snd (snd (rewritePasses d s c)) = false -> fst (rewritePasses d s c) = s).
Proof.
  assert (K : noneConvertible c d s = true ->
              snd (snd (rewritePasses d s c)) = false
              /\ fst (rewritePasses d s c) = s).
  { intros H. destruct (rewritePasses_skip c d s H) as (c' & -> & _). now split. }
  split.
  - destruct (noneConvertible c d s) eqn:N; cbn [negb].
    + now apply K.
    + destruct (snd (snd (rewritePasses d s c))) eqn:M; [reflexivity|].
      apply rewritePasses_unmodified in M. congruence.
  - intros M. apply K. now apply rewritePasses_unmodified.
Qed.

(** ** The report of a run *)

Lemma lookup_store_not_backup (d : Disk) (h q : jsstring) (n : Node) :
  endsWith q (lit ".backup") = false ->
  fs.lookup (fs.store d (backupPath h) n) q = fs.lookup d q.
Proof.
  intros Hq. apply lookup_store_neq. intros E. subst q.
  rewrite backupPath_backup in Hq. discriminate Hq.
Qed.

Lemma Node_eq_dec (a b : Node) : {a = b} + {a <> b}.
Proof.
  decide equality; try apply bool_dec. apply list_eq_dec. apply byte_eq_dec.
Qed.

(** One file: it is added to the processed files exactly when it was
    written, and then it has a backup; otherwise nothing but a backup can
    have changed. *)
Lemma processHtmlFile_report (c : Converter) (d : Disk) (h : jsstring) :
  let c' := fst (processHtmlFile c d h) in
  let d' := snd (processHtmlFile c d h) in
  (extends c c' []
   /\ forall q, endsWith q (lit ".backup") = false -> fs.lookup d' q = fs.lookup d q)
  \/ (extends c c' [h]
      /\ fs.lookup d' (backupPath h) <> None
      /\ exists new, fs.lookup d' h = Some (File new true true)).
Proof.
  cbn zeta. unfold processHtmlFile.
  destruct (fs.readFileSyncUtf8 d h) as [content|e] eqn:R.
  2:{ left. split; [apply extends_pushError | reflexivity]. }
  pose proof (rewritePasses_extends d content c) as X.
  destruct (rewritePasses d content c) as [new [c1 modified]]. cbn [fst snd] in X.
  destruct modified; [|left; split; [exact X | reflexivity]].
  unfold fs.readFileSyncUtf8, fs.readFileSync in R.
  destruct (fs.lookup d h) as [[data r w|]|] eqn:Eh; try discriminate R.
  destruct r; [|discriminate R].
  assert (XE : forall e, extends c (pushError c1 h e) []).
  { intros e. apply (extends_nil_trans c c1); [exact X | apply extends_pushError]. }
  assert (XP : extends c (pushProcessed c1 h) [h]).
  { apply (extends_trans c c1 _ [] [h]); [exact X | apply extends_pushProcessed]. }
  unfold fs.existsSync.
  destruct (fs.lookup d (backupPath h)) as [n|] eqn:Eb; cbn [negb].
  - unfold fs.writeFileSync. rewrite Eh. destruct w; cbn [fst snd].
    + right. split; [exact XP|]. split.
      * rewrite lookup_store_neq by (intros E; symmetry in E; now apply backupPath_neq in E).
        congruence.
      * eexists. apply lookup_store_eq.
    + left. split; [apply XE | reflexivity].
  - unfold fs.copyFileSync. rewrite Eh, Eb. unfold fs.writeFileSync.
    rewrite (lookup_store_neq d _ _ _ (backupPath_neq h)), Eh.
    destruct w; cbn [fst snd].
    + right. split; [exact XP|]. split.
      * rewrite lookup_store_neq by (intros E; symmetry in E; now apply backupPath_neq in E).
        rewrite lookup_store_eq. discriminate.
      * eexists. apply lookup_store_eq.
    + left. split; [apply XE|]. intros q Hq. now apply lookup_store_not_backup.
Qed.

Lemma processAll_report (files : list jsstring) :
  forall (c : Converter) (d : Disk),
    (forall h, In h files -> endsWith h (lit ".html") = true) ->
    let c' := fst (processAll c d files) in
    let d' := snd (processAll c d files) in
    exists ps,
      extends c c' ps
      /\ (forall h, In h ps ->
            In h files /\ fs.lookup d' (backupPath h) <> None
            /\ exists new, fs.lookup d' h = Some (File new true true))
      /\ (forall q, endsWith q (lit ".backup") = false ->
                    fs.lookup d' q <> fs.lookup d q -> In q ps).
Proof.
  induction files as [|h0 files IH]; intros c d Hhtml; cbn zeta.
  - exists []. cbn [processAll fst snd]. split; [apply extends_refl|].
    split; [intros h []|]. intros q _ H. now contradiction H.
  - cbn [processAll].
    pose proof (processHtmlFile_report c d h0) as Step. cbn zeta in Step.
    pose proof (processHtmlFile_effect c d h0) as Eff.
    destruct (processHtmlFile c d h0) as [c1 d1]. cbn [fst snd] in Step, Eff.
    destruct (IH c1 d1) as (ps1 & X1 & P1 & Q1).
    { intros h Hin. apply Hhtml. now right. }
    pose proof (processAll_touches files c1 d1) as T.
    destruct (processAll c1 d1 files) as [c' d']. cbn [fst snd] in *.
    assert (Hh0 : endsWith h0 (lit ".html") = true) by (apply Hhtml; now left).
    destruct Step as [[X0 F0]|(X0 & B0 & new0 & N0)].
    + exists ps1. split; [exact (extends_trans c c1 c' [] ps1 X0 X1)|]. split.
      * intros h Hin. destruct (P1 h Hin) as (H1 & H2 & H3).
        split; [now right | now split].
      * intros q Hq Hne. apply (Q1 q Hq). now rewrite (F0 q Hq).
    + exists (h0 :: ps1). split; [exact (extends_trans c c1 c' [h0] ps1 X0 X1)|].
      split.
      * intros h [<-|Hin].
        -- split; [now left|]. split.
           ++ intros E. pose proof (touches_kind_existing d1 d' _ T B0) as K.
              rewrite E in K. destruct (fs.lookup d1 (backupPath h0)) as [[| ]|];
                try discriminate K. now apply B0.
           ++ assert (D : {fs.lookup d' h0 = Some (File new0 true true)}
                          + {fs.lookup d' h0 <> Some (File new0 true true)})
                by (decide equality; apply Node_eq_dec).
              destruct D as [E'|Hn]; [now exists new0|].
              assert (Hin0 : In h0 ps1).
              { apply (Q1 h0); [now apply html_not_backup | now rewrite N0]. }
              exact (proj2 (proj2 (P1 h0 Hin0))).
        -- destruct (P1 h Hin) as (H1 & H2 & H3).
           split; [now right | now split].
      * intros q Hq Hne. destruct (list_eq_dec N.eq_dec q h0) as [->|Hq0]; [now left|].
        right. apply (Q1 q Hq).
        rewrite (FileEffect_frame c d h0 d1 q Eff Hq0); [exact Hne|].
        intros E. subst q. rewrite backupPath_backup in Hq. discriminate Hq.
Qed.

(** X11: the report of a run is faithful.  The converter keeps its
    directories and its table; the files it adds to the processed ones are
    HTML files it found, each of them has a backup after the run and is a
    regular file that was written; and every path other than a backup that
    holds something else after the run than before is among them. *)
Theorem run_report_is_faithful (c : Converter) (d : Disk) :
  let c' := fst (snd (run c d)) in
  let d' := snd (snd (run c d)) in
  exists ps,
    extends c c' ps
    /\ (forall h, In h ps ->
          In h (findHtmlFiles c d) /\ fs.lookup d' (backupPath h) <> None
          /\ exists new, fs.lookup d' h = Some (File new true true))
    /\ (forall q, endsWith q (lit ".backup") = false ->
                  fs.lookup d' q <> fs.lookup d q -> In q ps).
Proof.
  cbn zeta.
  assert (Z : exists ps,
             extends c c ps
             /\ (forall h, In h ps ->
                   In h (findHtmlFiles c d) /\ fs.lookup d (backupPath h) <> None
                   /\ exists new, fs.lookup d h = Some (File new true true))
             /\ (forall q, endsWith q (lit ".backup") = false ->
                           fs.lookup d q <> fs.lookup d q -> In q ps)).
  { exists []. split; [apply extends_refl|]. split; [intros h []|].
    intros q _ H. now contradiction H. }
  unfold run. destruct (negb (fs.existsSync d (assetsDir c))); [exact Z|].
  destruct (listAvailableImages c d); [exact Z|].
  destruct (findHtmlFiles c d) as [|h files] eqn:E; [exact Z|].
  cbn [fst snd]. rewrite <- E.
  apply (processAll_report (findHtmlFiles c d) c d).
  intros h0 Hin. now apply (findHtmlFiles_html c d).
Qed.

Lemma read_lookup (d d' : Disk) (h : jsstring) :
  fs.lookup d' h = fs.lookup d h ->
  fs.readFileSyncUtf8 d' h = fs.readFileSyncUtf8 d h.
Proof. unfold fs.readFileSyncUtf8, fs.readFileSync. now intros ->. Qed.

Lemma extends_errors (c c' : Converter) (ps : list jsstring) (x : jsstring * Errno) :
  extends c c' ps -> In x (errors c) -> In x (errors c').
Proof. intros (_ & _ & es & ->) H. apply in_or_app. now left. Qed.

Lemma processAll_unreadable (files : list jsstring) (h : jsstring) (e : Errno) :
  endsWith h (lit ".html") = true ->
  forall (c : Converter) (d : Disk),
    (forall h', In h' files -> endsWith h' (lit ".html") = true) ->
    In h files -> fs.readFileSyncUtf8 d h = Throw e ->
    In (h, e) (errors (fst (processAll c d files)))
    /\ fs.lookup (snd (processAll c d files)) h = fs.lookup d h.
Proof.
  intros Hh. induction files as [|h0 files IH]; intros c d Hhtml Hin R; [destruct Hin|].
  cbn [processAll].
  assert (Hrest : forall h', In h' files -> endsWith h' (lit ".html") = true)
    by (intros h' H'; apply Hhtml; now right).
  destruct (list_eq_dec N.eq_dec h0 h) as [->|Hne].
  - assert (E : processHtmlFile c d h = (pushError c h e, d)).
    { unfold processHtmlFile. now rewrite R. }
    rewrite E.
    pose proof (processAll_report files (pushError c h e) d Hrest) as (ps & X & _ & Q).
    cbn zeta in X, Q. split.
    + apply (extends_errors _ _ ps _ X). cbn [pushError errors].
      apply in_or_app. right. now left.
    + destruct (in_dec (list_eq_dec N.eq_dec) h files) as [Hin'|Hnot].
      * exact (proj2 (IH (pushError c h e) d Hrest Hin' R)).
      * apply processAll_frame. intros h' H'. split; [intros ->; contradiction|].
        now apply html_neq_backupPath.
  - destruct Hin as [Hin|Hin]; [contradiction|].
    pose proof (processHtmlFile_effect c d h0) as Eff.
    destruct (processHtmlFile c d h0) as [c1 d1]. cbn [snd] in Eff.
    assert (F : fs.lookup d1 h = fs.lookup d h).
    { apply (FileEffect_frame c d h0 d1 h Eff); [congruence|].
      now apply html_neq_backupPath. }
    destruct (IH c1 d1 Hrest Hin) as [H1 H2].
    { now rewrite (read_lookup d d1 h F). }
    split; [exact H1 | congruence].
Qed.

(** X12: an HTML file that cannot be read does not stop a run: when
    the run gets to the files, the error of that file is in the list of
    errors at the end, with the path of the file, and the file is as it
    was. *)
Theorem run_reports_unreadable_pages (c : Converter) (d : Disk) (h : jsstring)
    (e : Errno) :
  fst (run c d) = Completed ->
  In h (findHtmlFiles c d) ->
  fs.readFileSyncUtf8 d h = Throw e ->
  In (h, e) (errors (fst (snd (run c d))))
  /\ fs.lookup (snd (snd (run c d))) h = fs.lookup d h.
Proof.
  unfold run. destruct (negb (fs.existsSync d (assetsDir c))); [discriminate|].
  destruct (listAvailableImages c d); [discriminate|].
  destruct (findHtmlFiles c d) as [|h0 files] eqn:E; [discriminate|].
  intros _ Hin R. cbn [fst snd]. rewrite <- E in *.
  apply processAll_unreadable; try assumption.
  - now apply (findHtmlFiles_html c d).
  - intros h' H'. now apply (findHtmlFiles_html c d).
Qed.

Lemma run_reports_unreadable_pages_witness :
  In (lit "/w/B64/a.html", EACCES)
    (errors (fst (snd (run demo
       ((lit "/w/B64/a.html", File (bytesOf "<p>") false true)
          :: demoDisk singleQuotedPage)))))
  /\ In indexHtml
       (processedFiles (fst (snd (run demo
          ((lit "/w/B64/a.html", File (bytesOf "<p>") false true)
             :: demoDisk singleQuotedPage))))).
Proof.
  split; [|vm_compute; auto].
  apply (run_reports_unreadable_pages demo
           ((lit "/w/B64/a.html", File (bytesOf "<p>") false true)
              :: demoDisk singleQuotedPage) (lit "/w/B64/a.html") EACCES).
  - reflexivity.
  - vm_compute. auto.
  - reflexivity.
Defined.

(** X13: a page that can be read but not written and that has a tag to
    rewrite is not converted, the error of the write is recorded and the
    page is not counted as processed; but the backup is made before the
    write is tried, so a backup that did not exist is left behind. *)
Theorem read_only_page_keeps_a_backup (c : Converter) (d : Disk) (h : jsstring)
    (data : list byte) :
  fs.lookup d h = Some (File data true false) ->
  fileModified c d h = true ->
  exists c1,
    extends c c1 []
    /\ processHtmlFile c d h
       = (pushError c1 h EACCES,
          if fs.existsSync d (backupPath h) then d
          else fs.store d (backupPath h) (File data true false)).
Proof.
  intros Eh M. unfold fileModified in M. unfold processHtmlFile.
  destruct (fs.readFileSyncUtf8 d h) as [content|e]; [|discriminate M].
  pose proof (rewritePasses_extends d content c) as X.
  destruct (rewritePasses d content c) as [new [c1 modified]]. cbn [fst snd] in X, M.
  subst modified. exists c1. split; [exact X|].
  unfold fs.existsSync.
  destruct (fs.lookup d (backupPath h)) as [n|] eqn:Eb; cbn [negb].
  - unfold fs.writeFileSync. now rewrite Eh.
  - unfold fs.copyFileSync. rewrite Eh, Eb. unfold fs.writeFileSync.
    now rewrite (lookup_store_neq d _ _ _ (backupPath_neq h)), Eh.
Qed.

Lemma read_only_page_keeps_a_backup_witness :
  exists c1,
    extends demo c1 []
    /\ processHtmlFile demo
         [ (lit "/w/assets/a.png", File (bytesOf "AAA") true true);
           (indexHtml, File (utf8Encode singleQuotedPage) true false) ] indexHtml
       = (pushError c1 indexHtml EACCES,
          [ (lit "/w/assets/a.png", File (bytesOf "AAA") true true);
            (indexHtml, File (utf8Encode singleQuotedPage) true false);
            (backupPath indexHtml, File (utf8Encode singleQuotedPage) true false) ]).
Proof.
  apply (read_only_page_keeps_a_backup demo
           [ (lit "/w/assets/a.png", File (bytesOf "AAA") true true);
             (indexHtml, File (utf8Encode singleQuotedPage) true false) ]
           indexHtml (utf8Encode singleQuotedPage)); reflexivity.
Defined.

(** X14: a page that can be read and written and that has a tag to
    rewrite is converted in full: the file then holds the UTF-8 bytes of
    the text the three passes return, flags unchanged; its backup is the
    one that existed or, when there was none, a copy of the page as it
    was; and the page is added to the processed files. *)
Theorem writable_page_is_converted (c : Converter) (d : Disk) (h : jsstring)
    (data : list byte) :
  fs.lookup d h = Some (File data true true) ->
  fileModified c d h = true ->
  let c' := fst (processHtmlFile c d h) in
  let d' := snd (processHtmlFile c d h) in
  fs.lookup d' h
  = Some (File (utf8Encode (fst (rewritePasses d (utf8Decode data) c))) true true)
  /\ fs.lookup d' (backupPath h)
     = match fs.lookup d (backupPath h) with
       | Some n => Some n
       | None => Some (File data true true)
       end
  /\ extends c c' [h]
  /\ (forall q, q <> h -> q <> backupPath h -> fs.lookup d' q = fs.lookup d q).
Proof.
  intros Eh M. cbn zeta.
  pose proof (processHtmlFile_effect c d h) as Eff.
  assert (Fr : forall q, q <> h -> q <> backupPath h ->
                 fs.lookup (snd (processHtmlFile c d h)) q = fs.lookup d q).
  { intros q H1 H2. now apply (FileEffect_frame c d h _ q Eff). }
  clear Eff. revert Fr.
  unfold fileModified in M. unfold processHtmlFile.
  assert (R : fs.readFileSyncUtf8 d h = Ok (utf8Decode data)).
  { unfold fs.readFileSyncUtf8, fs.readFileSync. now rewrite Eh. }
  rewrite R in *.
  pose proof (rewritePasses_extends d (utf8Decode data) c) as X.
  destruct (rewritePasses d (utf8Decode data) c) as [new [c1 modified]].
  cbn [fst snd] in X, M. subst modified. cbn [fst].
  assert (XP : extends c (pushProcessed c1 h) [h]).
  { apply (extends_trans c c1 _ [] [h]); [exact X | apply extends_pushProcessed]. }
  assert (Hne : h <> backupPath h)
    by (intros E; symmetry in E; now apply backupPath_neq in E).
  unfold fs.existsSync.
  destruct (fs.lookup d (backupPath h)) as [n|] eqn:Eb; cbn [negb].
  - unfold fs.writeFileSync. rewrite Eh. cbn [fst snd]. intros Fr.
    rewrite lookup_store_eq, (lookup_store_neq _ _ _ _ Hne), Eb. auto.
  - unfold fs.copyFileSync. rewrite Eh, Eb. unfold fs.writeFileSync.
    rewrite (lookup_store_neq d _ _ _ (backupPath_neq h)), Eh. cbn [fst snd].
    intros Fr.
    rewrite lookup_store_eq, (lookup_store_neq _ _ _ _ Hne), lookup_store_eq. auto.
Qed.

Lemma writable_page_is_converted_witness :
  fs.lookup (snd (processHtmlFile demo (demoDisk singleQuotedPage) indexHtml))
    indexHtml
  = Some (File (utf8Encode (lit "<img src=" ++ [dquote]
                              ++ lit "data:image/png;base64,QUFB" ++ [dquote]
                              ++ lit ">")) true true).
Proof.
  destruct (writable_page_is_converted demo (demoDisk singleQuotedPage) indexHtml
              (utf8Encode singleQuotedPage)) as [H _];
    [reflexivity | vm_compute; reflexivity |].
  rewrite H. vm_compute. reflexivity.
Defined.

(** ** The count of a restore *)

Lemma restoreFile_restorable (n : nat) (d : Disk) (h : jsstring) :
  fst (restoreFile (n, d) h) = if restorable d h then S n else n.
Proof.
  unfold restoreFile, restorable, fs.existsSync.
  destruct (fs.lookup d (backupPath h)) as [nb|] eqn:Eb.
  - destruct (fs.copyFileSync d (backupPath h) h); reflexivity.
  - unfold fs.copyFileSync. now rewrite Eb.
Qed.

Lemma restorable_lookup (d d' : Disk) (h : jsstring) :
  fs.lookup d' h = fs.lookup d h ->
  fs.lookup d' (backupPath h) = fs.lookup d (backupPath h) ->
  restorable d' h = restorable d h.
Proof.
  intros H1 H2. unfold restorable, fs.copyFileSync. rewrite H1, H2.
  destruct (fs.lookup d (backupPath h)) as [[data r w|]|]; try reflexivity.
  - destruct r; [|reflexivity].
    destruct (fs.lookup d h) as [[data' r' w'|]|]; try reflexivity.
    destruct w'; reflexivity.
  - destruct (fs.lookup d h) as [[data' r' w'|]|]; try reflexivity.
    destruct w'; reflexivity.
Qed.

(** A step of the loop that neither copies nor meets a directory as
    backup leaves the disk as it is. *)
Lemma not_restorable_settled (d : Disk) (h : jsstring) :
  restorable d h = false -> fs.lookup d (backupPath h) <> Some Dir -> Settled d h.
Proof.
  unfold restorable, Settled, fs.copyFileSync.
  destruct (fs.lookup d (backupPath h)) as [[data r w|]|]; try (intros; exact I).
  - destruct r; [|intros; exact I].
    destruct (fs.lookup d h) as [[data' r' w'|]|]; try (intros; exact I);
      try discriminate.
    destruct w'; [discriminate | intros; exact I].
  - intros _ X. now destruct X.
Qed.

Lemma fold_restore_count (files : list jsstring) :
  NoDup files ->
  (forall h, In h files -> endsWith h (lit ".html") = true) ->
  forall (n : nat) (d : Disk),
    fst (fold_left restoreFile files (n, d))
    = n + length (filter (restorable d) files).
Proof.
  induction files as [|h files IH]; intros ND Hhtml n d.
  - cbn [fold_left fst filter length]. lia.
  - inversion ND as [|x l Hnot ND' E]; subst x l.
    cbn [fold_left filter].
    pose proof (restoreFile_effect n d h) as Eff.
    pose proof (restoreFile_restorable n d h) as Ec.
    destruct (restoreFile (n, d) h) as [n1 d1]. cbn [fst snd] in Eff, Ec. subst n1.
    assert (F : filter (restorable d1) files = filter (restorable d) files).
    { apply filter_ext_in. intros h' H'.
      assert (Hne : h' <> h) by (intros ->; contradiction).
      apply restorable_lookup.
      - now apply (RestoreEffect_frame d h d1).
      - apply (RestoreEffect_frame d h d1); [exact Eff|].
        intros E. symmetry in E. revert E. apply html_neq_backupPath.
        apply Hhtml. now left. }
    assert (Hrest : forall h', In h' files -> endsWith h' (lit ".html") = true)
      by (intros h' H'; apply Hhtml; now right).
    rewrite (IH ND' Hrest), F.
    destruct (restorable d h); cbn [length]; lia.
Qed.

(** A file whose restoring would change nothing holds after the loop what
    it held before. *)
Lemma fold_restore_settled_one (h : jsstring) (d : Disk) (files : list jsstring) :
  (forall h', In h' files -> endsWith h' (lit ".html") = true) ->
  Settled d h ->
  forall st, fs.lookup (snd st) h = fs.lookup d h ->
             fs.lookup (snd st) (backupPath h) = fs.lookup d (backupPath h) ->
             fs.lookup (snd (fold_left restoreFile files st)) h = fs.lookup d h.
Proof.
  intros Hhtml S. induction files as [|h' files IH]; intros [n x] E1 E2;
    [exact E1|].
  cbn [fold_left snd] in *.
  assert (Hh' : endsWith h' (lit ".html") = true) by (apply Hhtml; now left).
  assert (N3 : h' <> backupPath h) by now apply html_neq_backupPath.
  pose proof (restoreFile_effect n x h') as Eff.
  assert (K : fs.lookup (snd (restoreFile (n, x) h')) h = fs.lookup d h).
  { destruct (list_eq_dec N.eq_dec h' h) as [->|Hne].
    - rewrite settled_restoreFile; [exact E1|].
      now apply (settled_frame d).
    - rewrite (RestoreEffect_frame x h' _ h Eff); [exact E1 | congruence]. }
  assert (K2 : fs.lookup (snd (restoreFile (n, x) h')) (backupPath h)
               = fs.lookup d (backupPath h)).
  { rewrite (RestoreEffect_frame x h' _ (backupPath h) Eff); [exact E2 | congruence]. }
  destruct (restoreFile (n, x) h') as [n1 x1]. cbn [snd] in K, K2.
  apply (IH (fun h0 H0 => Hhtml h0 (or_intror H0)) (n1, x1)); assumption.
Qed.

(** X15: the number that [restore] reports is the number of HTML files
    whose backup can be copied over them (the backup is a readable file and
    the HTML file can be written), the files being found once each.  A
    path that no longer holds what it held is one of these files, or an
    HTML file found whose backup path is a directory: that file is removed
    and not counted.  So a restore that reports zero has at most removed
    files, and it has left the disk as it was when no backup path of a
    file found is a directory. *)
Theorem restore_counts_the_copies (c : Converter) (d : Disk) :
  NoDup (findHtmlFiles c d) ->
  fst (restore c d) = length (filter (restorable d) (findHtmlFiles c d))
  /\ fst (restore c d) <= length (findHtmlFiles c d)
  /\ (forall q, fs.lookup (snd (restore c d)) q <> fs.lookup d q ->
        In q (findHtmlFiles c d)
        /\ (restorable d q = true
            \/ (restorable d q = false
                /\ fs.lookup d (backupPath q) = Some Dir
                /\ fs.lookup (snd (restore c d)) q = None)))
  /\ (fst (restore c d) = 0 ->
      (forall h, In h (findHtmlFiles c d) -> fs.lookup d (backupPath h) <> Some Dir) ->
      snd (restore c d) = d).
Proof.
  intros ND.
  assert (Hhtml : forall h, In h (findHtmlFiles c d) -> endsWith h (lit ".html") = true).
  { intros h Hin. now apply (findHtmlFiles_html c d). }
  assert (E : fst (restore c d) = length (filter (restorable d) (findHtmlFiles c d))).
  { unfold restore. now rewrite fold_restore_count. }
  assert (Keep : forall q, Settled d q -> fs.lookup (snd (restore c d)) q = fs.lookup d q).
  { intros q S. unfold restore.
    now apply (fold_restore_settled_one q d (findHtmlFiles c d) Hhtml S (0, d)). }
  split; [exact E|]. split; [rewrite E; apply filter_length_le|]. split.
  - intros q Hq. destruct (restore_keeps c d) as (_ & B & _).
    destruct (in_dec (list_eq_dec N.eq_dec) q (findHtmlFiles c d)) as [Hin|Hn].
    2:{ now destruct Hq; apply B. }
    split; [exact Hin|].
    destruct (restorable d q) eqn:R; [now left|]. right. split; [reflexivity|].
    destruct (fs.lookup d (backupPath q)) as [[data r w|]|] eqn:Eb.
    + exfalso. apply Hq, Keep, not_restorable_settled; congruence.
    + split; [reflexivity|].
      destruct (findHtmlFiles_html c d q Hin) as [_ K].
      apply kind_file in K as (data & r & w & Eh). destruct w.
      * apply restore_unlinks; eauto.
      * exfalso. apply Hq, Keep. unfold Settled. now rewrite Eb, Eh.
    + exfalso. apply Hq, Keep, not_restorable_settled; congruence.
  - intros Z NoDir. unfold restore. apply fold_restore_settled.
    intros h Hin. apply not_restorable_settled; [|now apply NoDir].
    destruct (restorable d h) eqn:R; [|reflexivity].
    assert (Hf : In h (filter (restorable d) (findHtmlFiles c d)))
      by (apply filter_In; now split).
    rewrite E in Z.
    destruct (filter (restorable d) (findHtmlFiles c d)); [destruct Hf | discriminate Z].
Qed.

(** Of the two pages, one is restored and counted; the other, whose
    backup path is a directory, is removed and not counted. *)
Lemma restore_counts_the_copies_witness :
  fst (restore demo twoPagesDisk) = 1
  /\ (fs.lookup (snd (restore demo twoPagesDisk)) (lit "/w/B64/a.html")
      <> fs.lookup twoPagesDisk (lit "/w/B64/a.html") ->
      restorable twoPagesDisk (lit "/w/B64/a.html") = true
      \/ (restorable twoPagesDisk (lit "/w/B64/a.html") = false
          /\ fs.lookup twoPagesDisk (backupPath (lit "/w/B64/a.html")) = Some Dir
          /\ fs.lookup (snd (restore demo twoPagesDisk)) (lit "/w/B64/a.html") = None)).
Proof.
  assert (ND : NoDup (findHtmlFiles demo twoPagesDisk)).
  { vm_compute. repeat (constructor; [cbn; intuition discriminate|]). constructor. }
  destruct (restore_counts_the_copies demo twoPagesDisk ND) as (H1 & _ & H3 & _).
  split; [exact H1|]. intros Hq. exact (proj2 (H3 _ Hq)).
Defined.

(** ** The command line *)

Lemma includes_ext (args args' : list jsstring) (x : jsstring) :
  (forall a, In a args <-> In a args') -> includes args x = includes args' x.
Proof.
  intros H. destruct (includes args' x) eqn:E.
  - apply includes_In. apply H. now apply includes_In.
  - destruct (includes args x) eqn:E'; [|reflexivity].
    apply includes_In in E'. apply H in E'. apply includes_In in E'. congruence.
Qed.

(** X16: the script reads its arguments as a set of flags.  Two command
    lines with the same arguments after the script name, in any order and
    with any repetition, do the same; a restore flag wins over a help flag
    wherever it stands; and with none of the four flags among the
    arguments, whatever else they are, the script converts. *)
Theorem main_reads_its_flags_as_a_set (dirname node script : jsstring)
    (args args' : list jsstring) (d : Disk) :
  ((forall a, In a args <-> In a args') ->
   main dirname (node :: script :: args) d = main dirname (node :: script :: args') d)
  /\ (In (lit "--restore") args \/ In (lit "-r") args ->
      main dirname (node :: script :: args) d = snd (restore (newConverter dirname) d))
  /\ (~ In (lit "--restore") args -> ~ In (lit "-r") args ->
      ~ In (lit "--help") args -> ~ In (lit "-h") args ->
      main dirname (node :: script :: args) d
      = snd (snd (run (newConverter dirname) d))).
Proof.
  unfold main, command. cbn [skipn]. split; [|split].
  - intros H. now rewrite !(includes_ext args args' _ H).
  - intros H.
    assert (E : includes args (lit "--restore") || includes args (lit "-r") = true).
    { apply orb_true_iff. destruct H as [H|H]; [left | right]; now apply includes_In. }
    now rewrite E.
  - intros H1 H2 H3 H4.
    assert (F : forall x, ~ In x args -> includes args x = false).
    { intros x Hx. destruct (includes args x) eqn:E; [|reflexivity].
      apply includes_In in E. contradiction. }
    now rewrite (F _ H1), (F _ H2), (F _ H3), (F _ H4).
Qed.

Lemma main_reads_its_flags_as_a_set_witness :
  main (lit "/w/B64") [lit "node"; lit "convertToBase64.js"; lit "-h"; lit "-r"]
    staleBackupDisk
  = snd (restore demo staleBackupDisk)
  /\ main (lit "/w/B64") [lit "node"; lit "convertToBase64.js"; lit "--verbose"]
       staleBackupDisk
     = snd (snd (run demo staleBackupDisk)).
Proof.
  split.
  - apply (main_reads_its_flags_as_a_set (lit "/w/B64") (lit "node")
             (lit "convertToBase64.js") [lit "-h"; lit "-r"] [] staleBackupDisk).
    right. right. now left.
  - apply (main_reads_its_flags_as_a_set (lit "/w/B64") (lit "node")
             (lit "convertToBase64.js") [lit "--verbose"] [] staleBackupDisk);
      intros [H|[]]; discriminate H.
Defined.

(** ** The page script *)

Lemma closeDropdown_inv (sh : jsstring) (s : Dropdown) :
  DropdownInv sh (closeDropdown s).
Proof.
  split; [reflexivity|]. split; [discriminate|].
  intros _ _. cbn [closeDropdown pendingTimers]. lia.
Qed.

Lemma openDropdown_inv (sh : jsstring) (s : Dropdown) :
  DropdownInv sh (openDropdown sh s).
Proof.
  split; [reflexivity|]. split; [|discriminate].
  intros _. repeat split.
Qed.

Lemma pageStep_inv (sh : jsstring) (s : Dropdown) (e : PageEvent) :
  DropdownInv sh s -> DropdownInv sh (pageStep sh s e).
Proof.
  intros H. destruct e; cbn [pageStep].
  - unfold onButtonClick. destruct (isOpen s);
      [apply closeDropdown_inv | apply openDropdown_inv].
  - unfold onDocumentClick. destruct (isOpen s); [apply closeDropdown_inv | exact H].
  - unfold timerFires. destruct (pendingTimers s) as [|n] eqn:E; [exact H|].
    destruct H as (H1 & H2 & H3). split; [exact H1|]. split; [exact H2|].
    intros _ O. discriminate O.
Qed.

(** X17: what holds of the menu when the page is loaded holds after any
    sequence of clicks on the button, clicks elsewhere and timers: the
    arrow is rotated exactly when the button is marked open, a button
    marked open goes with the open style (opacity 1 and the scroll height
    as maximal height), and a menu that is still displayed while its
    button is not marked open has a timer pending that hides it. *)
Theorem dropdown_invariant (scrollHeight : jsstring) (s : Dropdown)
    (events : list PageEvent) :
  DropdownInv scrollHeight s ->
  DropdownInv scrollHeight (pageRun scrollHeight s events).
Proof.
  unfold pageRun. revert s.
  induction events as [|e events IH]; intros s H; [exact H|].
  cbn [fold_left]. apply IH. now apply pageStep_inv.
Qed.

Lemma dropdown_invariant_witness :
  DropdownInv (lit "120") pageLoaded
  /\ DropdownInv (lit "120")
       (pageRun (lit "120") pageLoaded
          [ButtonClick; DocumentClick; ButtonClick; TimerFires]).
Proof.
  assert (H : DropdownInv (lit "120") pageLoaded).
  { split; [reflexivity|]. split; discriminate. }
  split; [exact H|].
  apply (dropdown_invariant (lit "120") pageLoaded
           [ButtonClick; DocumentClick; ButtonClick; TimerFires] H).
Defined.

(** X18: the timers of [closeDropdown] are never cancelled, and a menu
    that is closing still counts as open for the next click.  From any
    state in which the menu is displayed, two clicks on the button while
    it closes start two timers; when the menu is opened again between the
    two, the second timer hides it: the button is marked open, the arrow
    is rotated and the style is the open one, but the menu is not
    displayed. *)
Theorem stale_timer_hides_an_open_menu (scrollHeight : jsstring) (s : Dropdown) :
  isOpen s = true ->
  let s' := pageRun scrollHeight s
              [ButtonClick; ButtonClick; TimerFires; ButtonClick; TimerFires] in
  styledOpen scrollHeight s' /\ display s' = lit "none" /\ isOpen s' = false.
Proof.
  intros O.
  assert (E1 : onButtonClick scrollHeight s = closeDropdown s)
    by (unfold onButtonClick; now rewrite O).
  assert (E2 : onButtonClick scrollHeight (closeDropdown s)
               = closeDropdown (closeDropdown s)).
  { unfold onButtonClick. now replace (isOpen (closeDropdown s)) with true. }
  unfold pageRun. cbn [fold_left pageStep]. rewrite E1, E2.
  cbn [timerFires closeDropdown pendingTimers].
  unfold onButtonClick at 1.
  replace (isOpen _) with false by reflexivity.
  cbn [timerFires openDropdown pendingTimers].
  repeat split.
Qed.

Lemma stale_timer_hides_an_open_menu_witness :
  buttonOpen
    (pageRun (lit "120") pageLoaded
       [ButtonClick; ButtonClick; ButtonClick; TimerFires; ButtonClick; TimerFires])
  = true
  /\ display
       (pageRun (lit "120") pageLoaded
          [ButtonClick; ButtonClick; ButtonClick; TimerFires; ButtonClick; TimerFires])
     = lit "none".
Proof.
  destruct (stale_timer_hides_an_open_menu (lit "120")
              (pageRun (lit "120") pageLoaded [ButtonClick]) eq_refl)
    as ((_ & H1 & _) & H2 & _).
  split; [exact H1 | exact H2].
Defined.

Lemma addActive_spec (i : nat) :
  forall buttons : list bool,
    i < length buttons ->
    length (addActive i buttons) = length buttons
    /\ (forall j, nth j (addActive i buttons) false
                  = if j =? i then true else nth j buttons false).
Proof.
  induction i as [|i IH]; intros [|b r] H; cbn [length] in H; try lia.
  - split; [reflexivity|]. intros [|j]; reflexivity.
  - destruct (IH r) as [L N]; [lia|]. cbn [addActive length]. split; [now rewrite L|].
    intros [|j]; [reflexivity|]. cbn [nth]. rewrite N. reflexivity.
Qed.

Lemma nth_all_false (j : nat) (buttons : list bool) :
  nth j (map (fun _ => false) buttons) false = false.
Proof. revert j. induction buttons as [|b r IH]; intros [|j]; cbn; auto. Qed.

Lemma count_true_nth (l : list bool) (i : nat) :
  i < length l -> (forall j, nth j l false = (j =? i)) ->
  count_occ bool_dec l true = 1.
Proof.
  revert i. induction l as [|b r IH]; intros i H N; cbn [length] in H; [lia|].
  destruct i as [|i].
  - pose proof (N 0) as N0. cbn in N0. subst b. cbn [count_occ].
    destruct (bool_dec true true) as [_|X]; [|contradiction].
    f_equal. apply count_occ_not_In. intros Hin.
    apply (In_nth _ _ false) in Hin as (j & _ & Hj).
    specialize (N (S j)). cbn in N. congruence.
  - pose proof (N 0) as N0. cbn in N0. subst b. cbn [count_occ].
    destruct (bool_dec false true) as [X|_]; [discriminate X|].
    apply (IH i); [lia|]. intros j. exact (N (S j)).
Qed.

(** X19: a click on one of the buttons of the container leaves exactly
    that button active, whatever was active before: the others lose the
    class, the clicked one carries it, and no button is added or lost. *)
Theorem select_click_leaves_one_active (i : nat) (buttons : list bool) :
  i < length buttons ->
  length (onSelectClick i buttons) = length buttons
  /\ (forall j, nth j (onSelectClick i buttons) false = (j =? i))
  /\ count_occ bool_dec (onSelectClick i buttons) true = 1.
Proof.
  intros H. unfold onSelectClick.
  destruct (addActive_spec i (map (fun _ => false) buttons)) as [L N];
    [now rewrite length_map|].
  rewrite length_map in L.
  assert (N' : forall j, nth j (addActive i (map (fun _ => false) buttons)) false
                         = (j =? i)).
  { intros j. rewrite N, nth_all_false. now destruct (j =? i). }
  split; [exact L|]. split; [exact N'|].
  apply (count_true_nth _ i); [now rewrite L | exact N'].
Qed.

Lemma select_click_leaves_one_active_witness :
  onSelectClick 1 [true; false; true] = [false; true; false]
  /\ count_occ bool_dec (onSelectClick 1 [true; false; true]) true = 1.
Proof.
  split; [reflexivity|].
  apply (select_click_leaves_one_active 1 [true; false; true]). cbn. lia.
Defined.

(** ** The directories of the converter *)

Lemma normalizeSegs_app (a : bool) (s1 s2 : list jsstring) :
  forall res,
    path.normalizeSegs a (s1 ++ s2) res
    = path.normalizeSegs a s2 (rev (path.normalizeSegs a s1 res)).
Proof.
  induction s1 as [|seg s1 IH]; intros res; cbn [app path.normalizeSegs].
  - now rewrite rev_involutive.
  - destruct (streq seg [] || streq seg (lit ".")); [apply IH|].
    destruct (streq seg (lit "..")); [|apply IH].
    destruct res as [|top res']; [apply IH|].
    destruct (streq top (lit "..")); apply IH.
Qed.

Lemma normalizeSegs_sibling (name : jsstring) (kept : list jsstring) :
  isFileName name = true ->
  path.normalizeSegs false [name; lit ".."; lit "assets"] (rev kept)
  = kept ++ [lit "assets"].
Proof.
  intros Hn. pose proof (isFileName_inv name Hn) as (H1 & H2 & H3 & H4).
  cbn [path.normalizeSegs]. rewrite H1, H3, H4. cbn [orb].
  change (streq (lit "..") [] || streq (lit "..") (lit ".")) with false.
  change (streq (lit "..") (lit "..")) with true.
  change (streq (lit "assets") [] || streq (lit "assets") (lit ".")) with false.
  change (streq (lit "assets") (lit "..")) with false.
  cbv iota. cbn [rev]. now rewrite rev_involutive.
Qed.

(** X20: for a script in the directory [name] of a normalised absolute
    directory [parent] (or of the root), the constructor sets the assets
    directory to the directory [assets] beside the directory of the
    script: [parent/assets]. *)
Theorem assets_directory_is_the_sibling (parent name : jsstring) :
  isFileName name = true ->
  parent = []
  \/ (path.normalize parent = parent /\ startsWith parent (lit "/") = true
      /\ endsWith parent (lit "/") = false) ->
  htmlDir (newConverter (parent ++ slash :: name)) = parent ++ slash :: name
  /\ assetsDir (newConverter (parent ++ slash :: name)) = parent ++ lit "/assets".
Proof.
  intros Hn Hp. split; [reflexivity|].
  pose proof (isFileName_inv name Hn) as (H1 & H2 & H3 & H4).
  cbn [newConverter assetsDir]. unfold path.join. cbn [filter].
  assert (N1 : path.nonEmpty (parent ++ slash :: name) = true) by now destruct parent.
  rewrite N1. change (path.nonEmpty (lit "..")) with true.
  change (path.nonEmpty (lit "assets")) with true. cbv iota.
  cbn [path.joinWith].
  set (P := (parent ++ slash :: name) ++ lit "/" ++ lit ".." ++ lit "/" ++ lit "assets").
  assert (EP : P = ((parent ++ slash :: name) ++ slash :: lit "..") ++ slash :: lit "assets").
  { unfold P. now rewrite <- !app_assoc. }
  assert (Abs : startsWith P (lit "/") = true).
  { unfold P. destruct Hp as [->|(_ & Ha & _)]; [reflexivity|].
    destruct parent as [|x parent]; [discriminate Ha|]. exact Ha. }
  assert (Tr : endsWith P (lit "/") = false).
  { rewrite EP. change (slash :: lit "assets") with (lit "/asset" ++ [115%N]).
    rewrite app_assoc. now apply endsWith_slash_last. }
  assert (Sp : path.splitOn slash P
               = path.splitOn slash parent ++ [name; lit ".."; lit "assets"]).
  { rewrite EP. rewrite !splitOn_snoc by (try exact H2; reflexivity).
    now rewrite <- !app_assoc. }
  unfold path.normalize. rewrite Abs, Tr, Sp. cbn [negb].
  rewrite normalizeSegs_app, (normalizeSegs_sibling name _ Hn).
  assert (NE : P <> []) by (rewrite EP; now destruct ((parent ++ slash :: name) ++ slash :: lit "..")).
  destruct P as [|p0 P']; [contradiction|].
  rewrite joinWith_snoc.
  destruct Hp as [->|(Hnorm & Ha & Ht)].
  - reflexivity.
  - unfold path.normalize in Hnorm. rewrite Ha, Ht in Hnorm. cbn [negb] in Hnorm.
    destruct parent as [|x parent]; [discriminate Ha|].
    destruct (path.normalizeSegs false (path.splitOn slash (x :: parent)) [])
      as [|s0 segs] eqn:EX.
    + cbn [path.joinWith] in Hnorm. rewrite <- Hnorm in Ht. discriminate Ht.
    + destruct (path.joinWith (lit "/") (s0 :: segs)) as [|b0 body] eqn:EB.
      * rewrite <- Hnorm in Ht. discriminate Ht.
      * rewrite app_nil_r in Hnorm. rewrite <- Hnorm. cbn [app]. rewrite app_nil_r.
        change (lit "/assets") with (lit "/" ++ lit "assets").
        rewrite <- ?app_assoc. reflexivity.
Qed.

Lemma assets_directory_is_the_sibling_witness :
  assetsDir (newConverter (lit "/home/me/site/B64")) = lit "/home/me/site/assets".
Proof.
  apply (assets_directory_is_the_sibling (lit "/home/me/site") (lit "B64") eq_refl).
  right. repeat split.
Defined.

(** ** The payload of a data URI *)

Lemma lor_shiftl_add (a x k : N) :
  (x < 2 ^ k)%N -> N.lor (N.shiftl a k) x = (a * 2 ^ k + x)%N.
Proof.
  intros Hx.
  assert (D : N.land (N.shiftl a k) x = 0%N).
  { apply N.bits_inj_0. intros m. rewrite N.land_spec.
    destruct (N.ltb_spec m k) as [Hm|Hm].
    - now rewrite N.shiftl_spec_low.
    - destruct (N.eq_dec x 0) as [->|Hx0]; [now rewrite N.bits_0, andb_false_r|].
      rewrite (N.bits_above_log2 x m), andb_false_r; [reflexivity|].
      apply N.lt_le_trans with k; [|exact Hm].
      apply N.log2_lt_pow2; [lia | exact Hx]. }
  rewrite <- N.lxor_lor by exact D.
  rewrite <- N.add_nocarry_lxor by exact D.
  now rewrite N.shiftl_mul_pow2.
Qed.

Lemma base64Value_nth (k : nat) :
  k < 64 -> base64Value (nth k base64Alphabet base64Pad) = N.of_nat k.
Proof.
  intros H. do 64 (destruct k as [|k]; [vm_compute; reflexivity|]). lia.
Qed.

Lemma nth_not_pad (k : nat) :
  k < 64 -> (nth k base64Alphabet base64Pad =? base64Pad)%N = false.
Proof.
  intros H. do 64 (destruct k as [|k]; [vm_compute; reflexivity|]). lia.
Qed.

Lemma land63 (n : N) : N.land n 63 = (n mod 64)%N.
Proof. change 63%N with (N.ones 6). now rewrite N.land_ones. Qed.

Lemma land63_lt (n : N) : N.to_nat (N.land n 63) < 64.
Proof.
  rewrite land63. pose proof (N.mod_lt n 64). lia.
Qed.

Lemma base64Digit_value (n : N) : base64Value (base64Digit n) = (n mod 64)%N.
Proof.
  unfold base64Digit. rewrite base64Value_nth by apply land63_lt.
  now rewrite N2Nat.id, land63.
Qed.

Lemma base64Digit_not_pad (n : N) : (base64Digit n =? base64Pad)%N = false.
Proof. unfold base64Digit. apply nth_not_pad, land63_lt. Qed.

Lemma base64Value_pad : base64Value base64Pad = 0%N.
Proof. reflexivity. Qed.

Lemma toByte_to_N (a : byte) (n : N) :
  (n mod 256 = Byte.to_N a)%N -> toByte n = a.
Proof. intros H. unfold toByte. now rewrite H, Byte.of_to_N. Qed.

Lemma to_N_lt (a : byte) : (Byte.to_N a < 256)%N.
Proof. pose proof (Byte.to_N_bounded a). lia. Qed.

Ltac pow2_consts :=
  change (2 ^ 18)%N with 262144%N in *; change (2 ^ 16)%N with 65536%N in *;
  change (2 ^ 12)%N with 4096%N in *; change (2 ^ 8)%N with 256%N in *;
  change (2 ^ 6)%N with 64%N in *.

Ltac div_lia := zify; Z.to_euclidean_division_equations; lia.

(** The number a group of four digits stands for. *)
Lemma group_value (d1 d2 d3 d4 : N) :
  (d1 < 64 -> d2 < 64 -> d3 < 64 -> d4 < 64 ->
   N.lor (N.shiftl d1 18) (N.lor (N.shiftl d2 12) (N.lor (N.shiftl d3 6) d4))
   = d1 * 262144 + d2 * 4096 + d3 * 64 + d4)%N.
Proof.
  intros H1 H2 H3 H4.
  rewrite (lor_shiftl_add d3 d4 6) by exact H4.
  rewrite (lor_shiftl_add d2 _ 12) by (pow2_consts; lia).
  rewrite (lor_shiftl_add d1 _ 18) by (pow2_consts; lia).
  pow2_consts. lia.
Qed.

Lemma digits_value (n : N) :
  N.lor (N.shiftl (base64Value (base64Digit (N.shiftr n 18))) 18)
    (N.lor (N.shiftl (base64Value (base64Digit (N.shiftr n 12))) 12)
       (N.lor (N.shiftl (base64Value (base64Digit (N.shiftr n 6))) 6)
          (base64Value (base64Digit n))))
  = ((n / 262144) mod 64 * 262144 + (n / 4096) mod 64 * 4096
     + (n / 64) mod 64 * 64 + n mod 64)%N.
Proof.
  rewrite !base64Digit_value.
  rewrite group_value by (apply N.mod_lt; discriminate).
  rewrite !N.shiftr_div_pow2. pow2_consts. reflexivity.
Qed.

Lemma decode_group3 (a b c : byte) (r : jsstring) :
  let n := N.lor (N.shiftl (Byte.to_N a) 16)
             (N.lor (N.shiftl (Byte.to_N b) 8) (Byte.to_N c)) in
  decodeBase64 (base64Digit (N.shiftr n 18) :: base64Digit (N.shiftr n 12)
                  :: base64Digit (N.shiftr n 6) :: base64Digit n :: r)
  = a :: b :: c :: decodeBase64 r.
Proof.
  intros n. cbn [decodeBase64]. rewrite !base64Digit_not_pad, digits_value.
  pose proof (to_N_lt a) as Ha. pose proof (to_N_lt b) as Hb.
  pose proof (to_N_lt c) as Hc.
  assert (En : n = (Byte.to_N a * 65536 + Byte.to_N b * 256 + Byte.to_N c)%N).
  { unfold n. rewrite (lor_shiftl_add (Byte.to_N b) _ 8) by exact Hc.
    rewrite (lor_shiftl_add (Byte.to_N a) _ 16) by (pow2_consts; lia).
    pow2_consts. lia. }
  rewrite !N.shiftr_div_pow2. pow2_consts.
  clearbody n. subst n.
  f_equal; [|f_equal; [|f_equal]]; apply toByte_to_N; div_lia.
Qed.

Lemma decode_group2 (a b : byte) :
  let n := N.lor (N.shiftl (Byte.to_N a) 16) (N.shiftl (Byte.to_N b) 8) in
  decodeBase64 [base64Digit (N.shiftr n 18); base64Digit (N.shiftr n 12);
                base64Digit (N.shiftr n 6); base64Pad]
  = [a; b].
Proof.
  intros n. cbn [decodeBase64]. rewrite !base64Digit_not_pad.
  change (base64Pad =? base64Pad)%N with true. cbv iota.
  rewrite !base64Digit_value, base64Value_pad.
  rewrite group_value by (try (apply N.mod_lt; discriminate); reflexivity).
  pose proof (to_N_lt a) as Ha. pose proof (to_N_lt b) as Hb.
  assert (En : n = (Byte.to_N a * 65536 + Byte.to_N b * 256)%N).
  { unfold n. rewrite (N.shiftl_mul_pow2 (Byte.to_N b)).
    rewrite (lor_shiftl_add (Byte.to_N a) _ 16) by (pow2_consts; lia).
    pow2_consts. lia. }
  rewrite !N.shiftr_div_pow2. pow2_consts. clearbody n. subst n.
  f_equal; [|f_equal]; apply toByte_to_N; div_lia.
Qed.

Lemma decode_group1 (a : byte) :
  let n := N.shiftl (Byte.to_N a) 16 in
  decodeBase64 [base64Digit (N.shiftr n 18); base64Digit (N.shiftr n 12);
                base64Pad; base64Pad]
  = [a].
Proof.
  intros n. cbn [decodeBase64].
  change (base64Pad =? base64Pad)%N with true. cbv iota.
  rewrite !base64Digit_value, base64Value_pad.
  rewrite group_value by (try (apply N.mod_lt; discriminate); reflexivity).
  pose proof (to_N_lt a) as Ha.
  assert (En : n = (Byte.to_N a * 65536)%N).
  { unfold n. rewrite N.shiftl_mul_pow2. pow2_consts. reflexivity. }
  rewrite !N.shiftr_div_pow2. pow2_consts. clearbody n. subst n.
  f_equal. apply toByte_to_N. div_lia.
Qed.

Lemma decodeBase64_base64_fuel (n : nat) :
  forall data : list byte, length data <= n -> decodeBase64 (base64 data) = data.
Proof.
  induction n as [n IH] using lt_wf_ind. intros data Hlen.
  destruct data as [|a [|b [|c r]]]; cbn [base64].
  - reflexivity.
  - apply decode_group1.
  - apply decode_group2.
  - pose proof (decode_group3 a b c (base64 r)) as E. cbn zeta in E. rewrite E.
    do 3 f_equal. apply (IH (length r)); simpl in Hlen; lia.
Qed.

(** X21: the payload of a data URI is lossless.  Decoding the base64
    text that [imageToBase64] puts into the URI gives back the bytes of the
    file, so two files with different contents never get the same
    payload. *)
Theorem base64_payload_is_lossless (data : list byte) :
  decodeBase64 (base64 data) = data
  /\ (forall other, base64 other = base64 data -> other = data).
Proof.
  assert (D : forall x, decodeBase64 (base64 x) = x).
  { intros x. apply (decodeBase64_base64_fuel (length x)). reflexivity. }
  split; [apply D|].
  intros other E. rewrite <- (D other), E. apply D.
Qed.

(** ** Reading and writing a page as UTF-8 *)

Lemma inRange_spec (lo hi b : N) :
  inRange lo hi b = true <-> (lo <= b <= hi)%N.
Proof.
  unfold inRange. rewrite andb_true_iff, !N.leb_le. tauto.
Qed.

Lemma inRange_false (lo hi b : N) :
  (b < lo \/ hi < b)%N -> inRange lo hi b = false.
Proof.
  intros H. destruct (inRange lo hi b) eqn:E; [|reflexivity].
  apply inRange_spec in E. lia.
Qed.

Lemma isScalarValue_spec (cp : N) :
  isScalarValue cp = true <-> (cp < 55296 \/ 57343 < cp < 1114112)%N.
Proof.
  unfold isScalarValue.
  rewrite orb_true_iff, andb_true_iff, !N.ltb_lt. tauto.
Qed.

Lemma land_ones_mod (n : N) :
  N.land n 63 = (n mod 64)%N /\ N.land n 31 = (n mod 32)%N
  /\ N.land n 15 = (n mod 16)%N /\ N.land n 7 = (n mod 8)%N
  /\ N.land n 1023 = (n mod 1024)%N.
Proof.
  change 63%N with (N.ones 6). change 31%N with (N.ones 5).
  change 15%N with (N.ones 4). change 7%N with (N.ones 3).
  change 1023%N with (N.ones 10). now rewrite !N.land_ones.
Qed.

(** The code point of a surrogate pair of its code units. *)
Lemma codePoints_units (cp : N) (rest : jsstring) :
  isScalarValue cp = true ->
  codePoints (utf16Units cp ++ rest) = cp :: codePoints rest.
Proof.
  intros H. apply isScalarValue_spec in H. unfold utf16Units.
  destruct (N.ltb_spec cp 65536) as [L|L]; cbn [app codePoints].
  - rewrite !inRange_false by lia. reflexivity.
  - destruct (land_ones_mod (cp - 65536)) as (_ & _ & _ & _ & E).
    rewrite E, N.shiftr_div_pow2. change (2 ^ 10)%N with 1024%N.
    assert (R1 : inRange 55296 56319 (55296 + (cp - 65536) / 1024) = true)
      by (apply inRange_spec; div_lia).
    assert (R2 : inRange 56320 57343 (56320 + (cp - 65536) mod 1024) = true)
      by (apply inRange_spec; div_lia).
    rewrite R1, R2. f_equal. rewrite N.shiftl_mul_pow2.
    change (2 ^ 10)%N with 1024%N. div_lia.
Qed.

Lemma codePoints_flat_units (cps : list N) :
  forallb isScalarValue cps = true ->
  codePoints (flat_map utf16Units cps) = cps.
Proof.
  induction cps as [|cp cps IH]; cbn [forallb flat_map]; [reflexivity|].
  intros H. apply andb_true_iff in H as [H1 H2].
  now rewrite (codePoints_units cp _ H1), IH.
Qed.

Ltac ltb_cases :=
  repeat match goal with
         | |- context [(?a <? ?b)%N] => destruct (N.ltb_spec a b); try lia
         end.

Lemma seq1 (b0 : N) :
  (b0 < 128)%N -> isScalarValue b0 = true /\ utf8Bytes b0 = [toByte b0].
Proof.
  intros H. split; [apply isScalarValue_spec; lia|].
  unfold utf8Bytes. now ltb_cases.
Qed.

Lemma seq2 (b0 b1 : N) :
  inRange 194 223 b0 = true -> inRange 128 191 b1 = true ->
  let cp := N.lor (N.shiftl (N.land b0 31) 6) (N.land b1 63) in
  isScalarValue cp = true /\ utf8Bytes cp = [toByte b0; toByte b1].
Proof.
  intros H0 H1 cp. apply inRange_spec in H0, H1.
  destruct (land_ones_mod b0) as (_ & E0 & _). destruct (land_ones_mod b1) as (E1 & _).
  assert (E : cp = (b0 mod 32 * 64 + b1 mod 64)%N).
  { unfold cp. rewrite E0, E1. rewrite lor_shiftl_add; [reflexivity|].
    apply N.mod_lt. discriminate. }
  clearbody cp. subst cp.
  assert (B : (128 <= b0 mod 32 * 64 + b1 mod 64 < 2048)%N) by div_lia.
  split; [apply isScalarValue_spec; lia|].
  unfold utf8Bytes. ltb_cases.
  destruct (land_ones_mod (b0 mod 32 * 64 + b1 mod 64)) as (-> & _).
  rewrite N.shiftr_div_pow2. change (2 ^ 6)%N with 64%N.
  f_equal; [|f_equal]; f_equal; div_lia.
Qed.

Lemma seq3 (b0 b1 b2 : N) :
  inRange 224 239 b0 = true ->
  inRange (if (b0 =? 224)%N then 160 else 128)
          (if (b0 =? 237)%N then 159 else 191) b1 = true ->
  inRange 128 191 b2 = true ->
  let cp := N.lor (N.shiftl (N.land b0 15) 12)
              (N.lor (N.shiftl (N.land b1 63) 6) (N.land b2 63)) in
  isScalarValue cp = true /\ utf8Bytes cp = [toByte b0; toByte b1; toByte b2].
Proof.
  intros H0 H1 H2 cp. apply inRange_spec in H0, H1, H2.
  assert (H1' : (128 <= b1 <= 191)%N)
    by (destruct (N.eqb_spec b0 224); destruct (N.eqb_spec b0 237); lia).
  destruct (land_ones_mod b0) as (_ & _ & E0 & _).
  destruct (land_ones_mod b1) as (E1 & _). destruct (land_ones_mod b2) as (E2 & _).
  assert (E : cp = (b0 mod 16 * 4096 + b1 mod 64 * 64 + b2 mod 64)%N).
  { unfold cp. rewrite E0, E1, E2.
    rewrite (lor_shiftl_add (b1 mod 64)) by (apply N.mod_lt; discriminate).
    rewrite lor_shiftl_add by (pow2_consts; div_lia). pow2_consts. lia. }
  clearbody cp. subst cp.
  set (cp := (b0 mod 16 * 4096 + b1 mod 64 * 64 + b2 mod 64)%N).
  assert (B : (2048 <= cp < 65536 /\ (cp < 55296 \/ 57343 < cp))%N).
  { unfold cp. destruct (N.eqb_spec b0 224); destruct (N.eqb_spec b0 237); div_lia. }
  split; [apply isScalarValue_spec; lia|]. clear H1.
  unfold utf8Bytes. ltb_cases.
  destruct (land_ones_mod cp) as (-> & _).
  destruct (land_ones_mod (N.shiftr cp 6)) as (-> & _).
  rewrite !N.shiftr_div_pow2. pow2_consts.
  unfold cp. f_equal; [|f_equal; [|f_equal]]; f_equal; div_lia.
Qed.

Lemma seq4 (b0 b1 b2 b3 : N) :
  inRange 240 244 b0 = true ->
  inRange (if (b0 =? 240)%N then 144 else 128)
          (if (b0 =? 244)%N then 143 else 191) b1 = true ->
  inRange 128 191 b2 = true -> inRange 128 191 b3 = true ->
  let cp := N.lor (N.shiftl (N.land b0 7) 18)
              (N.lor (N.shiftl (N.land b1 63) 12)
                 (N.lor (N.shiftl (N.land b2 63) 6) (N.land b3 63))) in
  isScalarValue cp = true
  /\ utf8Bytes cp = [toByte b0; toByte b1; toByte b2; toByte b3].
Proof.
  intros H0 H1 H2 H3 cp. apply inRange_spec in H0, H1, H2, H3.
  assert (H1' : (128 <= b1 <= 191)%N)
    by (destruct (N.eqb_spec b0 240); destruct (N.eqb_spec b0 244); lia).
  destruct (land_ones_mod b0) as (_ & _ & _ & E0 & _).
  destruct (land_ones_mod b1) as (E1 & _). destruct (land_ones_mod b2) as (E2 & _).
  destruct (land_ones_mod b3) as (E3 & _).
  assert (E : cp = (b0 mod 8 * 262144 + b1 mod 64 * 4096 + b2 mod 64 * 64
                    + b3 mod 64)%N).
  { unfold cp. rewrite E0, E1, E2, E3.
    apply group_value; try (apply N.mod_lt; discriminate). div_lia. }
  clearbody cp. subst cp.
  set (cp := (b0 mod 8 * 262144 + b1 mod 64 * 4096 + b2 mod 64 * 64 + b3 mod 64)%N).
  assert (B : (65536 <= cp < 1114112)%N).
  { unfold cp. destruct (N.eqb_spec b0 240); destruct (N.eqb_spec b0 244); div_lia. }
  split; [apply isScalarValue_spec; lia|]. clear H1.
  unfold utf8Bytes. ltb_cases.
  destruct (land_ones_mod cp) as (-> & _).
  destruct (land_ones_mod (N.shiftr cp 6)) as (-> & _).
  destruct (land_ones_mod (N.shiftr cp 12)) as (-> & _).
  rewrite !N.shiftr_div_pow2. pow2_consts.
  unfold cp. f_equal; [|f_equal; [|f_equal; [|f_equal]]]; f_equal; div_lia.
Qed.

Lemma toByte_of_byte (b : byte) : toByte (Byte.to_N b) = b.
Proof. apply toByte_to_N. apply N.mod_small. apply to_N_lt. Qed.

Lemma map_toByte (data : list byte) : map toByte (map Byte.to_N data) = data.
Proof.
  induction data as [|b data IH]; cbn [map]; [reflexivity|].
  now rewrite toByte_of_byte, IH.
Qed.

(** Decoding well-formed UTF-8 gives scalar values whose encodings are
    the bytes decoded. *)
Lemma decode_wellFormed (n : nat) :
  forall bs : list N,
    length bs <= n -> wellFormedUtf8 bs = true ->
    forallb isScalarValue (utf8CodePoints bs) = true
    /\ flat_map utf8Bytes (utf8CodePoints bs) = map toByte bs.
Proof.
  induction n as [n IH] using lt_wf_ind. intros bs Hlen W.
  destruct bs as [|b0 r0]; [now split|].
  cbn [wellFormedUtf8] in W. cbn [utf8CodePoints]. cbn zeta.
  destruct (b0 <? 128)%N eqn:C1.
  { apply N.ltb_lt in C1. destruct (seq1 b0 C1) as [S B].
    destruct (IH (length r0)) with (bs := r0) as [I1 I2];
      [simpl in Hlen; lia | reflexivity | exact W |].
    cbn [forallb flat_map map]. now rewrite S, B, I1, I2. }
  destruct (inRange 194 223 b0) eqn:C2.
  { destruct r0 as [|b1 r1]; [discriminate W|].
    apply andb_true_iff in W as [R1 W]. rewrite R1.
    destruct (seq2 b0 b1 C2 R1) as [S B].
    destruct (IH (length r1)) with (bs := r1) as [I1 I2];
      [simpl in Hlen; lia | reflexivity | exact W |].
    cbn [forallb flat_map map]. now rewrite S, B, I1, I2. }
  destruct (inRange 224 239 b0) eqn:C3.
  { destruct r0 as [|b1 [|b2 r2]]; try discriminate W.
    apply andb_true_iff in W as [W W2]. apply andb_true_iff in W as [R1 R2].
    rewrite R1, R2.
    destruct (seq3 b0 b1 b2 C3 R1 R2) as [S B].
    destruct (IH (length r2)) with (bs := r2) as [I1 I2];
      [simpl in Hlen; lia | reflexivity | exact W2 |].
    cbn [forallb flat_map map]. now rewrite S, B, I1, I2. }
  destruct (inRange 240 244 b0) eqn:C4; [|discriminate W].
  destruct r0 as [|b1 [|b2 [|b3 r3]]]; try discriminate W.
  apply andb_true_iff in W as [W W3]. apply andb_true_iff in W as [W R3].
  apply andb_true_iff in W as [R1 R2]. rewrite R1, R2, R3.
  destruct (seq4 b0 b1 b2 b3 C4 R1 R2 R3) as [S B].
  destruct (IH (length r3)) with (bs := r3) as [I1 I2];
    [simpl in Hlen; lia | reflexivity | exact W3 |].
  cbn [forallb flat_map map]. now rewrite S, B, I1, I2.
Qed.

(** Whatever the bytes, the decoder gives scalar values. *)
Lemma utf8CodePoints_scalar (n : nat) :
  forall bs : list N,
    length bs <= n -> forallb isScalarValue (utf8CodePoints bs) = true.
Proof.
  induction n as [n IH] using lt_wf_ind. intros bs Hlen.
  assert (I : forall r : list N, length r < length bs ->
                forallb isScalarValue (utf8CodePoints r) = true).
  { intros r Hr. apply (IH (length r)); [lia | reflexivity]. }
  destruct bs as [|b0 r0]; [reflexivity|].
  assert (I0 : forallb isScalarValue (utf8CodePoints r0) = true)
    by (apply I; simpl; lia).
  cbn [utf8CodePoints]. cbn zeta.
  destruct (b0 <? 128)%N eqn:C1.
  { apply N.ltb_lt in C1. destruct (seq1 b0 C1) as [S _].
    cbn [forallb]. now rewrite S, I0. }
  destruct (inRange 194 223 b0) eqn:C2.
  { destruct r0 as [|b1 r1]; [reflexivity|].
    destruct (inRange 128 191 b1) eqn:R1; [|cbn [forallb]; now rewrite I0].
    destruct (seq2 b0 b1 C2 R1) as [S _]. cbn [forallb]. rewrite S.
    apply I. simpl. lia. }
  destruct (inRange 224 239 b0) eqn:C3.
  { destruct r0 as [|b1 r1]; [reflexivity|].
    destruct (inRange _ _ b1) eqn:R1; [|cbn [forallb]; now rewrite I0].
    destruct r1 as [|b2 r2]; [reflexivity|].
    destruct (inRange 128 191 b2) eqn:R2.
    - destruct (seq3 b0 b1 b2 C3 R1 R2) as [S _]. cbn [forallb]. rewrite S.
      apply I. simpl. lia.
    - cbn [forallb]. change (isScalarValue replacementChar) with true.
      apply I. simpl. lia. }
  destruct (inRange 240 244 b0) eqn:C4; [|cbn [forallb]; now rewrite I0].
  destruct r0 as [|b1 r1]; [reflexivity|].
  destruct (inRange _ _ b1) eqn:R1; [|cbn [forallb]; now rewrite I0].
  destruct r1 as [|b2 r2]; [reflexivity|].
  destruct (inRange 128 191 b2) eqn:R2.
  2:{ cbn [forallb]. change (isScalarValue replacementChar) with true.
      apply I. simpl. lia. }
  destruct r2 as [|b3 r3]; [reflexivity|].
  destruct (inRange 128 191 b3) eqn:R3.
  - destruct (seq4 b0 b1 b2 b3 C4 R1 R2 R3) as [S _]. cbn [forallb]. rewrite S.
    apply I. simpl. lia.
  - cbn [forallb]. change (isScalarValue replacementChar) with true.
    apply I. simpl. lia.
Qed.

Lemma to_N_toByte (x : N) : (x < 256)%N -> Byte.to_N (toByte x) = x.
Proof.
  intros H. unfold toByte. rewrite N.mod_small by exact H.
  destruct (Byte.of_N x) as [b|] eqn:E.
  - now apply Byte.to_of_N.
  - apply Byte.of_N_None_iff in E. lia.
Qed.

(** The encoding of a scalar value is a well-formed sequence. *)
Lemma encode_wellFormed (cp : N) (rest : list N) :
  isScalarValue cp = true ->
  wellFormedUtf8 (map Byte.to_N (utf8Bytes cp) ++ rest) = wellFormedUtf8 rest.
Proof.
  intros H. apply isScalarValue_spec in H. unfold utf8Bytes.
  destruct (N.ltb_spec cp 128) as [L1|L1].
  { cbn [map app wellFormedUtf8]. rewrite to_N_toByte by lia.
    now apply N.ltb_lt in L1 as ->. }
  destruct (N.ltb_spec cp 2048) as [L2|L2].
  { destruct (land_ones_mod cp) as (-> & _). rewrite N.shiftr_div_pow2.
    change (2 ^ 6)%N with 64%N. cbn [map app].
    rewrite !to_N_toByte by div_lia. cbn [wellFormedUtf8].
    assert ((192 + cp / 64 <? 128)%N = false) as -> by (apply N.ltb_ge; div_lia).
    assert (inRange 194 223 (192 + cp / 64) = true) as ->
      by (apply inRange_spec; div_lia).
    assert (inRange 128 191 (128 + cp mod 64) = true) as ->
      by (apply inRange_spec; div_lia).
    reflexivity. }
  destruct (N.ltb_spec cp 65536) as [L3|L3].
  { destruct (land_ones_mod cp) as (-> & _).
    destruct (land_ones_mod (N.shiftr cp 6)) as (-> & _).
    rewrite !N.shiftr_div_pow2. pow2_consts. cbn [map app].
    rewrite !to_N_toByte by div_lia. cbn [wellFormedUtf8].
    assert ((224 + cp / 4096 <? 128)%N = false) as -> by (apply N.ltb_ge; div_lia).
    assert (inRange 194 223 (224 + cp / 4096) = false) as ->
      by (apply inRange_false; div_lia).
    assert (inRange 224 239 (224 + cp / 4096) = true) as ->
      by (apply inRange_spec; div_lia).
    assert (inRange 128 191 (128 + cp mod 64) = true) as ->
      by (apply inRange_spec; div_lia).
    assert (inRange (if (224 + cp / 4096 =? 224)%N then 160 else 128)
              (if (224 + cp / 4096 =? 237)%N then 159 else 191)
              (128 + (cp / 64) mod 64) = true) as ->.
    { apply inRange_spec.
      destruct (N.eqb_spec (224 + cp / 4096) 224);
        destruct (N.eqb_spec (224 + cp / 4096) 237); div_lia. }
    reflexivity. }
  destruct (land_ones_mod cp) as (-> & _).
  destruct (land_ones_mod (N.shiftr cp 6)) as (-> & _).
  destruct (land_ones_mod (N.shiftr cp 12)) as (-> & _).
  rewrite !N.shiftr_div_pow2. pow2_consts. cbn [map app].
  rewrite !to_N_toByte by div_lia. cbn [wellFormedUtf8].
  assert ((240 + cp / 262144 <? 128)%N = false) as -> by (apply N.ltb_ge; div_lia).
  assert (inRange 194 223 (240 + cp / 262144) = false) as ->
    by (apply inRange_false; div_lia).
  assert (inRange 224 239 (240 + cp / 262144) = false) as ->
    by (apply inRange_false; div_lia).
  assert (inRange 240 244 (240 + cp / 262144) = true) as ->
    by (apply inRange_spec; div_lia).
  assert (inRange 128 191 (128 + cp mod 64) = true) as ->
    by (apply inRange_spec; div_lia).
  assert (inRange 128 191 (128 + (cp / 64) mod 64) = true) as ->
    by (apply inRange_spec; div_lia).
  assert (inRange (if (240 + cp / 262144 =? 240)%N then 144 else 128)
            (if (240 + cp / 262144 =? 244)%N then 143 else 191)
            (128 + (cp / 4096) mod 64) = true) as ->.
  { apply inRange_spec.
    destruct (N.eqb_spec (240 + cp / 262144) 240);
      destruct (N.eqb_spec (240 + cp / 262144) 244); div_lia. }
  reflexivity.
Qed.

Lemma encode_all_wellFormed (cps : list N) :
  forallb isScalarValue cps = true ->
  wellFormedUtf8 (map Byte.to_N (flat_map utf8Bytes cps)) = true.
Proof.
  induction cps as [|cp cps IH]; cbn [forallb flat_map]; [reflexivity|].
  intros H. apply andb_true_iff in H as [H1 H2].
  rewrite map_app, (encode_wellFormed cp _ H1). now apply IH.
Qed.

(** X22: a page is read with [readFileSync (p, 'utf8')] and written back
    with [writeFileSync (p, s, 'utf8')].  Decoding the bytes of a file and
    encoding the text again gives the same bytes exactly when the file is
    well-formed UTF-8; any other file (a Latin-1 page, say) loses bytes to
    U+FFFD when it is written back. *)
Theorem utf8_round_trip_iff_well_formed (data : list byte) :
  utf8Encode (utf8Decode data) = data
  <-> wellFormedUtf8 (map Byte.to_N data) = true.
Proof.
  assert (S : forallb isScalarValue (utf8CodePoints (map Byte.to_N data)) = true)
    by (apply (utf8CodePoints_scalar (length (map Byte.to_N data))); reflexivity).
  assert (E : utf8Encode (utf8Decode data)
              = flat_map utf8Bytes (utf8CodePoints (map Byte.to_N data))).
  { unfold utf8Encode, utf8Decode. now rewrite codePoints_flat_units. }
  split.
  - intros H. rewrite <- H at 1. rewrite E. now apply encode_all_wellFormed.
  - intros W. rewrite E.
    destruct (decode_wellFormed (length (map Byte.to_N data)) (map Byte.to_N data))
      as [_ B]; [reflexivity | exact W |].
    rewrite B. apply map_toByte.
Qed.

(** ** A rewritten tag is matched again as it is *)

Lemma base64Char_plain (ch : jschar) : isBase64Char ch -> plainChar ch = true.
Proof.
  unfold isBase64Char, base64Alphabet. intros [H| ->]; [|reflexivity].
  cbn in H. repeat (destruct H as [<-|H]; [reflexivity|]). destruct H.
Qed.

Lemma mimeType_plain (ext : jsstring) : forallb plainChar (mimeType ext) = true.
Proof.
  unfold mimeType.
  repeat match goal with
         | |- context [if ?b then _ else _] => destruct b
         end; reflexivity.
Qed.

Lemma dataUri_plain (ext : jsstring) (data : list byte) :
  forallb plainChar (dataUri (mimeType ext) (base64 data)) = true.
Proof.
  unfold dataUri. rewrite !forallb_app, mimeType_plain.
  assert (forallb plainChar (base64 data) = true) as ->.
  { apply forallb_forall. intros ch Hch. apply base64Char_plain.
    pose proof (base64_chars data) as F. rewrite Forall_forall in F. now apply F. }
  reflexivity.
Qed.

Lemma plain_parts (u : jsstring) :
  forallb plainChar u = true ->
  forallb notQuote u = true /\ forallb notGt u = true
  /\ forallb (fun ch => negb (isWhiteSpace ch)) u = true.
Proof.
  induction u as [|x u IH]; cbn [forallb]; [auto|].
  intros H. apply andb_true_iff in H as [Hx H]. destruct (IH H) as (A & B & C).
  unfold plainChar in Hx. apply andb_true_iff in Hx as [Hx H3].
  apply andb_true_iff in Hx as [H1 H2]. now rewrite H1, H2, H3, A, B, C.
Qed.

Lemma srcValuesEmpty_plain (pfx s : jsstring) :
  forallb (fun ch => negb (isWhiteSpace ch)) pfx = true ->
  srcValuesEmpty (pfx ++ s) = srcValuesEmpty s.
Proof.
  induction pfx as [|x pfx IH]; cbn [forallb app]; [reflexivity|].
  intros H. apply andb_true_iff in H as [Hx H]. apply negb_true_iff in Hx.
  cbn [srcValuesEmpty]. unfold srcAttrOpen. cbn [app rematch]. rewrite Hx.
  now apply IH.
Qed.

Lemma split_unique (p : jschar -> bool) (a a' : jsstring) :
  forall (x x' : jschar) (b b' : jsstring),
    forallb p a = true -> p x = false -> forallb p a' = true -> p x' = false ->
    a ++ x :: b = a' ++ x' :: b' -> a = a' /\ x = x' /\ b = b'.
Proof.
  revert a'. induction a as [|y a IH]; intros [|y' a'] x x' b b' Ha Hx Ha' Hx' E;
    cbn [app forallb] in *.
  - injection E as -> ->. auto.
  - injection E as -> _. apply andb_true_iff in Ha' as [Hy _]. congruence.
  - injection E as -> _. apply andb_true_iff in Ha as [Hy _]. congruence.
  - injection E as -> E. apply andb_true_iff in Ha as [_ Ha].
    apply andb_true_iff in Ha' as [_ Ha'].
    destruct (IH a' x x' b b' Ha Hx Ha' Hx' E) as (-> & -> & ->). auto.
Qed.

Lemma app_inv_length (a c b d : jsstring) :
  a ++ b = c ++ d -> length a = length c -> a = c /\ b = d.
Proof.
  revert c. induction a as [|x a IH]; intros [|y c] E L; try discriminate L.
  - auto.
  - cbn [app] in E. injection E as -> E. simpl in L.
    destruct (IH c E) as [-> ->]; [lia | auto].
Qed.

Lemma app_prefix_cmp (a c b d : jsstring) :
  a ++ b = c ++ d -> length c <= length a -> exists x, a = c ++ x /\ d = x ++ b.
Proof.
  revert a. induction c as [|y c IH]; intros a E L.
  - exists a. auto.
  - destruct a as [|x a]; [simpl in L; lia|].
    cbn [app] in E. injection E as -> E. simpl in L.
    destruct (IH a E) as (z & -> & ->); [lia|]. now exists z.
Qed.

Lemma ws_notGt (w : jschar) : isWhiteSpace w = true -> notGt w = true.
Proof.
  intros H. unfold notGt, isGt. destruct (w =? gt)%N eqn:X; [|reflexivity].
  apply N.eqb_eq in X. subst w. discriminate H.
Qed.

Lemma quote_notGt (q : jschar) : isQuote q = true -> notGt q = true.
Proof.
  intros H. unfold notGt, isGt. destruct (q =? gt)%N eqn:X; [|reflexivity].
  apply N.eqb_eq in X. subst q. discriminate H.
Qed.

Lemma quote_notQuote (q : jschar) : isQuote q = true -> notQuote q = false.
Proof. intros H. unfold notQuote. now rewrite H. Qed.

(** The text behind the opening of a rewritten tag holds no opening of a
    src attribute with a value, when the attributes after src hold none. *)
Lemma rewritten_tail_empty (uri after : jsstring) :
  forallb plainChar uri = true ->
  srcValuesEmpty (after ++ [gt]) = true ->
  srcValuesEmpty ((lit "src=" ++ dquote :: uri ++ [dquote]) ++ after ++ [gt]) = true.
Proof.
  intros Hu He. rewrite srcValuesEmpty_plain; [exact He|].
  destruct (plain_parts uri Hu) as (_ & _ & W).
  rewrite forallb_app. cbn [forallb]. rewrite forallb_app, W. reflexivity.
Qed.

(** No src attribute with a value opens in a text whose src attributes
    are all empty. *)
Lemma no_open_in_empty (body post xs : jsstring) (w : jschar) (attr : jsstring)
    (q1 v0 : jschar) (y : jsstring) :
  forallb notGt xs = true ->
  isWhiteSpace w = true -> ciEq attr (lit "src=") -> isQuote q1 = true ->
  isQuote v0 = false ->
  srcValuesEmpty (body ++ [gt]) = true ->
  body ++ gt :: post = xs ++ w :: attr ++ q1 :: v0 :: y -> False.
Proof.
  intros Hxs Hw Ha Hq1 Hv0 He E.
  set (p := xs ++ w :: attr ++ [q1]).
  assert (Ep : body ++ gt :: post = p ++ v0 :: y)
    by (rewrite E; unfold p; flatten_app; reflexivity).
  assert (Hp : forallb notGt p = true).
  { unfold p. rewrite forallb_app, Hxs. cbn [forallb andb].
    rewrite (ws_notGt w Hw), forallb_app, (ciEq_notGt attr "src=" eq_refl Ha).
    cbn [forallb andb]. now rewrite (quote_notGt q1 Hq1). }
  destruct (prefix_before_gt body post p _ Hp Ep) as (k & Hk).
  rewrite Hk, <- app_assoc in Ep. apply app_inv_head in Ep.
  assert (exists y', body ++ [gt] = p ++ v0 :: y') as (y' & Ey).
  { destruct k as [|k0 k]; cbn [app] in Ep; injection Ep as <- _.
    - exists []. now rewrite Hk, app_nil_r.
    - exists (k ++ [gt]). now rewrite Hk, <- app_assoc. }
  rewrite Ey in He. unfold p in He.
  replace ((xs ++ w :: attr ++ [q1]) ++ v0 :: y')
    with (xs ++ w :: attr ++ q1 :: v0 :: y') in He by (flatten_app; reflexivity).
  rewrite (srcValuesEmpty_open xs w attr q1 v0 y' Hw Ha Hq1 Hv0) in He.
  discriminate He.
Qed.

(** X23: a tag that was rewritten is matched again as it is.  When the
    attributes after src of a matched tag open no further src attribute
    with a value, the tag the callback builds is matched by the same
    pattern, whatever follows it, as one tag with the same attributes
    before and after src and with the data URI as its src; the callback
    then returns it as it is, so the next run does not touch it. *)
Theorem rewritten_tag_is_matched_again (tag : string) (c : Converter) (d : Disk)
    (b : bool) (s rest0 : jsstring) (m : TagMatch) (rest : jsstring) :
  forallb notGt (lit tag) = true ->
  exec (tagRegex tag) s = Some (m, rest0) ->
  convertible c d m = true ->
  srcValuesEmpty (afterSrc m ++ [gt]) = true ->
  exists m',
    exec (tagRegex tag) (fst (rewriteTag tag d (c, b) m) ++ rest) = Some (m', rest)
    /\ matched m' = fst (rewriteTag tag d (c, b) m)
    /\ beforeSrc m' = beforeSrc m /\ afterSrc m' = afterSrc m
    /\ startsWith (src m') (lit "data:") = true
    /\ forall st, rewriteTag tag d st m' = (matched m', st).
Proof.
  intros Htag E Hc Hempty.
  apply exec_sound in E as [_ [o w a q1 q2 _ _ _ _ _ _ _ _ Hb Haf]].
  destruct (rewriteTag_convertible tag c d b m Hc) as (data & _ & ->). cbn [fst].
  set (uri := dataUri _ (base64 data)).
  assert (Up : forallb plainChar uri = true) by apply dataUri_plain.
  destruct (plain_parts uri Up) as (Uq & Ug & Uw).
  assert (Une : uri <> []) by discriminate.
  assert (Ud : startsWith uri (lit "data:") = true) by reflexivity.
  clearbody uri.
  rewrite newTag_tagText.
  set (before := beforeSrc m) in *. set (after := afterSrc m) in *.
  set (t := tagText (lit "<" ++ lit tag) before 32%N (lit "src=") dquote uri dquote after).
  pose proof (tagText_Matches tag (lit "<" ++ lit tag) before 32%N (lit "src=") dquote
                uri dquote after (ciEq_refl _) Hb eq_refl (ciEq_refl _) eq_refl
                Une Uq eq_refl Haf) as HM.
  fold t in HM.
  destruct (rematch_complete _ _ _ HM rest) as (caps' & rest' & R).
  destruct (rematch_sound _ _ _ _ R) as (txt & Etxt & HM').
  destruct (tagRegex_shape _ _ _ HM')
    as (o' & g1 & w' & a' & q1' & v' & q2' & g3 & -> & -> & Ho' & Hw' & Ha' & Hq1'
        & Hq2' & Hv' & Hvq' & Hg1 & Hg3).
  pose proof (rematch_longest_before tag (lit "<" ++ lit tag) before 32%N (lit "src=")
                dquote uri dquote after rest g1 v' g3 rest' (ciEq_refl _) Hb eq_refl
                (ciEq_refl _) eq_refl Une Uq eq_refl Haf R) as L.
  (* the two readings of the text, aligned *)
  set (X := 32%N :: lit "src=" ++ dquote :: uri ++ dquote :: after ++ gt :: rest).
  set (Y := w' :: a' ++ q1' :: v' ++ q2' :: g3 ++ gt :: rest').
  assert (E1 : (lit "<" ++ lit tag) ++ before ++ X = o' ++ g1 ++ Y).
  { transitivity (t ++ rest); [unfold t, tagText, X; flatten_app; reflexivity|].
    rewrite Etxt. unfold tagText, Y. flatten_app. reflexivity. }
  destruct (app_inv_length _ _ _ _ E1) as [Eo E2].
  { symmetry. now apply ciEq_length. }
  destruct (app_prefix_cmp g1 before Y X (eq_sym E2) L) as (x & Eg & EX).
  assert (Same : x = []).
  { destruct x as [|x0 xs]; [reflexivity | exfalso].
    unfold X, Y in EX. apply (f_equal (@tl _)) in EX. cbn [tl app] in EX.
    destruct v' as [|v0 vs]; [now apply Hv'|].
    cbn [forallb] in Hvq'. apply andb_true_iff in Hvq' as [Hv0 _].
    unfold notQuote in Hv0. apply negb_true_iff in Hv0.
    assert (Hxs : forallb notGt xs = true).
    { rewrite Eg, forallb_app in Hg1. apply andb_true_iff in Hg1 as [_ Hg1].
      cbn [forallb] in Hg1. now apply andb_true_iff in Hg1 as [_ Hg1]. }
    apply (no_open_in_empty (lit "src=" ++ dquote :: uri ++ dquote :: after) rest xs
             w' a' q1' v0 (vs ++ q2' :: g3 ++ gt :: rest') Hxs Hw' Ha' Hq1' Hv0).
    - pose proof (rewritten_tail_empty uri after Up Hempty) as He.
      replace ((lit "src=" ++ dquote :: uri ++ dquote :: after) ++ [gt])
        with ((lit "src=" ++ dquote :: uri ++ [dquote]) ++ after ++ [gt])
        by (flatten_app; reflexivity).
      exact He.
    - etransitivity; [|exact EX]. flatten_app. reflexivity. }
  subst x. rewrite app_nil_r in Eg. unfold X, Y in EX.
  apply (f_equal (@tl _)) in EX. cbn [tl app] in EX.
  destruct (app_inv_length (lit "src=") a' _ _ EX) as [Ea EX2].
  { symmetry. now apply (ciEq_length a' (lit "src=")). }
  apply (f_equal (@tl _)) in EX2. cbn [tl] in EX2. rename EX2 into EX3.
  destruct (split_unique notQuote uri v' dquote q2' _ _ Uq eq_refl Hvq'
              (quote_notQuote q2' Hq2') EX3) as (Ev & Eq2 & EX4).
  destruct (split_unique notGt after g3 gt gt _ _ Haf eq_refl Hg3 eq_refl EX4)
    as (Eg3 & _ & Er).
  subst g1 v' g3 rest'.
  exists {| matched := firstn (length (t ++ rest) - length rest) (t ++ rest);
            beforeSrc := before; src := uri; afterSrc := after |}.
  assert (Ex : exec (tagRegex tag) (t ++ rest)
               = Some ({| matched := firstn (length (t ++ rest) - length rest) (t ++ rest);
                          beforeSrc := before; src := uri; afterSrc := after |}, rest)).
  { unfold exec. now rewrite R. }
  split; [exact Ex|]. cbn [matched beforeSrc src afterSrc].
  split; [apply firstn_length_app|]. split; [reflexivity|]. split; [reflexivity|].
  split; [exact Ud|].
  intros st. apply rewriteTag_data. exact Ud.
Qed.

Lemma rewritten_tag_is_matched_again_witness :
  exists m',
    exec imgRegex (lit "<img src=" ++ [dquote] ++ lit "data:image/png;base64,QUFB"
                     ++ [dquote] ++ lit " alt='x'>" ++ lit "</p>")
    = Some (m', lit "</p>")
    /\ afterSrc m' = lit " alt='x'".
Proof.
  destruct (rewritten_tag_is_matched_again "img" demo (demoDisk singleQuotedPage)
              false (lit "<img src='a.png' alt='x'>") []
              {| matched := lit "<img src='a.png' alt='x'>"; beforeSrc := [];
                 src := lit "a.png"; afterSrc := lit " alt='x'" |}
              (lit "</p>") eq_refl eq_refl eq_refl eq_refl)
    as (m' & H1 & _ & _ & H2 & _).
  exists m'. split; [exact H1 | exact H2].
Defined.

(** ** C2: a second run of the conversion *)

(** *** Src attributes whose value holds no [>] *)

Lemma quoteFirst_no_quote (y r : jsstring) :
  forallb notQuote y = true -> quoteFirst (y ++ gt :: r) = false.
Proof.
  induction y as [|ch y IH]; cbn [forallb app quoteFirst]; [reflexivity|].
  intros H. apply andb_true_iff in H as [Hc Hy].
  unfold notQuote in Hc. apply negb_true_iff in Hc. rewrite Hc.
  destruct (isGt ch); [reflexivity | now apply IH].
Qed.

Lemma srcValuesClosed_app (x y : jsstring) :
  srcValuesClosed (x ++ y) = true -> srcValuesClosed y = true.
Proof.
  induction x as [|c x IH]; [auto|].
  cbn [app srcValuesClosed]. intros H. apply andb_true_iff in H as [_ H]. auto.
Qed.

Lemma srcValuesClosed_open (x : jsstring) (w : jschar) (attr : jsstring)
    (q1 : jschar) (z : jsstring) :
  isWhiteSpace w = true -> ciEq attr (lit "src=") -> isQuote q1 = true ->
  srcValuesClosed (x ++ w :: attr ++ q1 :: z) = true -> quoteFirst z = true.
Proof.
  intros Hw Ha Hq1 E.
  apply srcValuesClosed_app in E. cbn [srcValuesClosed] in E.
  apply andb_true_iff in E as [E _].
  unfold srcAttrOpen in E. cbn [app rematch] in E. rewrite Hw in E.
  unfold ciLit in E. rewrite (rematch_ciLit _ [Chr isQuote] _ _ Ha) in E.
  cbn [rematch] in E. now rewrite Hq1 in E.
Qed.

Lemma closed_of_bool (s : jsstring) : srcValuesClosed s = true -> Closed s.
Proof.
  intros H a r -> (x & w & attr & q1 & y & -> & Hw & Ha & Hq & Hy).
  assert (E : quoteFirst (y ++ gt :: r) = true).
  { apply (srcValuesClosed_open x w attr q1 _ Hw Ha Hq).
    rewrite <- H. f_equal. flatten_app. reflexivity. }
  rewrite quoteFirst_no_quote in E by exact Hy. discriminate E.
Qed.

Lemma openEnded_app (z a : jsstring) : openEnded a -> openEnded (z ++ a).
Proof.
  intros (x & w & attr & q1 & y & -> & H). exists (z ++ x), w, attr, q1, y.
  split; [now rewrite <- app_assoc | exact H].
Qed.

Lemma Closed_tail (a r : jsstring) : Closed (a ++ gt :: r) -> Closed r.
Proof.
  intros H b r' -> Hb. apply (H (a ++ gt :: b) r').
  - now rewrite <- app_assoc.
  - change (a ++ gt :: b) with (a ++ [gt] ++ b). rewrite app_assoc. now apply openEnded_app.
Qed.

Lemma Closed_head (a r : jsstring) : Closed (a ++ gt :: r) -> ~ openEnded a.
Proof. intros H. now apply (H a r). Qed.

(** *** Matches lie between two [>] *)

(** Where a text that is cut at a [>] is cut a second time. *)
Lemma cut_cases (P y a b : jsstring) :
  P ++ y = a ++ gt :: b ->
  (exists k, a = P ++ k /\ y = k ++ gt :: b)
  \/ (exists P', P = a ++ gt :: P' /\ b = P' ++ y).
Proof.
  intros E. apply app_eq_app in E as (l & [[-> E]|[-> ->]]).
  - destruct l as [|c l]; cbn [app] in E.
    + left. exists []. rewrite !app_nil_r. split; [reflexivity | now symmetry].
    + injection E as <- ->. right. now exists l.
  - left. now exists l.
Qed.

Lemma notGt_app (a b : jsstring) :
  forallb notGt (a ++ b) = true <-> forallb notGt a = true /\ forallb notGt b = true.
Proof. rewrite forallb_app. apply andb_true_iff. Qed.

Lemma notGt_gt (a b : jsstring) : forallb notGt (a ++ gt :: b) = true -> False.
Proof.
  intros H. apply notGt_app in H as [_ H]. cbn [forallb] in H.
  apply andb_true_iff in H as [H _]. discriminate H.
Qed.

Lemma notQuote_app (a b : jsstring) :
  forallb notQuote (a ++ b) = true
  <-> forallb notQuote a = true /\ forallb notQuote b = true.
Proof. rewrite forallb_app. apply andb_true_iff. Qed.

Lemma opening_notGt (w : jschar) (attr : jsstring) (q1 : jschar) :
  isWhiteSpace w = true -> ciEq attr (lit "src=") -> isQuote q1 = true ->
  forallb notGt (w :: attr ++ [q1]) = true.
Proof.
  intros Hw Ha Hq. cbn [forallb]. rewrite (ws_notGt w Hw). cbn [andb].
  apply notGt_app. split; [now apply (ciEq_notGt attr "src=")|].
  cbn [forallb]. now rewrite (quote_notGt q1 Hq).
Qed.

(** A text that holds a [>] is cut at its first [>]. *)
Lemma gt_split (s : jsstring) :
  forallb notGt s = true
  \/ exists a r, s = a ++ gt :: r /\ forallb notGt a = true.
Proof.
  induction s as [|c s IH]; [now left|].
  destruct (notGt c) eqn:Hc.
  - destruct IH as [H|(a & r & -> & Ha)].
    + left. cbn [forallb]. now rewrite Hc, H.
    + right. exists (c :: a), r. split; [reflexivity|]. cbn [forallb]. now rewrite Hc, Ha.
  - right. exists [], s. split; [|reflexivity].
    unfold notGt, isGt in Hc. apply negb_false_iff, N.eqb_eq in Hc. now subst c.
Qed.

Lemma Closed_cons_seg (a r : jsstring) :
  forallb notGt a = true -> ~ openEnded a -> Closed r -> Closed (a ++ gt :: r).
Proof.
  intros Ha Hn Hr b r' E Hb. symmetry in E.
  apply cut_cases in E as [(k & -> & E)|(P' & -> & ->)].
  - destruct k as [|c k]; cbn [app] in E.
    + rewrite app_nil_r in Hn. contradiction.
    + injection E as <- _. now apply notGt_gt in Ha.
  - destruct Hb as (x & w & attr & q1 & y & E & Hw & Hat & Hq & Hy).
    symmetry in E.
    replace (x ++ w :: attr ++ q1 :: y) with ((x ++ w :: attr ++ [q1]) ++ y) in E
      by (flatten_app; reflexivity).
    apply cut_cases in E as [(k & -> & ->)|(P2 & E & ->)].
    + apply Hn. exists x, w, attr, q1, k. split; [flatten_app; reflexivity|].
      apply notQuote_app in Hy as [Hy _]. auto.
    + apply cut_cases in E as [(k & -> & E)|(P3 & -> & ->)].
      * pose proof (opening_notGt w attr q1 Hw Hat Hq) as G.
        rewrite E in G. now apply notGt_gt in G.
      * apply (Hr ((P3 ++ w :: attr ++ [q1]) ++ y) r'); [reflexivity|].
        exists P3, w, attr, q1, y. split; [flatten_app; reflexivity | auto].
Qed.

Lemma exec_rematch (re : regex) (s : jsstring) (m : TagMatch) (rest : jsstring) :
  exec re s = Some (m, rest) ->
  rematch re s = Some ([beforeSrc m; src m; afterSrc m], rest).
Proof.
  unfold exec. destruct (rematch re s) as [[caps r]|]; [|discriminate].
  destruct caps as [|g1 [|g2 [|g3 [|g4 caps]]]]; try discriminate.
  intros H. injection H as <- <-. reflexivity.
Qed.

(** A text that begins with a tag with a src attribute is matched. *)
Lemma exec_complete (tag : string) (opening before : jsstring) (w : jschar)
    (attr : jsstring) (q1 : jschar) (value : jsstring) (q2 : jschar)
    (after rest : jsstring) :
  ciEq opening (lit "<" ++ lit tag) -> forallb notGt before = true ->
  isWhiteSpace w = true -> ciEq attr (lit "src=") -> isQuote q1 = true ->
  value <> [] -> forallb notQuote value = true -> isQuote q2 = true ->
  forallb notGt after = true ->
  exists m r,
    exec (tagRegex tag) (tagText opening before w attr q1 value q2 after ++ rest)
    = Some (m, r).
Proof.
  intros Ho Hb Hw Ha Hq1 Hv Hvq Hq2 Haf.
  pose proof (tagText_Matches tag opening before w attr q1 value q2 after
                Ho Hb Hw Ha Hq1 Hv Hvq Hq2 Haf) as HM.
  destruct (rematch_complete _ _ _ HM rest) as (caps & r & E).
  destruct (rematch_sound _ _ _ _ E) as (txt & _ & HM2).
  destruct (tagRegex_shape _ _ _ HM2) as (o & b & w2 & a & q & v & q' & af & -> & _).
  unfold exec. rewrite E. eauto.
Qed.

(** Inside a tag whose src attributes are closed, a match ends at the
    [>] of the tag and its src value holds no [>]. *)
Lemma exec_in_segment (tag : string) (p r : jsstring) (m : TagMatch) (r' : jsstring) :
  forallb notGt (lit tag) = true ->
  forallb notGt p = true -> ~ openEnded p ->
  exec (tagRegex tag) (p ++ gt :: r) = Some (m, r') ->
  r' = r /\ matched m = p ++ [gt] /\ TagShape tag m
  /\ forallb notGt (src m) = true.
Proof.
  intros Ht Hp Hn H. apply exec_sound in H as [E S].
  assert (S' := S).
  destruct S' as [o w a q1 q2 Em Ho Hw Ha Hq1 Hq2 Hv Hvq Hb Haf].
  assert (Hog : forallb notGt o = true).
  { apply (ciEq_notGt o ("<" ++ tag)); [|exact Ho].
    change (lit ("<" ++ tag)) with (lit "<" ++ lit tag). apply notGt_app. now split. }
  rewrite Em in E. unfold tagText in E.
  replace ((o ++ beforeSrc m ++ [w] ++ a ++ [q1] ++ src m ++ [q2] ++ afterSrc m ++ [gt])
             ++ r')
    with ((o ++ beforeSrc m ++ w :: a ++ [q1])
            ++ (src m ++ q2 :: afterSrc m ++ gt :: r')) in E
    by (flatten_app; reflexivity).
  symmetry in E. apply cut_cases in E as [(k & Ep & E)|(P' & E & _)].
  2:{ exfalso. assert (G : forallb notGt (o ++ beforeSrc m ++ w :: a ++ [q1]) = true).
      { apply notGt_app. split; [exact Hog|]. apply notGt_app. split; [exact Hb|].
        now apply opening_notGt. }
      rewrite E in G. now apply notGt_gt in G. }
  assert (Hk : forallb notGt k = true).
  { rewrite Ep in Hp. now apply notGt_app in Hp as [_ Hp]. }
  apply cut_cases in E as [(k2 & -> & E)|(P2 & E & _)].
  2:{ exfalso. apply Hn. exists (o ++ beforeSrc m), w, a, q1, k.
      split; [rewrite Ep; flatten_app; reflexivity|].
      rewrite E in Hvq. apply notQuote_app in Hvq as [Hvq _]. auto. }
  apply notGt_app in Hk as [Hv1 Hk2].
  assert (X : q2 :: afterSrc m = k2 /\ gt = gt /\ r' = r).
  { apply (split_unique notGt); auto.
    cbn [forallb]. now rewrite (quote_notGt q2 Hq2), Haf. }
  destruct X as (<- & _ & ->).
  split; [reflexivity|]. split; [|split; [exact S | exact Hv1]].
  rewrite Em, Ep. unfold tagText. flatten_app. reflexivity.
Qed.

(** Two readings of one text as a tag with a src attribute whose first
    groups are equally long are the same reading. *)
Lemma tagText_unique (tag : string) (o o' before before' : jsstring) (w w' : jschar)
    (a a' : jsstring) (q1 q1' : jschar) (value value' : jsstring) (q2 q2' : jschar)
    (after after' : jsstring) :
  ciEq o (lit "<" ++ lit tag) -> ciEq o' (lit "<" ++ lit tag) ->
  ciEq a (lit "src=") -> ciEq a' (lit "src=") ->
  forallb notQuote value = true -> forallb notQuote value' = true ->
  isQuote q2 = true -> isQuote q2' = true ->
  length before = length before' ->
  tagText o before w a q1 value q2 after = tagText o' before' w' a' q1' value' q2' after' ->
  before = before' /\ value = value' /\ after = after'.
Proof.
  intros Ho Ho' Ha Ha' Hv Hv' Hq Hq' Hlen E. unfold tagText in E.
  apply app_inv_length in E as [_ E];
    [|now rewrite (ciEq_length _ _ Ho), (ciEq_length _ _ Ho')].
  apply app_inv_length in E as [Eb E]; [|exact Hlen].
  cbn [app] in E. injection E as _ E.
  apply app_inv_length in E as [_ E];
    [|now rewrite (ciEq_length _ _ Ha), (ciEq_length _ _ Ha')].
  cbn [app] in E. injection E as _ E.
  apply (split_unique notQuote) in E as (Ev & _ & E); auto using quote_notQuote.
  apply app_inv_tail in E. auto.
Qed.

(** Inside a tag whose src attributes are closed, what a pattern matches
    does not depend on the text behind the [>]. *)
Lemma exec_local (tag : string) (p r1 r2 : jsstring) (m : TagMatch) :
  forallb notGt (lit tag) = true ->
  forallb notGt p = true -> ~ openEnded p ->
  exec (tagRegex tag) (p ++ gt :: r1) = Some (m, r1) ->
  exec (tagRegex tag) (p ++ gt :: r2) = Some (m, r2).
Proof.
  intros Ht Hp Hn H1.
  destruct (exec_in_segment tag p r1 m r1 Ht Hp Hn H1) as (_ & Em & S & Hg).
  destruct S as [o w a q1 q2 Et Ho Hw Ha Hq1 Hq2 Hv Hvq Hb Haf].
  assert (T1 : forall r, p ++ gt :: r
                         = tagText o (beforeSrc m) w a q1 (src m) q2 (afterSrc m) ++ r).
  { intros r. rewrite <- Et, Em. now rewrite <- app_assoc. }
  destruct (exec_complete tag o (beforeSrc m) w a q1 (src m) q2 (afterSrc m) r2
              Ho Hb Hw Ha Hq1 Hv Hvq Hq2 Haf) as (m2 & r2' & H2).
  rewrite <- T1 in H2.
  destruct (exec_in_segment tag p r2 m2 r2' Ht Hp Hn H2) as (-> & Em2 & S2 & Hg2).
  destruct S2 as [o' w' a' q1' q2' Et2 Ho' Hw' Ha' Hq1' Hq2' Hv' Hvq' Hb' Haf'].
  assert (T2 : forall r, p ++ gt :: r
                         = tagText o' (beforeSrc m2) w' a' q1' (src m2) q2' (afterSrc m2) ++ r).
  { intros r. rewrite <- Et2, Em2. now rewrite <- app_assoc. }
  assert (L1 : length (beforeSrc m) <= length (beforeSrc m2)).
  { pose proof (exec_rematch _ _ _ _ H2) as R. rewrite (T1 r2) in R.
    exact (rematch_longest_before tag o (beforeSrc m) w a q1 (src m) q2 (afterSrc m)
             r2 _ _ _ _ Ho Hb Hw Ha Hq1 Hv Hvq Hq2 Haf R). }
  assert (L2 : length (beforeSrc m2) <= length (beforeSrc m)).
  { pose proof (exec_rematch _ _ _ _ H1) as R. rewrite (T2 r1) in R.
    exact (rematch_longest_before tag o' (beforeSrc m2) w' a' q1' (src m2) q2'
             (afterSrc m2) r1 _ _ _ _ Ho' Hb' Hw' Ha' Hq1' Hv' Hvq' Hq2' Haf' R). }
  assert (E : tagText o (beforeSrc m) w a q1 (src m) q2 (afterSrc m)
              = tagText o' (beforeSrc m2) w' a' q1' (src m2) q2' (afterSrc m2))
    by congruence.
  destruct (tagText_unique tag _ _ _ _ _ _ _ _ _ _ _ _ _ _ _ _
              Ho Ho' Ha Ha' Hvq Hvq' Hq2 Hq2' (Nat.le_antisymm _ _ L1 L2) E)
    as (E1 & E2 & E3).
  assert (Em' : m2 = m).
  { destruct m as [mt mb ms ma], m2 as [mt2 mb2 ms2 ma2].
    cbn [matched beforeSrc src afterSrc] in E1, E2, E3, Em, Em2. congruence. }
  now rewrite <- Em'.
Qed.

Lemma exec_local_none (tag : string) (p r1 r2 : jsstring) :
  forallb notGt (lit tag) = true ->
  forallb notGt p = true -> ~ openEnded p ->
  exec (tagRegex tag) (p ++ gt :: r1) = None ->
  exec (tagRegex tag) (p ++ gt :: r2) = None.
Proof.
  intros Ht Hp Hn H1.
  destruct (exec (tagRegex tag) (p ++ gt :: r2)) as [[m r]|] eqn:H2; [|reflexivity].
  destruct (exec_in_segment tag p r2 m r Ht Hp Hn H2) as (-> & _).
  rewrite (exec_local tag p r2 r1 m Ht Hp Hn H2) in H1. discriminate H1.
Qed.

(** A match begins with [<]. *)
Lemma exec_starts (tag : string) (s : jsstring) (m : TagMatch) (r : jsstring) :
  exec (tagRegex tag) s = Some (m, r) -> exists s', s = 60%N :: s'.
Proof.
  intros H. apply exec_sound in H as [-> S].
  destruct S as [o w a q1 q2 -> Ho _ _ _ _ _ _ _ _].
  unfold ciEq in Ho. change (lit "<" ++ lit tag) with (60%N :: lit tag) in Ho.
  destruct o as [|o0 o]; [discriminate Ho|]. cbn [map] in Ho. injection Ho as Ho _.
  assert (o0 = 60%N).
  { unfold upperChar, isLowerAscii in Ho. cbn in Ho.
    destruct ((97 <=? o0)%N && (o0 <=? 122)%N) eqn:E; [|exact Ho].
    apply andb_true_iff in E as [E1 E2]. apply N.leb_le in E1, E2. lia. }
  subst o0. unfold tagText. cbn [app]. eauto.
Qed.

Lemma exec_gt (tag : string) (r : jsstring) : exec (tagRegex tag) (gt :: r) = None.
Proof.
  destruct (exec (tagRegex tag) (gt :: r)) as [[m r']|] eqn:E; [|reflexivity].
  apply exec_starts in E as (s' & E). discriminate E.
Qed.

Lemma openEnded_tail (c : jschar) (a : jsstring) : ~ openEnded (c :: a) -> ~ openEnded a.
Proof. intros H Ha. apply H. now apply (openEnded_app [c]). Qed.

(** The scan of a text goes tag by tag: up to the first [>], and then
    through the rest. *)
Lemma scan_seg (tag : string) (a rest : jsstring) :
  forallb notGt (lit tag) = true ->
  forallb notGt a = true -> ~ openEnded a ->
  scan (tagRegex tag) (a ++ gt :: rest)
  = scan (tagRegex tag) (a ++ [gt]) ++ scan (tagRegex tag) rest.
Proof.
  intros Ht. induction a as [|ch a IH]; intros Ha Hn.
  - cbn [app]. rewrite !scan_cons.
    rewrite !exec_gt, scan_nil. reflexivity.
  - cbn [forallb] in Ha. apply andb_true_iff in Ha as [Hc Ha'].
    assert (Ha : forallb notGt (ch :: a) = true) by (cbn [forallb]; now rewrite Hc, Ha').
    change ((ch :: a) ++ gt :: rest) with (ch :: a ++ gt :: rest).
    change ((ch :: a) ++ [gt]) with (ch :: a ++ [gt]).
    rewrite !scan_cons.
    destruct (exec (tagRegex tag) (ch :: a ++ [gt])) as [[m r]|] eqn:E.
    + destruct (exec_in_segment tag (ch :: a) [] m r Ht Ha Hn E) as (-> & _).
      change (ch :: a ++ gt :: rest) with ((ch :: a) ++ gt :: rest).
      rewrite (exec_local tag (ch :: a) [] rest m Ht Ha Hn E).
      now rewrite scan_nil.
    + change (ch :: a ++ gt :: rest) with ((ch :: a) ++ gt :: rest).
      rewrite (exec_local_none tag (ch :: a) [] rest Ht Ha Hn E).
      cbn [app]. f_equal. apply IH; [exact Ha'|]. now apply (openEnded_tail ch).
Qed.

(** Inside one tag the scan finds at most one match, which then runs to
    the [>]. *)
Lemma scan_one_seg (tag : string) (a : jsstring) :
  forallb notGt (lit tag) = true ->
  forallb notGt a = true -> ~ openEnded a ->
  scan (tagRegex tag) (a ++ [gt]) = map Text (a ++ [gt])
  \/ exists a1 a2 m,
       a = a1 ++ a2
       /\ scan (tagRegex tag) (a ++ [gt]) = map Text a1 ++ [Hit m]
       /\ exec (tagRegex tag) (a2 ++ [gt]) = Some (m, []).
Proof.
  intros Ht. induction a as [|ch a IH]; intros Ha Hn.
  - left. cbn [app map]. now rewrite scan_cons, exec_gt, scan_nil.
  - cbn [forallb] in Ha. apply andb_true_iff in Ha as [Hc Ha'].
    assert (Ha : forallb notGt (ch :: a) = true) by (cbn [forallb]; now rewrite Hc, Ha').
    change ((ch :: a) ++ [gt]) with (ch :: a ++ [gt]). rewrite scan_cons.
    destruct (exec (tagRegex tag) (ch :: a ++ [gt])) as [[m r]|] eqn:E.
    + right. destruct (exec_in_segment tag (ch :: a) [] m r Ht Ha Hn E) as (-> & _).
      exists [], (ch :: a), m. rewrite scan_nil. auto.
    + destruct (IH Ha' (openEnded_tail ch a Hn)) as [X|(a1 & a2 & m & -> & X & Y)].
      * left. rewrite X. reflexivity.
      * right. exists (ch :: a1), a2, m. rewrite X. auto.
Qed.

(** A match of the scan is a match at some place of the text. *)
Lemma scan_hit_exec (tag : string) (n : nat) :
  forall (t : jsstring) (m : TagMatch),
    length t <= n -> In m (hits (scan (tagRegex tag) t)) ->
    exists z p r, t = z ++ p /\ exec (tagRegex tag) p = Some (m, r).
Proof.
  induction n as [|n IH]; intros t m Hlen Hin.
  - destruct t; [|simpl in Hlen; lia]. rewrite scan_nil in Hin. destruct Hin.
  - destruct t as [|ch t]; [rewrite scan_nil in Hin; destruct Hin|].
    rewrite scan_cons in Hin.
    destruct (exec (tagRegex tag) (ch :: t)) as [[m0 r0]|] eqn:E.
    + cbn [hits In] in Hin. destruct Hin as [<-|Hin].
      * exists [], (ch :: t), r0. auto.
      * pose proof (exec_shorter tag _ _ _ E) as Hs.
        pose proof (exec_text _ _ _ _ E) as Et.
        destruct (IH r0 m) as (z & p & r & -> & X); [simpl in *; lia | exact Hin|].
        exists (matched m0 ++ z), p, r. split; [|exact X].
        rewrite Et. now rewrite <- app_assoc.
    + cbn [hits] in Hin.
      destruct (IH t m) as (z & p & r & -> & X); [simpl in *; lia | exact Hin|].
      exists (ch :: z), p, r. auto.
Qed.

(** *** The segment of a rewritten tag *)

Lemma ws_skip (U1 after l R : jsstring) (w : jschar) :
  forallb (fun ch => negb (isWhiteSpace ch)) U1 = true ->
  isWhiteSpace w = true ->
  U1 ++ after = l ++ w :: R ->
  exists t, after = t ++ w :: R /\ l = U1 ++ t.
Proof.
  revert l. induction U1 as [|u U1 IH]; intros l HU Hw E.
  - now exists l.
  - cbn [forallb] in HU. apply andb_true_iff in HU as [Hu HU].
    destruct l as [|c l]; cbn [app] in E; injection E as -> E.
    + rewrite Hw in Hu. discriminate Hu.
    + destruct (IH l HU Hw E) as (t & -> & ->). now exists t.
Qed.

Lemma suffix_fits (x u B v : jsstring) :
  x ++ u = B ++ v -> length u <= length v -> exists k, v = k ++ u.
Proof.
  intros E Hlen. apply app_eq_app in E as (l & [[-> E]|[-> E]]).
  - now exists l.
  - exists []. cbn [app]. rewrite E in Hlen. rewrite length_app in Hlen.
    destruct l; [now rewrite E | simpl in Hlen; lia].
Qed.

Lemma suffix_after_quote (x u A l : jsstring) (q : jschar) :
  forallb notQuote u = true -> isQuote q = true ->
  x ++ u = A ++ q :: l -> exists k, l = k ++ u /\ x = A ++ q :: k.
Proof.
  intros Hu Hq E. apply app_eq_app in E as (k & [[-> E]|[-> E]]).
  - destruct k as [|c k]; cbn [app] in E.
    + rewrite <- E in Hu. cbn [forallb] in Hu. rewrite (quote_notQuote q Hq) in Hu.
      discriminate Hu.
    + injection E as <- ->. now exists k.
  - rewrite E in Hu. apply notQuote_app in Hu as [_ Hu]. cbn [forallb] in Hu.
    rewrite (quote_notQuote q Hq) in Hu. discriminate Hu.
Qed.

Lemma ciEq_small (x y : jschar) :
  upperChar x = upperChar y -> (y < 65)%N -> x = y.
Proof.
  unfold upperChar, isLowerAscii. intros H Hy.
  destruct ((97 <=? x)%N && (x <=? 122)%N) eqn:Ex;
    destruct ((97 <=? y)%N && (y <=? 122)%N) eqn:Ey;
    try (apply andb_true_iff in Ex as [E1 E2]; apply N.leb_le in E1, E2);
    try (apply andb_true_iff in Ey as [E3 E4]; apply N.leb_le in E3, E4);
    lia.
Qed.

Lemma ws_notQuote (w : jschar) : isWhiteSpace w = true -> notQuote w = true.
Proof.
  intros H. unfold notQuote, isQuote, dquote, squote.
  destruct (N.eqb_spec w 34) as [->|_]; [discriminate H|].
  destruct (N.eqb_spec w 39) as [->|_]; [discriminate H | reflexivity].
Qed.

Lemma srcAttr_notQuote (attr : jsstring) :
  ciEq attr (lit "src=") -> forallb notQuote attr = true.
Proof.
  intros H. unfold ciEq in H.
  destruct attr as [|c1 [|c2 [|c3 [|c4 [|c5 attr]]]]]; try discriminate H.
  cbn in H. injection H as H1 H2 H3 H4.
  assert (E4 : c4 = 61%N) by (apply ciEq_small; [exact H4 | reflexivity]).
  subst c4. cbn [forallb].
  assert (N1 : forall ch, (65 <= upperChar ch)%N -> notQuote ch = true).
  { intros ch Hc. unfold notQuote, isQuote, dquote, squote.
    destruct (N.eqb_spec ch 34) as [->|_]; [cbn in Hc; lia|].
    destruct (N.eqb_spec ch 39) as [->|_]; [cbn in Hc; lia | reflexivity]. }
  rewrite (N1 c1), (N1 c2), (N1 c3) by (rewrite ?H1, ?H2, ?H3; cbv; discriminate).
  reflexivity.
Qed.

Lemma opening_notQuote (w : jschar) (attr : jsstring) :
  isWhiteSpace w = true -> ciEq attr (lit "src=") ->
  forallb notQuote (w :: attr) = true.
Proof.
  intros Hw Ha. cbn [forallb]. now rewrite (ws_notQuote w Hw), (srcAttr_notQuote attr Ha).
Qed.

(** In the tag that was matched, no src attribute with a value follows
    the one that was taken. *)
Lemma no_later_src (tag : string) (p r : jsstring) (m : TagMatch)
    (t : jsstring) (w : jschar) (attr : jsstring) (q1 : jschar) (v : jsstring)
    (q2 : jschar) (after : jsstring) :
  forallb notGt (lit tag) = true ->
  forallb notGt p = true -> ~ openEnded p ->
  exec (tagRegex tag) (p ++ gt :: r) = Some (m, r) ->
  afterSrc m = t ++ w :: attr ++ q1 :: v ++ q2 :: after ->
  isWhiteSpace w = true -> ciEq attr (lit "src=") -> isQuote q1 = true ->
  v <> [] -> forallb notQuote v = true -> isQuote q2 = true -> False.
Proof.
  intros Ht Hp Hn H Ea Hw Ha Hq1 Hv Hvq Hq2.
  destruct (exec_in_segment tag p r m r Ht Hp Hn H) as (_ & Em & S & Hg).
  destruct S as [o w0 a0 q10 q20 Et Ho Hw0 Ha0 Hq10 Hq20 Hv0 Hvq0 Hb Haf].
  rewrite Ea in Haf. apply notGt_app in Haf as [Ht2 Haf].
  cbn [forallb] in Haf. apply andb_true_iff in Haf as [_ Haf].
  apply notGt_app in Haf as [_ Haf]. cbn [forallb] in Haf.
  apply andb_true_iff in Haf as [_ Haf]. apply notGt_app in Haf as [_ Haf].
  cbn [forallb] in Haf. apply andb_true_iff in Haf as [_ Haf].
  set (before2 := beforeSrc m ++ w0 :: a0 ++ q10 :: src m ++ q20 :: t).
  assert (Hb2 : forallb notGt before2 = true).
  { unfold before2. apply notGt_app. split; [exact Hb|].
    replace (w0 :: a0 ++ q10 :: src m ++ q20 :: t)
      with ((w0 :: a0 ++ [q10]) ++ src m ++ q20 :: t) by (flatten_app; reflexivity).
    apply notGt_app. split; [now apply opening_notGt|].
    apply notGt_app. split; [exact Hg|]. cbn [forallb].
    now rewrite (quote_notGt q20 Hq20), Ht2. }
  assert (E : p ++ gt :: r = tagText o before2 w attr q1 v q2 after ++ r).
  { change (p ++ gt :: r) with (p ++ [gt] ++ r). rewrite app_assoc, <- Em, Et.
    f_equal. unfold tagText, before2. rewrite Ea. flatten_app. reflexivity. }
  pose proof (exec_rematch _ _ _ _ H) as R. rewrite E in R.
  pose proof (rematch_longest_before tag o before2 w attr q1 v q2 after r _ _ _ _
                Ho Hb2 Hw Ha Hq1 Hv Hvq Hq2 Haf R) as L.
  unfold before2 in L. rewrite length_app in L. simpl in L. lia.
Qed.

Lemma dataUri_starts (mime payload : jsstring) :
  startsWith (dataUri mime payload) (lit "data:") = true.
Proof. unfold dataUri. apply startsWith_app. Qed.

(** The segment a rewritten tag leaves: the text before the tag, the
    opening in lower case, the attributes before src, the src attribute
    with the data URI, and the attributes after it. *)
Lemma rewritten_segment_closed (tag : string) (a1 o before : jsstring) (w : jschar)
    (attr : jsstring) (q1 : jschar) (value : jsstring) (q2 : jschar)
    (after uri : jsstring) :
  ~ openEnded (a1 ++ o ++ before ++ w :: attr ++ q1 :: value ++ q2 :: after) ->
  isQuote q2 = true ->
  forallb plainChar uri = true -> 5 <= length uri ->
  ~ openEnded (a1 ++ (lit "<" ++ lit tag) ++ before
                 ++ 32%N :: lit "src=" ++ dquote :: uri ++ dquote :: after).
Proof.
  intros Hn Hq2 Hu Hlen (x & w' & attr' & q1' & y & E & Hw' & Ha' & Hq1' & Hy).
  destruct (plain_parts uri Hu) as (_ & _ & Hws).
  set (A := a1 ++ (lit "<" ++ lit tag) ++ before ++ 32%N :: lit "src=" ++ [dquote]).
  assert (E' : (x ++ w' :: attr' ++ [q1']) ++ y = (A ++ uri) ++ dquote :: after).
  { transitivity (x ++ w' :: attr' ++ q1' :: y); [flatten_app; reflexivity|].
    rewrite <- E. unfold A. flatten_app. reflexivity. }
  clear E. apply app_eq_app in E' as (l & [[E1 E2]|[E1 E2]]).
  2:{ rewrite E2 in Hy. apply notQuote_app in Hy as [_ Hy]. discriminate Hy. }
  destruct l as [|c l]; cbn [app] in E2.
  { rewrite <- E2 in Hy. discriminate Hy. }
  injection E2 as <- E2.
  destruct (exists_last (l := dquote :: l)) as (l' & e & El); [discriminate|].
  rewrite El in E1.
  replace (x ++ w' :: attr' ++ [q1']) with ((x ++ w' :: attr') ++ [q1']) in E1
    by (flatten_app; reflexivity).
  rewrite app_assoc in E1. apply app_inj_tail in E1 as [E1 <-].
  destruct l as [|c l].
  - (* the quote of the opening would be the one that closes the data URI *)
    destruct l' as [|c' l']; [|destruct l'; discriminate El].
    rewrite app_nil_r in E1.
    destruct (suffix_fits x (w' :: attr') A uri E1) as (k & Ek).
    { simpl. rewrite (ciEq_length _ _ Ha'). simpl. lia. }
    rewrite Ek, forallb_app in Hws. apply andb_true_iff in Hws as [_ Hws].
    cbn [forallb] in Hws. rewrite Hw' in Hws. discriminate Hws.
  - (* the opening lies behind the data URI *)
    destruct l' as [|c' l']; [discriminate El|].
    cbn [app] in El. injection El as <- El.
    destruct (suffix_after_quote x (w' :: attr') (A ++ uri) l' dquote
                (opening_notQuote w' attr' Hw' Ha') eq_refl) as (k & -> & _).
    { rewrite E1. now rewrite <- app_assoc. }
    apply Hn. exists (a1 ++ o ++ before ++ w :: attr ++ q1 :: value ++ q2 :: k),
                w', attr', q1', y.
    split; [|auto]. rewrite E2, El. flatten_app. reflexivity.
Qed.

(** Whatever pattern matches inside the segment of a rewritten tag, and
    wherever the match begins, its src is the data URI. *)
Lemma rewritten_segment_src (tag' : string) (X after uri z p r : jsstring)
    (m' : TagMatch) (r' : jsstring) :
  forallb notGt (lit tag') = true ->
  forallb notGt (X ++ 32%N :: lit "src=" ++ dquote :: uri ++ dquote :: after) = true ->
  ~ openEnded (X ++ 32%N :: lit "src=" ++ dquote :: uri ++ dquote :: after) ->
  forallb plainChar uri = true -> uri <> [] ->
  (forall t w attr q1 v q2 after',
      after = t ++ w :: attr ++ q1 :: v ++ q2 :: after' ->
      isWhiteSpace w = true -> ciEq attr (lit "src=") -> isQuote q1 = true ->
      v <> [] -> forallb notQuote v = true -> isQuote q2 = true -> False) ->
  X ++ 32%N :: lit "src=" ++ dquote :: uri ++ dquote :: after = z ++ p ->
  exec (tagRegex tag') (p ++ gt :: r) = Some (m', r') ->
  src m' = uri.
Proof.
  intros Ht Hg Hn Hu Hne NoLater Ez H.
  destruct (plain_parts uri Hu) as (Huq & Hug & Huw).
  assert (Hp : forallb notGt p = true).
  { rewrite Ez in Hg. now apply notGt_app in Hg as [_ Hg]. }
  assert (Hnp : ~ openEnded p).
  { intros Hp'. apply Hn. rewrite Ez. now apply openEnded_app. }
  destruct (exec_in_segment tag' p r m' r' Ht Hp Hnp H) as (-> & Em & S & Hv).
  destruct S as [o w a q1 q2 Et Ho Hw Ha Hq1 Hq2 Hv0 Hvq Hb Haf].
  assert (Ep : p = o ++ beforeSrc m' ++ w :: a ++ q1 :: src m' ++ q2 :: afterSrc m').
  { apply app_inv_tail with (l := [gt]). rewrite <- Em, Et. unfold tagText.
    flatten_app. reflexivity. }
  assert (E : (z ++ o ++ beforeSrc m') ++ w :: (a ++ q1 :: src m' ++ q2 :: afterSrc m')
              = X ++ 32%N :: (lit "src=" ++ dquote :: uri ++ dquote :: after)).
  { rewrite Ez, Ep. flatten_app. reflexivity. }
  assert (Same : a ++ q1 :: src m' ++ q2 :: afterSrc m'
                 = lit "src=" ++ dquote :: uri ++ dquote :: after -> src m' = uri).
  { intros E0. apply app_inv_length in E0 as [_ E0];
      [|now rewrite (ciEq_length _ _ Ha)].
    injection E0 as _ E0.
    now apply (split_unique notQuote) in E0 as (E0 & _); auto using quote_notQuote. }
  apply app_eq_app in E as (l & [[E1 E2]|[E1 E2]]).
  - destruct l as [|c l]; cbn [app] in E2.
    + apply Same. injection E2 as _ E2. now symmetry.
    + (* the match would take a src attribute behind the data URI *)
      exfalso.
      assert (E3 : (lit "src=" ++ dquote :: uri ++ [dquote]) ++ after
                   = l ++ w :: a ++ q1 :: src m' ++ q2 :: afterSrc m').
      { transitivity (lit "src=" ++ dquote :: uri ++ dquote :: after);
          [flatten_app; reflexivity|].
        injection E2 as _ E2. exact E2. }
      clear E2. rename E3 into E2.
      destruct (ws_skip (lit "src=" ++ dquote :: uri ++ [dquote]) after l
                  (a ++ q1 :: src m' ++ q2 :: afterSrc m') w) as (t & Eaft & _);
        [|exact Hw|exact E2|].
      { rewrite forallb_app. cbn [forallb]. rewrite forallb_app, Huw. reflexivity. }
      exact (NoLater t w a q1 (src m') q2 (afterSrc m') Eaft Hw Ha Hq1 Hv0 Hvq Hq2).
  - destruct l as [|c l]; cbn [app] in E2.
    + apply Same. injection E2 as _ E2. exact E2.
    + (* the match would have passed over the src attribute with the data URI *)
      exfalso.
      assert (Hl : forallb notGt (c :: l) = true).
      { rewrite E1 in Hg. apply notGt_app in Hg as [Hg _].
        now apply notGt_app in Hg as [_ Hg]. }
      assert (Haft : forallb notGt after = true).
      { apply notGt_app in Hg as [_ Hg]. cbn [forallb] in Hg.
        apply andb_true_iff in Hg as [_ Hg]. apply notGt_app in Hg as [_ Hg].
        cbn [forallb] in Hg. apply andb_true_iff in Hg as [_ Hg].
        apply notGt_app in Hg as [_ Hg]. cbn [forallb] in Hg.
        now apply andb_true_iff in Hg as [_ Hg]. }
      assert (T : p ++ gt :: r
                  = tagText o (beforeSrc m' ++ c :: l) 32%N (lit "src=") dquote uri dquote
                      after ++ r).
      { rewrite Ep. unfold tagText.
        replace (w :: a ++ q1 :: src m' ++ q2 :: afterSrc m')
          with ((c :: l) ++ 32%N :: lit "src=" ++ dquote :: uri ++ dquote :: after)
          by (symmetry; exact E2).
        flatten_app. reflexivity. }
      pose proof (exec_rematch _ _ _ _ H) as R. rewrite T in R.
      assert (L : length (beforeSrc m' ++ c :: l) <= length (beforeSrc m')).
      { apply (rematch_longest_before tag' o (beforeSrc m' ++ c :: l) 32%N (lit "src=")
                 dquote uri dquote after r _ (src m') (afterSrc m') r); auto.
        - apply notGt_app. now split.
        - apply ciEq_refl. }
      rewrite length_app in L. simpl in L. lia.
Qed.

(** *** The passes as functions of the text *)

Lemma hits_app (l1 l2 : list segment) : hits (l1 ++ l2) = hits l1 ++ hits l2.
Proof.
  induction l1 as [|[ch|m] l1 IH]; cbn [app hits]; [reflexivity | exact IH|].
  now rewrite IH.
Qed.

Lemma hits_text (x : jsstring) : hits (map Text x) = [].
Proof. induction x as [|ch x IH]; [reflexivity | exact IH]. Qed.

Lemma segOut_text (tag : string) (c : Converter) (d : Disk) (x : jsstring) :
  flat_map (segOut tag c d) (map Text x) = x.
Proof. induction x as [|ch x IH]; [reflexivity|]. cbn [map flat_map segOut app]. now rewrite IH. Qed.

(** A text without [>] holds no match. *)
Lemma exec_needs_gt (tag : string) (s : jsstring) :
  forallb notGt s = true -> exec (tagRegex tag) s = None.
Proof.
  intros H. destruct (exec (tagRegex tag) s) as [[m r]|] eqn:E; [|reflexivity].
  exfalso. apply exec_sound in E as [-> S].
  destruct S as [o w a q1 q2 Et _ _ _ _ _ _ _ _ _]. rewrite Et in H. unfold tagText in H.
  replace ((o ++ beforeSrc m ++ [w] ++ a ++ [q1] ++ src m ++ [q2] ++ afterSrc m ++ [gt]) ++ r)
    with ((o ++ beforeSrc m ++ [w] ++ a ++ [q1] ++ src m ++ [q2] ++ afterSrc m) ++ gt :: r)
    in H by (flatten_app; reflexivity).
  now apply notGt_gt in H.
Qed.

Lemma scan_noGt (tag : string) (s : jsstring) :
  forallb notGt s = true -> scan (tagRegex tag) s = map Text s.
Proof.
  induction s as [|ch s IH]; intros H; [apply scan_nil|].
  rewrite scan_cons, (exec_needs_gt tag _ H).
  cbn [forallb] in H. apply andb_true_iff in H as [_ H]. cbn [map]. now rewrite IH.
Qed.

Lemma passOut_seg (tag : string) (c : Converter) (d : Disk) (a rest : jsstring) :
  forallb notGt (lit tag) = true ->
  forallb notGt a = true -> ~ openEnded a ->
  passOut tag c d (a ++ gt :: rest)
  = flat_map (segOut tag c d) (scan (tagRegex tag) (a ++ [gt])) ++ passOut tag c d rest.
Proof.
  intros Ht Ha Hn. unfold passOut. now rewrite (scan_seg tag a rest Ht Ha Hn), flat_map_app.
Qed.

Lemma sameConfig_sym (c c' : Converter) : sameConfig c c' -> sameConfig c' c.
Proof. unfold sameConfig. intuition congruence. Qed.

(** What the callback returns does not depend on the errors recorded so
    far nor on the flag. *)
Lemma rewriteTag_fst (tag : string) (d : Disk) (c0 c : Converter) (b : bool)
    (m : TagMatch) :
  sameConfig c0 c ->
  fst (rewriteTag tag d (c, b) m) = fst (rewriteTag tag d (c0, false) m)
  /\ sameConfig c0 (fst (snd (rewriteTag tag d (c, b) m))).
Proof.
  intros Hc. pose proof (convertible_config c0 c d m Hc) as Ec.
  destruct (convertible c0 d m) eqn:C0.
  - destruct (rewriteTag_convertible tag c d b m Ec) as (data & R & ->).
    destruct (rewriteTag_convertible tag c0 d false m C0) as (data0 & R0 & ->).
    rewrite (resolveImagePath_config c0 c (src m) Hc) in *.
    cbn [fst snd]. split; [congruence | exact Hc].
  - destruct (rewriteTag_skip tag c d b m Ec) as (c' & -> & Hc').
    destruct (rewriteTag_skip tag c0 d false m C0) as (c0' & -> & _).
    cbn [fst snd]. split; [reflexivity|].
    exact (sameConfig_trans _ _ _ Hc (proj1 Hc')).
Qed.

Lemma replaceSegs_fst (tag : string) (d : Disk) (c0 : Converter) :
  forall (segs : list segment) (c : Converter) (b : bool),
    sameConfig c0 c ->
    fst (replaceSegs (rewriteTag tag d) segs (c, b)) = flat_map (segOut tag c0 d) segs
    /\ sameConfig c0 (fst (snd (replaceSegs (rewriteTag tag d) segs (c, b)))).
Proof.
  induction segs as [|[ch|m] segs IH]; intros c b Hc.
  - cbn [replaceSegs fst snd flat_map]. now split.
  - cbn [replaceSegs flat_map segOut]. specialize (IH c b Hc).
    destruct (replaceSegs (rewriteTag tag d) segs (c, b)) as [out st].
    cbn [fst snd app] in *. destruct IH as [-> IH]. now split.
  - cbn [replaceSegs flat_map segOut].
    destruct (rewriteTag_fst tag d c0 c b m Hc) as [E1 E2].
    destruct (rewriteTag tag d (c, b) m) as [rep [c1 b1]]. cbn [fst snd] in E1, E2.
    specialize (IH c1 b1 E2).
    destruct (replaceSegs (rewriteTag tag d) segs (c1, b1)) as [out st].
    cbn [fst snd] in *. destruct IH as [-> IH]. rewrite E1. now split.
Qed.

Lemma rewritePasses_passOut (c : Converter) (d : Disk) (s : jsstring) :
  fst (rewritePasses d s c)
  = passOut "source" c d (passOut "video" c d (passOut "img" c d s)).
Proof.
  unfold rewritePasses, replace, passOut.
  destruct (replaceSegs_fst "img" d c (scan imgRegex s) c false (sameConfig_refl c))
    as [E1 C1].
  destruct (replaceSegs (rewriteTag "img" d) (scan imgRegex s) (c, false))
    as [h1 [c1 b1]]. cbn [fst snd] in E1, C1.
  destruct (replaceSegs_fst "video" d c (scan videoRegex h1) c1 b1 C1) as [E2 C2].
  destruct (replaceSegs (rewriteTag "video" d) (scan videoRegex h1) (c1, b1))
    as [h2 [c2 b2]]. cbn [fst snd] in E2, C2.
  destruct (replaceSegs_fst "source" d c (scan sourceRegex h2) c2 b2 C2) as [E3 _].
  rewrite E3, E2, E1. reflexivity.
Qed.

Lemma hasDataSrc_not_convertible (c : Converter) (d : Disk) (m : TagMatch) :
  hasDataSrc m = true -> convertible c d m = false.
Proof. unfold hasDataSrc, convertible. now intros ->. Qed.

(** One pass over a text whose src attributes are closed: the text it
    returns has its src attributes closed, and a match of any of the
    patterns in it either has a data URI as src or was a match of that
    pattern before the pass, which the pass left as it was. *)
Lemma pass_settles (tag : string) (c : Converter) (d : Disk) :
  forallb notGt (lit tag) = true ->
  forall (n : nat) (s : jsstring),
    length s <= n -> Closed s ->
    Closed (passOut tag c d s)
    /\ forall tag' m',
         forallb notGt (lit tag') = true ->
         In m' (hits (scan (tagRegex tag') (passOut tag c d s))) ->
         hasDataSrc m' = true
         \/ (In m' (hits (scan (tagRegex tag') s))
             /\ (tag' = tag -> convertible c d m' = false)).
Proof.
  intros Ht. induction n as [|n IH]; intros s Hlen Hs.
  { destruct s; [|simpl in Hlen; lia]. split; [exact Hs|].
    intros tag' m' _ H. unfold passOut in H. rewrite !scan_nil in H. destruct H. }
  destruct (gt_split s) as [Hg|(a & rest & -> & Ha)].
  { assert (E : passOut tag c d s = s).
    { unfold passOut. now rewrite (scan_noGt tag s Hg), segOut_text. }
    rewrite E. split; [exact Hs|]. intros tag' m' _ H.
    rewrite (scan_noGt tag' s Hg), hits_text in H. destruct H. }
  pose proof (Closed_head a rest Hs) as Hn.
  pose proof (Closed_tail a rest Hs) as Hr.
  assert (Hlr : length rest <= n).
  { rewrite length_app in Hlen. simpl in Hlen. lia. }
  destruct (IH rest Hlr Hr) as [Cr Hhits].
  rewrite (passOut_seg tag c d a rest Ht Ha Hn).
  set (rest' := passOut tag c d rest) in *.
  (* what holds when the segment is returned as it is *)
  assert (Same : flat_map (segOut tag c d) (scan (tagRegex tag) (a ++ [gt])) = a ++ [gt] ->
                 (forall m, In m (hits (scan (tagRegex tag) (a ++ [gt]))) ->
                            convertible c d m = false) ->
                 Closed ((a ++ [gt]) ++ rest')
                 /\ forall tag' m',
                      forallb notGt (lit tag') = true ->
                      In m' (hits (scan (tagRegex tag') ((a ++ [gt]) ++ rest'))) ->
                      hasDataSrc m' = true
                      \/ (In m' (hits (scan (tagRegex tag') (a ++ gt :: rest)))
                          /\ (tag' = tag -> convertible c d m' = false))).
  { intros _ Hkept. rewrite <- app_assoc. cbn [app]. split.
    - now apply Closed_cons_seg.
    - intros tag' m' Ht' H.
      rewrite (scan_seg tag' a rest' Ht' Ha Hn), hits_app in H.
      rewrite (scan_seg tag' a rest Ht' Ha Hn), hits_app.
      apply in_app_or in H as [H|H].
      + right. split; [apply in_or_app; now left|].
        intros ->. now apply Hkept.
      + destruct (Hhits tag' m' Ht' H) as [D|[H1 H2]]; [now left|].
        right. split; [apply in_or_app; now right | exact H2]. }
  destruct (scan_one_seg tag a Ht Ha Hn) as [E|(a1 & a2 & m & Ea & E & X)].
  { rewrite E, segOut_text. apply Same; [now rewrite E, segOut_text|].
    intros m Hm. rewrite E, hits_text in Hm. destruct Hm. }
  rewrite E, flat_map_app, segOut_text. cbn [flat_map segOut]. rewrite app_nil_r.
  assert (Ha2 : forallb notGt a2 = true).
  { rewrite Ea in Ha. now apply notGt_app in Ha as [_ Ha]. }
  assert (Hn2 : ~ openEnded a2).
  { intros H2. apply Hn. rewrite Ea. now apply openEnded_app. }
  destruct (exec_in_segment tag a2 [] m [] Ht Ha2 Hn2 X) as (_ & Em & S & Hvg).
  destruct (convertible c d m) eqn:Cm.
  2:{ destruct (rewriteTag_skip tag c d false m Cm) as (c' & -> & _). cbn [fst].
      rewrite Em, app_assoc, <- Ea. apply Same.
      - rewrite E, flat_map_app, segOut_text. cbn [flat_map segOut].
        destruct (rewriteTag_skip tag c d false m Cm) as (c'' & -> & _). cbn [fst].
        now rewrite Em, app_nil_r, app_assoc, <- Ea.
      - intros m0 Hm0. rewrite E, hits_app, hits_text in Hm0.
        destruct Hm0 as [<-|[]]. exact Cm. }
  (* the tag is rewritten *)
  destruct (rewriteTag_convertible tag c d false m Cm) as (data & _ & ->). cbn [fst].
  set (uri := dataUri (mimeType (toLowerCase (path.extname (resolveImagePath c (src m)))))
                (base64 data)).
  assert (Hu : forallb plainChar uri = true) by apply dataUri_plain.
  assert (Hul : 5 <= length uri).
  { unfold uri, dataUri. rewrite length_app. simpl. lia. }
  assert (Hune : uri <> []) by (intros Z; rewrite Z in Hul; simpl in Hul; lia).
  destruct (plain_parts uri Hu) as (Huq & Hug & Huw).
  destruct S as [o w attr q1 q2 Et Ho Hw Hat Hq1 Hq2 Hv Hvq Hb Haf].
  assert (Ea2 : a2 = o ++ beforeSrc m ++ w :: attr ++ q1 :: src m ++ q2 :: afterSrc m).
  { apply app_inv_tail with (l := [gt]). rewrite <- Em, Et. unfold tagText.
    flatten_app. reflexivity. }
  set (X0 := a1 ++ (lit "<" ++ lit tag) ++ beforeSrc m).
  set (a' := X0 ++ 32%N :: lit "src=" ++ dquote :: uri ++ dquote :: afterSrc m).
  assert (En : a1 ++ newTag tag (beforeSrc m) uri (afterSrc m) = a' ++ [gt]).
  { rewrite newTag_tagText. unfold tagText, a', X0. flatten_app. reflexivity. }
  rewrite En, <- app_assoc. cbn [app].
  assert (Ha1 : forallb notGt a1 = true).
  { rewrite Ea in Ha. now apply notGt_app in Ha as [Ha _]. }
  assert (Hg' : forallb notGt a' = true).
  { unfold a', X0. apply notGt_app. split.
    - apply notGt_app. split; [exact Ha1|]. apply notGt_app. split; [|exact Hb].
      apply notGt_app. now split.
    - change (32%N :: lit "src=" ++ dquote :: uri ++ dquote :: afterSrc m)
        with ((32%N :: lit "src=" ++ [dquote]) ++ uri ++ dquote :: afterSrc m).
      apply notGt_app. split; [reflexivity|]. apply notGt_app. split; [exact Hug|].
      cbn [forallb]. now rewrite Haf. }
  assert (Hn' : ~ openEnded a').
  { unfold a', X0. rewrite <- !app_assoc.
    apply (rewritten_segment_closed tag a1 o (beforeSrc m) w attr q1 (src m) q2
             (afterSrc m) uri); auto.
    now rewrite <- Ea2, <- Ea. }
  split; [now apply Closed_cons_seg|].
  intros tag' m' Ht' H.
  rewrite (scan_seg tag' a' rest' Ht' Hg' Hn'), hits_app in H.
  apply in_app_or in H as [H|H].
  - left.
    destruct (scan_hit_exec tag' (length (a' ++ [gt])) (a' ++ [gt]) m' (le_n _) H)
      as (z & p & r & Ez & Xp).
    destruct (exec_starts tag' p m' r Xp) as (s' & Es').
    destruct (exists_last (l := p)) as (p' & e & Ep); [rewrite Es'; discriminate|].
    rewrite Ep, app_assoc in Ez. apply app_inj_tail in Ez as [Ez <-].
    rewrite Ep in Xp.
    unfold hasDataSrc.
    rewrite (rewritten_segment_src tag' X0 (afterSrc m) uri z p' [] m' r Ht' Hg' Hn'
               Hu Hune); [apply dataUri_starts| |exact Ez|exact Xp].
    intros t w' attr' q1' v q2' after' Eaft.
    exact (no_later_src tag a2 [] m t w' attr' q1' v q2' after' Ht Ha2 Hn2 X Eaft).
  - destruct (Hhits tag' m' Ht' H) as [D|[H1 H2]]; [now left|].
    right. rewrite (scan_seg tag' a rest Ht' Ha Hn), hits_app.
    split; [apply in_or_app; now right | exact H2].
Qed.

(** The three passes over a text whose src attributes are closed leave a
    text in which no tag that the three patterns match can be rewritten,
    and whose src attributes are closed. *)
Lemma passes_settle (c : Converter) (d : Disk) (s : jsstring) :
  Closed s ->
  Closed (fst (rewritePasses d s c))
  /\ noneConvertible c d (fst (rewritePasses d s c)) = true.
Proof.
  intros Hs. rewrite rewritePasses_passOut.
  set (s1 := passOut "img" c d s).
  set (s2 := passOut "video" c d s1).
  set (s3 := passOut "source" c d s2).
  destruct (pass_settles "img" c d eq_refl (length s) s (le_n _) Hs) as [C1 H1].
  fold s1 in C1, H1.
  destruct (pass_settles "video" c d eq_refl (length s1) s1 (le_n _) C1) as [C2 H2].
  fold s2 in C2, H2.
  destruct (pass_settles "source" c d eq_refl (length s2) s2 (le_n _) C2) as [C3 H3].
  fold s3 in C3, H3.
  split; [exact C3|].
  assert (D : forall m, hasDataSrc m = true -> negb (convertible c d m) = true).
  { intros m Hm. now rewrite (hasDataSrc_not_convertible c d m Hm). }
  unfold noneConvertible, allHits. apply forallb_forall. intros m Hm.
  apply in_app_or in Hm as [Hm|Hm]; [|apply in_app_or in Hm as [Hm|Hm]].
  - destruct (H3 "img"%string m eq_refl Hm) as [X|[X _]]; [now apply D|].
    destruct (H2 "img"%string m eq_refl X) as [Y|[Y _]]; [now apply D|].
    destruct (H1 "img"%string m eq_refl Y) as [Z|[_ Z]]; [now apply D|].
    now rewrite (Z eq_refl).
  - destruct (H3 "video"%string m eq_refl Hm) as [X|[X _]]; [now apply D|].
    destruct (H2 "video"%string m eq_refl X) as [Y|[_ Y]]; [now apply D|].
    now rewrite (Y eq_refl).
  - destruct (H3 "source"%string m eq_refl Hm) as [X|[_ X]]; [now apply D|].
    now rewrite (X eq_refl).
Qed.

(** *** A text that is written is read back as it was *)

Lemma notSurrogate_spec (ch : jschar) :
  notSurrogate ch = true <-> (ch < 55296 \/ 57343 < ch < 65536)%N.
Proof.
  unfold notSurrogate, inRange.
  rewrite andb_true_iff, negb_true_iff, andb_false_iff, !N.leb_gt, N.ltb_lt. lia.
Qed.

Lemma wellFormedUtf16_units (cps : list N) :
  forallb isScalarValue cps = true ->
  wellFormedUtf16 (flat_map utf16Units cps) = true.
Proof.
  induction cps as [|cp cps IH]; cbn [forallb flat_map]; [reflexivity|].
  intros H. apply andb_true_iff in H as [H1 H2]. specialize (IH H2).
  apply isScalarValue_spec in H1. unfold utf16Units.
  destruct (N.ltb_spec cp 65536) as [L|L]; cbn [app wellFormedUtf16].
  - rewrite inRange_false by lia.
    assert (notSurrogate cp = true) as -> by (apply notSurrogate_spec; lia).
    exact IH.
  - destruct (land_ones_mod (cp - 65536)) as (_ & _ & _ & _ & E).
    rewrite E, N.shiftr_div_pow2. change (2 ^ 10)%N with 1024%N.
    assert (inRange 55296 56319 (55296 + (cp - 65536) / 1024) = true) as ->
      by (apply inRange_spec; div_lia).
    assert (inRange 56320 57343 (56320 + (cp - 65536) mod 1024) = true) as ->
      by (apply inRange_spec; div_lia).
    exact IH.
Qed.

Lemma wellFormedUtf16_decode (data : list byte) :
  wellFormedUtf16 (utf8Decode data) = true.
Proof.
  apply wellFormedUtf16_units.
  apply (utf8CodePoints_scalar (length (map Byte.to_N data))). reflexivity.
Qed.

Lemma codePoints_wellFormed (n : nat) :
  forall s : jsstring,
    length s <= n -> wellFormedUtf16 s = true ->
    forallb isScalarValue (codePoints s) = true
    /\ flat_map utf16Units (codePoints s) = s.
Proof.
  induction n as [n IH] using lt_wf_ind. intros s Hlen Hwf.
  destruct s as [|c s']; [split; reflexivity|].
  cbn [wellFormedUtf16] in Hwf. cbn [codePoints].
  destruct (inRange 55296 56319 c) eqn:Hc.
  - destruct s' as [|d s'']; [discriminate Hwf|].
    apply andb_true_iff in Hwf as [Hd Hwf]. rewrite Hd.
    destruct (IH (length s'')) with (s := s'') as [I1 I2];
      [simpl in Hlen; lia | reflexivity | exact Hwf |].
    apply inRange_spec in Hc, Hd. cbn [forallb flat_map].
    rewrite I1, I2. rewrite N.shiftl_mul_pow2. change (2 ^ 10)%N with 1024%N.
    split.
    + rewrite andb_true_r. apply isScalarValue_spec. lia.
    + unfold utf16Units.
      assert ((65536 + (c - 55296) * 1024 + (d - 56320) <? 65536)%N = false) as ->
        by (apply N.ltb_ge; lia).
      destruct (land_ones_mod (65536 + (c - 55296) * 1024 + (d - 56320) - 65536))
        as (_ & _ & _ & _ & E).
      rewrite E, N.shiftr_div_pow2. change (2 ^ 10)%N with 1024%N.
      cbn [app]. f_equal; [|f_equal]; div_lia.
  - apply andb_true_iff in Hwf as [Hn Hwf].
    apply notSurrogate_spec in Hn.
    rewrite inRange_false by lia.
    destruct (IH (length s')) with (s := s') as [I1 I2];
      [simpl in Hlen; lia | reflexivity | exact Hwf |].
    cbn [forallb flat_map]. rewrite I1, I2. split.
    + rewrite andb_true_r. apply isScalarValue_spec. lia.
    + unfold utf16Units. assert ((c <? 65536)%N = true) as -> by (apply N.ltb_lt; lia).
      reflexivity.
Qed.

(** Decoding the encoding of a scalar value gives it back. *)
Lemma decode_encoded (cp : N) (rest : list N) :
  isScalarValue cp = true ->
  utf8CodePoints (map Byte.to_N (utf8Bytes cp) ++ rest) = cp :: utf8CodePoints rest.
Proof.
  intros H. apply isScalarValue_spec in H. unfold utf8Bytes.
  destruct (N.ltb_spec cp 128) as [L1|L1].
  { cbn [map app utf8CodePoints]. rewrite to_N_toByte by lia.
    now apply N.ltb_lt in L1 as ->. }
  destruct (N.ltb_spec cp 2048) as [L2|L2].
  { destruct (land_ones_mod cp) as (-> & _). rewrite N.shiftr_div_pow2.
    change (2 ^ 6)%N with 64%N. cbn [map app].
    rewrite !to_N_toByte by div_lia. cbn [utf8CodePoints].
    assert ((192 + cp / 64 <? 128)%N = false) as -> by (apply N.ltb_ge; div_lia).
    assert (inRange 194 223 (192 + cp / 64) = true) as ->
      by (apply inRange_spec; div_lia).
    assert (inRange 128 191 (128 + cp mod 64) = true) as ->
      by (apply inRange_spec; div_lia).
    f_equal.
    destruct (land_ones_mod (192 + cp / 64)) as (_ & -> & _).
    destruct (land_ones_mod (128 + cp mod 64)) as (-> & _).
    rewrite lor_shiftl_add by (apply N.mod_lt; discriminate).
    pow2_consts. div_lia. }
  destruct (N.ltb_spec cp 65536) as [L3|L3].
  { destruct (land_ones_mod cp) as (-> & _).
    destruct (land_ones_mod (N.shiftr cp 6)) as (-> & _).
    rewrite !N.shiftr_div_pow2. pow2_consts. cbn [map app].
    rewrite !to_N_toByte by div_lia. cbn [utf8CodePoints]. cbn zeta.
    assert ((224 + cp / 4096 <? 128)%N = false) as -> by (apply N.ltb_ge; div_lia).
    assert (inRange 194 223 (224 + cp / 4096) = false) as ->
      by (apply inRange_false; div_lia).
    assert (inRange 224 239 (224 + cp / 4096) = true) as ->
      by (apply inRange_spec; div_lia).
    assert (inRange 128 191 (128 + cp mod 64) = true) as ->
      by (apply inRange_spec; div_lia).
    assert (inRange (if (224 + cp / 4096 =? 224)%N then 160 else 128)
              (if (224 + cp / 4096 =? 237)%N then 159 else 191)
              (128 + (cp / 64) mod 64) = true) as ->.
    { apply inRange_spec.
      destruct (N.eqb_spec (224 + cp / 4096) 224);
        destruct (N.eqb_spec (224 + cp / 4096) 237); div_lia. }
    f_equal.
    destruct (land_ones_mod (224 + cp / 4096)) as (_ & _ & -> & _).
    destruct (land_ones_mod (128 + (cp / 64) mod 64)) as (-> & _).
    destruct (land_ones_mod (128 + cp mod 64)) as (-> & _).
    rewrite (lor_shiftl_add ((128 + (cp / 64) mod 64) mod 64))
      by (apply N.mod_lt; discriminate).
    rewrite lor_shiftl_add by (pow2_consts; div_lia). pow2_consts. div_lia. }
  destruct (land_ones_mod cp) as (-> & _).
  destruct (land_ones_mod (N.shiftr cp 6)) as (-> & _).
  destruct (land_ones_mod (N.shiftr cp 12)) as (-> & _).
  rewrite !N.shiftr_div_pow2. pow2_consts. cbn [map app].
  rewrite !to_N_toByte by div_lia. cbn [utf8CodePoints]. cbn zeta.
  assert ((240 + cp / 262144 <? 128)%N = false) as -> by (apply N.ltb_ge; div_lia).
  assert (inRange 194 223 (240 + cp / 262144) = false) as ->
    by (apply inRange_false; div_lia).
  assert (inRange 224 239 (240 + cp / 262144) = false) as ->
    by (apply inRange_false; div_lia).
  assert (inRange 240 244 (240 + cp / 262144) = true) as ->
    by (apply inRange_spec; div_lia).
  assert (inRange 128 191 (128 + cp mod 64) = true) as ->
    by (apply inRange_spec; div_lia).
  assert (inRange 128 191 (128 + (cp / 64) mod 64) = true) as ->
    by (apply inRange_spec; div_lia).
  assert (inRange (if (240 + cp / 262144 =? 240)%N then 144 else 128)
            (if (240 + cp / 262144 =? 244)%N then 143 else 191)
            (128 + (cp / 4096) mod 64) = true) as ->.
  { apply inRange_spec.
    destruct (N.eqb_spec (240 + cp / 262144) 240);
      destruct (N.eqb_spec (240 + cp / 262144) 244); div_lia. }
  f_equal.
  destruct (land_ones_mod (240 + cp / 262144)) as (_ & _ & _ & -> & _).
  destruct (land_ones_mod (128 + (cp / 4096) mod 64)) as (-> & _).
  destruct (land_ones_mod (128 + (cp / 64) mod 64)) as (-> & _).
  destruct (land_ones_mod (128 + cp mod 64)) as (-> & _).
  rewrite group_value; try (apply N.mod_lt; discriminate); div_lia.
Qed.

Lemma decode_all_encoded (cps : list N) :
  forallb isScalarValue cps = true ->
  utf8CodePoints (map Byte.to_N (flat_map utf8Bytes cps)) = cps.
Proof.
  induction cps as [|cp cps IH]; cbn [forallb flat_map]; [reflexivity|].
  intros H. apply andb_true_iff in H as [H1 H2].
  rewrite map_app, (decode_encoded cp _ H1). now rewrite IH.
Qed.

(** What [writeFileSync] writes of a text without lone surrogates,
    [readFileSync] reads back as that text. *)
Lemma utf8Decode_utf8Encode (s : jsstring) :
  wellFormedUtf16 s = true -> utf8Decode (utf8Encode s) = s.
Proof.
  intros H. destruct (codePoints_wellFormed (length s) s (le_n _) H) as [H1 H2].
  unfold utf8Decode, utf8Encode. now rewrite (decode_all_encoded _ H1).
Qed.

(** *** The passes keep the surrogates of a text in pairs *)

Lemma wellFormedUtf16_unit (n : nat) :
  forall (a b : jsstring) (ch : jschar),
    length a <= n -> notSurrogate ch = true ->
    wellFormedUtf16 (a ++ ch :: b) = wellFormedUtf16 a && wellFormedUtf16 b.
Proof.
  induction n as [n IH] using lt_wf_ind. intros a b ch Hlen Hch.
  assert (Hhi : inRange 55296 56319 ch = false)
    by (apply notSurrogate_spec in Hch; apply inRange_false; lia).
  assert (Hlo : inRange 56320 57343 ch = false)
    by (apply notSurrogate_spec in Hch; apply inRange_false; lia).
  destruct a as [|c a]; cbn [app wellFormedUtf16].
  - now rewrite Hhi, Hch.
  - destruct (inRange 55296 56319 c).
    + destruct a as [|d a]; cbn [app]; [now rewrite Hlo|].
      rewrite (IH (length a)) by (simpl in Hlen; lia || reflexivity || exact Hch).
      now rewrite andb_assoc.
    + rewrite (IH (length a)) by (simpl in Hlen; lia || reflexivity || exact Hch).
      now rewrite andb_assoc.
Qed.

Lemma wellFormedUtf16_split (a b : jsstring) (ch : jschar) :
  notSurrogate ch = true ->
  wellFormedUtf16 (a ++ ch :: b) = wellFormedUtf16 a && wellFormedUtf16 b.
Proof. apply (wellFormedUtf16_unit (length a)). reflexivity. Qed.

Lemma wellFormedUtf16_prefix (u b : jsstring) :
  forallb notSurrogate u = true -> wellFormedUtf16 (u ++ b) = wellFormedUtf16 b.
Proof.
  induction u as [|c u IH]; cbn [forallb app]; [reflexivity|].
  intros H. apply andb_true_iff in H as [Hc H]. cbn [wellFormedUtf16].
  rewrite (IH H), Hc.
  apply notSurrogate_spec in Hc. now rewrite inRange_false by lia.
Qed.

Lemma lit_notSurrogate (s : string) : forallb notSurrogate (lit s) = true.
Proof.
  unfold lit. induction (list_ascii_of_string s) as [|y l IH]; [reflexivity|].
  cbn [map forallb]. rewrite IH, andb_true_r. apply notSurrogate_spec.
  pose proof (N_ascii_bounded y). lia.
Qed.

Lemma ciEq_notSurrogate (a b : jsstring) :
  ciEq a b -> forallb notSurrogate b = true -> forallb notSurrogate a = true.
Proof.
  revert a. induction b as [|y b IH]; intros [|x a] H Hb; try discriminate H;
    [reflexivity|].
  unfold ciEq in H. cbn [map] in H. injection H as Hx Ha.
  cbn [forallb] in *. apply andb_true_iff in Hb as [Hy Hb].
  rewrite (IH a Ha Hb), andb_true_r.
  apply notSurrogate_spec in Hy. apply notSurrogate_spec.
  unfold upperChar, isLowerAscii in Hx.
  destruct ((97 <=? x)%N && (x <=? 122)%N) eqn:E.
  - apply andb_true_iff in E as [E1 E2]. apply N.leb_le in E1, E2. lia.
  - destruct ((97 <=? y)%N && (y <=? 122)%N) eqn:E'; [|lia].
    apply andb_true_iff in E' as [E1 E2]. apply N.leb_le in E1, E2. lia.
Qed.

Lemma ws_notSurrogate (w : jschar) : isWhiteSpace w = true -> notSurrogate w = true.
Proof.
  unfold isWhiteSpace. intros H. apply notSurrogate_spec.
  apply orb_true_iff in H as [H|H].
  - cbn [existsb] in H.
    repeat (apply orb_true_iff in H as [H|H]; [apply N.eqb_eq in H; lia|]).
    discriminate H.
  - apply andb_true_iff in H as [H1 H2]. apply N.leb_le in H1, H2. lia.
Qed.

Lemma quote_notSurrogate (q : jschar) : isQuote q = true -> notSurrogate q = true.
Proof.
  unfold isQuote. intros H. apply notSurrogate_spec.
  apply orb_true_iff in H as [H|H]; apply N.eqb_eq in H; subst q; left; reflexivity.
Qed.

Lemma base64Char_notSurrogate (ch : jschar) : isBase64Char ch -> notSurrogate ch = true.
Proof.
  unfold isBase64Char, base64Alphabet. intros [H| ->]; [|reflexivity].
  cbn in H. repeat (destruct H as [<-|H]; [reflexivity|]). destruct H.
Qed.

Lemma mimeType_notSurrogate (ext : jsstring) : forallb notSurrogate (mimeType ext) = true.
Proof.
  unfold mimeType.
  repeat match goal with
         | |- context [if ?b then _ else _] => destruct b
         end; reflexivity.
Qed.

Lemma dataUri_notSurrogate (ext : jsstring) (data : list byte) :
  forallb notSurrogate (dataUri (mimeType ext) (base64 data)) = true.
Proof.
  unfold dataUri. rewrite !forallb_app, mimeType_notSurrogate.
  assert (forallb notSurrogate (base64 data) = true) as ->.
  { apply forallb_forall. intros ch Hch. apply base64Char_notSurrogate.
    pose proof (base64_chars data) as F. rewrite Forall_forall in F. now apply F. }
  reflexivity.
Qed.

(** The text around a tag and the captured parts of the tag decide
    whether the surrogates come in pairs. *)
Lemma wellFormedUtf16_tagText (tag : string) (x opening before : jsstring)
    (w : jschar) (attr : jsstring) (q1 : jschar) (value : jsstring) (q2 : jschar)
    (after rest : jsstring) :
  ciEq opening (lit "<" ++ lit tag) ->
  isWhiteSpace w = true -> ciEq attr (lit "src=") ->
  isQuote q1 = true -> isQuote q2 = true ->
  wellFormedUtf16 (x ++ tagText opening before w attr q1 value q2 after ++ rest)
  = wellFormedUtf16 x && wellFormedUtf16 before && wellFormedUtf16 value
    && wellFormedUtf16 after && wellFormedUtf16 rest.
Proof.
  intros Ho Hw Ha H1 H2.
  assert (So : forallb notSurrogate opening = true).
  { apply (ciEq_notSurrogate _ _ Ho). now rewrite forallb_app, !lit_notSurrogate. }
  destruct opening as [|o0 o']; [discriminate Ho|].
  cbn [forallb] in So. apply andb_true_iff in So as [So0 So].
  unfold tagText. flatten_app.
  rewrite (wellFormedUtf16_split x _ o0 So0).
  rewrite (wellFormedUtf16_prefix o' _ So).
  rewrite (wellFormedUtf16_split before _ w (ws_notSurrogate w Hw)).
  rewrite (wellFormedUtf16_prefix attr _ (ciEq_notSurrogate attr _ Ha (lit_notSurrogate "src="))).
  cbn [wellFormedUtf16].
  pose proof (quote_notSurrogate q1 H1) as S1. rewrite S1.
  apply notSurrogate_spec in S1. rewrite inRange_false by lia. cbn [andb].
  rewrite (wellFormedUtf16_split value _ q2 (quote_notSurrogate q2 H2)).
  rewrite (wellFormedUtf16_split after rest gt eq_refl).
  now rewrite !andb_assoc.
Qed.

Lemma wellFormedUtf16_segs (tag : string) (c : Converter) (d : Disk) :
  forall segs : list segment,
    (forall m, In m (hits segs) -> TagShape tag m) ->
    forall x : jsstring,
      wellFormedUtf16 (x ++ flat_map segText segs) = true ->
      wellFormedUtf16 (x ++ flat_map (segOut tag c d) segs) = true.
Proof.
  induction segs as [|[ch|m] segs IH]; intros Hs x H.
  - exact H.
  - cbn [flat_map segText segOut app] in *.
    replace (x ++ ch :: flat_map (segOut tag c d) segs)
      with ((x ++ [ch]) ++ flat_map (segOut tag c d) segs)
      by (now rewrite <- app_assoc).
    apply IH; [exact Hs|]. now rewrite <- app_assoc.
  - cbn [flat_map segText segOut] in *.
    assert (Hs' : forall m', In m' (hits segs) -> TagShape tag m')
      by (intros m' Hm'; apply Hs; now right).
    rewrite app_assoc. apply IH; [exact Hs'|]. rewrite <- app_assoc.
    destruct (convertible c d m) eqn:Cv.
    + destruct (rewriteTag_convertible tag c d false m Cv) as (data & _ & ->).
      cbn [fst]. rewrite newTag_tagText.
      destruct (Hs m (or_introl eq_refl)) as [o w a q1 q2 Et Ho Hw Ha H1 H2 _ _ _ _].
      rewrite Et, (wellFormedUtf16_tagText tag x o _ w a q1 _ q2 _ _ Ho Hw Ha H1 H2) in H.
      rewrite (wellFormedUtf16_tagText tag x _ _ 32%N _ dquote _ dquote _ _
                 (ciEq_refl _) eq_refl (ciEq_refl _) eq_refl eq_refl).
      apply andb_true_iff in H as [H Hrest]. apply andb_true_iff in H as [H Hafter].
      apply andb_true_iff in H as [H _]. rewrite H, Hafter, Hrest, !andb_true_r.
      rewrite <- (app_nil_r (dataUri _ _)).
      now rewrite (wellFormedUtf16_prefix _ [] (dataUri_notSurrogate _ _)).
    + destruct (rewriteTag_skip tag c d false m Cv) as (c' & -> & _). exact H.
Qed.

Lemma wellFormedUtf16_passOut (tag : string) (c : Converter) (d : Disk) (s : jsstring) :
  wellFormedUtf16 s = true -> wellFormedUtf16 (passOut tag c d s) = true.
Proof.
  intros H. unfold passOut.
  apply (wellFormedUtf16_segs tag c d (scan (tagRegex tag) s)) with (x := []).
  - intros m. apply scan_hits_shape.
  - cbn [app]. now rewrite scan_text.
Qed.

Lemma wellFormedUtf16_passes (c : Converter) (d : Disk) (s : jsstring) :
  wellFormedUtf16 s = true -> wellFormedUtf16 (fst (rewritePasses d s c)) = true.
Proof.
  intros H. rewrite rewritePasses_passOut.
  now repeat apply wellFormedUtf16_passOut.
Qed.

(** *** Pages and backups are no assets *)

Lemma takeWhile_app_all (p : jschar -> bool) (a b : jsstring) :
  forallb p a = true -> takeWhile p (a ++ b) = a ++ takeWhile p b.
Proof.
  induction a as [|x a IH]; cbn [forallb takeWhile app]; [reflexivity|].
  intros H. apply andb_true_iff in H as [-> H]. now rewrite IH.
Qed.

(** A path that ends with a dot and a word has that extension or none. *)
Lemma extname_suffix (p e : jsstring) :
  e <> [] -> forallb path.notSlash e = true -> forallb path.notDot e = true ->
  path.extname (p ++ dot :: e) = [] \/ path.extname (p ++ dot :: e) = dot :: e.
Proof.
  intros He Hs Hd. unfold path.extname, path.basename.
  rewrite rev_app_distr. cbn [rev]. rewrite <- app_assoc. cbn [app].
  rewrite (dropWhile_isSlash_name e _ He Hs).
  rewrite (takeWhile_app_all _ _ _ (forallb_rev _ _ Hs)).
  cbn [takeWhile]. change (path.notSlash dot) with true. cbv iota.
  set (b := takeWhile path.notSlash (rev p)).
  rewrite rev_involutive.
  assert (Hr : forallb path.notDot (rev e) = true) by now apply forallb_rev.
  rewrite (takeWhile_app_stop path.notDot (rev e) b dot Hr eq_refl).
  rewrite (dropWhile_app_stop path.notDot (rev e) b dot eq_refl).
  rewrite (dropWhile_all _ _ Hr). cbn [app].
  destruct b as [|y b]; [now left|].
  destruct (streq _ (lit "..")); [now left | right].
  now rewrite rev_involutive.
Qed.

Lemma page_is_no_asset (dirname : jsstring) (c : Converter) (h : jsstring) :
  supportedExtensions c = supportedExtensions (newConverter dirname) ->
  endsWith h (lit ".html") = true \/ endsWith h (lit ".backup") = true ->
  isSupportedName c h = false.
Proof.
  intros Hc H. unfold isSupportedName. rewrite Hc.
  destruct H as [H|H]; apply endsWith_inv in H as (r & ->).
  - change (lit ".html") with (dot :: lit "html").
    destruct (extname_suffix r (lit "html")) as [-> | ->];
      try reflexivity; discriminate.
  - change (lit ".backup") with (dot :: lit "backup").
    destruct (extname_suffix r (lit "backup")) as [-> | ->];
      try reflexivity; discriminate.
Qed.

Lemma sameAssets_refl (c : Converter) (x : Disk) : sameAssets c x x.
Proof. intros p _. reflexivity. Qed.

Lemma sameAssets_trans (c : Converter) (x y z : Disk) :
  sameAssets c x y -> sameAssets c y z -> sameAssets c x z.
Proof. intros H1 H2 p Hp. now rewrite (H1 p Hp), (H2 p Hp). Qed.

Lemma convertible_sameAssets (c : Converter) (x y : Disk) (m : TagMatch) :
  sameAssets c x y -> convertible c x m = convertible c y m.
Proof.
  intros H. unfold convertible.
  destruct (includes (supportedExtensions c)
              (toLowerCase (path.extname (resolveImagePath c (src m))))) eqn:E.
  - unfold fs.readFileSync. now rewrite (H _ E).
  - now rewrite !andb_false_r.
Qed.

Lemma noneConvertible_sameAssets (c : Converter) (x y : Disk) (s : jsstring) :
  sameAssets c x y -> noneConvertible c x s = noneConvertible c y s.
Proof.
  intros H. unfold noneConvertible. apply forallb_ext. intros m.
  now rewrite (convertible_sameAssets c x y m H).
Qed.

Lemma nothingToDo_sameAssets (c : Converter) (x y : Disk) (h : jsstring) :
  sameAssets c x y -> fs.lookup x h = fs.lookup y h ->
  nothingToDo c x h = nothingToDo c y h.
Proof.
  intros H E. unfold nothingToDo. rewrite (read_lookup y x h E).
  destruct (fs.readFileSyncUtf8 y h); [|reflexivity].
  now apply noneConvertible_sameAssets.
Qed.

(** *** One file, exactly *)

Lemma processHtmlFile_disk (c0 : Converter) (x : Disk) (h : jsstring) :
  (nothingToDo c0 x h = true /\ snd (processHtmlFile c0 x h) = x)
  \/ exists data w,
       fs.lookup x h = Some (File data true w)
       /\ let x1 := match fs.lookup x (backupPath h) with
                    | None => fs.store x (backupPath h) (File data true w)
                    | Some _ => x
                    end in
          fs.lookup x1 (backupPath h) <> None
          /\ snd (processHtmlFile c0 x h)
             = if w then fs.store x1 h
                           (File (utf8Encode (fst (rewritePasses x (utf8Decode data) c0)))
                              true true)
               else x1.
Proof.
  unfold nothingToDo, processHtmlFile.
  destruct (fs.readFileSyncUtf8 x h) as [content|e] eqn:R; [|now left].
  pose proof (rewritePasses_unmodified x content c0) as U.
  unfold fs.readFileSyncUtf8, fs.readFileSync in R.
  destruct (fs.lookup x h) as [[data r w|]|] eqn:Eh; try discriminate R.
  destruct r; [|discriminate R]. injection R as <-.
  destruct (rewritePasses x (utf8Decode data) c0) as [new [c1 modified]] eqn:P.
  cbn [fst snd] in *.
  destruct modified; [|left; split; [now apply U | reflexivity]].
  right. exists data, w. split; [reflexivity|]. cbn zeta. rewrite P. cbn [fst].
  unfold fs.existsSync.
  destruct (fs.lookup x (backupPath h)) as [n|] eqn:Eb; cbn [negb].
  - split; [congruence|]. unfold fs.writeFileSync. rewrite Eh. now destruct w.
  - split; [rewrite lookup_store_eq; discriminate|].
    unfold fs.copyFileSync. rewrite Eh, Eb. unfold fs.writeFileSync.
    rewrite (lookup_store_neq x _ _ _ (backupPath_neq h)), Eh. now destruct w.
Qed.

Lemma processHtmlFile_config (c0 : Converter) (x : Disk) (h : jsstring) :
  sameConfig c0 (fst (processHtmlFile c0 x h)).
Proof.
  destruct (processHtmlFile_report c0 x h) as [[H _]|[H _]]; apply H.
Qed.

(** A property [R] that processing [h] establishes, and that the other
    files keep, holds after the loop when [h] is one of the files. *)
Lemma processAll_reach (c : Converter) (I R : Disk -> Prop) (h : jsstring) :
  forall files : list jsstring,
    (forall c0 x h', sameConfig c c0 -> In h' files -> I x ->
                     I (snd (processHtmlFile c0 x h'))) ->
    (forall c0 x h', sameConfig c c0 -> In h' files -> h' <> h -> I x -> R x ->
                     R (snd (processHtmlFile c0 x h'))) ->
    (forall c0 x, sameConfig c c0 -> I x -> R (snd (processHtmlFile c0 x h))) ->
    In h files ->
    forall c0 x, sameConfig c c0 -> I x ->
                 I (snd (processAll c0 x files)) /\ R (snd (processAll c0 x files)).
Proof.
  assert (K : forall files : list jsstring,
             (forall c0 x h', sameConfig c c0 -> In h' files -> I x ->
                              I (snd (processHtmlFile c0 x h'))) ->
             (forall c0 x h', sameConfig c c0 -> In h' files -> I x -> R x ->
                              R (snd (processHtmlFile c0 x h'))) ->
             forall c0 x, sameConfig c c0 -> I x -> R x ->
                          I (snd (processAll c0 x files))
                          /\ R (snd (processAll c0 x files))).
  { induction files as [|h' files IH]; intros HI HR c0 x Hc Hx Rx; [now split|].
    cbn [processAll].
    pose proof (HI c0 x h' Hc (or_introl eq_refl) Hx) as I1.
    pose proof (HR c0 x h' Hc (or_introl eq_refl) Hx Rx) as R1.
    pose proof (processHtmlFile_config c0 x h') as C1.
    destruct (processHtmlFile c0 x h') as [c1 x1]. cbn [fst snd] in *.
    apply IH; auto.
    - intros; apply HI; auto. now right.
    - intros; apply HR; auto. now right.
    - eapply sameConfig_trans; eauto. }
  intros files HI HR HE.
  assert (HR' : forall c0 x h', sameConfig c c0 -> In h' files -> I x -> R x ->
                                R (snd (processHtmlFile c0 x h'))).
  { intros c0 x h' Hc Hin Hx Rx.
    destruct (list_eq_dec N.eq_dec h' h) as [->|Hne]; [now apply HE | now apply HR]. }
  clear HR. revert HI HR'.
  induction files as [|h' files IH]; intros HI HR Hin c0 x Hc Hx; [destruct Hin|].
  cbn [processAll].
  pose proof (HI c0 x h' Hc (or_introl eq_refl) Hx) as I1.
  pose proof (processHtmlFile_config c0 x h') as C1.
  assert (C2 : sameConfig c (fst (processHtmlFile c0 x h')))
    by (eapply sameConfig_trans; eauto).
  destruct Hin as [->|Hin].
  - pose proof (HE c0 x Hc Hx) as R1.
    destruct (processHtmlFile c0 x h) as [c1 x1]. cbn [fst snd] in *.
    apply K; auto.
    + intros; apply HI; auto. now right.
    + intros; apply HR; auto. now right.
  - destruct (processHtmlFile c0 x h') as [c1 x1]. cbn [fst snd] in *.
    apply IH; auto.
    + intros; apply HI; auto. now right.
    + intros; apply HR; auto. now right.
Qed.

(** *** The directory a run leaves *)

Lemma idlePage_config (c c0 : Converter) (x : Disk) (h : jsstring) :
  sameConfig c c0 -> idlePage c x h -> idlePage c0 x h.
Proof.
  intros Hc [H|H]; [left | now right].
  now rewrite (nothingToDo_config c c0 x h Hc).
Qed.

Lemma processHtmlFile_idle (c0 : Converter) (x : Disk) (h : jsstring) :
  idlePage c0 x h ->
  exists c', processHtmlFile c0 x h = (c', x) /\ onlyErrors c0 c'.
Proof.
  intros [H|(data & Eh & Eb)]; [now apply processHtmlFile_skip|].
  unfold processHtmlFile, fs.readFileSyncUtf8, fs.readFileSync. rewrite Eh.
  pose proof (rewritePasses_extends x (utf8Decode data) c0) as X.
  destruct (rewritePasses x (utf8Decode data) c0) as [new [c1 modified]].
  cbn [fst snd] in X. destruct X as (X1 & X2 & _). rewrite app_nil_r in X2.
  destruct modified.
  - unfold fs.existsSync.
    destruct (fs.lookup x (backupPath h)) as [n|]; [|contradiction].
    cbn [negb]. unfold fs.writeFileSync. rewrite Eh.
    eexists. split; [reflexivity|]. split; [exact X1 | exact X2].
  - eexists. split; [reflexivity|]. split; [exact X1 | exact X2].
Qed.

Lemma processAll_idle (x : Disk) :
  forall (files : list jsstring) (c0 : Converter),
    (forall h, In h files -> idlePage c0 x h) ->
    exists c', processAll c0 x files = (c', x) /\ onlyErrors c0 c'.
Proof.
  induction files as [|h files IH]; intros c0 H.
  - exists c0. split; [reflexivity | apply onlyErrors_refl].
  - destruct (processHtmlFile_idle c0 x h (H h (or_introl eq_refl))) as (c1 & E1 & Hc1).
    destruct (IH c1) as (c' & E & Hc).
    { intros h' Hin. apply (idlePage_config c0 c1 x h' (proj1 Hc1)). apply H. now right. }
    exists c'. split; [|eapply onlyErrors_trans; eauto].
    cbn [processAll]. now rewrite E1.
Qed.

Lemma run_idle (c0 : Converter) (x : Disk) :
  (forall h, In h (findHtmlFiles c0 x) -> idlePage c0 x h) ->
  exists c', snd (run c0 x) = (c', x) /\ onlyErrors c0 c'.
Proof.
  intros H. unfold run.
  destruct (negb (fs.existsSync x (assetsDir c0))).
  { exists c0. split; [reflexivity | apply onlyErrors_refl]. }
  destruct (listAvailableImages c0 x).
  { exists c0. split; [reflexivity | apply onlyErrors_refl]. }
  destruct (findHtmlFiles c0 x) as [|h files] eqn:E.
  { exists c0. split; [reflexivity | apply onlyErrors_refl]. }
  destruct (processAll_idle x (h :: files) c0 H) as (c' & E' & Hc).
  exists c'. split; [exact E' | exact Hc].
Qed.

Lemma findHtmlFiles_config (c c0 : Converter) (x : Disk) :
  sameConfig c c0 -> findHtmlFiles c0 x = findHtmlFiles c x.
Proof. intros (H & _). unfold findHtmlFiles. now rewrite H. Qed.

(** A run that ends before the loop ends there for every state of the
    converter with the same directories and table. *)
Lemma run_early (c c0 : Converter) (x : Disk) :
  sameConfig c c0 -> fst (run c x) <> Completed -> snd (run c0 x) = (c0, x).
Proof.
  intros Hc. pose proof (findHtmlFiles_config c c0 x Hc) as F.
  destruct Hc as (H1 & H2 & H3).
  unfold run, listAvailableImages, isSupportedName. rewrite F, H2, H3.
  destruct (negb (fs.existsSync x (assetsDir c))); [reflexivity|].
  destruct (match fs.readdirSync x (assetsDir c) with Ok _ => _ | Throw _ => _ end);
    [reflexivity|].
  destruct (findHtmlFiles c x); [reflexivity|].
  intros H. now contradiction H.
Qed.

Lemma processAll_config (files : list jsstring) :
  forall (c0 : Converter) (x : Disk), sameConfig c0 (fst (processAll c0 x files)).
Proof.
  induction files as [|h files IH]; intros c0 x; [apply sameConfig_refl|].
  cbn [processAll]. pose proof (processHtmlFile_config c0 x h) as H.
  destruct (processHtmlFile c0 x h) as [c1 x1]. cbn [fst] in H.
  exact (sameConfig_trans _ _ _ H (IH c1 x1)).
Qed.

(** A run keeps the directories and the table of the converter. *)
Lemma run_config (c0 : Converter) (x : Disk) : sameConfig c0 (fst (snd (run c0 x))).
Proof.
  unfold run.
  destruct (negb (fs.existsSync x (assetsDir c0))); [apply sameConfig_refl|].
  destruct (listAvailableImages c0 x); [apply sameConfig_refl|].
  destruct (findHtmlFiles c0 x); [apply sameConfig_refl|].
  apply processAll_config.
Qed.

Section FirstRun.

Variables (dirname : jsstring) (c : Converter) (d : Disk).
Hypothesis Hext : supportedExtensions c = supportedExtensions (newConverter dirname).

Lemma step_sameAssets (c0 : Converter) (x : Disk) (h : jsstring) :
  endsWith h (lit ".html") = true ->
  sameAssets c (snd (processHtmlFile c0 x h)) x.
Proof.
  intros Hh p Hp.
  apply (FileEffect_frame c0 x h); [apply processHtmlFile_effect | |]; intros ->.
  - rewrite (page_is_no_asset dirname c h Hext (or_introl Hh)) in Hp. discriminate Hp.
  - rewrite (page_is_no_asset dirname c (backupPath h) Hext
               (or_intror (backupPath_backup h))) in Hp.
    discriminate Hp.
Qed.

Lemma step_other_page (c0 : Converter) (x : Disk) (h h' : jsstring) :
  endsWith h (lit ".html") = true -> h' <> h ->
  fs.lookup (snd (processHtmlFile c0 x h')) h = fs.lookup x h.
Proof.
  intros Hh Hne.
  apply (FileEffect_frame c0 x h'); [apply processHtmlFile_effect | congruence|].
  now apply html_neq_backupPath.
Qed.

Lemma step_other_backup (c0 : Converter) (x : Disk) (h h' : jsstring) :
  endsWith h' (lit ".html") = true -> h' <> h ->
  fs.lookup (snd (processHtmlFile c0 x h')) (backupPath h) = fs.lookup x (backupPath h).
Proof.
  intros Hh Hne.
  apply (FileEffect_frame c0 x h'); [apply processHtmlFile_effect | |].
  - intros E. symmetry in E. revert E. now apply html_neq_backupPath.
  - intros E. apply backupPath_inj in E. congruence.
Qed.

(** The text a file is given is closed, and it is read back as it was
    written. *)
Lemma written_text (c0 : Converter) (x : Disk) (data : list byte) :
  Closed (utf8Decode data) ->
  let s' := fst (rewritePasses x (utf8Decode data) c0) in
  utf8Decode (utf8Encode s') = s' /\ Closed s' /\ noneConvertible c0 x s' = true.
Proof.
  intros H. cbn zeta.
  destruct (passes_settle c0 x (utf8Decode data) H) as [H1 H2].
  split; [|now split].
  apply utf8Decode_utf8Encode, wellFormedUtf16_passes, wellFormedUtf16_decode.
Qed.

Lemma step_inv (c0 : Converter) (x : Disk) (h' : jsstring) :
  In h' (findHtmlFiles c d) ->
  sameAssets c x d /\ pagesClosed c d x ->
  sameAssets c (snd (processHtmlFile c0 x h')) d
  /\ pagesClosed c d (snd (processHtmlFile c0 x h')).
Proof.
  intros Hin [HA HP].
  pose proof (proj1 (findHtmlFiles_html c d h' Hin)) as Hh'.
  split.
  { eapply sameAssets_trans; [now apply step_sameAssets | exact HA]. }
  intros h data w Hh Hl.
  destruct (list_eq_dec N.eq_dec h' h) as [->|Hne].
  - destruct (processHtmlFile_disk c0 x h) as [[_ E]|(data0 & w0 & Eh & _ & E)].
    + rewrite E in Hl. now apply (HP h data w).
    + cbn zeta in E. rewrite E in Hl.
      destruct (written_text c0 x data0 (HP h data0 w0 Hh Eh)) as (W1 & W2 & _).
      cbn zeta in W1, W2. destruct w0.
      * rewrite lookup_store_eq in Hl. injection Hl as <- _. now rewrite W1.
      * apply (HP h data w Hh). rewrite <- Hl.
        destruct (fs.lookup x (backupPath h)); [reflexivity|].
        symmetry. apply lookup_store_neq. apply backupPath_neq.
  - apply (HP h data w Hh). rewrite <- Hl. symmetry.
    apply step_other_page; [|exact Hne]. apply (findHtmlFiles_html c d h Hh).
Qed.

Lemma step_establishes (c0 : Converter) (x : Disk) (h : jsstring) :
  sameConfig c c0 -> In h (findHtmlFiles c d) -> pagesClosed c d x ->
  idlePage c (snd (processHtmlFile c0 x h)) h.
Proof.
  intros Hc Hin HP.
  pose proof (proj1 (findHtmlFiles_html c d h Hin)) as Hh.
  pose proof (step_sameAssets c0 x h Hh) as SA.
  destruct (processHtmlFile_disk c0 x h) as [[N E]|(data0 & w0 & Eh & Eb & E)].
  - left. rewrite E. now rewrite <- (nothingToDo_config c c0 x h Hc).
  - cbn zeta in E, Eb. rewrite E in *. clear E.
    destruct (written_text c0 x data0 (HP h data0 w0 Hin Eh)) as (W1 & _ & W3).
    cbn zeta in W1, W3. destruct w0.
    + left. unfold nothingToDo, fs.readFileSyncUtf8, fs.readFileSync.
      rewrite lookup_store_eq, W1.
      rewrite (noneConvertible_sameAssets c _ x _ SA).
      now rewrite <- (noneConvertible_config c c0 x _ Hc).
    + right. exists data0. split; [|exact Eb].
      destruct (fs.lookup x (backupPath h)); [exact Eh|].
      rewrite lookup_store_neq; [exact Eh | apply backupPath_neq].
Qed.

Lemma step_keeps (c0 : Converter) (x : Disk) (h h' : jsstring) :
  In h (findHtmlFiles c d) -> In h' (findHtmlFiles c d) -> h' <> h ->
  idlePage c x h -> idlePage c (snd (processHtmlFile c0 x h')) h.
Proof.
  intros Hin Hin' Hne H.
  pose proof (proj1 (findHtmlFiles_html c d h Hin)) as Hh.
  pose proof (proj1 (findHtmlFiles_html c d h' Hin')) as Hh'.
  pose proof (step_other_page c0 x h h' Hh Hne) as E1.
  pose proof (step_other_backup c0 x h h' Hh' Hne) as E2.
  destruct H as [H|(data & Eh & Eb)].
  - left. rewrite <- H.
    apply nothingToDo_sameAssets; [now apply step_sameAssets | exact E1].
  - right. exists data. rewrite E1, E2. now split.
Qed.

(** After a run that reached the loop, processing any of the files
    again leaves the disk as it is. *)
Lemma run_leaves_idle (h : jsstring) :
  pagesClosed c d d -> fst (run c d) = Completed -> In h (findHtmlFiles c d) ->
  idlePage c (snd (snd (run c d))) h.
Proof.
  intros HP HC Hin. unfold run in *.
  destruct (negb (fs.existsSync d (assetsDir c))); [discriminate HC|].
  destruct (listAvailableImages c d); [discriminate HC|].
  destruct (findHtmlFiles c d) as [|h0 files] eqn:E; [discriminate HC|].
  cbn [snd]. rewrite <- E in *. clear HC.
  apply (processAll_reach c (fun x => sameAssets c x d /\ pagesClosed c d x)
           (fun x => idlePage c x h) h (findHtmlFiles c d)).
  - intros c0 x h' _ Hin'. now apply step_inv.
  - intros c0 x h' _ Hin' Hne _. now apply step_keeps.
  - intros c0 x Hc [_ HP']. now apply step_establishes.
  - exact Hin.
  - apply sameConfig_refl.
  - split; [apply sameAssets_refl | exact HP].
Qed.

End FirstRun.

(** *** The second run *)

(** C2, as stated, fails: the first run rewrites the src value that holds
    a [>]; in the text it writes, the pattern reaches the second src
    attribute of the tag, and the second run rewrites that one. *)
Lemma C2_counterexample :
  let d1 := snd (snd (run demo (demoDisk hiddenSrcPage))) in
  let d2 := snd (snd (run demo d1)) in
  fs.lookup d2 indexHtml <> fs.lookup d1 indexHtml
  /\ processedFiles (fst (snd (run demo d1))) = [indexHtml].
Proof. vm_compute. split; [discriminate | reflexivity]. Qed.

(** C2, amended: a matched tag whose src value starts with [data:] is
    returned unmodified.  With the extension table of the constructor,
    and when no src value of a page that can be read holds a [>] (after
    every white space, [src=] and quote, a quote comes before the next
    [>]), a second conversion of the directory that a first run leaves
    changes nothing on the disk: every HTML file is byte for byte what the
    first run left, and no file is recorded as processed.  This holds for
    a second run by any state of the converter with the same directories
    and extension table, a new one or the one of the first run.  When the
    first run reached the loop over the files, the three passes of the
    second run return the text of every page that can be read as it is,
    with [modified] unset (zero substitutions), unless the page is
    read-only and has a backup. *)
Theorem C2_second_run_changes_nothing (dirname : jsstring) (c : Converter) (d : Disk) :
  supportedExtensions c = supportedExtensions (newConverter dirname) ->
  (forall h data w,
     In h (findHtmlFiles c d) -> fs.lookup d h = Some (File data true w) ->
     srcValuesClosed (utf8Decode data) = true) ->
  let d1 := snd (snd (run c d)) in
  (forall tag st m, hasDataSrc m = true -> rewriteTag tag d1 st m = (matched m, st))
  /\ sameConfig c (fst (snd (run c d)))
  /\ (forall c2, sameConfig c c2 ->
        exists c2', snd (run c2 d1) = (c2', d1) /\ onlyErrors c2 c2')
  /\ (fst (run c d) = Completed ->
      forall h data w c2,
        In h (findHtmlFiles c d1) -> fs.lookup d1 h = Some (File data true w) ->
        sameConfig c c2 ->
        (exists c', rewritePasses d1 (utf8Decode data) c2
                    = (utf8Decode data, (c', false)))
        \/ (w = false /\ fs.lookup d1 (backupPath h) <> None)).
Proof.
  intros Hext Hcl d1.
  assert (HP : pagesClosed c d d).
  { intros h data w Hin Hl. apply closed_of_bool. now apply (Hcl h data w). }
  assert (F1 : findHtmlFiles c d1 = findHtmlFiles c d)
    by (apply findHtmlFiles_touches, run_touches).
  split; [intros tag st m Hm; now apply rewriteTag_data|].
  split; [apply run_config|]. split.
  - intros c2 Hc. destruct (fst (run c d)) eqn:O.
    1-3: assert (E : snd (run c d) = (c, d))
      by (apply (run_early c c d (sameConfig_refl c)); rewrite O; discriminate).
    1-3: assert (E1 : d1 = d) by (unfold d1; now rewrite E).
    1-3: rewrite E1; exists c2; split; [|apply onlyErrors_refl].
    1-3: apply (run_early c c2 d Hc); rewrite O; discriminate.
    apply run_idle. intros h Hin.
    rewrite (findHtmlFiles_config c c2 d1 Hc), F1 in Hin.
    apply (idlePage_config c c2 d1 h Hc).
    now apply (run_leaves_idle dirname c d Hext h HP O).
  - intros O h data w c2 Hin Hl Hc. rewrite F1 in Hin.
    destruct (run_leaves_idle dirname c d Hext h HP O Hin) as [N|(data' & E & Eb)].
    + left. fold d1 in N. unfold nothingToDo, fs.readFileSyncUtf8, fs.readFileSync in N.
      rewrite Hl in N.
      rewrite <- (noneConvertible_config c c2 d1 _ Hc) in N.
      destruct (rewritePasses_skip c2 d1 _ N) as (c' & E & _). now exists c'.
    + right. fold d1 in E, Eb. rewrite Hl in E. injection E as _ Hw. now split.
Qed.

(** Of the two pages, the first is converted by the first run and left
    alone by the second; the second is read-only: its tag is found again
    by the passes of the second run, which leaves the disk as it is
    all the same. *)
Lemma C2_second_run_changes_nothing_witness :
  let d1 := snd (snd (run demo lockedPageDisk)) in
  fs.lookup d1 indexHtml
  = Some (File (utf8Encode (lit "<img src=" ++ [dquote]
                              ++ lit "data:image/png;base64,QUFB" ++ [dquote]
                              ++ lit ">")) true true)
  /\ fs.lookup d1 lockedHtml = Some (File (utf8Encode lockedPage) true false)
  /\ fs.lookup d1 (backupPath lockedHtml) = Some (File (utf8Encode lockedPage) true false)
  /\ snd (snd (rewritePasses d1 lockedPage demo)) = true
  /\ exists c2', snd (run demo d1) = (c2', d1) /\ onlyErrors demo c2'.
Proof.
  cbv zeta. split; [vm_compute; reflexivity|]. split; [vm_compute; reflexivity|].
  split; [vm_compute; reflexivity|]. split; [vm_compute; reflexivity|].
  refine (proj1 (proj2 (proj2 (C2_second_run_changes_nothing (lit "/w/B64") demo
                                 lockedPageDisk eq_refl _))) demo (sameConfig_refl demo)).
  intros h data w Hin Hl. vm_compute in Hin.
  destruct Hin as [<-|[<-|[]]]; vm_compute in Hl; injection Hl as Hd _; subst data;
    vm_compute; reflexivity.
Defined.
